(* ===== verification/_CoqProject ===== *)
-Q . S2P
Prelude.v
Prog.v
StErr.v
Tick.v
GoStr.v
Wire.v
UrlEnc.v
KST.v
Sha256.v
GoFloat.v
Duration.v
Decode.v
Stream.v
Sink.v
Logs.v
Limits.v
Session.v
Quotes.v
Frame.v
Detect.v
Intent.v
Machine.v
Exposure.v
Decide.v
Journal.v
Executor.v
Ledger.v
Recorder.v
Replay.v
Feed.v
Approval.v
ApprovalLock.v
Sim.v
SimSafety.v
Runner.v
RunnerLane.v
RunnerPace.v
Transport.v
E1.v
E1World.v
Kisread.v
Live.v
LiveRefresh.v
LiveSafe.v
Config.v
Startup.v
Flags.v
Scanner.v
Ingress.v
IngressLane.v
Bookrec.v
Execsim.v
Execmock.v
DryRun.v
Alert.v
