(* ===== verification/Prelude.v ===== *)
(** * fillwire: a verification of the program

    fillwire is a Go program with three lanes.  The execution lane
    ([src/internal/exec]) works one trading intent through a broker gateway,
    with a journal that makes every step survive a crash.  The fill lane
    ([src/internal/decode], [stream], [sink]) turns broker execution notices
    into ledger records, by way of a Redis stream.  The quote lane
    ([src/internal/quote]) publishes quotes, and beside it the book recorder
    ([src/internal/book]) keeps evidence of raw market data and replays it; a
    simulator ([src/internal/exec/sim]) drives the executor with that evidence.
    The mock-mode book feed ([src/internal/bookfeed]) publishes book snapshots,
    and the reader ([src/internal/reader]) feeds the fill lane from the broker's
    websocket, and shares its approval key with other processes through Redis.

    This library translates the parts of the program that decide something
    into Rocq definitions that compute, and proves what makes them correct.

    ** Files and what they model

    Shared ground:
    - [Prelude]: 64-bit arithmetic, results, sums over maps, tactics.
    - [StErr]: a state, error and panic monad with its rules of correctness.
    - [Prog]: programs over a signature of effects, their traces, weakest
      preconditions against a specification of the effects, and threads of
      programs interleaved over one world.
    - [GoStr]: the functions of [strings] and [strconv] the program calls, on
      byte strings.  [Wire]: [internal/netpolicy], [internal/jsonx], header
      names and bounded bodies.  [UrlEnc]: [url.QueryEscape] and [Values.Encode].
      [GoFloat]: [float64] and its conversions.  [Duration]:
      [time.ParseDuration].  [Sha256]: [crypto/sha256].  [Flags]: [package flag].
      [Scanner]: [bufio.Scanner] with its limit on a line.
    - [KST]: [internal/kst] and the civil calendar; an instant is its
      nanoseconds since the Unix epoch.

    Execution lane, one file per source file:
    - [Tick] is [exec/tick.go], [Intent] is [exec/intent.go].
    - [Machine] is the state, the records and [Apply] of [exec/machine.go];
      [Exposure] is [exec/exposure.go]; [Decide] is the rest of [machine.go]:
      [Decide], [fitNewOrder], [fitAmend] and the expiry rules.
    - [Journal] is [exec/journal.go] on a file of bytes whose writes, syncs and
      truncations can fail; [Executor] is [exec/executor.go]; [Ledger] is
      [exec/ledger.go].
    - [Sim] is the fake gateway [exec/exectest/fake.go], an instance of the
      executor's world, and the simulator [exec/sim/sim.go], which composes
      [Replay], [Executor] and the fake; [SimSafety] couples the two sides.  The
      gateway the executor sends through is a parameter of the simulator, as
      [wrap] is of [RunOne].
    - [Execsim] is [cmd/execsim]: the intents file and their simulation under
      both rules.
    - [E1] is the broker client, [exec/e1/client.go] and [reads.go], as programs
      over the token source, HTTP and its log; [E1World] makes it the
      executor's gateway.
    - [Live] is the live run of [cmd/execmock] ([live.go], [broker.go]): the
      readback of the broker, the refresh of the ledger and the loop that drives
      the executor; [LiveRefresh] and [LiveSafe] are its theorems.
    - [Execmock] is the command around it ([main.go]): flags, configuration,
      construction, exit codes; [DryRun] is its other half, the dry run over
      recorded evidence, where the E1 client stands between executor and fake.

    Fill lane: [Decode] is [internal/decode], [Stream] is [internal/stream] and
    [internal/ctxwait], [Sink] is [internal/sink], and [Logs] is what decoder and
    sink say in the log.

    Quote lane: [Limits] is [quote/limits.go] and the single-connection guard of
    [quote/safe.go]; [Session] is [quote/session.go]; [Quotes] is
    [quote/symbols.go], [decode.go], [token.go] and the declaration of
    [runner.go].  [Runner] is the rest of [runner.go] and [safe.go]: the
    supervisor, the watcher of a window, the reader and the writer as programs
    over channels, contexts, the clock and the lane's dependencies.
    [RunnerLane] interleaves them over the channels, the counters, the guard
    and the transports; [RunnerPace] runs them against a clock.  [Transport] is
    [quote/transport.go].

    Book evidence: [Frame] is [book/frame.go], [Detect] is [book/detect.go],
    [Recorder] is [book/evidence.go] and [recorder.go], [Replay] is
    [book/replay.go].  [Bookrec] is [cmd/bookrec]: a recording from standard
    input with its ticker, and the replay of a file.  [Feed] is
    [internal/bookfeed], and [Kisread] the REST client of [internal/kisread] it
    polls.

    Ingress: [Ingress] is [reader/reader.go], [internal/exitcode] and, of
    [cmd/fillwire/main.go], the pipeline and the life of [runWithDependencies],
    as programs of goroutines; [IngressLane] interleaves them over their
    channels and contexts, through a shutdown.  Before them, [Config] is
    [cmd/fillwire/config.go], the settings of [quotes.go] and [LoadSymbols], and
    [Startup] the construction of the parts in [main.go], [books.go] and
    [quotes.go].  Around them, [Alert] is [internal/alert] and the process: its
    flags, its alerts and its exit code.

    Approval key: [Approval] is [reader/approval.go], its routines as programs;
    [ApprovalLock] is the Lua scripts of the same file and the interleaving of
    any number of providers over one Redis.

    ** How the model relates to the code

    A struct is a [Record] with the fields of the source (prefixed where two
    structs share a name), an error or a refusal a value of a sum or an
    [option], a map a [gmap], a slice a list, a nil pointer [None].  Each method
    that changes its receiver returns the receiver after the call.  An [int64]
    is a [Z] whose arithmetic wraps ([+w], [-w], [*w]); a run-time panic that
    the source could reach (a division by zero, an index out of range) is a
    [None] that theorems exclude.  A method under a mutex is one step, so
    interleavings are sequences of steps.

    What is outside the repository, or only effects, is an interface, a
    [Class] whose methods are what the code calls and whose laws, where there
    are any, are what the code relies on:
    - [Journal.LineCodec], [Recorder.EvidenceCodec], [Stream.RecordCodec]:
      [encoding/json] on journal records, evidence lines and ledger records,
      with the round trip as a law; [Quotes.TossCodec]: JSON of quote frames;
    - [Executor.World]: the broker gateway, with no law at all;
    - [E1.E1Codec]: JSON of children and the dry-run log; [Wire.JSONDecoder]:
      a [json.Decoder] that knows one type; [Wire.NetURL]: [net/url];
    - [Decode.GoKis]: go-kis's websocket types; [Ingress.KisSocket]: its
      endpoints and subscriptions; [Stream.Redis], [Sink.Ingest],
      [Stream.Ctx]: Redis, the ledger's HTTP endpoint and contexts, no laws;
    - [Live.LiveWorld]: the ledger, the broker, contexts and the ticker of a
      live run; [Config.Toml], [Execmock.StrictToml], [Config.Process]: go-toml,
      files and environment;
    - [Feed.StampCodec]: RFC 3339 times with their round trip;
      [Feed.FeedWorld]: Redis, the REST reader and the clock of the feed;
    - [ApprovalLock.RedisKV] with the laws [RedisLaws]: GET, PTTL, SET with an
      expiry and DEL on keys that expire;
    - the parameter [Eastern] of [Session]: the tz database.
    Every theorem under an interface is applied, in its witness, to a concrete
    instance.

    ** What the theorems show

    - The executor ([Executor]): over any sequence of book updates, fills and
      ticks, with disk failures and restarts between them, nothing panics;
      every child order that reaches the gateway is on disk first and is sent
      at most once; and what was handed out never exceeds the intent's
      quantity, notional and position caps.  [Ledger] adds that ledger fills
      are attributed through the journal to the right order.
    - The state machine ([Machine], [Exposure], [Decide], [Intent], [Tick]): the
      invariant of reachable states, that unresolved children block sends,
      finality, commuting fills, exact caps accounting, the gates of every
      decision, its acceptance by [Apply] and its agreement with the caps.
    - The journal ([Journal]): round trip, atomic appends under crashes at every
      byte, soundness of replay, detection of corruption.
    - The fill lane: a record is a proven fill with the frame's values
      ([Decode]); every notice is accounted for; the duplicate tracker is
      bounded and exact; entries round trip through the stream ([Stream]); and
      the sink acknowledges only what the ledger confirmed, batch after batch,
      without losing a decoded record ([Sink]).
    - The broker client ([E1], [E1World]): a client exists only for the mock
      account and behind a clean URL; what [Send] reports is what E1 said, reads
      are checked evidence, and an executor over it posts each child once, after
      it is on disk.
    - The live run ([LiveSafe]): whatever is read, it hands a child over only
      after ledger, journal and broker have been found to agree, and it ends
      without error only when they agree at the end.
    - The command ([Execmock], [DryRun]): it sends only when flag, file and
      account ask for it and the journal was settled; a dry run that ends well
      is the simulator's own run; and a dry run fails whenever the simulator
      fills the intent.
    - The configuration ([Startup]): what [loadConfig] accepts starts.
    - The process ([Alert]): few, fixed and spaced alerts, no URL in the log of
      its end.  [Logs]: a notice becomes a record or one line of the log, the
      line does not depend on the account or the customer, and logged reasons
      name no URL.
    - The ingress ([IngressLane]): the stream gets the records of the events in
      order and without gaps, whatever the goroutines do, and what the channels
      and hands hold is all that is missing; and the two ways in which a
      shutdown loses a fill that nothing counts.
    - The quote lane: the declaration rate and the termination of [Wait]
      ([Limits]); no labelled tick arrives while the socket is closed
      ([Session]); symbol lists and ticks ([Quotes]).  Over all interleavings of
    the lane's goroutines at most one websocket is open, the supervisor dials
    and declares within its rules and every tick is written, waiting or counted
    ([RunnerLane]); retries are paced, waits end, and a rate limit is obeyed
    from its receipt ([RunnerPace]).
    - Book evidence: records are well formed ([Frame]), the tape accounts for
      the exchange's volume ([Detect]), silences are flagged once
      ([Recorder]), and replaying a recorded file recomputes the recorded
      verdicts ([Replay]).  A recording gives every line of its input to the
      recorder, and its file replays after failures and crashes, but for two
      torn lines in a row ([Bookrec]).  The feed publishes only valid snapshots
      of books, dated on the right day, and they round trip ([Feed]); the reads
      behind it are fenced and a second apart ([Kisread]).
    - The simulator ([SimSafety], [Execsim]): whatever evidence drives it, the
      executor keeps every rule the fake gateway watches and both sides agree on
      what was filled; the command reports every intent under both rules.
    - The approval key ([Approval], [ApprovalLock]): a key handed out is alive
      or freshly issued, a rejected key is not handed out again, errors leak
      nothing, every lock taken is released, every call returns, and over all
      interleavings of all providers at most one request to the broker is in
      flight, under the Redis lock.

    A theorem whose comment names an identifier C1 to C40 is a property of the
    manifest; the lemmas it uses are shared and stand before it.

    ** Bounds and fuel

    [Exposure.rootOf] follows targets with two rounds more than the state has
    children, and [rootOf_terminates] proves that enough on every state.
    [Journal.eachLine] has the length of the file for its lines
    ([eachLine_total]).  [Executor.tick_loop] has the source's own bound [maxStepsPerTick].
    [GoStr.trim_runes], [Quotes.fields_from] and [Sha256.blocks] recurse on the
    length of their input; [GoStr.FormatUint] writes the at most twenty digits
    of a [uint64].  [Replay] reads the file line by line and needs no fuel.
    [Sink.Run], [reclaimPending] and [deliverWithRetry] run until their context
    ends, so their fuel only cuts a run off, and the theorems hold at every cut;
    [Limits.Wait] is proved to return within three rounds.
    [Approval.contended] has [wait_rounds] rounds for the source's wait on
    another process's lock, and [approval_returns] proves that no call runs out
    of them; [RefreshLoop] runs until its context ends, so its theorems are
    about every number of its turns.

    The loops of [Runner] and [Ingress] run until a context ends; they have
    [rounds] rounds, the theorems hold for every number of them, and
    [waitUntil_returns] says how many a wait takes.  [Live.driveLive] has its
    rounds as an argument in the same way.  [Duration.durations] recurses on the
    length of the text.

    ** What is not modelled

    [internal/testutil] and the tests.  The log, but for the lines of [Logs] and
    the text of [Alert.main]; it changes no state.  The delivery of signals: a
    signal is the end of the context it cancels.  A write to standard output
    that fails, except where it is the recorder's or the replayer's file.
    The seams that only tests use (the fields of [runDependencies]).  JSON that
    is only printed.

    ** Assumptions of the interleaved models

    A Redis command takes effect, if at all, at one moment between its call and
    its answer, and an answer may be lost either way; a context's deadline ends
    a call in time ([ApprovalLock.in_time]).  The clock of all processes is one.
    A goroutine's first step may come any time after its [go] statement.
    In [RunnerLane] a transport that was told to close is no longer open, and
    the clock may jump; in [RunnerPace] it does not go back, and the longest
    retry delay is at most half of the largest [int64], which the
    configuration keeps far away from.

    ** What is not modelled, and why

    The dialer [quote/transport.go], the REST reads [kisread] and the webhook
    [alert] are I/O over third-party packages.  Of the commands under [cmd],
    flags, logging and signals are left out. *)

From Stdlib Require Export ZArith Lia.
From Stdlib Require Import Ascii String.
From stdpp Require Export base gmap strings list list_numbers fin_maps option pretty.

#[export] Set Default Proof Using "Type".

(** ** Go's [int64]

    Every Go [int64] (and [int], which is 64 bits wide on the platforms the
    program is built for) is a [Z]; arithmetic that the source performs on
    it is written with the wrapping operators below.  [time.Duration] and
    Unix nanoseconds are [int64] as well. *)

Definition min_int64 : Z := -9223372036854775808.
Definition max_int64 : Z := 9223372036854775807.

Definition in_int64 (z : Z) : Prop := (min_int64 <= z <= max_int64)%Z.

(** Two's complement reduction of an exact result to 64 bits. *)
Definition wrap64 (z : Z) : Z :=
  ((z + 9223372036854775808) mod 18446744073709551616 - 9223372036854775808)%Z.

Declare Scope go_scope.
Delimit Scope go_scope with go.
Notation "x +w y" := (wrap64 (x + y)%Z) (at level 50, left associativity) : go_scope.
Notation "x -w y" := (wrap64 (x - y)%Z) (at level 50, left associativity) : go_scope.
Notation "x *w y" := (wrap64 (x * y)%Z) (at level 40, left associativity) : go_scope.
Open Scope go_scope.

(** Go's integer division truncates toward zero and panics on a zero
    divisor: [None] is the run-time panic. *)
Definition quot64 (a b : Z) : option Z :=
  if Z.eqb b 0 then None else Some (wrap64 (Z.quot a b)).

(** Go's [%] where the divisor is known not to be zero. *)
Definition rem64 (a b : Z) : Z := Z.rem a b.

(** Go's [uint64] arithmetic. *)
Definition wrapu64 (z : Z) : Z := (z mod 18446744073709551616)%Z.

(** ** Results

    A Go function that returns [(T, error)] returns one or the other. *)
Inductive result (A E : Type) : Type :=
| Ok (a : A)
| Err (e : E).
#[global] Arguments Ok {A E} a.
#[global] Arguments Err {A E} e.

(** Boolean equality of strings, as Go's [==] on strings. *)
Notation "x =s y" := (String.eqb x y) (at level 70, no associativity) : go_scope.
Notation "x <>s y" := (negb (String.eqb x y)) (at level 70, no associativity) : go_scope.

(** ** Lemmas on wrapping arithmetic *)

Lemma wrap64_small z : in_int64 z -> wrap64 z = z.
Proof.
  unfold in_int64, wrap64, min_int64, max_int64. intros H.
  rewrite Z.mod_small; lia.
Qed.

Lemma wrap64_range z : in_int64 (wrap64 z).
Proof.
  unfold in_int64, wrap64, min_int64, max_int64.
  pose proof (Z.mod_pos_bound (z + 9223372036854775808) 18446744073709551616).
  lia.
Qed.

Lemma wrap64_add_l a b : wrap64 (wrap64 a + b) = wrap64 (a + b).
Proof.
  unfold wrap64. f_equal.
  replace ((a + 9223372036854775808) mod 18446744073709551616 - 9223372036854775808 + b
    + 9223372036854775808)%Z
    with ((a + 9223372036854775808) mod 18446744073709551616 + b)%Z by lia.
  rewrite Z.add_mod_idemp_l by lia. f_equal. lia.
Qed.

Lemma wrap64_add_r a b : wrap64 (a + wrap64 b) = wrap64 (a + b).
Proof. by rewrite Z.add_comm, wrap64_add_l, Z.add_comm. Qed.

Lemma wrap64_idemp z : wrap64 (wrap64 z) = wrap64 z.
Proof. apply wrap64_small, wrap64_range. Qed.

Lemma quot64_pos a b :
  (0 <= a)%Z -> (0 < b)%Z -> in_int64 a -> quot64 a b = Some (a / b)%Z.
Proof.
  intros Ha Hb Hr. unfold quot64. destruct (Z.eqb_spec b 0); [lia|].
  rewrite Z.quot_div_nonneg by lia. rewrite wrap64_small; [done|].
  unfold in_int64, min_int64, max_int64 in *.
  assert (0 <= a / b)%Z by (apply Z.div_pos; lia).
  assert (a / b <= a)%Z by (apply Z.div_le_upper_bound; nia). lia.
Qed.

Create Rewrite HintDb wrap64.
#[export] Hint Rewrite wrap64_add_l wrap64_add_r wrap64_idemp : wrap64.

(** Removes every [wrap64] whose argument lia proves to be in range. *)
Ltac in64 := unfold in_int64, min_int64, max_int64 in *; first [lia | nia].
Ltac unwrap :=
  repeat match goal with
  | |- context [wrap64 ?z] => rewrite (wrap64_small z) by in64
  | H : context [wrap64 ?z] |- _ => rewrite (wrap64_small z) in H by in64
  end.

(** ** Sums over a map, as a [range] loop that accumulates computes them

    A [range] over a Go map visits the entries in an arbitrary order; the sum
    does not depend on it, wrapped or not. *)

(** A sum of a list. *)
Definition Zsum (l : list Z) : Z := foldr Z.add 0%Z l.
Lemma Zsum_app l l' : Zsum (l ++ l') = (Zsum l + Zsum l')%Z.
Proof. induction l as [|z l IH]; cbn; [done|]. change (foldr Z.add 0%Z (l ++ l')) with (Zsum (l ++ l')). unfold Zsum in *. lia. Qed.

Section map_sum.
Context {K A : Type} `{Countable K}.
Implicit Types (f : A -> Z) (m : gmap K A).

Definition map_sum f m : Z := map_fold (fun _ a z => (f a + z)%Z) 0%Z m.

(** The loop itself, on 64-bit integers. *)
Definition map_sum64 f m : Z := map_fold (fun _ a z => wrap64 (f a + z)%Z) 0%Z m.

Lemma map_sum_empty f : map_sum f ∅ = 0%Z.
Proof. apply map_fold_empty. Qed.

Lemma map_sum_insert f m k a :
  m !! k = None -> map_sum f (<[k := a]> m) = (f a + map_sum f m)%Z.
Proof.
  intros Hk. unfold map_sum. rewrite map_fold_insert_L; [done| |done].
  intros. lia.
Qed.

Lemma map_sum_delete f m k a :
  m !! k = Some a -> map_sum f m = (f a + map_sum f (delete k m))%Z.
Proof.
  intros Hk. rewrite <- (insert_delete_id m k a Hk) at 1.
  apply map_sum_insert, lookup_delete_eq.
Qed.

(** Replacing (or adding) an entry changes the sum by the difference. *)
Lemma map_sum_update f m k a :
  map_sum f (<[k := a]> m) = (f a - from_option f 0 (m !! k) + map_sum f m)%Z.
Proof.
  destruct (m !! k) as [b|] eqn:Hk; simpl.
  - rewrite <- insert_delete_eq, map_sum_insert by apply lookup_delete_eq.
    rewrite (map_sum_delete f m k b Hk). lia.
  - rewrite map_sum_insert by done. lia.
Qed.

Lemma map_sum64_eq f m : map_sum64 f m = wrap64 (map_sum f m).
Proof.
  unfold map_sum64, map_sum.
  induction m as [|k a m Hk IH] using map_ind.
  - by rewrite !map_fold_empty.
  - rewrite !map_fold_insert_L; try done.
    + rewrite IH. by autorewrite with wrap64.
    + intros; lia.
    + intros; autorewrite with wrap64; f_equal; lia.
Qed.

Lemma map_sum_nonneg f m :
  (forall k a, m !! k = Some a -> (0 <= f a)%Z) -> (0 <= map_sum f m)%Z.
Proof.
  induction m as [|k a m Hk IH] using map_ind; intros Hf.
  - by rewrite map_sum_empty.
  - rewrite map_sum_insert by done.
    assert (0 <= f a)%Z by (apply (Hf k), lookup_insert_eq).
    assert (0 <= map_sum f m)%Z; [|lia].
    apply IH. intros j b Hj. apply (Hf j). rewrite lookup_insert_ne; [done|].
    intros ->. congruence.
Qed.

Lemma map_sum_ge f m k a :
  (forall k a, m !! k = Some a -> (0 <= f a)%Z) ->
  m !! k = Some a -> (f a <= map_sum f m)%Z.
Proof.
  intros Hf Hk. rewrite (map_sum_delete f m k a Hk).
  assert (0 <= map_sum f (delete k m))%Z; [|lia].
  apply map_sum_nonneg. intros j b [_ Hj]%lookup_delete_Some. by apply (Hf j).
Qed.

(** A map listed with its values. *)
Lemma map_sum_list f (l : list (K * Z)) : forall m,
  NoDup l.*1 -> (forall k z, (k, z) ∈ l -> exists a, m !! k = Some a /\ f a = z) ->
  (forall k, is_Some (m !! k) -> k ∈ l.*1) -> map_sum f m = Zsum l.*2.
Proof.
  induction l as [|[k z] l IH]; intros m Hn Hin Hall.
  - assert (m = ∅) as ->; [|apply map_sum_empty]. apply map_eq. intros k. rewrite lookup_empty.
    destruct (m !! k) eqn:E; [|done]. exfalso. eapply not_elem_of_nil, (Hall k). by eexists.
  - cbn in Hn. apply NoDup_cons in Hn as [Hk Hn]. destruct (Hin k z) as (a & Ha & <-); [left|].
    rewrite (map_sum_delete f m k a Ha). cbn. f_equal. apply IH; [done| |].
    + intros j y Hj. destruct (Hin j y) as (b & Hb & <-); [by right|]. exists b. split; [|done].
      rewrite lookup_delete_ne; [done|]. intros ->. apply Hk. apply list_elem_of_fmap. by exists (j, f b).
    + intros j [b [Hne Hj]%lookup_delete_Some]. assert (Hin' : j ∈ k :: l.*1) by (apply Hall; by eexists).
      by apply elem_of_cons in Hin' as [->|?].
Qed.
End map_sum.

(** ** Lists and options *)

(** Whether an optional value is there. *)
Definition is_none {A} (o : option A) : bool := match o with None => true | Some _ => false end.
Definition is_some {A} (o : option A) : bool := negb (is_none o).

Lemma NoDup_snoc {A} (l : list A) k : NoDup l -> k ∉ l -> NoDup (l ++ [k]).
Proof.
  intros Hl Hk. apply NoDup_app. split; [done|]. split; [|apply NoDup_singleton].
  intros x Hx ->%list_elem_of_singleton. done.
Qed.


(** ** Booleans read off a Go condition *)

(** Turns the boolean tests of a Go condition into propositions. *)
Ltac bool_simpl :=
  repeat match goal with
  | H : (_ && _)%bool = true |- _ => apply andb_true_iff in H as [? ?]
  | H : (_ || _)%bool = false |- _ => apply orb_false_iff in H as [? ?]
  | H : negb _ = true |- _ => apply negb_true_iff in H
  | H : negb _ = false |- _ => apply negb_false_iff in H
  | H : (_ =s _) = true |- _ => apply String.eqb_eq in H
  | H : (_ =s _) = false |- _ => apply String.eqb_neq in H
  | H : Z.ltb _ _ = true |- _ => apply Z.ltb_lt in H
  | H : Z.ltb _ _ = false |- _ => apply Z.ltb_ge in H
  | H : Z.leb _ _ = true |- _ => apply Z.leb_le in H
  | H : Z.leb _ _ = false |- _ => apply Z.leb_gt in H
  | H : Z.eqb _ _ = true |- _ => apply Z.eqb_eq in H
  | H : Z.eqb _ _ = false |- _ => apply Z.eqb_neq in H
  end.

(** Splits the outermost [if] of a hypothesis, keeping the condition's
    reading as propositions. *)
Tactic Notation "split_if" "in" hyp(H) :=
  match type of H with
  | context [if ?b then _ else _] =>
    let E := fresh "Eif" in destruct b eqn:E; bool_simpl
  end.
Ltac split_if_goal :=
  match goal with
  | |- context [if ?b then _ else _] =>
    let E := fresh "Eif" in destruct b eqn:E; bool_simpl
  end.

Lemma string_eqb_refl (s : string) : (s =s s) = true.
Proof. apply String.eqb_refl. Qed.
Lemma string_eqb_ne (s t : string) : s <> t -> (s =s t) = false.
Proof. apply String.eqb_neq. Qed.
Create Rewrite HintDb go.
#[export] Hint Rewrite string_eqb_refl : go.
