(* ===== verification/Prog.v ===== *)
(** Programs that call their environment.

    A routine of the source that talks to Redis, to a broker, to a clock or to
    other goroutines is a [prog] over a signature [op] of the calls it makes:
    the calls are data, so that the same routine can be run against an oracle,
    described by the traces it can perform, and interleaved with others.  The
    loops of the source are written with fuel; [OutOfFuel] is the node a loop
    ends in when its fuel is used up, and the components prove that it is not
    reached.  The second half is a small weakest-precondition calculus that
    tracks a ghost state along the calls of a routine.  The last part runs
    several programs interleaved over one world and gives the rule that an
    invariant of the world and of the threads' ghost states, kept by every
    call, holds in every state the system reaches. *)

From S2P Require Import Prelude.

Section Prog.
Context {op : Set -> Type}.

Inductive prog (A : Type) : Type :=
| Return (a : A)
| Call {R : Set} (o : op R) (k : R -> prog A)
| OutOfFuel.
#[global] Arguments Return {A} a.
#[global] Arguments Call {A R} o k.
#[global] Arguments OutOfFuel {A}.

Definition call {R : Set} (o : op R) : prog R := Call o Return.

#[global] Instance prog_ret : MRet prog := fun A a => Return a.
#[global] Instance prog_bind : MBind prog := fun A B f =>
  fix bind (m : prog A) : prog B :=
    match m with
    | Return a => f a
    | Call o k => Call o (fun r => bind (k r))
    | OutOfFuel => OutOfFuel
    end.

Lemma bind_return {A B} (f : A -> prog B) a : (Return a ≫= f) = f a.
Proof. done. Qed.
Lemma bind_call {A B R} (f : A -> prog B) (o : op R) (k : R -> prog A) :
  (Call o k ≫= f) = Call o (fun r => k r ≫= f).
Proof. done. Qed.

(** ** Traces *)

(** A call with the answer it got. *)
Inductive event : Type :=
| Event {R : Set} (o : op R) (r : R).

(** [performs p tr r]: [p] makes the calls of [tr], gets its answers, and ends
    with the value [r], or out of fuel. *)
Inductive performs {A} : prog A -> list event -> option A -> Prop :=
| performs_return a : performs (Return a) [] (Some a)
| performs_out : performs OutOfFuel [] None
| performs_call R (o : op R) k (r : R) tr a :
    performs (k r) tr a -> performs (Call o k) (Event o r :: tr) a.

Lemma performs_bind {A B} (m : prog A) (f : A -> prog B) tr1 tr2 a b :
  performs m tr1 (Some a) -> performs (f a) tr2 b -> performs (m ≫= f) (tr1 ++ tr2) b.
Proof.
  intros Hm Hf. remember (Some a) as r eqn:Er. induction Hm as [a'| |R o k r' tr r Hm IH].
  - by injection Er as ->.
  - done.
  - cbn. constructor. by apply IH.
Qed.

(** A trace of a program is determined by the answers, so an oracle gives one. *)
Fixpoint run {A} {S : Type} (h : S -> forall R : Set, op R -> S * R) (s : S) (p : prog A)
  : S * list event * option A :=
  match p with
  | Return a => (s, [], Some a)
  | OutOfFuel => (s, [], None)
  | Call o k =>
      let '(s, r) := h s _ o in
      let '(s, tr, a) := run h s (k r) in (s, Event o r :: tr, a)
  end.

Lemma run_performs {A S} (h : S -> forall R : Set, op R -> S * R) (p : prog A) :
  forall s, performs p (run h s p).1.2 (run h s p).2.
Proof.
  induction p as [a|R o k IH|]; intros s; cbn; [constructor| |constructor].
  destruct (h s R o) as [s' r]. specialize (IH r s').
  destruct (run h s' (k r)) as [[s'' tr] a]. by constructor.
Qed.

(** ** Weakest preconditions over a ghost state

    A specification says which calls are allowed in a ghost state, which
    answers the environment may give, how a call changes the ghost state, and
    whether a loop may use up its fuel. *)
Record spec (G : Type) := mkSpec {
  allowed : G -> forall R : Set, op R -> Prop;
  answers : G -> forall R : Set, op R -> R -> Prop;
  update : G -> event -> G;
  may_run_out : Prop
}.
#[global] Arguments mkSpec {G}.
#[global] Arguments allowed {G} _ _ {R}.
#[global] Arguments answers {G} _ _ {R}.
#[global] Arguments update {G}.
#[global] Arguments may_run_out {G}.

Section wp.
Context {G : Type} (S : spec G).

Fixpoint wp {A} (g : G) (p : prog A) (Q : G -> A -> Prop) : Prop :=
  match p with
  | Return a => Q g a
  | OutOfFuel => may_run_out S
  | Call o k => allowed S g o /\ forall r, answers S g o r -> wp (update S g (Event o r)) (k r) Q
  end.

Lemma wp_mono {A} (p : prog A) (Q Q' : G -> A -> Prop) : (forall g a, Q g a -> Q' g a) ->
  forall g, wp g p Q -> wp g p Q'.
Proof.
  intros HQ. induction p as [a|R o k IH|]; intros g; cbn; [apply HQ| |done].
  intros [Ho Hk]. split; [done|]. intros r Hr. by apply IH, Hk.
Qed.

Lemma wp_bind {A B} (m : prog A) (f : A -> prog B) (Q : G -> B -> Prop) :
  forall g, wp g m (fun g a => wp g (f a) Q) -> wp g (m ≫= f) Q.
Proof.
  induction m as [a|R o k IH|]; intros g; cbn; [done| |done].
  intros [Ho Hk]. split; [done|]. intros r Hr. by apply IH, Hk.
Qed.

(** A call made inside a longer routine. *)
Lemma wp_call {A} {R : Set} (o : op R) (f : R -> prog A) (Q : G -> A -> Prop) g :
  allowed S g o -> (forall r, answers S g o r -> wp (update S g (Event o r)) (f r) Q) ->
  wp g (call o ≫= f) Q.
Proof. done. Qed.

(** The answers of a trace are ones the specification expects. *)
Fixpoint expected (g : G) (tr : list event) : Prop :=
  match tr with
  | [] => True
  | Event o r :: tr => answers S g o r /\ expected (update S g (Event o r)) tr
  end.

(** Every call of a trace was allowed. *)
Fixpoint all_allowed (g : G) (tr : list event) : Prop :=
  match tr with
  | [] => True
  | Event o r :: tr => allowed S g o /\ all_allowed (update S g (Event o r)) tr
  end.

Lemma all_allowed_at pre (R : Set) (o : op R) a post :
  forall g, all_allowed g (pre ++ Event o a :: post) -> allowed S (fold_left (update S) pre g) o.
Proof. induction pre as [|[R' o' a'] pre IH]; intros g; cbn; [by intros [? _]|]. intros [_ H]. by apply IH. Qed.

Lemma wp_performs {A} (p : prog A) Q tr r : performs p tr r -> forall g,
  wp g p Q -> expected g tr ->
  all_allowed g tr /\
  match r with Some a => Q (fold_left (update S) tr g) a | None => may_run_out S end.
Proof.
  induction 1 as [a| |R o k r tr a _ IH]; intros g Hwp He; cbn in *; [done..|].
  destruct Hwp as [Ho Hk], He as [Ha He]. destruct (IH _ (Hk r Ha) He) as (Hall & Hr). done.
Qed.

(** The rule of consequence, to be used with a lemma about a routine. *)
Lemma wp_use {A B} (m : prog A) (f : A -> prog B) (P : G -> A -> Prop) (Q : G -> B -> Prop) g :
  wp g m P -> (forall g a, P g a -> wp g (f a) Q) -> wp g (m ≫= f) Q.
Proof. intros Hm Hf. apply wp_bind. revert Hm. by apply wp_mono. Qed.
End wp.

(** The ghost state that is the trace itself: what a loop-free routine does
    can be read off its text, as a relation between trace and result. *)
Definition history : spec (list event) :=
  mkSpec (fun _ _ _ => True) (fun _ _ _ _ => True) (fun g e => g ++ [e]) False.

Lemma history_fold tr g : fold_left (update history) tr g = g ++ tr.
Proof.
  revert g. induction tr as [|e tr IH]; intros g; cbn; [by rewrite app_nil_r|].
  rewrite IH. cbn. by rewrite <- app_assoc.
Qed.

Lemma performs_history {A} (p : prog A) Q tr r :
  performs p tr r -> wp history [] p Q -> exists a, r = Some a /\ Q tr a.
Proof.
  intros Hp Hwp. destruct (wp_performs history p Q tr r Hp [] Hwp) as [_ Hr].
  { generalize ([] : list event). clear. induction tr as [|[R o x] tr IH]; intros g; cbn; [done|]. split; [done|apply IH]. }
  destruct r as [a|]; [|done]. exists a. by rewrite history_fold in Hr.
Qed.
End Prog.
#[global] Arguments prog : clear implicits.
#[global] Arguments event : clear implicits.
#[global] Arguments spec : clear implicits.

(** One step of a weakest precondition through the syntax of a routine; what
    is left are the calls' conditions and the postconditions. *)
Ltac wp_step :=
  lazymatch goal with
  | |- wp _ _ (mret ?a ≫= ?f) _ => change (mret a ≫= f) with (f a); cbv beta
  | |- wp _ _ (call _ ≫= _) _ => apply wp_call; [|intros ? ?]
  | |- wp _ _ (call _) _ => split; [|intros ? ?]; [|change (wp ?S ?g (Return ?r) ?Q) with (Q g r); cbn [wp]]
  | |- wp _ _ (_ ≫= _) _ => apply wp_bind
  | |- wp _ ?g (mret ?a) ?Q => change (Q g a); cbv beta iota
  | |- wp _ _ (Return _) _ => cbn [wp]
  | |- wp _ _ (let _ := _ in _) _ => cbv zeta
  | |- wp _ _ (let '(_, _) := ?x in _) _ => destruct x eqn:?
  | |- wp _ _ (if ?b then _ else _) _ => destruct b eqn:?
  | |- wp _ _ (match ?x with _ => _ end) _ => destruct x eqn:?
  end.

(** ** Interleaving

    A system is a world and a list of threads.  In an action the environment
    moves ([Env]), or thread [i] makes its next call ([Go]), which the world
    answers as the environment chooses, or not at all while it blocks.  A call
    may start another thread. *)
Section interleave.
Context {op : Set -> Type} {W C : Type}.
Variables (answer : W -> C -> forall R : Set, op R -> option (W * R)) (environment : W -> C -> option W)
  (spawned : forall R : Set, op R -> R -> option (prog op unit)).

Record system := mkSystem { world : W; threads : list (prog op unit) }.
Inductive action := Env (c : C) | Go (i : nat) (c : C).

Definition started {R : Set} (o : op R) (r : R) : list (prog op unit) :=
  match spawned R o r with Some p => [p] | None => [] end.
Definition exec (s : system) (a : action) : option system :=
  match a with
  | Env c => match environment (world s) c with Some w => Some (mkSystem w (threads s)) | None => None end
  | Go i c =>
      match threads s !! i with
      | Some (Call o k) =>
          match answer (world s) c _ o with
          | Some (w, r) => Some (mkSystem w (<[i := k r]> (threads s) ++ started o r))
          | None => None
          end
      | _ => None
      end
  end.
Fixpoint exec_all (s : system) (acts : list action) : option system :=
  match acts with
  | [] => Some s
  | a :: acts => match exec s a with Some s => exec_all s acts | None => None end
  end.

(** The ghost states are one per thread; a thread's ghost state follows its
    calls, and a thread that is started brings its own. *)
Context {G : Type} (S : spec op G) (I : W -> list G -> Prop).
Definition follows (g : G) (p : prog op unit) : Prop := wp S g p (fun _ _ => True).
Hypothesis Henv : forall w c w' Gs, I w Gs -> environment w c = Some w' -> I w' Gs.
Hypothesis Hcall : forall w Gs i g c R (o : op R) w' r,
  I w Gs -> Gs !! i = Some g -> allowed S g o -> answer w c R o = Some (w', r) ->
  answers S g o r /\
  exists new, Forall2 follows new (started o r) /\ I w' (<[i := update S g (Event o r)]> Gs ++ new).

Definition invariant (s : system) : Prop := exists Gs, I (world s) Gs /\ Forall2 follows Gs (threads s).

Lemma invariant_exec s a s' : invariant s -> exec s a = Some s' -> invariant s'.
Proof using Henv Hcall.
  intros (Gs & HI & HF) He. destruct a as [c|i c]; cbn [exec] in He.
  - destruct (environment (world s) c) as [w|] eqn:Ew; [|done]. injection He as <-. exists Gs. split; [|done].
    by eapply Henv.
  - destruct (threads s !! i) as [[a|R o k|]|] eqn:Ei; try done.
    destruct (answer (world s) c R o) as [[w r]|] eqn:Ea; [|done]. injection He as <-.
    destruct (Forall2_lookup_r _ _ _ _ _ HF Ei) as (g & Hg & Ho & Hk).
    destruct (Hcall _ _ _ _ _ _ _ _ _ HI Hg Ho Ea) as (Hr & new & Hnew & HI'). eexists. split; [exact HI'|].
    apply Forall2_app; [|done]. apply Forall2_insert; [done|]. by apply Hk.
Qed.
Lemma invariant_exec_all acts : forall s s', invariant s -> exec_all s acts = Some s' -> invariant s'.
Proof using Henv Hcall.
  induction acts as [|a acts IH]; intros s s' Hs He; cbn [exec_all] in He; [by injection He as <-|].
  destruct (exec s a) as [s1|] eqn:E; [|done]. eapply IH; [|exact He]. by eapply invariant_exec.
Qed.
End interleave.
#[global] Arguments system : clear implicits.
#[global] Arguments action : clear implicits.
#[global] Arguments mkSystem {op W}.
#[global] Arguments Env {C}.
#[global] Arguments Go {C}.
