(* ===== verification/StErr.v ===== *)
(** Routines that change a state, may fail with an error and may panic.

    A method of the source that changes what its caller owns and returns an
    error is a [stM]: a function from the state to nothing, which is a panic,
    or to the state it leaves with a value or an error.  An error does not undo
    what was done before it.  [does] is the total specification of such a
    routine: from a state it does not panic, and what it leaves satisfies the
    postcondition. *)

From S2P Require Import Prelude.

Definition stM (S E A : Type) : Type := S -> option (S * result A E).

Section StErr.
Context {S E : Type}.

#[global] Instance stm_ret : MRet (stM S E) := fun A a s => Some (s, Ok a).
#[global] Instance stm_bind : MBind (stM S E) := fun A B f m s =>
  match m s with
  | Some (s, Ok a) => f a s
  | Some (s, Err e) => Some (s, Err e)
  | None => None
  end.

(** Returning an error, reading and changing the state, and asking the outside
    for a value or for one that may be an error. *)
Definition fails {A} (e : E) : stM S E A := fun s => Some (s, Err e).
Definition gets {A} (f : S -> A) : stM S E A := fun s => Some (s, Ok (f s)).
Definition modifies (f : S -> S) : stM S E unit := fun s => Some (f s, Ok tt).
Definition asks {A} (f : S -> S * A) : stM S E A := fun s => let '(s, a) := f s in Some (s, Ok a).
(** [if err != nil { return err }]. *)
Definition checks {A} (r : result A E) : stM S E A := match r with Ok a => mret a | Err e => fails e end.
(** The call with its error as a value. *)
Definition attempt {A} (m : stM S E A) : stM S E (result A E) := fun s =>
  match m s with
  | Some (s, r) => Some (s, Ok r)
  | None => None
  end.

(** ** Total specifications *)

Definition does {A} (s : S) (m : stM S E A) (Q : S -> result A E -> Prop) : Prop :=
  match m s with Some (s', r) => Q s' r | None => False end.

Lemma does_mono {A} s (m : stM S E A) (Q Q' : S -> result A E -> Prop) :
  does s m Q -> (forall s' r, Q s' r -> Q' s' r) -> does s m Q'.
Proof. unfold does. destruct (m s) as [[s' r]|]; auto. Qed.

Lemma does_ret {A} s (a : A) (Q : S -> result A E -> Prop) : Q s (Ok a) -> does s (mret a) Q.
Proof. done. Qed.
Lemma does_fails {A} s e (Q : S -> result A E -> Prop) : Q s (Err e) -> does s (fails e) Q.
Proof. done. Qed.

(** A call inside a longer routine: its error ends the routine. *)
Lemma does_bind {A B} s (m : stM S E A) (f : A -> stM S E B) (Q : S -> result B E -> Prop) :
  does s m (fun s' r => match r with Ok a => does s' (f a) Q | Err e => Q s' (Err e) end) ->
  does s (m ≫= f) Q.
Proof. unfold does, mbind, stm_bind. destruct (m s) as [[s' [a|e]]|]; auto. Qed.

Lemma does_gets {A B} s (g : S -> A) (f : A -> stM S E B) (Q : S -> result B E -> Prop) :
  does s (f (g s)) Q -> does s (gets g ≫= f) Q.
Proof. done. Qed.
Lemma does_modifies {B} s (g : S -> S) (f : unit -> stM S E B) (Q : S -> result B E -> Prop) :
  does (g s) (f tt) Q -> does s (modifies g ≫= f) Q.
Proof. done. Qed.
Lemma does_asks {A B} s (g : S -> S * A) (f : A -> stM S E B) (Q : S -> result B E -> Prop) :
  (forall s' a, g s = (s', a) -> does s' (f a) Q) -> does s (asks g ≫= f) Q.
Proof. intros Hf. unfold does, mbind, stm_bind, asks. destruct (g s) as [s' a] eqn:E0. by apply Hf. Qed.
Lemma does_checks {A B} s (r : result A E) (f : A -> stM S E B) (Q : S -> result B E -> Prop) :
  match r with Ok a => does s (f a) Q | Err e => Q s (Err e) end -> does s (checks r ≫= f) Q.
Proof. by destruct r. Qed.
Lemma does_attempt {A B} s (m : stM S E A) (f : result A E -> stM S E B) (Q : S -> result B E -> Prop) :
  does s m (fun s' r => does s' (f r) Q) -> does s (attempt m ≫= f) Q.
Proof. unfold does, attempt, mbind, stm_bind. destruct (m s) as [[s' r]|]; auto. Qed.

(** What a run that is known shows. *)
Lemma does_run {A} s (m : stM S E A) (Q : S -> result A E -> Prop) :
  does s m Q <-> exists s' r, m s = Some (s', r) /\ Q s' r.
Proof.
  unfold does. destruct (m s) as [[s' r]|]; split; [by eauto|by intros (? & ? & [= <- <-] & ?)|done|].
  by intros (? & ? & ? & _).
Qed.
End StErr.

Ltac does_step :=
  lazymatch goal with
  | |- does ?s (mret ?a ≫= ?f) _ => change (mret a ≫= f) with (f a); cbv beta iota
  | |- does ?s (gets ?g ≫= _) _ => apply does_gets
  | |- does ?s (modifies ?g ≫= _) _ => apply does_modifies
  | |- does ?s (asks ?g ≫= _) _ => apply does_asks; intros ? ? ?
  | |- does ?s (checks ?r ≫= _) _ => apply does_checks; destruct r eqn:?
  | |- does ?s (attempt ?m ≫= _) _ => apply does_attempt
  | |- does ?s (fails ?e ≫= _) ?Q => change (Q s (Err e)); cbv beta iota
  | |- does ?s (_ ≫= _) _ => apply does_bind
  | |- does ?s (mret ?a) ?Q => change (Q s (Ok a)); cbv beta iota
  | |- does ?s (fails ?e) ?Q => change (Q s (Err e)); cbv beta iota
  | |- does ?s (modifies ?f) ?Q => change (Q (f s) (Ok tt)); cbv beta iota
  | |- does ?s (checks (Ok ?a)) ?Q => change (Q s (Ok a)); cbv beta iota
  | |- does ?s (checks (Err ?e)) ?Q => change (Q s (Err e)); cbv beta iota
  | |- does ?s (checks ?r) ?Q => destruct r eqn:?
  | |- does _ (let _ := _ in _) _ => cbv zeta
  | |- does _ (let '(_, _) := ?x in _) _ => destruct x eqn:?
  | |- does _ (if ?b then _ else _) _ => destruct b eqn:?
  | |- does _ (match ?x with _ => _ end) _ => destruct x eqn:?
  end.
