(* ===== verification/Tick.v ===== *)
(** The KRX equity tick table and the three price functions of
    [src/internal/exec/tick.go]: the tick at a price, rounding to the grid
    in either direction, and one step of an order price toward its cap. *)

From S2P Require Import Prelude.
Local Open Scope Z_scope.

(** [krxBands]: below the first component the tick is the second. *)
Definition krxBands : list (Z * Z) :=
  [(2000, 1); (5000, 5); (20000, 10); (50000, 50); (200000, 100); (500000, 500)].

Fixpoint tick_in (bands : list (Z * Z)) (p : Z) : Z :=
  match bands with
  | [] => 1000
  | (below, tick) :: rest => if p <? below then tick else tick_in rest p
  end.

Definition TickAt (p : Z) : Z := tick_in krxBands p.

Definition FloorTick (p : Z) : Z :=
  if p <? 1 then 0 else p -w rem64 p (TickAt p).

Definition CeilTick (p : Z) : Z :=
  if p <? 1 then 0
  else
    let r := rem64 p (TickAt p) in
    if negb (r =? 0) then (p -w r) +w TickAt p else p.

(** [Side] is a Go string; only ["buy"] and ["sell"] pass validation. *)
Definition Buy : string := "buy".
Definition Sell : string := "sell".

Definition stepToward (side : string) (p cap : Z) : Z :=
  if side =s Buy then Z.min (p +w TickAt p) cap
  else Z.max (p -w TickAt (p -w 1)) cap.

(** The order price after [n] rests, while the market does not move it. *)
Fixpoint step_n (n : nat) (side : string) (p cap : Z) : Z :=
  match n with O => p | S n => step_n n side (stepToward side p cap) cap end.

(** A price an order may carry: a positive multiple of its own tick. *)
Definition on_grid (p : Z) : Prop := 1 <= p /\ p mod TickAt p = 0.

#[export] Instance on_grid_dec p : Decision (on_grid p).
Proof. unfold on_grid. apply _. Defined.

(** ** Lemmas *)

(** Case analysis on the band a price lies in. *)
Ltac bands :=
  unfold TickAt, tick_in, krxBands in *;
  repeat match goal with
  | |- context [?p <? ?b] => destruct (Z.ltb_spec p b)
  | H : context [?p <? ?b] |- _ => destruct (Z.ltb_spec p b)
  end.

Ltac divmod := Z.to_euclidean_division_equations; lia.

Lemma TickAt_range p : 1 <= TickAt p <= 1000.
Proof. bands; lia. Qed.

Lemma rem64_mod p t : 0 <= p -> 0 < t -> rem64 p t = p mod t.
Proof. intros. apply Z.rem_mod_nonneg; lia. Qed.

Lemma FloorTick_eq p : 1 <= p -> in_int64 p -> FloorTick p = p - p mod TickAt p.
Proof.
  intros Hp Hr. pose proof (TickAt_range p). unfold FloorTick.
  destruct (Z.ltb_spec p 1); [lia|].
  rewrite rem64_mod by lia.
  pose proof (Z.mod_pos_bound p (TickAt p) ltac:(lia)).
  pose proof (Z.mod_le p (TickAt p) ltac:(lia) ltac:(lia)). apply wrap64_small. in64.
Qed.

Lemma CeilTick_eq p :
  1 <= p -> p <= max_int64 - 1000 ->
  CeilTick p = if p mod TickAt p =? 0 then p else p - p mod TickAt p + TickAt p.
Proof.
  intros Hp Hr. pose proof (TickAt_range p). unfold CeilTick.
  destruct (Z.ltb_spec p 1); [lia|].
  rewrite rem64_mod by lia. destruct (Z.eqb_spec (p mod TickAt p) 0); simpl; [done|].
  pose proof (Z.mod_pos_bound p (TickAt p) ltac:(lia)).
  pose proof (Z.mod_le p (TickAt p) ltac:(lia) ltac:(lia)). unfold max_int64 in *.
  rewrite (wrap64_small (p - _)) by in64. by rewrite wrap64_small by in64.
Qed.

Lemma FloorTick_bounds p : 1 <= p -> in_int64 p -> 1 <= FloorTick p <= p.
Proof.
  intros Hp Hr. rewrite FloorTick_eq by done. bands; divmod.
Qed.

Lemma FloorTick_on_grid p : 1 <= p -> in_int64 p -> on_grid (FloorTick p).
Proof.
  intros Hp Hr. pose proof (FloorTick_bounds p Hp Hr). split; [lia|].
  rewrite FloorTick_eq in * by done. bands; divmod.
Qed.

Lemma FloorTick_greatest p x :
  1 <= p -> in_int64 p -> on_grid x -> x <= p -> x <= FloorTick p.
Proof.
  intros Hp Hr [Hx Hg] Hle. rewrite FloorTick_eq by done.
  bands; divmod.
Qed.

Lemma CeilTick_bounds p :
  1 <= p -> p <= max_int64 - 1000 -> p <= CeilTick p < p + TickAt p.
Proof.
  intros Hp Hr. rewrite CeilTick_eq by done. pose proof (TickAt_range p).
  destruct (Z.eqb_spec (p mod TickAt p) 0); [lia|].
  pose proof (Z.mod_pos_bound p (TickAt p) ltac:(lia)). lia.
Qed.

Lemma CeilTick_on_grid p :
  1 <= p -> p <= max_int64 - 1000 -> on_grid (CeilTick p).
Proof.
  intros Hp Hr. pose proof (CeilTick_bounds p Hp Hr). split; [lia|].
  rewrite CeilTick_eq in * by done.
  destruct (Z.eqb_spec (p mod TickAt p) 0); [done|]. bands; divmod.
Qed.

Lemma CeilTick_least p x :
  1 <= p -> p <= max_int64 - 1000 -> on_grid x -> p <= x -> CeilTick p <= x.
Proof.
  intros Hp Hr [Hx Hg] Hle. rewrite CeilTick_eq by done.
  destruct (Z.eqb_spec (p mod TickAt p) 0); [done|]. bands; divmod.
Qed.

Lemma stepToward_buy p cap :
  on_grid p -> on_grid cap -> p <= cap -> cap <= max_int64 - 1000 ->
  let n := stepToward Buy p cap in
  on_grid n /\ n <= cap /\ (p < cap -> p < n) /\
  (forall x, on_grid x -> p < x -> x < n -> False).
Proof.
  intros [Hp Hgp] [Hc Hgc] Hle Hr n. subst n. pose proof (TickAt_range p).
  unfold stepToward. rewrite string_eqb_refl. rewrite wrap64_small by in64.
  unfold on_grid. repeat split; try lia.
  - destruct (Z.min_spec (p + TickAt p) cap) as [[? ->]|[? ->]]; [|done].
    clear Hgc. bands; divmod.
  - intros x [Hx Hgx]. clear Hgc. bands; divmod.
Qed.

Lemma stepToward_sell p cap :
  on_grid p -> on_grid cap -> cap <= p -> p <= max_int64 ->
  let n := stepToward Sell p cap in
  on_grid n /\ cap <= n /\ (cap < p -> n < p) /\
  (forall x, on_grid x -> n < x -> x < p -> False).
Proof.
  intros [Hp Hgp] [Hc Hgc] Hle Hr n. subst n.
  unfold stepToward. change (Sell =s Buy) with false. cbv iota.
  rewrite (wrap64_small (p - 1)) by in64. pose proof (TickAt_range (p - 1)).
  rewrite wrap64_small by in64.
  unfold on_grid. repeat split; try lia.
  - destruct (Z.max_spec (p - TickAt (p - 1)) cap) as [[? ->]|[? ->]]; [done|].
    clear Hgc. bands; divmod.
  - intros x [Hx Hgx]. clear Hgc. bands; divmod.
Qed.

(** Rounding. For every price in range, [FloorTick] is the greatest grid
    price at or below it and [CeilTick] the least one at or above it. *)
Theorem tick_rounding p :
  1 <= p -> p <= max_int64 - 1000 ->
  (on_grid (FloorTick p) /\ FloorTick p <= p /\
   forall x, on_grid x -> x <= p -> x <= FloorTick p) /\
  (on_grid (CeilTick p) /\ p <= CeilTick p /\
   forall x, on_grid x -> p <= x -> CeilTick p <= x).
Proof.
  intros Hp Hr. assert (in_int64 p) by in64.
  pose proof (FloorTick_bounds p Hp H). pose proof (CeilTick_bounds p Hp Hr).
  split; (split; [|split; [lia|]]).
  - by apply FloorTick_on_grid.
  - intros x ? ?. by apply FloorTick_greatest.
  - by apply CeilTick_on_grid.
  - intros x ? ?. by apply CeilTick_least.
Qed.

Lemma tick_rounding_witness :
  on_grid (FloorTick 20030) /\ FloorTick 20030 <= 20030 <= CeilTick 20030.
Proof.
  destruct (tick_rounding 20030) as ((? & ? & _) & (? & ? & _)); [lia|unfold max_int64; lia|].
  repeat split; try done; lia.
Defined.

Lemma step_n_buy n : forall p cap,
  on_grid p -> on_grid cap -> p <= cap -> cap <= max_int64 - 1000 ->
  cap - p <= Z.of_nat n -> step_n n Buy p cap = cap.
Proof.
  induction n as [|n IH]; intros p cap Hp Hc Hle Hr Hn; cbn [step_n]; [lia|].
  destruct (stepToward_buy p cap Hp Hc Hle Hr) as (? & ? & ? & _).
  destruct (Z.eq_dec p cap) as [->|].
  - assert (stepToward Buy cap cap = cap) as ->; [|apply IH; [done|done|lia|exact Hr|lia]].
    pose proof (TickAt_range cap). unfold stepToward. rewrite string_eqb_refl.
    rewrite wrap64_small; destruct Hc; in64.
  - apply IH; [done|done|lia|exact Hr|lia].
Qed.

Lemma step_n_sell n : forall p cap,
  on_grid p -> on_grid cap -> cap <= p -> p <= max_int64 ->
  p - cap <= Z.of_nat n -> step_n n Sell p cap = cap.
Proof.
  induction n as [|n IH]; intros p cap Hp Hc Hle Hr Hn; cbn [step_n]; [lia|].
  destruct (stepToward_sell p cap Hp Hc Hle Hr) as (? & ? & ? & _).
  destruct (Z.eq_dec p cap) as [->|].
  - assert (stepToward Sell cap cap = cap) as ->; [|apply IH; [done|done|lia|exact Hr|lia]].
    unfold stepToward. change (Sell =s Buy) with false. cbv iota.
    destruct Hc. rewrite (wrap64_small (cap - 1)) by in64.
    pose proof (TickAt_range (cap - 1)). rewrite wrap64_small; in64.
  - apply IH; [done|done|lia|lia|lia].
Qed.

(** Stepping. From a grid price on the good side of a grid cap, one
    [stepToward] moves exactly one grid price toward the cap, never past it,
    and repeating it reaches the cap. *)
Theorem stepToward_correct side p cap :
  on_grid p -> on_grid cap -> p <= max_int64 - 1000 -> cap <= max_int64 - 1000 ->
  (side = Buy /\ p <= cap) \/ (side = Sell /\ cap <= p) ->
  let n := stepToward side p cap in
  on_grid n /\
  Z.min p cap <= n <= Z.max p cap /\
  (p <> cap -> n <> p) /\
  (forall x, on_grid x -> Z.min p n < x -> x < Z.max p n -> False) /\
  step_n (Z.to_nat (Z.abs (cap - p))) side p cap = cap.
Proof.
  intros Hp Hc Hrp Hrc [[-> Hle]|[-> Hle]]; cbv zeta.
  - destruct (stepToward_buy p cap Hp Hc Hle Hrc) as (Hg & Hcap & Hlt & Hbetween).
    assert (p <= stepToward Buy p cap).
    { destruct (Z.eq_dec p cap) as [->|]; [|lia].
      unfold stepToward. pose proof (TickAt_range cap). destruct Hc.
      rewrite string_eqb_refl, wrap64_small by in64. lia. }
    repeat split; try apply Hg; try lia.
    + intros x Hx ? ?. apply (Hbetween x); try assumption; lia.
    + apply step_n_buy; try assumption; lia.
  - destruct (stepToward_sell p cap Hp Hc Hle ltac:(lia)) as (Hg & Hcap & Hlt & Hbetween).
    assert (stepToward Sell p cap <= p).
    { destruct (Z.eq_dec p cap) as [->|]; [|lia].
      unfold stepToward. change (Sell =s Buy) with false. cbv iota.
      destruct Hc. rewrite (wrap64_small (cap - 1)) by in64.
      pose proof (TickAt_range (cap - 1)). rewrite wrap64_small by in64. lia. }
    repeat split; try apply Hg; try lia.
    + intros x Hx ? ?. apply (Hbetween x); try assumption; lia.
    + apply step_n_sell; [exact Hp|exact Hc|exact Hle|lia|lia].
Qed.

Lemma stepToward_correct_witness :
  stepToward Buy 1998 2010 = 1999 /\ step_n 12 Buy 1998 2010 = 2010.
Proof.
  assert (Hp : on_grid 1998) by (split; [lia|reflexivity]).
  assert (Hc : on_grid 2010) by (split; [lia|reflexivity]).
  assert (Hm : 2010 <= max_int64 - 1000) by (unfold max_int64; lia).
  assert (Hl : 1998 <= 2010) by lia.
  pose proof (stepToward_correct Buy 1998 2010 Hp Hc ltac:(lia) Hm
    (or_introl (conj eq_refl Hl))) as H.
  split; [reflexivity|]. apply H.
Defined.
