(* ===== verification/GoStr.v ===== *)
(** Go strings: byte sequences with the functions of package [strings] and
    [strconv] that the program calls. A [string] is its bytes; a rune outside
    ASCII is its UTF-8 bytes. *)

From Stdlib Require Import Ascii.
From S2P Require Import Prelude.
#[local] Arguments String.append !_ _ / : simpl nomatch.

(** ** Appending and cutting *)

Lemma str_app_nil_r s : s +:+ "" = s.
Proof. induction s as [|c s IH]; simpl; [done|]. by rewrite IH. Qed.

Lemma str_app_assoc a b c : a +:+ (b +:+ c) = (a +:+ b) +:+ c.
Proof. induction a as [|x a IH]; simpl; [done|]. by rewrite IH. Qed.

Lemma strlen_app a b : String.length (a +:+ b) = (String.length a + String.length b)%nat.
Proof. induction a as [|x a IH]; simpl; [done|]. by rewrite IH. Qed.

Lemma str_app_inj_l a b c : a +:+ b = a +:+ c -> b = c.
Proof. induction a as [|x a IH]; simpl; [done|]. intros [= H]. by apply IH. Qed.

(** [s[:n]] for [n] at most the length; longer cuts return [s]. *)
Definition take_bytes (n : nat) (s : string) : string := String.substring 0 n s.

(** [s[n:]]. *)
Fixpoint drop_bytes (n : nat) (s : string) : string :=
  match n, s with
  | S n, String _ s => drop_bytes n s
  | _, _ => s
  end.

Lemma take_drop_bytes n s : take_bytes n s +:+ drop_bytes n s = s.
Proof.
  unfold take_bytes. revert n. induction s as [|c s IH]; intros [|n]; simpl; try done. by rewrite IH.
Qed.

Lemma take_bytes_app a b : take_bytes (String.length a) (a +:+ b) = a.
Proof.
  unfold take_bytes. induction a as [|c a IH]; simpl; [by destruct b|]. by rewrite IH.
Qed.

Lemma take_bytes_all n s : (String.length s <= n)%nat -> take_bytes n s = s.
Proof.
  unfold take_bytes. revert n. induction s as [|c s IH]; intros [|n] H; simpl in *; try lia; try done.
  rewrite IH; [done|lia].
Qed.

Lemma take_bytes_app_le n a b : (n <= String.length a)%nat -> take_bytes n (a +:+ b) = take_bytes n a.
Proof.
  unfold take_bytes. revert n. induction a as [|c a IH]; intros [|n] H; simpl in *; try lia; try done.
  - by destruct b.
  - rewrite IH; [done|lia].
Qed.

(** ** Characters *)

Definition byte_in (lo hi : nat) (c : ascii) : bool :=
  (lo <=? nat_of_ascii c)%nat && (nat_of_ascii c <=? hi)%nat.
Definition digit_byte (c : ascii) : bool := byte_in 48 57 c.

Fixpoint str_forall (f : ascii -> bool) (s : string) : bool :=
  match s with EmptyString => true | String c s => f c && str_forall f s end.
Fixpoint str_exists (f : ascii -> bool) (s : string) : bool :=
  match s with EmptyString => false | String c s => f c || str_exists f s end.

Lemma str_forall_app f a b : str_forall f (a +:+ b) = str_forall f a && str_forall f b.
Proof. induction a as [|c a IH]; simpl; [done|]. by rewrite IH, andb_assoc. Qed.

Fixpoint str_rev_onto (s acc : string) : string :=
  match s with EmptyString => acc | String c s => str_rev_onto s (String c acc) end.
Definition str_rev (s : string) : string := str_rev_onto s "".

(** ** [strings.TrimSpace], [TrimLeft], [HasPrefix] *)

(** The white space runes of Unicode, as UTF-8. *)
Definition bytes_of (l : list nat) : string :=
  fold_right (fun n s => String (ascii_of_nat n) s) "" l.
Definition space_runes : list string :=
  (bytes_of <$> [[9]; [10]; [11]; [12]; [13]; [32]; [194; 133]; [194; 160]; [225; 154; 128];
    [226; 128; 128]; [226; 128; 129]; [226; 128; 130]; [226; 128; 131]; [226; 128; 132];
    [226; 128; 133]; [226; 128; 134]; [226; 128; 135]; [226; 128; 136]; [226; 128; 137];
    [226; 128; 138]; [226; 128; 168]; [226; 128; 169]; [226; 128; 175]; [226; 129; 159];
    [227; 128; 128]])%nat.

Fixpoint strip_prefix (p s : string) : option string :=
  match p, s with
  | EmptyString, _ => Some s
  | String a p, String b s => if Ascii.eqb a b then strip_prefix p s else None
  | String _ _, EmptyString => None
  end.

Definition HasPrefix (s p : string) : bool :=
  match strip_prefix p s with Some _ => true | None => false end.

(** The rest after one of the runes [ps], if [s] starts with one. *)
Fixpoint strip_one (ps : list string) (s : string) : option string :=
  match ps with
  | [] => None
  | p :: ps => match strip_prefix p s with Some r => Some r | None => strip_one ps s end
  end.

Fixpoint trim_runes (fuel : nat) (ps : list string) (s : string) : string :=
  match fuel with
  | O => s
  | S fuel => match strip_one ps s with Some r => trim_runes fuel ps r | None => s end
  end.

Definition TrimLeftSpace (s : string) : string := trim_runes (String.length s) space_runes s.
Definition TrimRightSpace (s : string) : string :=
  str_rev (trim_runes (String.length s) (str_rev <$> space_runes) (str_rev s)).
Definition TrimSpace (s : string) : string := TrimRightSpace (TrimLeftSpace s).

(** [strings.TrimLeft(s, cutset)] for a one-byte cutset. *)
Fixpoint TrimLeftByte (c : ascii) (s : string) : string :=
  match s with
  | String d s' => if Ascii.eqb d c then TrimLeftByte c s' else s
  | EmptyString => EmptyString
  end.

Lemma strip_prefix_some p s r : strip_prefix p s = Some r <-> s = p +:+ r.
Proof.
  revert s. induction p as [|a p IH]; intros s; simpl; [naive_solver|].
  destruct s as [|b s]; [naive_solver|]. destruct (Ascii.eqb_spec a b) as [->|]; [|naive_solver].
  rewrite IH. naive_solver.
Qed.

(** A string that starts with no white space byte keeps its start. *)
Definition space_lead (c : ascii) : bool :=
  existsb (fun p => match p with String d _ => Ascii.eqb c d | EmptyString => true end) space_runes.
Definition space_end (c : ascii) : bool :=
  existsb (fun p => match str_rev p with String d _ => Ascii.eqb c d | EmptyString => true end) space_runes.

Lemma strip_one_lead ps c s :
  existsb (fun p => match p with String d _ => Ascii.eqb c d | EmptyString => true end) ps = false ->
  strip_one ps (String c s) = None.
Proof.
  intros Hps. induction ps as [|p ps IH]; [done|]. cbn [existsb] in Hps. apply orb_false_iff in Hps as [Hp Hps].
  cbn [strip_one]. rewrite (IH Hps). destruct p as [|d p]; [done|]. cbn [strip_prefix].
  rewrite Ascii.eqb_sym in Hp. by rewrite Hp.
Qed.

Lemma trim_runes_lead fuel ps c s :
  existsb (fun p => match p with String d _ => Ascii.eqb c d | EmptyString => true end) ps = false ->
  trim_runes fuel ps (String c s) = String c s.
Proof. intros Hps. destruct fuel as [|fuel]; [done|]. cbn [trim_runes]. by rewrite strip_one_lead. Qed.

Lemma str_rev_onto_app a b acc : str_rev_onto (a +:+ b) acc = str_rev_onto b (str_rev_onto a acc).
Proof. revert acc. induction a as [|c a IH]; intros acc; simpl; [done|]. apply IH. Qed.

Lemma str_rev_onto_eq s acc : str_rev_onto s acc = str_rev s +:+ acc.
Proof.
  unfold str_rev. revert acc. induction s as [|c s IH]; intros acc; simpl; [done|].
  rewrite IH, (IH (String c "")). by rewrite <- str_app_assoc.
Qed.

Lemma str_rev_app a b : str_rev (a +:+ b) = str_rev b +:+ str_rev a.
Proof. unfold str_rev. by rewrite str_rev_onto_app, str_rev_onto_eq. Qed.

Lemma str_rev_involutive s : str_rev (str_rev s) = s.
Proof.
  induction s as [|c s IH]; [done|]. change (String c s) with (String c "" +:+ s).
  by rewrite !str_rev_app, IH.
Qed.

Lemma str_forall_rev f s : str_forall f (str_rev s) = str_forall f s.
Proof.
  induction s as [|c s IH]; [done|]. change (String c s) with (String c "" +:+ s).
  rewrite str_rev_app, !str_forall_app, IH. apply andb_comm.
Qed.

(** Printable ASCII text without white space is not trimmed. *)
Definition plain_byte (c : ascii) : bool := byte_in 33 126 c.

Lemma plain_not_space c : plain_byte c = true -> space_lead c = false /\ space_end c = false.
Proof.
  destruct c as [[] [] [] [] [] [] [] []]; vm_compute; intros H; try discriminate H; done.
Qed.

Lemma existsb_map {A B} (f : B -> bool) (g : A -> B) l : existsb f (g <$> l) = existsb (fun x => f (g x)) l.
Proof. induction l as [|x l IH]; [done|]. cbn. f_equal. exact IH. Qed.

Lemma TrimSpace_plain s : str_forall plain_byte s = true -> TrimSpace s = s.
Proof.
  intros H. unfold TrimSpace, TrimLeftSpace.
  assert (E : trim_runes (String.length s) space_runes s = s).
  { destruct s as [|c s]; [done|]. cbn [str_forall] in H. apply andb_true_iff in H as [Hc _].
    apply trim_runes_lead. by apply plain_not_space. }
  rewrite E. unfold TrimRightSpace. rewrite <- (str_rev_involutive s) at 3.
  f_equal. rewrite <- str_forall_rev in H. destruct (str_rev s) as [|c r].
  - by destruct (String.length s).
  - cbn [str_forall] in H. apply andb_true_iff in H as [Hc _].
    apply trim_runes_lead. rewrite existsb_map. by apply plain_not_space.
Qed.

(** ** Decimal digits *)

Definition digit_value (c : ascii) : Z := (Z.of_nat (nat_of_ascii c) - 48)%Z.
Definition all_digits (s : string) : bool := str_forall digit_byte s.

Fixpoint decimal_from (s : string) (acc : Z) : Z :=
  match s with
  | EmptyString => acc
  | String c s => decimal_from s (acc * 10 + digit_value c)%Z
  end.
Definition decimal (s : string) : Z := decimal_from s 0.

Lemma digit_value_range c : digit_byte c = true -> (0 <= digit_value c <= 9)%Z.
Proof.
  unfold digit_byte, byte_in, digit_value. rewrite andb_true_iff, !Nat.leb_le. lia.
Qed.

Lemma digit_value_inj c d :
  digit_byte c = true -> digit_byte d = true -> digit_value c = digit_value d -> c = d.
Proof.
  unfold digit_value. intros Hc Hd H. rewrite <- (ascii_nat_embedding c), <- (ascii_nat_embedding d).
  f_equal. lia.
Qed.

Definition pow10 (n : nat) : Z := (10 ^ Z.of_nat n)%Z.

Lemma pow10_S n : pow10 (S n) = (10 * pow10 n)%Z.
Proof. unfold pow10. rewrite Nat2Z.inj_succ, Z.pow_succ_r; lia. Qed.

Lemma pow10_pos n : (1 <= pow10 n)%Z.
Proof. induction n as [|n IH]; [done|]. rewrite pow10_S. lia. Qed.

Lemma decimal_from_acc s acc :
  decimal_from s acc = (acc * pow10 (String.length s) + decimal_from s 0)%Z.
Proof.
  revert acc. induction s as [|c s IH]; intros acc; cbn [decimal_from String.length].
  - unfold pow10. cbn. lia.
  - rewrite IH, (IH (0 * 10 + digit_value c)%Z), pow10_S. lia.
Qed.

Lemma decimal_cons c s :
  decimal (String c s) = (digit_value c * pow10 (String.length s) + decimal s)%Z.
Proof. unfold decimal. cbn [decimal_from]. rewrite decimal_from_acc. lia. Qed.

Lemma decimal_bound s : all_digits s = true -> (0 <= decimal s < pow10 (String.length s))%Z.
Proof.
  unfold all_digits. induction s as [|c s IH]; cbn [str_forall]; [done|].
  intros [Hc Hs]%andb_true_iff. specialize (IH Hs). apply digit_value_range in Hc.
  rewrite decimal_cons. cbn [String.length]. rewrite pow10_S. nia.
Qed.

Lemma decimal_inj_length s t :
  all_digits s = true -> all_digits t = true -> String.length s = String.length t ->
  decimal s = decimal t -> s = t.
Proof.
  unfold all_digits. revert t. induction s as [|c s IH]; intros [|d t]; try done.
  cbn [str_forall String.length]. intros [Hc Hs]%andb_true_iff [Hd Ht]%andb_true_iff [= Hl] E.
  rewrite !decimal_cons, Hl in E.
  pose proof (decimal_bound s Hs). pose proof (decimal_bound t Ht). rewrite Hl in *.
  pose proof (digit_value_range c Hc). pose proof (digit_value_range d Hd).
  assert (digit_value c = digit_value d) by nia.
  f_equal; [by apply digit_value_inj|]. apply IH; try done. nia.
Qed.

(** No leading zero. *)
Definition no_lead_zero (s : string) : bool :=
  match s with EmptyString => true | String c _ => negb (Ascii.eqb c "0") end.

Lemma decimal_lead c s : digit_byte c = true -> Ascii.eqb c "0" = false -> all_digits s = true ->
  (pow10 (String.length s) <= decimal (String c s))%Z.
Proof.
  intros Hc Hz Hs. rewrite decimal_cons. pose proof (digit_value_range c Hc).
  pose proof (decimal_bound s Hs).
  assert (digit_value c <> 0%Z); [|nia].
  intros E. apply Ascii.eqb_neq in Hz. apply Hz. by apply digit_value_inj.
Qed.

Lemma pow10_le m n : (m <= n)%nat -> (pow10 m <= pow10 n)%Z.
Proof. intros. unfold pow10. apply Z.pow_le_mono_r; lia. Qed.

Lemma decimal_inj s t :
  all_digits s = true -> all_digits t = true -> no_lead_zero s = true -> no_lead_zero t = true ->
  decimal s = decimal t -> s = t.
Proof.
  intros Hs Ht Zs Zt E. apply decimal_inj_length; try done.
  assert (Hlt : forall s t, all_digits s = true -> all_digits t = true -> no_lead_zero t = true ->
    decimal s = decimal t -> (String.length s < String.length t)%nat -> False).
  { clear. intros s [|d t] Hs Ht Zt E Hl; cbn in Hl; [lia|]. unfold all_digits in Ht. cbn in Ht, Zt.
    apply andb_true_iff in Ht as [Hd Ht]. apply negb_true_iff in Zt.
    pose proof (decimal_lead d t Hd Zt Ht). pose proof (decimal_bound s Hs).
    pose proof (pow10_le (String.length s) (String.length t) ltac:(lia)). lia. }
  destruct (Nat.lt_trichotomy (String.length s) (String.length t)) as [Hx|[Hx|Hx]]; [|done|];
    exfalso; [by apply (Hlt s t)|by apply (Hlt t s)].
Qed.

Lemma TrimLeftByte_zero s : all_digits s = true ->
  all_digits (TrimLeftByte "0" s) = true /\ no_lead_zero (TrimLeftByte "0" s) = true /\
  decimal (TrimLeftByte "0" s) = decimal s.
Proof.
  unfold all_digits. induction s as [|c s IH]; [done|]. cbn [str_forall TrimLeftByte].
  intros [Hc Hs]%andb_true_iff. destruct (Ascii.eqb_spec c "0") as [->|Hn].
  - destruct (IH Hs) as (? & ? & E). split; [done|]. split; [done|]. rewrite E, decimal_cons.
    change (digit_value "0") with 0%Z. lia.
  - cbn [str_forall no_lead_zero]. rewrite Hc, Hs. split; [done|]. split; [|done].
    by apply negb_true_iff, Ascii.eqb_neq.
Qed.

Lemma digit_plain c : digit_byte c = true -> plain_byte c = true.
Proof. unfold digit_byte, plain_byte, byte_in. rewrite !andb_true_iff, !Nat.leb_le. lia. Qed.

Lemma all_digits_plain s : all_digits s = true -> str_forall plain_byte s = true.
Proof.
  unfold all_digits. induction s as [|c s IH]; [done|]. cbn [str_forall].
  intros [Hc Hs]%andb_true_iff. by rewrite (digit_plain c Hc), IH.
Qed.

(** ** [Split], [SplitN], [Join], [TrimLeft] and [TrimRight] by cutset *)

(** [strings.Split(s, c)] for a one-byte separator; never empty. *)
Fixpoint Split (c : ascii) (s : string) : list string :=
  match s with
  | EmptyString => [""]
  | String d s =>
      if Ascii.eqb d c then "" :: Split c s
      else match Split c s with
           | x :: xs => String d x :: xs
           | [] => [String d ""]
           end
  end.

(** [strings.SplitN(s, c, n + 1)]: at most [n] cuts. *)
Fixpoint SplitN (c : ascii) (n : nat) (s : string) : list string :=
  match n, s with
  | O, _ => [s]
  | _, EmptyString => [""]
  | S n', String d s =>
      if Ascii.eqb d c then "" :: SplitN c n' s
      else match SplitN c n s with
           | x :: xs => String d x :: xs
           | [] => [String d ""]
           end
  end.

Fixpoint Join (c : ascii) (l : list string) : string :=
  match l with
  | [] => ""
  | [x] => x
  | x :: l => x +:+ String c (Join c l)
  end.

Fixpoint TrimLeftSet (f : ascii -> bool) (s : string) : string :=
  match s with
  | String d s' => if f d then TrimLeftSet f s' else s
  | EmptyString => EmptyString
  end.
Definition TrimRightSet (f : ascii -> bool) (s : string) : string :=
  str_rev (TrimLeftSet f (str_rev s)).

(** [strings.Trim]. *)
Definition TrimSet (f : ascii -> bool) (s : string) : string := TrimRightSet f (TrimLeftSet f s).

(** ASCII letters by case; outside ASCII the functions map runes. *)
Definition ascii_byte (c : ascii) : bool := byte_in 0 127 c.
Definition upper_byte (c : ascii) : ascii :=
  if byte_in 97 122 c then ascii_of_nat (nat_of_ascii c - 32) else c.
Definition lower_byte (c : ascii) : ascii :=
  if byte_in 65 90 c then ascii_of_nat (nat_of_ascii c + 32) else c.
Fixpoint str_map (f : ascii -> ascii) (s : string) : string :=
  match s with EmptyString => EmptyString | String c s => String (f c) (str_map f s) end.

Definition without (c : ascii) (s : string) : bool := str_forall (fun d => negb (Ascii.eqb d c)) s.

Lemma Split_nonempty c s : exists x xs, Split c s = x :: xs.
Proof.
  induction s as [|d s (x & xs & IH)]; cbn; [eauto|]. destruct (Ascii.eqb d c); [eauto|].
  rewrite IH. eauto.
Qed.

Lemma Split_without c s : without c s = true -> Split c s = [s].
Proof.
  unfold without. induction s as [|d s IH]; cbn; [done|]. intros [Hd Hs]%andb_true_iff.
  apply negb_true_iff in Hd. by rewrite Hd, IH.
Qed.

Lemma Split_app c x s : without c x = true -> Split c (x +:+ String c s) = x :: Split c s.
Proof.
  unfold without. induction x as [|d x IH]; cbn; [by rewrite Ascii.eqb_refl|].
  intros [Hd Hs]%andb_true_iff. apply negb_true_iff in Hd. by rewrite Hd, IH.
Qed.

Lemma Split_Join c l :
  l <> [] -> Forall (fun x => without c x = true) l -> Split c (Join c l) = l.
Proof.
  induction l as [|x l IH]; [done|]. intros _ H. apply Forall_cons in H as [Hx Hl].
  destruct l as [|y l]; cbn [Join]; [by apply Split_without|].
  rewrite Split_app by done. f_equal. by apply IH.
Qed.

Lemma SplitN_app c n x s :
  without c x = true -> SplitN c (S n) (x +:+ String c s) = x :: SplitN c n s.
Proof.
  unfold without. induction x as [|d x IH]; [cbn; by rewrite Ascii.eqb_refl|].
  cbn [str_forall]. intros [Hd Hs]%andb_true_iff. apply negb_true_iff in Hd.
  change (String d x +:+ String c s) with (String d (x +:+ String c s)).
  cbn [SplitN]. rewrite Hd. change (match S n with O => _ | S _ => ?X end) with X. by rewrite (IH Hs).
Qed.

(** ** [strconv.ParseInt(s, 10, 64)]: [None] is an error *)

Definition ParseInt (s : string) : option Z :=
  let '(neg, digits) :=
    match s with
    | String "-" s => (true, s)
    | String "+" s => (false, s)
    | _ => (false, s)
    end in
  if (digits =s "") || negb (all_digits digits) then None
  else
    let n := if neg then Z.opp (decimal digits) else decimal digits in
    if Z.leb min_int64 n && Z.leb n max_int64 then Some n else None.

Lemma ParseInt_range s n : ParseInt s = Some n -> in_int64 n.
Proof.
  unfold ParseInt. destruct (match s with String "-" s => _ | _ => _ end) as [neg digits].
  destruct (_ || _); [done|]. destruct (_ && _) eqn:E; [|done]. intros [= <-].
  apply andb_true_iff in E as [H1 H2]. apply Z.leb_le in H1. apply Z.leb_le in H2. done.
Qed.

(** [strconv.Atoi]: [int] is 64 bits wide. *)
Definition Atoi (s : string) : option Z := ParseInt s.

(** ** [strconv.FormatUint], [ParseUint], [FormatBool], [ParseBool] *)

Definition digit_char (n : Z) : ascii := ascii_of_nat (48 + Z.to_nat n).

Fixpoint format_digits (fuel : nat) (n : Z) (acc : string) : string :=
  match fuel with
  | O => acc
  | S fuel =>
      let acc := String (digit_char (n mod 10)) acc in
      if (n <? 10)%Z then acc else format_digits fuel (n / 10) acc
  end.
(** A [uint64] has at most twenty digits. *)
Definition FormatUint (n : Z) : string := format_digits 20 n "".

Definition ParseUint (s : string) : option Z :=
  if (s =s "") || negb (all_digits s) then None
  else if (decimal s <? 18446744073709551616)%Z then Some (decimal s) else None.

Definition FormatBool (b : bool) : string := if b then "true" else "false".
Definition ParseBool (s : string) : option bool :=
  if existsb (String.eqb s) ["1"; "t"; "T"; "true"; "TRUE"; "True"] then Some true
  else if existsb (String.eqb s) ["0"; "f"; "F"; "false"; "FALSE"; "False"] then Some false
  else None.

Lemma digit_char_value n : (0 <= n <= 9)%Z ->
  digit_byte (digit_char n) = true /\ digit_value (digit_char n) = n.
Proof.
  intros H. unfold digit_byte, byte_in, digit_value, digit_char.
  rewrite nat_ascii_embedding by lia. rewrite andb_true_iff, !Nat.leb_le. lia.
Qed.

Lemma format_digits_value fuel n acc : (0 <= n < pow10 fuel)%Z -> all_digits acc = true ->
  all_digits (format_digits fuel n acc) = true /\
  decimal (format_digits fuel n acc) = (n * pow10 (String.length acc) + decimal acc)%Z.
Proof.
  revert n acc. induction fuel as [|fuel IH]; intros n acc Hn Ha; cbn [format_digits].
  - change (pow10 0) with 1%Z in Hn. split; [done|]. replace n with 0%Z by lia. lia.
  - rewrite pow10_S in Hn. pose proof (Z.mod_pos_bound n 10 ltac:(lia)) as Hm.
    destruct (digit_char_value (n mod 10) ltac:(lia)) as [Hd Hv].
    assert (Ha' : all_digits (String (digit_char (n mod 10)) acc) = true)
      by (unfold all_digits in *; cbn [str_forall]; by rewrite Hd, Ha).
    pose proof (Z.div_mod n 10 ltac:(lia)) as Hq.
    destruct (Z.ltb_spec n 10).
    + split; [done|]. rewrite decimal_cons, Hv, Z.mod_small by lia. lia.
    + destruct (IH (n / 10)%Z _ ltac:(Z.to_euclidean_division_equations; lia) Ha') as [H1 H2].
      split; [done|]. rewrite H2, decimal_cons, Hv. cbn [String.length]. rewrite pow10_S.
      rewrite Hq at 3. nia.
Qed.

Lemma format_digits_nonempty fuel n acc : fuel <> O -> format_digits fuel n acc <> "".
Proof.
  revert n acc. induction fuel as [|fuel IH]; [done|]. intros n acc _. cbn [format_digits].
  destruct (n <? 10)%Z; [done|]. destruct fuel as [|fuel]; [done|]. by apply IH.
Qed.

Lemma ParseUint_FormatUint n : (0 <= n < 18446744073709551616)%Z -> ParseUint (FormatUint n) = Some n.
Proof.
  intros Hn. unfold ParseUint, FormatUint.
  destruct (format_digits_value 20 n "" ltac:(change (pow10 20) with 100000000000000000000%Z; lia) eq_refl)
    as [H1 H2].
  rewrite string_eqb_ne by (by apply format_digits_nonempty). rewrite H1, H2.
  change (pow10 (String.length "")) with 1%Z. change (decimal "") with 0%Z. cbn [orb negb].
  replace (n * 1 + 0)%Z with n by lia. by rewrite (proj2 (Z.ltb_lt _ _)) by lia.
Qed.

Lemma ParseBool_FormatBool b : ParseBool (FormatBool b) = Some b.
Proof. by destruct b. Qed.

(** [strings.Contains]. *)
Fixpoint Contains (s p : string) : bool :=
  HasPrefix s p || match s with EmptyString => false | String _ s => Contains s p end.

(** [strconv.FormatInt(n, 10)]. *)
Definition FormatInt (n : Z) : string :=
  if (n <? 0)%Z then String "-" (FormatUint (- n)) else FormatUint n.

(** What [ParseInt] leaves in its result, and whether it succeeded: zero on a
    syntax error, the nearest bound when the number does not fit. *)
Definition ParseIntValue (s : string) : Z * bool :=
  let '(neg, digits) :=
    match s with
    | String "-" s => (true, s)
    | String "+" s => (false, s)
    | _ => (false, s)
    end in
  if (digits =s "") || negb (all_digits digits) then (0%Z, false)
  else
    let n := if neg then Z.opp (decimal digits) else decimal digits in
    if Z.ltb n min_int64 then (min_int64, false)
    else if Z.ltb max_int64 n then (max_int64, false) else (n, true).

Lemma FormatUint_digits n : (0 <= n < 18446744073709551616)%Z ->
  all_digits (FormatUint n) = true /\ decimal (FormatUint n) = n /\ FormatUint n <> "".
Proof.
  intros Hn. unfold FormatUint.
  destruct (format_digits_value 20 n "" ltac:(change (pow10 20) with 100000000000000000000%Z; lia) eq_refl)
    as [H1 H2].
  split; [done|]. split; [|by apply format_digits_nonempty]. rewrite H2.
  change (pow10 (String.length "")) with 1%Z. change (decimal "") with 0%Z. lia.
Qed.

Lemma digits_head s : all_digits s = true -> s <> "" ->
  match s with
  | String "-" _ => False
  | String "+" _ => False
  | _ => True
  end.
Proof.
  destruct s as [|c s]; [done|]. unfold all_digits. cbn. intros [Hc _]%andb_true_iff _.
  destruct c as [[] [] [] [] [] [] [] []]; try done; discriminate Hc.
Qed.

Lemma ParseIntValue_FormatInt n : in_int64 n -> ParseIntValue (FormatInt n) = (n, true).
Proof.
  intros Hn. assert (Hd : forall m, (0 <= m < 18446744073709551616)%Z ->
    (FormatUint m =s "") || negb (all_digits (FormatUint m)) = false).
  { intros m Hm. destruct (FormatUint_digits m Hm) as (H1 & _ & H3).
    by rewrite H1, string_eqb_ne. }
  unfold FormatInt. unfold in_int64, min_int64, max_int64 in *. destruct (Z.ltb_spec n 0) as [Hneg|Hpos].
  - unfold ParseIntValue. rewrite Hd by lia.
    destruct (FormatUint_digits (- n) ltac:(lia)) as (_ & -> & _). unfold min_int64, max_int64.
    rewrite !(proj2 (Z.ltb_ge _ _)) by lia. f_equal. lia.
  - destruct (FormatUint_digits n ltac:(lia)) as (H1 & H2 & H3). pose proof (digits_head _ H1 H3) as Hh.
    unfold ParseIntValue.
    assert (E : (match FormatUint n with String "-" s => (true, s) | String "+" s => (false, s)
      | _ => (false, FormatUint n) end) = (false, FormatUint n)).
    { destruct (FormatUint n) as [|c s]; [done|].
      destruct c as [[] [] [] [] [] [] [] []]; first [reflexivity|destruct Hh]. }
    rewrite E, Hd, H2 by lia. unfold min_int64, max_int64. by rewrite !(proj2 (Z.ltb_ge _ _)) by lia.
Qed.
