(* ===== verification/Wire.v ===== *)
(** What the edges of the program share: [src/internal/netpolicy] and
    [src/internal/jsonx], and what they and the HTTP clients use of the
    standard library: [net.ParseIP], canonical header keys, and bounded reads
    of a body. *)

From Stdlib Require Import Ascii.
From S2P Require Import Prelude GoStr.
Local Open Scope Z_scope.

(** ** Suffixes *)

Definition HasSuffix (s p : string) : bool := HasPrefix (str_rev s) (str_rev p).
Definition TrimSuffix (s p : string) : string :=
  match strip_prefix (str_rev p) (str_rev s) with Some r => str_rev r | None => s end.

Lemma HasSuffix_split s p : HasSuffix s p = true -> s = TrimSuffix s p +:+ p.
Proof.
  unfold HasSuffix, HasPrefix, TrimSuffix. destruct (strip_prefix _ _) as [r|] eqn:E; [intros _|done].
  apply strip_prefix_some in E. rewrite <- (str_rev_involutive s), E, str_rev_app. by rewrite str_rev_involutive.
Qed.

(** ** [net.ParseIP] and [IP.IsLoopback] *)

Definition hex_value (c : ascii) : option Z :=
  if digit_byte c then Some (digit_value c)
  else if byte_in 97 102 c then Some (Z.of_nat (nat_of_ascii c) - 87)
  else if byte_in 65 70 c then Some (Z.of_nat (nat_of_ascii c) - 55)
  else None.

(** One field of a dotted address: no leading zero, at most 255. *)
Definition ipv4_octet (s : string) : option Z :=
  if (s =s "") || negb (all_digits s) then None
  else if negb (no_lead_zero s) && (s <>s "0") then None
  else if decimal s <=? 255 then Some (decimal s) else None.
Definition parse_ipv4 (s : string) : option (list Z) :=
  match Split "." s with
  | [a; b; c; d] =>
      a ← ipv4_octet a; b ← ipv4_octet b; c ← ipv4_octet c; d ← ipv4_octet d; Some [a; b; c; d]
  | _ => None
  end.

(** The hexadecimal digits at the start: how many, their value, the rest; at
    most four. *)
Fixpoint hex_field (s : string) (digits : nat) (acc : Z) : option (nat * Z * string) :=
  match s with
  | EmptyString => Some (digits, acc, s)
  | String c s' =>
      match hex_value c with
      | None => Some (digits, acc, s)
      | Some v => if (3 <? digits)%nat then None else hex_field s' (S digits) (acc * 16 + v)
      end
  end.

(** The fields of an IPv6 address.  Every round but the last adds two of the
    sixteen bytes, so eight rounds are all the source's loop has. *)
Fixpoint ipv6_fields (rounds : nat) (ip : list Z) (ellipsis : option nat) (s : string)
  : option (list Z * option nat * string) :=
  match rounds with
  | O => Some (ip, ellipsis, s)
  | S rounds =>
      '(digits, acc, rest) ← hex_field s 0 0;
      if (digits =? 0)%nat then None
      else
        let longer := ip ++ [acc / 256; acc mod 256] in
        match rest with
        | EmptyString => Some (longer, ellipsis, "")
        | String "." _ =>
            if bool_decide (ellipsis = None) && negb (length ip =? 12)%nat then None
            else if (12 <? length ip)%nat then None
            else fields ← parse_ipv4 s; Some (ip ++ fields, ellipsis, "")
        | String ":" EmptyString => None
        | String ":" (String ":" rest) =>
            if bool_decide (ellipsis <> None) then None
            else if rest =s "" then Some (longer, Some (length longer), "")
            else ipv6_fields rounds longer (Some (length longer)) rest
        | String ":" rest => ipv6_fields rounds longer ellipsis rest
        | _ => None
        end
  end.
Definition parse_ipv6 (s : string) : option (list Z) :=
  if s =s "::" then Some (replicate 16 0)
  else
    let '(ellipsis, s) := match s with String ":" (String ":" s) => (Some O, s) | _ => (None, s) end in
    '(ip, ellipsis, rest) ← ipv6_fields 8 [] ellipsis s;
    if rest <>s "" then None
    else if (length ip <? 16)%nat then
      e ← ellipsis; Some (take e ip ++ replicate (16 - length ip) 0 ++ drop e ip)
    else if bool_decide (ellipsis <> None) then None else Some ip.

Definition v4_prefix : list Z := replicate 10 0 ++ [255; 255].

(** [net.ParseIP]: the sixteen bytes; the first of the three bytes decides,
    and an address with a zone is refused either way. *)
Fixpoint first_of (cs : list ascii) (s : string) : option ascii :=
  match s with
  | EmptyString => None
  | String c s => if existsb (Ascii.eqb c) cs then Some c else first_of cs s
  end.
Definition ParseIP (s : string) : option (list Z) :=
  match first_of ["."; ":"; "%"]%char s with
  | Some "."%char => (fun ip => v4_prefix ++ ip) <$> parse_ipv4 s
  | Some ":"%char => if str_exists (Ascii.eqb "%") s then None else parse_ipv6 s
  | _ => None
  end.

(** [IP.IsLoopback], through [To4]. *)
Definition IsLoopback (ip : list Z) : bool :=
  if bool_decide (take 12 ip = v4_prefix) then match drop 12 ip with a :: _ => a =? 127 | [] => false end
  else bool_decide (ip = replicate 15 0 ++ [1]).

(** ** [netpolicy] *)

(** Lower case is taken byte by byte: no rune outside ASCII maps to a letter
    of "localhost" or of an address. *)
Definition IsLoopbackHost (host : string) : bool :=
  let host := TrimSuffix (str_map lower_byte (TrimSpace host)) "." in
  if host =s "localhost" then true
  else match ParseIP host with Some ip => IsLoopback ip | None => false end.

(** [url.URL]. *)
Record URL := mkURL {
  u_Scheme : string; u_Opaque : string; u_User : option string; u_Host : string; u_Path : string;
  u_RawPath : string; u_OmitHost : bool; u_ForceQuery : bool; u_RawQuery : string;
  u_Fragment : string; u_RawFragment : string
}.

(** [net/url]: [Parse], [ParseRequestURI], and the methods [Hostname] and
    [String]. *)
Class NetURL := {
  url_Parse : string -> option URL;
  url_ParseRequestURI : string -> option URL;
  Hostname : URL -> string;
  url_String : URL -> string
}.

Inductive redis_url_error : Type := ErrRedisURLInvalid | ErrRedisURLPlaintext.

Definition ValidateRedisURL `{NetURL} (raw : string) : option redis_url_error :=
  match url_ParseRequestURI raw with
  | None => Some ErrRedisURLInvalid
  | Some parsed =>
      if u_Scheme parsed =s "" then Some ErrRedisURLInvalid
      else
        let scheme := str_map lower_byte (u_Scheme parsed) in
        if scheme =s "rediss" then if u_Host parsed <>s "" then None else Some ErrRedisURLPlaintext
        else if scheme =s "redis" then if IsLoopbackHost (Hostname parsed) then None else Some ErrRedisURLPlaintext
        else if scheme =s "unix" then
          if (u_Path parsed <>s "") || (u_Opaque parsed <>s "") then None else Some ErrRedisURLPlaintext
        else Some ErrRedisURLPlaintext
  end.

(** ** [jsonx] *)

Inductive strict_error : Type := ErrDecode (text : string) | ErrTrailingData.
Definition strict_text (e : strict_error) : string :=
  match e with ErrDecode text => text | ErrTrailingData => "trailing data" end.

(** [json.Decoder] with [DisallowUnknownFields]: the first value of the data,
    as an [A], and what follows it. *)
Class JSONDecoder (A : Type) := { decode_value : string -> result (A * string) string }.

Definition json_space (c : ascii) : bool := existsb (Ascii.eqb c) ["009"; "010"; "013"; " "]%char.

Definition DecodeStrict {A} `{JSONDecoder A} (data : string) : result A strict_error :=
  match decode_value data with
  | Err text => Err (ErrDecode text)
  | Ok (v, rest) => if str_forall json_space rest then Ok v else Err ErrTrailingData
  end.

(** ** Headers and bodies *)

(** The bytes of an HTTP token. *)
Definition token_byte (b : ascii) : bool :=
  byte_in 97 122 b || byte_in 65 90 b || byte_in 48 57 b ||
  existsb (Ascii.eqb b)
    ["!"; "#"; "$"; "%"; "&"; "'"; "*"; "+"; "-"; "."; "^"; "_"; "`"; "|"; "~"]%char.

(** [http.CanonicalHeaderKey]. *)
Fixpoint canonical_from (upper : bool) (s : string) : string :=
  match s with
  | EmptyString => EmptyString
  | String c s =>
      String (if upper then upper_byte c else lower_byte c) (canonical_from (Ascii.eqb c "-") s)
  end.
Definition CanonicalHeaderKey (s : string) : string :=
  if str_forall token_byte s then canonical_from true s else s.

Lemma lower_dash c : Ascii.eqb (lower_byte c) "-" = Ascii.eqb c "-" /\ Ascii.eqb (upper_byte c) "-" = Ascii.eqb c "-".
Proof. destruct c as [[] [] [] [] [] [] [] []]; by vm_compute. Qed.
Lemma case_again c : lower_byte (lower_byte c) = lower_byte c /\ upper_byte (upper_byte c) = upper_byte c.
Proof. destruct c as [[] [] [] [] [] [] [] []]; by vm_compute. Qed.
Lemma case_token c : token_byte (lower_byte c) = token_byte c /\ token_byte (upper_byte c) = token_byte c.
Proof. destruct c as [[] [] [] [] [] [] [] []]; by vm_compute. Qed.

Lemma canonical_from_again s : forall upper,
  canonical_from upper (canonical_from upper s) = canonical_from upper s /\
  str_forall token_byte (canonical_from upper s) = str_forall token_byte s.
Proof.
  induction s as [|c s IH]; intros upper; [done|]. cbn [canonical_from str_forall].
  destruct (lower_dash c) as [Hl Hu], (case_again c) as [Hl2 Hu2], (case_token c) as [Hlt Hut].
  destruct (IH (Ascii.eqb c "-")) as [IH1 IH2].
  destruct upper; rewrite ?Hl, ?Hu, ?Hl2, ?Hu2, ?Hlt, ?Hut, IH1, IH2; done.
Qed.

(** A key that is canonical stays as it is. *)
Lemma CanonicalHeaderKey_again s : CanonicalHeaderKey (CanonicalHeaderKey s) = CanonicalHeaderKey s.
Proof.
  unfold CanonicalHeaderKey. destruct (str_forall token_byte s) eqn:E; [|by rewrite E].
  destruct (canonical_from_again s true) as [-> ->]. by rewrite E.
Qed.

(** [http.Header]: [Set] keeps one value per canonical key. *)
Notation Header := (gmap string string).
Definition set_header (key value : string) (h : Header) : Header := <[CanonicalHeaderKey key := value]> h.

(** A body: its bytes, and the error it ends with instead of its end. *)
Record body : Set := mkBody { bd_bytes : string; bd_err : option string }.

(** [io.ReadAll(io.LimitReader(body, n))]. *)
Definition ReadLimited (n : Z) (b : body) : result string string :=
  if n <=? Z.of_nat (String.length (bd_bytes b)) then Ok (take_bytes (Z.to_nat n) (bd_bytes b))
  else match bd_err b with None => Ok (bd_bytes b) | Some e => Err e end.

Lemma strlen_take n s : (n <= String.length s)%nat -> String.length (take_bytes n s) = n.
Proof.
  unfold take_bytes. revert s. induction n as [|n IH]; intros [|c s]; cbn; try lia. intros H. rewrite IH; lia.
Qed.

(** A read that stays below the limit is the whole body. *)
Lemma ReadLimited_whole n b data : ReadLimited n b = Ok data -> 0 <= n -> Z.of_nat (String.length data) < n ->
  bd_err b = None /\ data = bd_bytes b.
Proof.
  unfold ReadLimited. destruct (n <=? Z.of_nat (String.length (bd_bytes b))) eqn:E.
  - intros [= <-] Hn H. apply Z.leb_le in E. rewrite strlen_take in H; lia.
  - destruct (bd_err b); [done|]. by intros [= <-].
Qed.

(** ** Checks *)

Example loopback_hosts : forallb IsLoopbackHost
  ["localhost"; "LOCALHOST"; "localhost."; " localhost "; "127.0.0.1"; "127.8.9.10"; "::1"; "0:0::0:1"; "::ffff:127.0.0.9"] = true.
Proof. vm_compute. reflexivity. Qed.
Example other_hosts : existsb IsLoopbackHost
  [""; "example.com"; "localhost.example.com"; "10.0.0.1"; "127.0.0.01"; "127.1"; "::2"; "::1%lo"; "1::1::1"; ":1"; "12345::"] = false.
Proof. vm_compute. reflexivity. Qed.

(** A dotted address. *)
Definition dotted (a b c d : Z) : string := Join "." (FormatUint <$> [a; b; c; d]).

Lemma octet_facts n : 0 <= n <= 255 ->
  ipv4_octet (FormatUint n) = Some n /\ without "." (FormatUint n) = true /\
  str_forall (fun c => digit_byte c) (FormatUint n) = true /\ FormatUint n <> "".
Proof.
  intros Hn.
  assert (H : forallb (fun n => bool_decide (ipv4_octet (FormatUint n) = Some n) && without "." (FormatUint n)
    && str_forall (fun c => digit_byte c) (FormatUint n) && (FormatUint n <>s "")) (seqZ 0 256) = true) by (vm_compute; reflexivity).
  rewrite forallb_forall in H. specialize (H n). rewrite !andb_true_iff, bool_decide_eq_true in H.
  destruct H as [[[H1 H2] H3] H4]; [apply list_elem_of_In, elem_of_seqZ; lia|].
  repeat split; try done. intros E. by rewrite E in H4.
Qed.

Definition dotted_byte (c : ascii) : bool := digit_byte c || Ascii.eqb c ".".
Lemma dotted_byte_facts c : dotted_byte c = true -> lower_byte c = c /\ plain_byte c = true.
Proof. destruct c as [[] [] [] [] [] [] [] []]; vm_compute; intros H; try discriminate H; done. Qed.
Lemma digits_dotted s : str_forall (fun c => digit_byte c) s = true -> str_forall dotted_byte s = true.
Proof.
  induction s as [|c s IH]; [done|]. cbn. intros [Hc Hs]%andb_true_iff. unfold dotted_byte at 1.
  by rewrite Hc, IH.
Qed.
Lemma dotted_bytes_same s : str_forall dotted_byte s = true -> str_map lower_byte s = s /\ TrimSpace s = s.
Proof.
  intros H. split.
  - induction s as [|c s IH]; [done|]. cbn in *. apply andb_true_iff in H as [Hc Hs].
    by rewrite (proj1 (dotted_byte_facts c Hc)), IH.
  - apply TrimSpace_plain. induction s as [|c s IH]; [done|]. cbn in *. apply andb_true_iff in H as [Hc Hs].
    by rewrite (proj2 (dotted_byte_facts c Hc)), IH.
Qed.
Lemma first_of_digits s r : str_forall (fun c => digit_byte c) s = true ->
  first_of ["."; ":"; "%"]%char (s +:+ String "." r) = Some "."%char.
Proof.
  induction s as [|c s IH]; [done|]. intros [Hc Hs]%andb_true_iff. specialize (IH Hs).
  destruct c as [[] [] [] [] [] [] [] []]; try discriminate Hc; exact IH.
Qed.
Lemma no_dot_at_end x s : str_forall (fun c => digit_byte c) s = true -> s <> "" -> TrimSuffix (x +:+ s) "." = x +:+ s.
Proof.
  intros Hs Hn. unfold TrimSuffix. rewrite str_rev_app, <- str_forall_rev in *.
  destruct (str_rev s) as [|c r] eqn:E; [by rewrite <- (str_rev_involutive s), E in Hn|].
  cbn in Hs |- *. apply andb_true_iff in Hs as [Hc _].
  destruct c as [[] [] [] [] [] [] [] []]; try discriminate Hc; done.
Qed.

(** [IsLoopbackHost] on dotted addresses is the network 127.0.0.0/8. *)
Lemma loopback_dotted a b c d : 0 <= a <= 255 -> 0 <= b <= 255 -> 0 <= c <= 255 -> 0 <= d <= 255 ->
  IsLoopbackHost (dotted a b c d) = (a =? 127).
Proof.
  intros Ha Hb Hc Hd. destruct (octet_facts a Ha) as (A1 & A2 & A3 & A4), (octet_facts b Hb) as (B1 & B2 & B3 & B4),
    (octet_facts c Hc) as (C1 & C2 & C3 & C4), (octet_facts d Hd) as (D1 & D2 & D3 & D4).
  unfold dotted, IsLoopbackHost. cbn [fmap list_fmap].
  set (s := Join "." _).
  assert (Es : s = FormatUint a +:+ String "." (FormatUint b +:+ String "." (FormatUint c +:+ String "." (FormatUint d)))) by done.
  assert (Hs : str_forall dotted_byte s = true).
  { rewrite Es. repeat (rewrite str_forall_app; cbn [str_forall]).
    by rewrite !digits_dotted. }
  destruct (dotted_bytes_same s Hs) as [Hl Ht]. rewrite Ht, Hl.
  assert (Et : TrimSuffix s "." = s).
  { replace s with ((FormatUint a +:+ "." +:+ FormatUint b +:+ "." +:+ FormatUint c +:+ ".") +:+ FormatUint d)
      by (rewrite Es, <- !str_app_assoc; done). by apply no_dot_at_end. }
  rewrite Et. destruct (s =s "localhost") eqn:El; [apply String.eqb_eq in El; by rewrite El in Hs|].
  unfold ParseIP. rewrite Es at 1. rewrite first_of_digits by done. unfold parse_ipv4.
  unfold s. rewrite Split_Join; [|done|repeat constructor; done]. cbn [mbind option_bind].
  rewrite A1, B1, C1, D1. cbn. unfold IsLoopback. cbn. reflexivity.
Qed.
