(* ===== verification/UrlEnc.v ===== *)
(** [net/url]: [QueryEscape] and [Values.Encode] for one value per key. *)

From Stdlib Require Import Ascii.
From stdpp Require Import sorting.
From S2P Require Import Prelude GoStr.
Local Open Scope Z_scope.
#[local] Arguments String.append !_ _ / : simpl nomatch.

(** [shouldEscape] in a query component: letters, digits and four marks stay. *)
Definition unreserved (c : ascii) : bool :=
  digit_byte c || byte_in 65 90 c || byte_in 97 122 c || existsb (Ascii.eqb c) ["-"; "_"; "."; "~"]%char.
Definition upperhex (n : nat) : ascii := default "0"%char (String.get n "0123456789ABCDEF").

Fixpoint QueryEscape (s : string) : string :=
  match s with
  | "" => ""
  | String c s =>
      if unreserved c then String c (QueryEscape s)
      else if Ascii.eqb c " " then String "+" (QueryEscape s)
      else String "%" (String (upperhex (nat_of_ascii c / 16)) (String (upperhex (nat_of_ascii c mod 16)) (QueryEscape s)))
  end.

(** [Values.Encode]: the pairs by their keys. *)
Definition key_le (a b : string * string) : Prop := String.leb (fst a) (fst b) = true.
#[export] Instance key_le_dec a b : Decision (key_le a b).
Proof. unfold key_le. apply _. Defined.
Definition encode_pair (p : string * string) : string := QueryEscape (fst p) +:+ "=" +:+ QueryEscape (snd p).
Definition Encode (q : gmap string string) : string :=
  Join "&"%char (encode_pair <$> merge_sort key_le (map_to_list q)).

(** ** What an encoded query can hold *)

(** An escaped text has none of the bytes that separate a query, end it or
    leave its line, and reads back. *)
Definition escaped_byte (c : ascii) : bool := unreserved c || Ascii.eqb c "+" || Ascii.eqb c "%".
Definition hex_value (c : ascii) : nat := if digit_byte c then nat_of_ascii c - 48 else nat_of_ascii c - 55.
Fixpoint unescape (s : string) : string :=
  match s with
  | "" => ""
  | String c r =>
      if Ascii.eqb c "%" then
        match r with
        | String a (String b r) => String (ascii_of_nat (16 * hex_value a + hex_value b)) (unescape r)
        | _ => s
        end
      else String (if Ascii.eqb c "+" then " "%char else c) (unescape r)
  end.

Lemma escape_byte c s : unescape (QueryEscape (String c "") +:+ s) = String c (unescape s) /\
  str_forall escaped_byte (QueryEscape (String c "")) = true.
Proof. destruct c as [[] [] [] [] [] [] [] []]; split; reflexivity. Qed.
Lemma QueryEscape_cons c s : QueryEscape (String c s) = QueryEscape (String c "") +:+ QueryEscape s.
Proof. cbn [QueryEscape]. destruct (unreserved c); [done|]. by destruct (Ascii.eqb c " "). Qed.

Lemma QueryEscape_inverse s : unescape (QueryEscape s) = s.
Proof.
  induction s as [|c s IH]; [done|]. rewrite QueryEscape_cons. destruct (escape_byte c (QueryEscape s)) as [E _]. by rewrite E, IH.
Qed.
Lemma QueryEscape_safe s : str_forall escaped_byte (QueryEscape s) = true.
Proof.
  induction s as [|c s IH]; [done|]. rewrite QueryEscape_cons, str_forall_app, IH. by destruct (escape_byte c "") as [_ ->].
Qed.
Lemma QueryEscape_inj a b : QueryEscape a = QueryEscape b -> a = b.
Proof. intros E. by rewrite <- (QueryEscape_inverse a), E, QueryEscape_inverse. Qed.

(** ** A query is read off its encoding *)

Lemma escaped_without c s : escaped_byte c = false -> str_forall escaped_byte s = true -> without c s = true.
Proof.
  intros Hc. unfold without. induction s as [|d s IH]; [done|]. cbn [str_forall]. intros [Hd Hs]%andb_true_iff.
  rewrite IH by done. destruct (Ascii.eqb_spec d c) as [->|]; [congruence|done].
Qed.

Lemma cut_unique c a : forall b x y, without c a = true -> without c b = true -> a +:+ String c x = b +:+ String c y -> a = b /\ x = y.
Proof.
  unfold without. induction a as [|d a IH]; intros [|e b] x y Ha Hb E; cbn in *.
  - by injection E.
  - injection E as <- _. by rewrite Ascii.eqb_refl in Hb.
  - injection E as -> _. by rewrite Ascii.eqb_refl in Ha.
  - apply andb_true_iff in Ha as [_ Ha]. apply andb_true_iff in Hb as [_ Hb]. injection E as -> E.
    by destruct (IH _ _ _ Ha Hb E) as [-> ->].
Qed.

Lemma encode_pair_inj p q : encode_pair p = encode_pair q -> p = q.
Proof.
  destruct p as [k v], q as [k' v']. unfold encode_pair. cbn [fst snd]. intros E.
  destruct (cut_unique "="%char (QueryEscape k) (QueryEscape k') (QueryEscape v) (QueryEscape v')) as [Hk Hv];
    [by apply escaped_without; [|apply QueryEscape_safe]..|exact E|].
  by rewrite (QueryEscape_inj _ _ Hk), (QueryEscape_inj _ _ Hv).
Qed.
Lemma encode_pair_without p : without "&"%char (encode_pair p) = true.
Proof.
  unfold encode_pair, without. rewrite !str_forall_app. cbn [str_forall].
  pose proof (escaped_without "&"%char _ eq_refl (QueryEscape_safe (fst p))) as H1.
  pose proof (escaped_without "&"%char _ eq_refl (QueryEscape_safe (snd p))) as H2. unfold without in *. by rewrite H1, H2.
Qed.
Lemma encode_pair_nonempty p : encode_pair p <> "".
Proof.
  intros E. apply (f_equal String.length) in E. unfold encode_pair in E. rewrite !strlen_app in E. cbn [String.length] in E. lia.
Qed.
#[local] Instance encode_pair_injective : Inj (=) (=) encode_pair := encode_pair_inj.

Lemma Encode_inj a b : Encode a = Encode b -> a = b.
Proof.
  intros E. apply map_to_list_inj.
  cut (merge_sort key_le (map_to_list a) = merge_sort key_le (map_to_list b)).
  { intros Es. etrans; [symmetry; apply (merge_sort_Permutation key_le)|]. rewrite Es. apply merge_sort_Permutation. }
  unfold Encode in E. revert E. generalize (merge_sort key_le (map_to_list a)), (merge_sort key_le (map_to_list b)).
  intros l l' E. apply (f_equal (Split "&"%char)) in E. apply (inj (fmap encode_pair)).
  assert (Hw : forall l, Forall (fun x => without "&"%char x = true) (encode_pair <$> l)).
  { intros k. apply Forall_fmap, Forall_true. intros p. apply encode_pair_without. }
  destruct l as [|p l], l' as [|q l']; [done| | |].
  - rewrite (Split_Join _ (encode_pair <$> q :: l')) in E by done. injection E as E _. by destruct (encode_pair_nonempty q).
  - rewrite (Split_Join _ (encode_pair <$> p :: l)) in E by done. injection E as E _. by destruct (encode_pair_nonempty p).
  - by rewrite !Split_Join in E.
Qed.

Example encode_some : Encode (<["text" := "a b&c"]> {["chat_id" := "-1"]}) = "chat_id=-1&text=a+b%26c".
Proof. vm_compute. reflexivity. Qed.
