(* ===== verification/KST.v ===== *)
(** [src/internal/kst/kst.go] and the parts of package [time] the program
    uses with it: civil dates of the proleptic Gregorian calendar, Korea
    Standard Time as a fixed offset, and the layout ["2006-01-02"].

    An instant is its nanoseconds since the Unix epoch. *)

From Stdlib Require Import Ascii.
From S2P Require Import Prelude GoStr.
Local Open Scope Z_scope.
#[local] Arguments String.append !_ _ / : simpl nomatch.

Definition nanosecond : Z := 1.
Definition second_ns : Z := 1000000000.
Definition minute_ns : Z := 60 * second_ns.
Definition hour_ns : Z := 60 * minute_ns.
Definition day_ns : Z := 24 * hour_ns.

(** [kst.Offset]. *)
Definition Offset : Z := 9 * hour_ns.

(** ** Civil dates *)

Record date := mkDate { d_year : Z; d_month : Z; d_day : Z }.
#[export] Instance date_eq_dec : EqDecision date. Proof. solve_decision. Defined.

(** The day number (0 is 1970-01-01) of a date; months count from March. *)
Definition days_of_date (d : date) : Z :=
  let y := if d_month d <=? 2 then d_year d - 1 else d_year d in
  let mp := if d_month d >? 2 then d_month d - 3 else d_month d + 9 in
  let era := y / 400 in
  let yoe := y - era * 400 in
  let doy := (153 * mp + 2) / 5 + d_day d - 1 in
  let doe := yoe * 365 + yoe / 4 - yoe / 100 + doy in
  era * 146097 + doe - 719468.

(** The date of a day inside its 400-year era. *)
Definition date_of_doe (era doe : Z) : date :=
  let yoe := (doe - doe / 1460 + doe / 36524 - doe / 146096) / 365 in
  let doy := doe - (365 * yoe + yoe / 4 - yoe / 100) in
  let mp := (5 * doy + 2) / 153 in
  let day := doy - (153 * mp + 2) / 5 + 1 in
  let month := if mp <? 10 then mp + 3 else mp - 9 in
  mkDate (yoe + era * 400 + (if month <=? 2 then 1 else 0)) month day.

Definition date_of_days (z : Z) : date :=
  date_of_doe ((z + 719468) / 146097) ((z + 719468) mod 146097).

(** The day number in KST of an instant, and its time of day. *)
Definition kst_days (ns : Z) : Z := (ns + Offset) / day_ns.
Definition kst_clock (ns : Z) : Z := (ns + Offset) mod day_ns.
Definition kst_date (ns : Z) : date := date_of_days (kst_days ns).

(** [time.Date] in KST, to the nanosecond. *)
Definition kst_instant (day : Z) (clock : Z) : Z := day * day_ns + clock - Offset.

(** ** The layout ["2006-01-02"] *)

Definition digit (n : Z) : ascii := ascii_of_nat (48 + Z.to_nat (n mod 10)).
Definition pad2 (n : Z) (rest : string) : string := String (digit (n / 10)) (String (digit n) rest).
Definition pad4 (n : Z) (rest : string) : string :=
  String (digit (n / 1000)) (String (digit (n / 100)) (pad2 n rest)).

Definition format_date (d : date) : string :=
  pad4 (d_year d) (String "-" (pad2 (d_month d) (String "-" (pad2 (d_day d) "")))).

(** ** The calendar round trip *)

Lemma doy_bounds doe : 0 <= doe < 146097 ->
  let yoe := (doe - doe / 1460 + doe / 36524 - doe / 146096) / 365 in
  let doy := doe - (365 * yoe + yoe / 4 - yoe / 100) in
  0 <= yoe <= 399 /\ 0 <= doy <= 365.
Proof.
  intros H yoe doy.
  assert (0 <= yoe <= 399) by (subst yoe; Z.to_euclidean_division_equations; lia).
  split; [done|]. subst doy.
  assert (doe - 365 * yoe - yoe / 4 + yoe / 100 >= 0)
    by (subst yoe; Z.to_euclidean_division_equations; lia).
  subst yoe. Z.to_euclidean_division_equations; lia.
Qed.

(** A date of the era, from its year and its day of the year. *)
Lemma date_of_doe_facts era doe : 0 <= doe < 146097 ->
  let d := date_of_doe era doe in
  days_of_date d + 719468 = era * 146097 + doe /\
  era * 400 <= d_year d <= era * 400 + 400 /\ 1 <= d_month d <= 12 /\ 1 <= d_day d <= 31.
Proof.
  intros H. destruct (doy_bounds doe H) as [Hy Hd]. unfold date_of_doe, days_of_date. cbv zeta in *.
  cbn [d_year d_month d_day].
  set (yoe := (doe - doe / 1460 + doe / 36524 - doe / 146096) / 365) in *.
  set (doy := doe - (365 * yoe + yoe / 4 - yoe / 100)) in *.
  set (mp := (5 * doy + 2) / 153). assert (Hm : 0 <= mp <= 11) by (subst mp; Z.to_euclidean_division_equations; lia).
  assert (Hday : 1 <= doy - (153 * mp + 2) / 5 + 1 <= 31)
    by (subst mp; Z.to_euclidean_division_equations; lia).
  set (month := if mp <? 10 then mp + 3 else mp - 9).
  assert (Hmon : 1 <= month <= 12 /\ (if month >? 2 then month - 3 else month + 9) = mp).
  { subst month. rewrite Z.gtb_ltb. destruct (Z.ltb_spec mp 10);
      destruct (Z.ltb_spec 2 (mp + 3)); destruct (Z.ltb_spec 2 (mp - 9)); lia. }
  destruct Hmon as [Hmon Emp]. rewrite Emp.
  set (y := if month <=? 2 then yoe + era * 400 + (if month <=? 2 then 1 else 0) - 1
            else yoe + era * 400 + (if month <=? 2 then 1 else 0)).
  assert (Ey : y = yoe + era * 400) by (subst y; destruct (month <=? 2); lia).
  rewrite Ey, Z.div_add, (Z.div_small yoe 400) by lia.
  replace (yoe + era * 400 - (0 + era) * 400) with yoe by lia.
  split; [subst doy; lia|]. split; [destruct (month <=? 2); lia|]. split; [lia|lia].
Qed.

Lemma date_round_trip z : days_of_date (date_of_days z) = z.
Proof.
  unfold date_of_days. pose proof (Z.mod_pos_bound (z + 719468) 146097 ltac:(lia)) as Hm.
  destruct (date_of_doe_facts ((z + 719468) / 146097) _ Hm) as [H _].
  pose proof (Z.div_mod (z + 719468) 146097 ltac:(lia)). lia.
Qed.

Lemma day_ns_pos : 0 < day_ns.
Proof. reflexivity. Qed.

Lemma kst_split ns : ns = kst_instant (kst_days ns) (kst_clock ns) /\ 0 <= kst_clock ns < day_ns.
Proof.
  unfold kst_instant, kst_days, kst_clock. pose proof day_ns_pos.
  pose proof (Z.div_mod (ns + Offset) day_ns ltac:(lia)).
  pose proof (Z.mod_pos_bound (ns + Offset) day_ns ltac:(lia)). lia.
Qed.

(** ** The layout is injective on four-digit years *)

Lemma digit_inj a b : digit a = digit b -> a mod 10 = b mod 10.
Proof.
  unfold digit. intros H. apply (f_equal nat_of_ascii) in H.
  pose proof (Z.mod_pos_bound a 10 ltac:(lia)). pose proof (Z.mod_pos_bound b 10 ltac:(lia)).
  rewrite !nat_ascii_embedding in H by lia. lia.
Qed.

Lemma pad2_inj a b r s : 0 <= a <= 99 -> 0 <= b <= 99 -> pad2 a r = pad2 b s -> a = b /\ r = s.
Proof.
  intros Ha Hb H. unfold pad2 in H. injection H as H1 H2 H3.
  apply digit_inj in H1, H2. split; [|done]. Z.to_euclidean_division_equations. lia.
Qed.

Lemma pad4_inj a b r s : 0 <= a <= 9999 -> 0 <= b <= 9999 -> pad4 a r = pad4 b s -> a = b /\ r = s.
Proof.
  intros Ha Hb H. unfold pad4, pad2 in H. injection H as H1 H2 H3 H4 H5.
  apply digit_inj in H1, H2, H3, H4. split; [|done]. Z.to_euclidean_division_equations. lia.
Qed.

Definition date_ok (d : date) : Prop :=
  0 <= d_year d <= 9999 /\ 1 <= d_month d <= 12 /\ 1 <= d_day d <= 31.

Lemma tail_inj c (r s : string) : String c r = String c s -> r = s.
Proof. by intros [= ->]. Qed.

Lemma format_date_inj a b : date_ok a -> date_ok b -> format_date a = format_date b -> a = b.
Proof.
  intros (A1 & A2 & A3) (B1 & B2 & B3) H. unfold format_date in H.
  apply pad4_inj in H as [Hy H1]; [|lia|lia]. apply tail_inj in H1 as H2.
  apply pad2_inj in H2 as [Hm H3]; [|lia|lia]. apply tail_inj in H3 as H4.
  apply pad2_inj in H4 as [Hd _]; [|lia|lia]. destruct a, b; cbn in *; congruence.
Qed.

(** Instants that fit in an [int64] lie in the years 1677 to 2262. *)
Lemma kst_date_ok ns : in_int64 ns -> date_ok (kst_date ns).
Proof.
  intros H. unfold kst_date, date_of_days.
  assert (Hd : -106752 <= kst_days ns <= 106752).
  { unfold kst_days, Offset, day_ns, hour_ns, minute_ns, second_ns, in_int64, min_int64, max_int64 in *.
    Z.to_euclidean_division_equations. lia. }
  pose proof (Z.mod_pos_bound (kst_days ns + 719468) 146097 ltac:(lia)) as Hm.
  assert (4 <= (kst_days ns + 719468) / 146097 <= 5) by (Z.to_euclidean_division_equations; lia).
  destruct (date_of_doe_facts ((kst_days ns + 719468) / 146097) _ Hm) as (_ & ? & ? & ?).
  unfold date_ok. lia.
Qed.
