(* ===== verification/Sha256.v ===== *)
(** [crypto/sha256] of the standard library, as far as [DeriveFillSeq] uses it:
    [Sum256] on a string of bytes.

    The round constants are the fractional parts of the cube roots of the first
    64 primes and the initial state those of the square roots of the first
    eight; they are computed here, not listed. *)

From Stdlib Require Import Ascii.
From S2P Require Import Prelude GoStr.
Local Open Scope Z_scope.

(** ** 32-bit words *)

Definition w32 (z : Z) : Z := z mod 4294967296.
Definition ror (n x : Z) : Z := Z.lor (Z.shiftr x n) (w32 (Z.shiftl x (32 - n))).
Definition not32 (x : Z) : Z := Z.lxor x 4294967295.

Definition Ch (x y z : Z) : Z := Z.lxor (Z.land x y) (Z.land (not32 x) z).
Definition Maj (x y z : Z) : Z := Z.lxor (Z.lxor (Z.land x y) (Z.land x z)) (Z.land y z).
Definition Sigma0 (x : Z) : Z := Z.lxor (Z.lxor (ror 2 x) (ror 13 x)) (ror 22 x).
Definition Sigma1 (x : Z) : Z := Z.lxor (Z.lxor (ror 6 x) (ror 11 x)) (ror 25 x).
Definition sigma0 (x : Z) : Z := Z.lxor (Z.lxor (ror 7 x) (ror 18 x)) (Z.shiftr x 3).
Definition sigma1 (x : Z) : Z := Z.lxor (Z.lxor (ror 17 x) (ror 19 x)) (Z.shiftr x 10).

(** ** The constants *)

Definition prime (n : Z) : bool :=
  (2 <=? n) && forallb (fun d => negb (n mod d =? 0)) (seqZ 2 (Z.sqrt n - 1)).
Definition primes : list Z := List.filter prime (seqZ 2 310).

(** The largest [r] below [2 ^ bits] whose cube is at most [n]. *)
Fixpoint cbrt (bits : nat) (n r : Z) : Z :=
  match bits with
  | O => r
  | S bits =>
      let r' := r + Z.shiftl 1 (Z.of_nat bits) in
      cbrt bits n (if r' * r' * r' <=? n then r' else r)
  end.

Definition round_constants : list Z :=
  Eval vm_compute in (fun p => w32 (cbrt 40 (Z.shiftl p 96) 0)) <$> take 64 primes.
Definition initial_state : list Z :=
  Eval vm_compute in (fun p => w32 (Z.sqrt (Z.shiftl p 64))) <$> take 8 primes.

(** ** The compression function *)

(** The sixteen latest words of the schedule, the latest first, and the word
    that follows them. *)
Definition next_word (ws : list Z) : Z :=
  let w i := nth i ws 0 in
  w32 (sigma1 (w 1%nat) + w 6%nat + sigma0 (w 14%nat) + w 15%nat).
Fixpoint schedule (n : nat) (ws : list Z) : list Z :=
  match n with
  | O => rev ws
  | S n => schedule n (next_word ws :: ws)
  end.

Definition round (st : list Z) (kw : Z * Z) : list Z :=
  match st with
  | [a; b; c; d; e; f; g; h] =>
      let t1 := h + Sigma1 e + Ch e f g + kw.1 + kw.2 in
      let t2 := Sigma0 a + Maj a b c in
      [w32 (t1 + t2); a; b; c; w32 (d + t1); e; f; g]
  | _ => st
  end.

Definition compress (st block : list Z) : list Z :=
  zip_with (fun x y => w32 (x + y)) st
    (fold_left round (zip round_constants (schedule 48 (rev block))) st).

(** ** Padding and the digest *)

Fixpoint bytes_be (n : nat) (z : Z) : list Z :=
  match n with
  | O => []
  | S n => (Z.shiftr z (8 * Z.of_nat n)) mod 256 :: bytes_be n z
  end.

Definition str_bytes (s : string) : list Z :=
  (fun c => Z.of_nat (nat_of_ascii c)) <$> String.list_ascii_of_string s.

Definition padded (msg : list Z) : list Z :=
  let n := length msg in
  msg ++ [128] ++ replicate (Z.to_nat ((55 - Z.of_nat n) mod 64)) 0 ++ bytes_be 8 (8 * Z.of_nat n).

(** Big-endian words of four bytes. *)
Fixpoint words (l : list Z) : list Z :=
  match l with
  | a :: b :: c :: d :: l => (((a * 256 + b) * 256 + c) * 256 + d) :: words l
  | _ => []
  end.

Fixpoint blocks (fuel : nat) (st ws : list Z) : list Z :=
  match fuel, ws with
  | _, [] | O, _ => st
  | S fuel, _ => blocks fuel (compress st (take 16 ws)) (drop 16 ws)
  end.

Definition digest_words (msg : list Z) : list Z :=
  let ws := words (padded msg) in blocks (length ws) initial_state ws.

(** [sha256.Sum256([]byte(s))]. *)
Definition Sum256 (s : string) : list Z := digest_words (str_bytes s) ≫= bytes_be 4.

(** Published test vectors: the empty message, "abc" and one of two blocks. *)
Example sum_empty : take 4 (Sum256 "") = [227; 176; 196; 66].
Proof. vm_compute. reflexivity. Qed.
Example sum_abc : take 8 (Sum256 "abc") = [186; 120; 22; 191; 143; 1; 207; 234].
Proof. vm_compute. reflexivity. Qed.
Example sum_two :
  take 8 (Sum256 "abcdbcdecdefdefgefghfghighijhijkijkljklmklmnlmnomnopnopq")
  = [36; 141; 106; 97; 210; 6; 56; 184].
Proof. vm_compute. reflexivity. Qed.

(** ** The digest has bytes *)

Lemma bytes_be_length n z : length (bytes_be n z) = n.
Proof. induction n as [|n IH]; [done|]. cbn. by rewrite IH. Qed.

Lemma bytes_be_range n z : Forall (fun b => 0 <= b < 256) (bytes_be n z).
Proof.
  induction n as [|n IH]; [constructor|]. cbn [bytes_be]. constructor; [|done].
  apply Z.mod_pos_bound. lia.
Qed.
