(* ===== verification/GoFloat.v ===== *)
(** Go's [float64]: the binary64 numbers of the Standard Library's [SpecFloat],
    and the conversions from and to [int64] the program writes. *)

From Stdlib Require Import SpecFloat.
From S2P Require Import Prelude.
Local Open Scope Z_scope.

Definition float_one : spec_float := binary_normalize 53 1024 1 0 false.

(** [float64(d)], and [time.Duration(f)]: truncation, and the most negative
    value for what does not fit, as amd64 converts. *)
Definition float_of_int (d : Z) : spec_float := binary_normalize 53 1024 d 0 false.
Definition int_of_float (f : spec_float) : Z :=
  match f with
  | S754_zero _ => 0
  | S754_finite s m e =>
      let a := if 0 <=? e then Z.pos m * 2 ^ e else Z.pos m / 2 ^ (- e) in
      let z := if s then - a else a in
      if (min_int64 <=? z) && (z <=? max_int64) then z else min_int64
  | _ => min_int64
  end.

(** The product of two [float64]. *)
Definition float_mul (a b : spec_float) : spec_float := SFmul 53 1024 a b.

Example half_more : int_of_float (float_mul (float_of_int 1000000000) (SFdiv 53 1024 (float_of_int 3) (float_of_int 2)))
  = 1500000000.
Proof. vm_compute. reflexivity. Qed.
Example too_big : int_of_float (float_of_int (2 ^ 63)) = min_int64.
Proof. vm_compute. reflexivity. Qed.
Example below_zero : int_of_float (SFdiv 53 1024 (float_of_int (-3)) (float_of_int 2)) = -1.
Proof. vm_compute. reflexivity. Qed.
