(* ===== verification/Duration.v ===== *)
(** [time.ParseDuration], byte for byte: what the configurations of the
    commands read their durations with. *)

From Stdlib Require Import Ascii SpecFloat.
From S2P Require Import Prelude GoStr GoFloat.
Local Open Scope Z_scope.
#[local] Arguments String.append !_ _ / : simpl nomatch.

Definition two63 : Z := 9223372036854775808.

(** [unitMap]; the micro signs are U+00B5 and U+03BC. *)
Definition units : list (string * Z) :=
  [("ns", 1); ("us", 1000); (bytes_of [194; 181; 115]%nat, 1000); (bytes_of [206; 188; 115]%nat, 1000);
   ("ms", 1000000); ("s", 1000000000); ("m", 60000000000); ("h", 3600000000000)].
Definition find_unit (u : string) : option Z := snd <$> find (fun p => fst p =s u) units.

(** [leadingInt]: [None] on overflow. *)
Fixpoint leadingInt (s : string) (x : Z) : option (Z * string) :=
  match s with
  | String c rest =>
      if digit_byte c then
        if x >? two63 / 10 then None
        else
          let x := x * 10 + digit_value c in
          if x >? two63 then None else leadingInt rest x
      else Some (x, s)
  | "" => Some (x, "")
  end.

(** [leadingFraction]; digits after an overflow are dropped. *)
Fixpoint leadingFraction (s : string) (x : Z) (scale : spec_float) (over : bool) : Z * spec_float * string :=
  match s with
  | String c rest =>
      if digit_byte c then
        if over || (x >? max_int64 / 10) then leadingFraction rest x scale true
        else
          let y := x * 10 + digit_value c in
          if y >? two63 then leadingFraction rest x scale true
          else leadingFraction rest y (float_mul scale (float_of_int 10)) false
      else (x, scale, s)
  | "" => (x, scale, "")
  end.

(** The unit: up to the next digit or point. *)
Fixpoint take_unit (s : string) : string * string :=
  match s with
  | String c rest =>
      if digit_byte c || Ascii.eqb c "." then ("", s)
      else let '(u, rest) := take_unit rest in (String c u, rest)
  | "" => ("", "")
  end.

(** One number with its unit. *)
Definition one_duration (s : string) : option (Z * string) :=
  match s with
  | "" => None
  | String c _ =>
      if negb (digit_byte c || Ascii.eqb c ".") then None
      else
        '(v, s1) ← leadingInt s 0;
        let pre := negb (String.length s1 =? String.length s)%nat in
        let '(f, scale, s2, post) :=
          match s1 with
          | String "." s2 =>
              let '(f, scale, s3) := leadingFraction s2 0 float_one false in
              (f, scale, s3, negb (String.length s3 =? String.length s2)%nat)
          | _ => (0, float_one, s1, false)
          end in
        if negb (pre || post) then None
        else
          let '(u, rest) := take_unit s2 in
          unit ← (if u =s "" then None else find_unit u);
          if v >? two63 / unit then None
          else
            let v := v * unit in
            let v := if f >? 0 then v + int_of_float (float_mul (float_of_int f) (SFdiv 53 1024 (float_of_int unit) scale)) else v in
            if v >? two63 then None else Some (v, rest)
  end.

(** The loop; every round takes a byte. *)
Fixpoint durations (n : nat) (s : string) (d : Z) : option Z :=
  match n, s with
  | _, "" => Some d
  | O, _ => None
  | S n, _ =>
      '(v, s) ← one_duration s;
      let d := wrapu64 (d + v) in
      if d >? two63 then None else durations n s d
  end.

(** [ParseDuration]. *)
Definition ParseDuration (s : string) : option Z :=
  let '(neg, s) :=
    match s with
    | String "-" s => (true, s)
    | String "+" s => (false, s)
    | _ => (false, s)
    end in
  if s =s "0" then Some 0
  else if s =s "" then None
  else
    d ← durations (String.length s) s 0;
    if neg then Some (- d) else if d >? max_int64 then None else Some d.

Example hour : ParseDuration "1h" = Some 3600000000000. Proof. vm_compute. reflexivity. Qed.
Example mixed : ParseDuration "-1h2m0.5s" = Some (-3720500000000). Proof. vm_compute. reflexivity. Qed.
Example micro : ParseDuration (bytes_of [49; 46; 53; 194; 181; 115]%nat) = Some 1500. Proof. vm_compute. reflexivity. Qed.
Example third : ParseDuration "0.33333333333333333333h" = Some 1200000000000. Proof. vm_compute. reflexivity. Qed.
Example lone_point : ParseDuration ".s" = None. Proof. vm_compute. reflexivity. Qed.
Example no_unit : ParseDuration "5" = None. Proof. vm_compute. reflexivity. Qed.
Example too_long : ParseDuration "9223372036854775808ns" = None. Proof. vm_compute. reflexivity. Qed.
Example longest_back : ParseDuration "-9223372036854775808ns" = Some min_int64. Proof. vm_compute. reflexivity. Qed.

(** A duration is an [int64]. *)
Lemma durations_bound n : forall s d d', 0 <= d <= two63 -> durations n s d = Some d' -> 0 <= d' <= two63.
Proof.
  induction n as [|n IH]; intros s d d' Hd H; cbn [durations] in H; [destruct s; [by injection H as <-|done]|].
  destruct s as [|c s]; [by injection H as <-|]. destruct (one_duration _) as [[v rest]|]; [|done].
  cbn [mbind option_bind] in H. cbv zeta in H. destruct (wrapu64 (d + v) >? two63) eqn:E; [done|].
  rewrite Z.gtb_ltb in E. bool_simpl. eapply IH; [|exact H]. split; [apply Z.mod_pos_bound; lia|done].
Qed.
Lemma ParseDuration_int64 s d : ParseDuration s = Some d -> in_int64 d.
Proof.
  unfold ParseDuration. match goal with |- context [let '(neg, s) := ?m in _] => destruct m as [neg t] end.
  destruct (t =s "0"); [intros [= <-]; in64|]. destruct (t =s ""); [done|].
  destruct (durations _ t 0) as [d'|] eqn:E; [|done]. cbn [mbind option_bind].
  apply durations_bound in E; [|unfold two63; lia]. unfold two63 in E. destruct neg; [intros [= <-]; in64|].
  destruct (d' >? max_int64) eqn:Eg; [done|]. intros [= <-]. rewrite Z.gtb_ltb in Eg. bool_simpl. in64.
Qed.
