(* ===== verification/Decode.v ===== *)
(** [src/internal/decode]: the pipeline counters, the classification of a KIS
    execution notice, the bounded duplicate tracker and the decoder that turns
    an execution event into a ledger record.

    The types and methods of go-kis's websocket package are parameters of the
    section; logging is left out. *)

From Stdlib Require Import Ascii QArith_base.
From S2P Require Import Prelude GoStr KST Sha256.
Local Open Scope Z_scope.
#[local] Arguments String.append !_ _ / : simpl nomatch.

(** ** Counters *)

(** [Counters]: atomics of 64 bits; the fields of [CounterSnapshot]. *)
Record Counters := mkCounters {
  dropped : Z; dupSuspect : Z; xadded : Z; xacked : Z; xackShortfall : Z; ingestFailures : Z;
  drainDropped : Z; nonFillOrder : Z; nonFillReject : Z; nonFillCancel : Z; nonFillUnknown : Z;
  sinkNonFill : Z
}.
Definition NewCounters : Counters := mkCounters 0 0 0 0 0 0 0 0 0 0 0 0.

(** [Snapshot]; a nil pointer is [None]. *)
Definition Snapshot (c : option Counters) : Counters := default NewCounters c.

Definition add_to (n x : Z) : Z := wrapu64 (x + n).

Definition IncDropped (c : option Counters) : option Counters :=
  (fun '(mkCounters a b c d e f g h i j k l) => mkCounters (add_to 1 a) b c d e f g h i j k l) <$> c.
Definition IncDupSuspect (c : option Counters) : option Counters :=
  (fun '(mkCounters a b c d e f g h i j k l) => mkCounters a (add_to 1 b) c d e f g h i j k l) <$> c.
Definition IncXAdded (c : option Counters) : option Counters :=
  (fun '(mkCounters a b c d e f g h i j k l) => mkCounters a b (add_to 1 c) d e f g h i j k l) <$> c.
Definition AddXAcked (n : Z) (c : option Counters) : option Counters :=
  if n >? 0 then
    (fun '(mkCounters a b c d e f g h i j k l) => mkCounters a b c (add_to n d) e f g h i j k l) <$> c
  else c.
Definition AddXAckShortfall (n : Z) (c : option Counters) : option Counters :=
  if n >? 0 then
    (fun '(mkCounters a b c d e f g h i j k l) => mkCounters a b c d (add_to n e) f g h i j k l) <$> c
  else c.
Definition IncIngestFailure (c : option Counters) : option Counters :=
  (fun '(mkCounters a b c d e f g h i j k l) => mkCounters a b c d e (add_to 1 f) g h i j k l) <$> c.
Definition AddDrainDropped (n : Z) (c : option Counters) : option Counters :=
  if n >? 0 then
    (fun '(mkCounters a b c d e f g h i j k l) => mkCounters a b c d e f (add_to n g) h i j k l) <$> c
  else c.
Definition IncSinkNonFill (c : option Counters) : option Counters :=
  (fun '(mkCounters a b c d e f g h i j k l) => mkCounters a b c d e f g h i j k (add_to 1 l)) <$> c.

(** ** Notices *)

Definition idxOrderNo : nat := 2.
Definition idxSide : nat := 4.
Definition idxRctfCls : nat := 5.
Definition idxSymbol : nat := 8.
Definition idxCntgQty : nat := 9.
Definition idxCntgUnpr : nat := 10.
Definition idxCntgHour : nat := 11.
Definition idxRfusYN : nat := 12.
Definition idxCntgYN : nat := 13.
Definition idxAcptYN : nat := 14.
Definition minNoticeFields : nat := S idxAcptYN.

Definition NoticeFill : string := "fill".
Definition NoticeOrder : string := "order_notice".
Definition NoticeRejected : string := "rejected".
Definition NoticeCanceled : string := "canceled".
Definition NoticeUnknown : string := "unknown".

(** [IncNonFill]. *)
Definition IncNonFill (kind : string) (c : option Counters) : option Counters :=
  (fun '(mkCounters a b c d e f g h i j k l) =>
     if kind =s NoticeOrder then mkCounters a b c d e f g (add_to 1 h) i j k l
     else if kind =s NoticeRejected then mkCounters a b c d e f g h (add_to 1 i) j k l
     else if kind =s NoticeCanceled then mkCounters a b c d e f g h i (add_to 1 j) k l
     else mkCounters a b c d e f g h i j (add_to 1 k) l) <$> c.

(** [fields[index]]; the callers have checked the length. *)
Definition field (fields : list string) (index : nat) : string := default "" (fields !! index).

Definition codeField (fields : list string) (index : nat) : string :=
  let value := TrimSpace (field fields index) in
  if (value =s "") || (TrimSet digit_byte value <>s "") then value
  else
    let trimmed := TrimLeftByte "0" value in
    if trimmed =s "" then "0" else trimmed.

(** ** The duplicate tracker *)

Record duplicateKey := mkDuplicateKey { dk_orderNo : string; dk_fillSeq : Z }.
#[export] Instance duplicateKey_eq_dec : EqDecision duplicateKey. Proof. solve_decision. Defined.
#[export] Instance duplicateKey_countable : Countable duplicateKey.
Proof.
  refine (inj_countable' (fun k => (dk_orderNo k, dk_fillSeq k)) (fun '(o, s) => mkDuplicateKey o s) _).
  by intros [].
Defined.

Record duplicateTracker := mkDuplicateTracker {
  dt_max : Z; dt_counts : gmap duplicateKey Z; dt_fifo : list duplicateKey
}.

Definition newDuplicateTracker (max : Z) : duplicateTracker :=
  mkDuplicateTracker (if max <=? 0 then 10000 else max) ∅ [].

(** [observe]: [None] is the run-time panic of [t.fifo[0]] on an empty queue. *)
Definition observe (t : duplicateTracker) (key : duplicateKey) : option (duplicateTracker * Z) :=
  match dt_counts t !! key with
  | Some count =>
      let count := wrapu64 (count + 1) in
      Some (mkDuplicateTracker (dt_max t) (<[key := count]> (dt_counts t)) (dt_fifo t), count)
  | None =>
      evicted ← (if Z.of_nat (size (dt_counts t)) >=? dt_max t then
                   match dt_fifo t with
                   | oldest :: fifo => Some (delete oldest (dt_counts t), fifo)
                   | [] => None
                   end
                 else Some (dt_counts t, dt_fifo t));
      Some (mkDuplicateTracker (dt_max t) (<[key := 1]> evicted.1) (evicted.2 ++ [key]), 1)
  end.

Definition tracker_size (t : duplicateTracker) : Z := Z.of_nat (size (dt_counts t)).

(** ** The fill time *)

(** [time]'s [getnum]. *)
Definition getnum (fixed : bool) (s : string) : option (Z * string) :=
  match s with
  | String a r =>
      if digit_byte a then
        match r with
        | String b r' =>
            if digit_byte b then Some (digit_value a * 10 + digit_value b, r')
            else if fixed then None else Some (digit_value a, r)
        | EmptyString => if fixed then None else Some (digit_value a, r)
        end
      else None
  | EmptyString => None
  end.

(** After the seconds [time.Parse] takes a fraction the layout does not name. *)
Definition skip_fraction (s : string) : string :=
  match s with
  | String p (String d _ as r) =>
      if ((Ascii.eqb p "." || Ascii.eqb p ",") && digit_byte d)%bool then TrimLeftSet digit_byte r else s
  | _ => s
  end.

(** [time.ParseInLocation("150405", s, kstZone)], as its hour, minute and
    second. *)
Definition parse_clock (s : string) : option (Z * Z * Z) :=
  '(h, s) ← getnum false s;
  if h >=? 24 then None
  else
    '(m, s) ← getnum true s;
    if m >=? 60 then None
    else
      '(sec, s) ← getnum true s;
      if sec >=? 60 then None
      else if skip_fraction s =s "" then Some (h, m, sec) else None.

Definition clock_ns (c : Z * Z * Z) : Z :=
  let '(h, m, s) := c in h * hour_ns + m * minute_ns + s * second_ns.

(** [combineKSTDate]: [AddDate(0, 0, -1)] is the day before, at the same clock
    of a fixed zone. *)
Definition combineKSTDate (receivedAt : Z) (filledAt : string) : option Z :=
  clock ← parse_clock filledAt;
  let candidate := kst_instant (kst_days receivedAt) (clock_ns clock) in
  Some (if candidate >? receivedAt + hour_ns
        then kst_instant (kst_days receivedAt - 1) (clock_ns clock) else candidate).

(** [DeriveFillSeq]. *)
Definition DeriveFillSeq (fields : list string) : Z :=
  Z.land (from_option id 0 (head (words (take 4 (Sum256 (Join "^" fields)))))) 2147483647.

(** ** The decoder *)

(** go-kis's [ws.Execution] and [ws.Event], as far as the program reads them. *)
Record Execution := mkExecution {
  ex_OrderNo : string; ex_Symbol : string; ex_Qty : string; ex_Price : string;
  ex_FilledAt : string; ex_Filled : string; ex_Side : string
}.
Record KisEvent := mkKisEvent {
  ev_TR : string; ev_Fields : list string; ev_ReceivedAt : Z; ev_Execution : option Execution
}.

Record RawPayload := mkRawPayload {
  rw_TR : string; rw_Fields : list string; rw_ReceivedAt : Z; rw_DupSuspect : bool;
  rw_DupObservationCount : Z
}.

(** [Record]. *)
Record LedgerRecord := mkLedgerRecord {
  Broker : string; AccountMode : string; lr_Venue : string; lr_InstrumentType : string;
  lr_Symbol : string; RawSymbol : string; lr_Side : string; BrokerOrderID : string;
  FillSeq : Z; FilledQty : string; FilledPrice : string; FilledNotional : option string;
  FeeAmount : option string; FeeCurrency : string; FilledAt : Z; Currency : string;
  CorrelationID : option string; RawPayloadJSON : RawPayload; DupSuspect : bool;
  DupObservationCount : Z
}.

Record Decoder := mkDecoder {
  accountMode : string; dc_venue : string; duplicates : duplicateTracker
}.
(** [New]; the counters are shared with the rest of the pipeline and travel
    beside the decoder. *)
Definition NewDecoder (mode venue : string) (dupTrackMax : Z) : Decoder :=
  mkDecoder mode venue (newDuplicateTracker dupTrackMax).

Definition Dropped (c : option Counters) : Z := dropped (Snapshot c).
Definition NonFill (c : option Counters) : Z :=
  let s := Snapshot c in
  wrapu64 (nonFillOrder s + nonFillReject s + nonFillCancel s + nonFillUnknown s).
Definition TrackerSize (d : Decoder) : Z := tracker_size (duplicates d).

(** What the program takes from go-kis: which TR is an execution notice, the
    three sides, and the two parsers of an execution.  [upper] is
    [strings.ToUpper] on strings outside ASCII. *)
Class GoKis := {
  IsExecution : string -> bool;
  SideBuy : string; SideSell : string; SideUnknown : string;
  QtyInt : Execution -> option Z;
  PriceRat : Execution -> option Q;
  upper : string -> string
}.

Section Decode.
Context {kis : GoKis}.

(** [strings.ToUpper]. *)
Definition ToUpper (s : string) : string :=
  if str_forall ascii_byte s then str_map upper_byte s else upper s.

Definition ClassifyNotice (tr : string) (fields : list string) : string :=
  if negb (IsExecution tr) || (length fields <? minNoticeFields)%nat then NoticeUnknown
  else
    let rfus := codeField fields idxRfusYN in
    let rctf := codeField fields idxRctfCls in
    let acpt := codeField fields idxAcptYN in
    let cntg := codeField fields idxCntgYN in
    if rfus =s "1" then NoticeRejected
    else if rfus <>s "0" then NoticeUnknown
    else if rctf =s "2" then NoticeCanceled
    else if negb ((rctf =s "0") || (rctf =s "1")) then NoticeUnknown
    else if acpt =s "3" then NoticeCanceled
    else if negb ((acpt =s "1") || (acpt =s "2")) then NoticeUnknown
    else if cntg =s "2" then NoticeFill
    else if cntg =s "1" then NoticeOrder
    else NoticeUnknown.

Definition frameSide (code : string) : string :=
  let code := TrimSpace code in
  if (code =s "01") || (code =s "1") || (code =s "S") then SideSell
  else if (code =s "02") || (code =s "2") || (code =s "B") then SideBuy
  else SideUnknown.

Definition checkExecutionMatchesFrame (e : Execution) (fields : list string) : bool :=
  if (length fields <? minNoticeFields)%nat then false
  else (ex_OrderNo e =s field fields idxOrderNo) && (ex_Symbol e =s field fields idxSymbol) &&
       (ex_Qty e =s field fields idxCntgQty) && (ex_Price e =s field fields idxCntgUnpr) &&
       (ex_FilledAt e =s field fields idxCntgHour) && (ex_Filled e =s field fields idxCntgYN) &&
       (ex_Side e =s frameSide (field fields idxSide)).

(** [Decode]: the decoder and the counters after, and the record; [None] is a
    run-time panic of the tracker. *)
Definition Decode (d : Decoder) (c : option Counters) (event : KisEvent)
  : option (Decoder * option Counters * option LedgerRecord) :=
  match ev_Execution event with
  | None => Some (d, c, None)
  | Some execution =>
      let drop := Some (d, IncDropped c, None) in
      let kind := ClassifyNotice (ev_TR event) (ev_Fields event) in
      if kind <>s NoticeFill then Some (d, IncNonFill kind c, None)
      else if negb (checkExecutionMatchesFrame execution (ev_Fields event)) then drop
      else
        let orderNo := TrimSpace (ex_OrderNo execution) in
        if orderNo =s "" then drop
        else
          let symbol := ToUpper (TrimSpace (ex_Symbol execution)) in
          if symbol =s "" then drop
          else match QtyInt execution with
          | None => drop
          | Some qty =>
            if qty <=? 0 then drop
            else match PriceRat execution with
            | None => drop
            | Some price =>
              if Z.sgn (Qnum price) <=? 0 then drop
              else if (ex_Side execution <>s SideBuy) && (ex_Side execution <>s SideSell) then drop
              else match combineKSTDate (ev_ReceivedAt event) (ex_FilledAt execution) with
              | None => drop
              | Some filledAt =>
                let fillSeq := DeriveFillSeq (ev_Fields event) in
                '(dups, observationCount) ← observe (duplicates d) (mkDuplicateKey orderNo fillSeq);
                let dupSuspect := observationCount >=? 2 in
                let c := if dupSuspect then IncDupSuspect c else c in
                let rawPayload :=
                  mkRawPayload (ev_TR event) (ev_Fields event) (ev_ReceivedAt event) dupSuspect
                    (if dupSuspect then observationCount else 0) in
                Some (mkDecoder (accountMode d) (dc_venue d) dups, c,
                  Some (mkLedgerRecord "kis" (accountMode d) (dc_venue d) "equity_kr" symbol
                    (ex_Symbol execution) (ex_Side execution) orderNo fillSeq (ex_Qty execution)
                    (ex_Price execution) None None "KRW" filledAt "KRW" None rawPayload dupSuspect
                    observationCount))
              end
            end
          end
  end.

(** The decoder over a stream of events. *)
Fixpoint Decode_all (d : Decoder) (c : option Counters) (events : list KisEvent)
  : option (Decoder * option Counters * list LedgerRecord) :=
  match events with
  | [] => Some (d, c, [])
  | event :: events =>
      '(d, c, r) ← Decode d c event;
      '(d, c, rs) ← Decode_all d c events;
      Some (d, c, option_list r ++ rs)
  end.
End Decode.

(** ** The tracker *)

Definition tracker_ok (t : duplicateTracker) : Prop :=
  1 <= dt_max t /\ NoDup (dt_fifo t) /\ dom (dt_counts t) = list_to_set (dt_fifo t) /\
  Z.of_nat (length (dt_fifo t)) <= dt_max t.

(** The tracker over a sequence of keys, with the counts it reports. *)
Fixpoint observe_all (t : duplicateTracker) (ks : list duplicateKey)
  : option (duplicateTracker * list Z) :=
  match ks with
  | [] => Some (t, [])
  | k :: ks =>
      '(t, n) ← observe t k;
      '(t, ns) ← observe_all t ks;
      Some (t, n :: ns)
  end.

(** How often the key occurs. *)
Definition occurs (k : duplicateKey) (ks : list duplicateKey) : Z :=
  Z.of_nat (length (filter (eq k) ks)).

Lemma occurs_snoc k ks j : occurs k (ks ++ [j]) = occurs k ks + (if decide (k = j) then 1 else 0).
Proof.
  unfold occurs. rewrite filter_app, length_app, filter_cons, filter_nil.
  destruct (decide (k = j)); cbn; lia.
Qed.

Lemma occurs_pos k ks : k ∈ ks -> 1 <= occurs k ks.
Proof.
  intros H. unfold occurs. enough (filter (eq k) ks <> []) by (destruct (filter _ ks); cbn; [done|lia]).
  intros E. assert (k ∈ filter (eq k) ks) as Hin by (apply list_elem_of_filter; done).
  rewrite E in Hin. by apply not_elem_of_nil in Hin.
Qed.

Lemma occurs_absent k ks : k ∉ ks -> occurs k ks = 0.
Proof.
  intros Hk. unfold occurs. destruct (filter (eq k) ks) as [|j l] eqn:E; [done|].
  assert (j ∈ filter (eq k) ks) as [<- ?]%list_elem_of_filter by (rewrite E; left). done.
Qed.

Lemma occurs_le k ks : 0 <= occurs k ks <= Z.of_nat (length ks).
Proof. unfold occurs. pose proof (length_filter (eq k) ks). lia. Qed.

Lemma newDuplicateTracker_ok max : tracker_ok (newDuplicateTracker max).
Proof.
  unfold tracker_ok, newDuplicateTracker. cbn. split; [destruct (Z.leb_spec max 0); lia|].
  split; [constructor|]. split; [apply dom_empty_L|]. destruct (Z.leb_spec max 0); lia.
Qed.

Lemma tracker_size_fifo t : tracker_ok t -> size (dt_counts t) = length (dt_fifo t).
Proof. intros (_ & Hn & Hd & _). rewrite <- size_dom, Hd. by apply size_list_to_set. Qed.

(** What one observation does: it counts up, inserts, or evicts and inserts. *)
Lemma observe_spec t k : tracker_ok t ->
  exists t' n, observe t k = Some (t', n) /\ tracker_ok t' /\ dt_max t' = dt_max t /\
    dt_counts t' !! k = Some n /\
    ((exists m, dt_counts t !! k = Some m /\ n = wrapu64 (m + 1) /\
        dt_counts t' = <[k := n]> (dt_counts t)) \/
     (dt_counts t !! k = None /\ n = 1 /\
        ((Z.of_nat (length (dt_fifo t)) < dt_max t /\ dt_counts t' = <[k := n]> (dt_counts t)) \/
         exists j, Z.of_nat (length (dt_fifo t)) = dt_max t /\
           dt_counts t' = <[k := n]> (delete j (dt_counts t))))).
Proof.
  intros Ht. pose proof (tracker_size_fifo t Ht) as Hs. destruct Ht as (Hm & Hn & Hd & Hl).
  unfold observe. destruct (dt_counts t !! k) as [m|] eqn:E.
  - eexists _, _. split; [reflexivity|]. cbn [dt_counts dt_fifo dt_max].
    split; [|split; [done|split; [apply lookup_insert_eq|left; eauto]]].
    split; [done|]. split; [done|]. split; [|done]. cbn [dt_counts dt_fifo].
    rewrite dom_insert_L, Hd. apply elem_of_dom_2 in E. rewrite Hd in E. set_solver.
  - rewrite Hs. assert (Hk : k ∉ dt_fifo t).
    { apply not_elem_of_dom_2 in E. rewrite Hd in E. by rewrite elem_of_list_to_set in E. }
    destruct (Z.geb_spec (Z.of_nat (length (dt_fifo t))) (dt_max t)).
    + destruct (dt_fifo t) as [|j fifo] eqn:Ef; [cbn in *; lia|]. cbn.
      apply NoDup_cons in Hn as [Hj Hn]. apply not_elem_of_cons in Hk as [Hkj Hk].
      eexists _, _. split; [reflexivity|]. cbn [dt_counts dt_fifo dt_max].
      split; [|split; [done|split; [apply lookup_insert_eq|right; split; [done|split; [done|right]]]]].
      * split; [done|]. cbn [dt_counts dt_fifo dt_max].
        split; [by apply NoDup_snoc|]. split; [|rewrite length_app; cbn in *; lia].
        rewrite dom_insert_L, dom_delete_L, Hd, list_to_set_app_L. cbn [list_to_set].
        assert (j ∉ (list_to_set fifo : gset duplicateKey)) by (by rewrite elem_of_list_to_set).
        apply set_eq. intros x. set_unfold. naive_solver.
      * exists j. cbn in *. split; [lia|done].
    + cbn. eexists _, _. split; [reflexivity|]. cbn [dt_counts dt_fifo dt_max].
      split; [|split; [done|split; [apply lookup_insert_eq|right; split; [done|split; [done|left]]]]].
      * split; [done|]. cbn [dt_counts dt_fifo dt_max].
        split; [by apply NoDup_snoc|]. split; [|rewrite length_app; cbn; lia].
        rewrite dom_insert_L, Hd, list_to_set_app_L. set_solver.
      * split; [lia|done].
Qed.

Definition distinct (ks : list duplicateKey) : Z :=
  Z.of_nat (size (list_to_set ks : gset duplicateKey)).

(** What a tracker knows of the keys it has been shown. *)
Definition shown (t : duplicateTracker) (ks : list duplicateKey) : Prop :=
  tracker_ok t /\
  (forall k n, dt_counts t !! k = Some n -> 1 <= n <= occurs k ks) /\
  (distinct ks <= dt_max t -> forall k, k ∈ ks -> dt_counts t !! k = Some (occurs k ks)).

Lemma shown_dom t ks : shown t ks -> dom (dt_counts t) ⊆ (list_to_set ks : gset duplicateKey).
Proof.
  intros (_ & Hc & _) k Hk. apply elem_of_dom in Hk as [n Hn]. apply Hc in Hn.
  rewrite elem_of_list_to_set. destruct (decide (k ∈ ks)); [done|].
  rewrite occurs_absent in Hn by done. lia.
Qed.

Lemma distinct_snoc ks k :
  distinct ks <= distinct (ks ++ [k]) /\ (k ∉ ks -> distinct (ks ++ [k]) = distinct ks + 1).
Proof.
  unfold distinct. rewrite list_to_set_app_L. split.
  - assert (size (list_to_set ks : gset duplicateKey) <=
      size (list_to_set ks ∪ list_to_set [k] : gset duplicateKey))%nat; [|lia].
    apply subseteq_size. set_solver.
  - intros Hk. rewrite size_union by set_solver. cbn. rewrite union_empty_r_L, size_singleton. lia.
Qed.

Lemma shown_observe t ks k :
  shown t ks -> Z.of_nat (length ks) < 18446744073709551615 ->
  exists t' n, observe t k = Some (t', n) /\ shown t' (ks ++ [k]) /\ dt_max t' = dt_max t /\
    1 <= n <= occurs k (ks ++ [k]) /\
    (distinct (ks ++ [k]) <= dt_max t -> n = occurs k (ks ++ [k])).
Proof.
  intros Hs Hlen. pose proof (shown_dom t ks Hs) as Hdom. destruct Hs as (Hok & Hc & Hex).
  destruct (observe_spec t k Hok) as (t' & n & E & Hok' & Em & Ek & Hcase).
  pose proof (distinct_snoc ks k) as [Hd1 Hd2].
  assert (Hwrap : forall m, m <= occurs k ks -> 1 <= m -> wrapu64 (m + 1) = m + 1).
  { intros m H1 H2. unfold wrapu64. apply Z.mod_small. pose proof (occurs_le k ks). lia. }
  assert (Hn : 1 <= n <= occurs k (ks ++ [k])).
  { rewrite occurs_snoc, decide_True by done. destruct Hcase as [(m & Hm & -> & _)|(_ & -> & _)].
    - apply Hc in Hm. rewrite Hwrap by lia. lia.
    - pose proof (occurs_le k ks). lia. }
  assert (Hother : forall j, j <> k -> occurs j (ks ++ [k]) = occurs j ks).
  { intros j Hj. rewrite occurs_snoc, decide_False by done. lia. }
  assert (Hexact : distinct (ks ++ [k]) <= dt_max t -> n = occurs k (ks ++ [k]) /\
    (forall j, j <> k -> dt_counts t' !! j = dt_counts t !! j)).
  { intros Hd. rewrite occurs_snoc, decide_True by done.
    destruct Hcase as [(m & Hm & -> & Et)|(Hm & -> & Hcase)].
    - split.
      + destruct (decide (k ∈ ks)) as [Hin|Hin].
        * rewrite (Hex ltac:(lia) k Hin) in Hm. injection Hm as <-. rewrite Hwrap; [done|lia|].
          by apply occurs_pos.
        * apply elem_of_dom_2 in Hm. apply Hdom in Hm. by rewrite elem_of_list_to_set in Hm.
      + intros j Hj. by rewrite Et, lookup_insert_ne.
    - assert (Hin : k ∉ ks) by (intros Hin; rewrite (Hex ltac:(lia) k Hin) in Hm; done).
      split; [by rewrite occurs_absent|]. intros j Hj. destruct Hcase as [[_ Et]|(i & Hfull & Et)]; [by rewrite Et, lookup_insert_ne|].
        exfalso. rewrite Hd2 in Hd by done. apply subseteq_size in Hdom.
        rewrite size_dom, (tracker_size_fifo t Hok) in Hdom. unfold distinct in Hd. lia. }
  exists t', n. split; [done|]. split; [|split; [done|split; [done|intros Hd; by apply Hexact]]].
  split; [done|]. split.
  - intros j m Hm. destruct (decide (j = k)) as [->|Hj]; [congruence|]. rewrite Hother by done.
    apply Hc. destruct Hcase as [(? & _ & _ & Et)|(_ & _ & [[_ Et]|(i & _ & Et)])]; rewrite Et in Hm;
      rewrite lookup_insert_ne in Hm by done; try done. by apply lookup_delete_Some in Hm as [_ ?].
  - rewrite Em. intros Hd j Hj. destruct (Hexact Hd) as [En Hsame].
    destruct (decide (j = k)) as [->|Hjk]; [congruence|]. rewrite Hother, Hsame by done.
    apply Hex; [lia|]. set_solver.
Qed.

Lemma observe_all_shown t ks seen :
  shown t seen -> Z.of_nat (length seen + length ks) <= 18446744073709551615 ->
  exists t' ns, observe_all t ks = Some (t', ns) /\ shown t' (seen ++ ks) /\ dt_max t' = dt_max t /\
    forall i k n, ks !! i = Some k -> ns !! i = Some n ->
      1 <= n <= occurs k (seen ++ take (S i) ks) /\
      (distinct (seen ++ ks) <= dt_max t -> n = occurs k (seen ++ take (S i) ks)).
Proof.
  revert t seen. induction ks as [|k ks IH]; intros t seen Hs Hl; cbn [observe_all].
  - exists t, []. rewrite app_nil_r. split; [done|]. split; [done|]. split; [done|]. intros []; done.
  - cbn [length] in Hl.
    destruct (shown_observe t seen k Hs ltac:(lia)) as (t1 & n & E & Hs1 & Em & Hn & Hx).
    destruct (IH t1 (seen ++ [k]) Hs1) as (t2 & ns & E2 & Hs2 & Em2 & Hns).
    { rewrite length_app. cbn. lia. }
    rewrite <- app_assoc in Hs2, Hns. exists t2, (n :: ns). rewrite E. cbn. rewrite E2. cbn.
    split; [done|]. split; [done|]. split; [congruence|].
    intros [|i] j m Hj Hm; cbn in Hj, Hm.
    + injection Hj as <-. injection Hm as <-. cbn [take]. rewrite take_0. split; [done|].
      intros Hd. apply Hx. assert (Hmono : distinct (seen ++ [k]) <= distinct (seen ++ k :: ks)); [|lia].
      unfold distinct. enough (size (list_to_set (seen ++ [k]) : gset duplicateKey) <=
        size (list_to_set (seen ++ k :: ks) : gset duplicateKey))%nat by lia.
      apply subseteq_size. set_solver.
    + rewrite <- Em. change (take (S (S i)) (k :: ks)) with ([k] ++ take (S i) ks).
      specialize (Hns i j m Hj Hm). by rewrite <- app_assoc in Hns.
Qed.

(** The duplicate tracker stays within its bound and never panics; a count
    it reports never exceeds how often the key really occurred, so a first
    notice is never suspected; and while the distinct keys fit, the count is
    exact. *)
Theorem tracker_counts max ks :
  Z.of_nat (length ks) <= 18446744073709551615 ->
  let bound := if max <=? 0 then 10000 else max in
  exists t ns, observe_all (newDuplicateTracker max) ks = Some (t, ns) /\ tracker_size t <= bound /\
    forall i k n, ks !! i = Some k -> ns !! i = Some n ->
      1 <= n <= occurs k (take (S i) ks) /\
      (distinct ks <= bound -> n = occurs k (take (S i) ks)).
Proof.
  intros Hl. cbv zeta. destruct (observe_all_shown (newDuplicateTracker max) ks []) as
    (t & ns & E & Hs & Em & Hns); [|done|].
  - split; [apply newDuplicateTracker_ok|]. split; [|set_solver]. intros k n Hk.
    cbn in Hk. by rewrite lookup_empty in Hk.
  - exists t, ns. split; [done|]. split; [|done].
    destruct Hs as [Ht _]. unfold tracker_size. rewrite (tracker_size_fifo t Ht).
    destruct Ht as (_ & _ & _ & Ht). rewrite Em in Ht. done.
Qed.

Definition key1 : duplicateKey := mkDuplicateKey "0000012345" 7.
Definition key2 : duplicateKey := mkDuplicateKey "0000012345" 8.

Lemma tracker_counts_witness :
  snd <$> observe_all (newDuplicateTracker 2) [key1; key2; key1] = Some [1; 1; 2] /\
  exists t ns, observe_all (newDuplicateTracker 2) [key1; key2; key1] = Some (t, ns) /\
    tracker_size t <= 2.
Proof.
  split; [reflexivity|].
  destruct (tracker_counts 2 [key1; key2; key1] ltac:(cbn; lia)) as (t & ns & E & Hb & _).
  exists t, ns. split; [exact E|exact Hb].
Defined.

(** ** The fill time *)

Lemma getnum_range fixed s n r : getnum fixed s = Some (n, r) -> 0 <= n.
Proof.
  assert (Hd : forall c, digit_byte c = true -> 0 <= digit_value c).
  { intros c. unfold digit_byte, byte_in, digit_value. rewrite andb_true_iff, !Nat.leb_le. lia. }
  unfold getnum. destruct s as [|a s]; [done|]. destruct (digit_byte a) eqn:Ea; [|done].
  apply Hd in Ea. destruct s as [|b s].
  - destruct fixed; [done|]. intros [= <- <-]. lia.
  - destruct (digit_byte b) eqn:Eb.
    + intros [= <- <-]. apply Hd in Eb. lia.
    + destruct fixed; [done|]. intros [= <- <-]. lia.
Qed.

Lemma parse_clock_range s c : parse_clock s = Some c -> 0 <= clock_ns c < day_ns.
Proof.
  unfold parse_clock. intros H.
  destruct (getnum false s) as [[h r]|] eqn:Eh; [|done]. cbn in H. split_if in H; [done|].
  destruct (getnum true r) as [[m r']|] eqn:Em; [|done]. cbn in H. split_if in H; [done|].
  destruct (getnum true r') as [[x r'']|] eqn:Ex; [|done]. cbn in H. split_if in H; [done|].
  split_if in H; [|done]. injection H as <-. apply getnum_range in Eh, Em, Ex.
  rewrite Z.geb_leb in *. bool_simpl. unfold clock_ns, day_ns, hour_ns, minute_ns, second_ns. lia.
Qed.

(** The fill time is the latest instant that shows the notice's clock in
    Korea, is not after the KST day of the receipt and is at most an hour ahead
    of it; it is less than a day before the receipt. *)
Theorem combineKSTDate_latest receivedAt s clock t :
  parse_clock s = Some clock -> combineKSTDate receivedAt s = Some t ->
  kst_clock t = clock_ns clock /\ kst_days t <= kst_days receivedAt /\
  receivedAt - day_ns < t <= receivedAt + hour_ns /\
  forall t', kst_clock t' = clock_ns clock -> kst_days t' <= kst_days receivedAt ->
    t' <= receivedAt + hour_ns -> t' <= t.
Proof.
  intros Hc. unfold combineKSTDate. rewrite Hc. cbn. intros [= Ht].
  apply parse_clock_range in Hc. set (k := clock_ns clock) in *.
  assert (Hinst : forall d, kst_clock (kst_instant d k) = k /\ kst_days (kst_instant d k) = d).
  { intros d. unfold kst_clock, kst_days, kst_instant.
    replace (d * day_ns + k - Offset + Offset) with (k + d * day_ns) by lia.
    rewrite Z.mod_add, Z.div_add, Z.mod_small, Z.div_small by (done || lia). lia. }
  destruct (kst_split receivedAt) as [Er Hr]. unfold kst_instant in Er.
  assert (Hh : hour_ns = 3600000000000) by reflexivity. assert (Hdn : day_ns = 86400000000000) by reflexivity.
  assert (Hlater : forall t', kst_clock t' = k -> t' = kst_days t' * day_ns + k - Offset).
  { intros t' <-. exact (proj1 (kst_split t')). }
  destruct (Z.gtb_spec (kst_instant (kst_days receivedAt) k) (receivedAt + hour_ns)) as [Hgt|Hle];
    subst t; (split; [apply Hinst|split; [rewrite (proj2 (Hinst _)); lia|]]); unfold kst_instant in *.
  - split; [nia|]. intros t' Hk Hd Hle. rewrite (Hlater t' Hk) in Hle |- *. nia.
  - split; [nia|]. intros t' Hk Hd _. rewrite (Hlater t' Hk). nia.
Qed.

(** A notice of 23:59:58 received two seconds past midnight is yesterday's. *)
Lemma combineKSTDate_latest_witness :
  combineKSTDate (kst_instant 20000 (2 * second_ns)) "235958" = Some (kst_instant 19999 (86398 * second_ns)) /\
  kst_days (kst_instant 19999 (86398 * second_ns)) <= 20000.
Proof.
  split; [reflexivity|].
  exact (proj1 (proj2 (combineKSTDate_latest (kst_instant 20000 (2 * second_ns)) "235958" (23, 59, 58)
    (kst_instant 19999 (86398 * second_ns)) eq_refl eq_refl))).
Defined.

(** ** Accounting *)

(** The execution notices a set of counters accounts for without a record. *)
Definition refused (c : Counters) : Z :=
  dropped c + (nonFillOrder c + nonFillReject c + nonFillCancel c + nonFillUnknown c).

(** Counters with room for [n] more events. *)
Definition room_for (n : Z) (c : Counters) : Prop :=
  0 <= dropped c /\ 0 <= nonFillOrder c /\ 0 <= nonFillReject c /\ 0 <= nonFillCancel c /\
  0 <= nonFillUnknown c /\ 0 <= dupSuspect c /\
  refused c + n < 18446744073709551616 /\ dupSuspect c + n < 18446744073709551616.

Definition is_execution (event : KisEvent) : Z :=
  match ev_Execution event with Some _ => 1 | None => 0 end.
Definition flagged (r : LedgerRecord) : Z := if DupSuspect r then 1 else 0.

(** What one call adds: the records it returned, those flagged. *)
Definition adds (n : Z) (c c' : Counters) (executions records suspects : Z) : Prop :=
  refused c' + records = refused c + executions /\ dupSuspect c' = dupSuspect c + suspects /\
  room_for (n - 1) c'.

Ltac counters :=
  unfold adds, room_for, refused, add_to, wrapu64 in *;
  cbn [dropped dupSuspect nonFillOrder nonFillReject nonFillCancel nonFillUnknown] in *;
  cbn;
  rewrite ?Z.mod_small by lia; lia.

Lemma drop_adds n c : 1 <= n -> room_for n c ->
  exists c', IncDropped (Some c) = Some c' /\ adds n c c' 1 0 0.
Proof. intros Hn Hc. destruct c. eexists. split; [reflexivity|]. counters. Qed.

Lemma nonfill_adds n kind c : 1 <= n -> room_for n c ->
  exists c', IncNonFill kind (Some c) = Some c' /\ adds n c c' 1 0 0.
Proof.
  intros Hn Hc. destruct c. unfold IncNonFill. cbn [fmap option_fmap option_map].
  repeat split_if_goal; eexists; (split; [reflexivity|]); counters.
Qed.

Lemma dup_adds n c : 1 <= n -> room_for n c ->
  exists c', IncDupSuspect (Some c) = Some c' /\ adds n c c' 1 1 1.
Proof. intros Hn Hc. destruct c. eexists. split; [reflexivity|]. counters. Qed.

Section accounting.
Context {kis : GoKis}.

Lemma Decode_step n d c event : tracker_ok (duplicates d) -> 1 <= n -> room_for n c ->
  exists d' c' r, Decode d (Some c) event = Some (d', Some c', r) /\ tracker_ok (duplicates d') /\
    adds n c c' (is_execution event) (Z.of_nat (length (option_list r))) (from_option flagged 0 r).
Proof.
  intros Ht Hn Hc. unfold Decode, is_execution. destruct (ev_Execution event) as [e|];
    [|exists d, c, None; split; [done|split; [done|counters]]].
  destruct (drop_adds n c Hn Hc) as (cd & Ed & Hd).
  assert (Hdrop : exists d' c' r, Some (d, IncDropped (Some c), @None LedgerRecord) = Some (d', Some c', r) /\
    tracker_ok (duplicates d') /\
    adds n c c' 1 (Z.of_nat (length (option_list r))) (from_option flagged 0 r))
    by (exists d, cd, None; by rewrite Ed).
  cbv zeta. split_if_goal.
  { destruct (nonfill_adds n (ClassifyNotice (ev_TR event) (ev_Fields event)) c Hn Hc) as (c' & -> & H).
    by exists d, c', None. }
  split_if_goal; [done|]. split_if_goal; [done|]. split_if_goal; [done|].
  destruct (QtyInt e); [|done]. split_if_goal; [done|].
  destruct (PriceRat e); [|done]. split_if_goal; [done|]. split_if_goal; [done|].
  destruct (combineKSTDate _ _) as [t|]; [|done].
  destruct (observe_spec (duplicates d) (mkDuplicateKey (TrimSpace (ex_OrderNo e))
    (DeriveFillSeq (ev_Fields event))) Ht) as (dups & k & -> & Hd' & _). cbn [mbind option_bind].
  destruct (dup_adds n c Hn Hc) as (cs & -> & Hs).
  destruct (k >=? 2) eqn:Ek; (eexists _, _, _; split; [reflexivity|split; [done|]]);
    unfold flagged; cbn [from_option DupSuspect]; [exact Hs|counters].
Qed.

Lemma Decode_all_adds d c events :
  tracker_ok (duplicates d) -> room_for (Z.of_nat (length events)) c ->
  exists d' c' rs, Decode_all d (Some c) events = Some (d', Some c', rs) /\
    tracker_ok (duplicates d') /\
    refused c' + Z.of_nat (length rs) = refused c + foldr Z.add 0 (is_execution <$> events) /\
    dupSuspect c' = dupSuspect c + foldr Z.add 0 (flagged <$> rs) /\ room_for 0 c'.
Proof.
  revert d c. induction events as [|event events IH]; intros d c Ht Hc; cbn [Decode_all].
  - exists d, c, []. cbn. split; [done|]. split; [done|]. cbn in Hc. split; [lia|]. split; [lia|done].
  - cbn [length] in Hc.
    destruct (Decode_step (Z.of_nat (S (length events))) d c event Ht ltac:(lia) Hc)
      as (d1 & c1 & r & -> & Ht1 & H1 & H2 & Hc1). cbn.
    replace (Z.of_nat (S (length events)) - 1) with (Z.of_nat (length events)) in Hc1 by lia.
    destruct (IH d1 c1 Ht1 Hc1) as (d2 & c2 & rs & -> & Ht2 & H3 & H4 & Hc2). cbn.
    exists d2, c2, (option_list r ++ rs). split; [done|]. split; [done|].
    rewrite length_app, fmap_app, foldr_app. cbn. split; [lia|]. split; [|done].
    destruct r; cbn in *; lia.
Qed.

(** The decoder accounts for every event.  It never panics; each execution
    notice of a run becomes exactly one record or one count of [Dropped] or
    [NonFill], every other event none; and [DupSuspect] counts exactly the
    records that carry the mark. *)
Theorem Decode_accounts mode venue max events :
  Z.of_nat (length events) < 18446744073709551616 ->
  exists d c rs, Decode_all (NewDecoder mode venue max) (Some NewCounters) events = Some (d, Some c, rs) /\
    Z.of_nat (length rs) + Dropped (Some c) + NonFill (Some c)
      = foldr Z.add 0 (is_execution <$> events) /\
    dupSuspect (Snapshot (Some c)) = foldr Z.add 0 (flagged <$> rs).
Proof.
  intros Hl. destruct (Decode_all_adds (NewDecoder mode venue max) NewCounters events)
    as (d & c & rs & E & _ & H1 & H2 & Hc); [apply newDuplicateTracker_ok|unfold room_for, refused, NewCounters; cbn; lia|].
  exists d, c, rs. split; [done|]. split; [|cbn in *; lia].
  unfold Dropped, NonFill. cbn [Snapshot default]. unfold wrapu64. unfold room_for, refused in *.
  cbn in H1. rewrite Z.mod_small by (cbn; lia). cbn. lia.
Qed.

Lemma ClassifyNotice_fill tr fields : ClassifyNotice tr fields = NoticeFill ->
  IsExecution tr = true /\ (minNoticeFields <= length fields)%nat /\
  codeField fields idxRfusYN = "0" /\
  (codeField fields idxRctfCls = "0" \/ codeField fields idxRctfCls = "1") /\
  (codeField fields idxAcptYN = "1" \/ codeField fields idxAcptYN = "2") /\
  codeField fields idxCntgYN = "2".
Proof.
  unfold ClassifyNotice. cbv zeta. intros H.
  repeat split_if in H; try discriminate. apply Nat.ltb_ge in H1.
  repeat match goal with E : (_ || _)%bool = true |- _ => apply orb_true_iff in E end.
  rewrite !String.eqb_eq in *. done.
Qed.

Lemma Decode_fill d c event d' c' r : Decode d c event = Some (d', c', Some r) ->
  ClassifyNotice (rw_TR (RawPayloadJSON r)) (rw_Fields (RawPayloadJSON r)) = NoticeFill.
Proof.
  unfold Decode. destruct (ev_Execution event) as [e|]; [|done]. cbv zeta. intros H.
  split_if in H; [done|]. split_if in H; [done|]. split_if in H; [done|]. split_if in H; [done|].
  destruct (QtyInt e); [|done]. split_if in H; [done|].
  destruct (PriceRat e); [|done]. split_if in H; [done|].
  destruct (_ && _)%bool in H; [done|]. destruct (combineKSTDate _ _); [|done].
  destruct (observe _ _) as [[dups k]|]; [|done]. cbn [mbind option_bind] in H. by injection H as <- <- <-.
Qed.

Lemma land_bounds z : 0 <= Z.land z 2147483647 < 2147483648.
Proof.
  change 2147483647 with (Z.ones 31). rewrite Z.land_ones by lia. apply Z.mod_pos_bound. reflexivity.
Qed.

(** A record is a proven fill.  The decoder returns one only for a notice
    whose frame is an execution, not refused, not a cancel and marked filled;
    every value of the record is the frame's, read at the positions of the
    layout, validated; and the frame travels with it. *)
Theorem Decode_record_sound d c event d' c' r :
  Decode d c event = Some (d', c', Some r) ->
  let f := ev_Fields event in
  (IsExecution (ev_TR event) = true /\ (minNoticeFields <= length f)%nat /\
   codeField f idxRfusYN = "0" /\ codeField f idxRctfCls <> "2" /\ codeField f idxAcptYN <> "3" /\
   codeField f idxCntgYN = "2") /\
  (exists e q p, ev_Execution event = Some e /\ QtyInt e = Some q /\ 0 < q /\
     PriceRat e = Some p /\ (0 < p)%Q) /\
  (lr_Side r = SideBuy \/ lr_Side r = SideSell) /\ lr_Side r = frameSide (field f idxSide) /\
  BrokerOrderID r = TrimSpace (field f idxOrderNo) /\ BrokerOrderID r <> "" /\
  lr_Symbol r = ToUpper (TrimSpace (field f idxSymbol)) /\ lr_Symbol r <> "" /\
  FilledQty r = field f idxCntgQty /\ FilledPrice r = field f idxCntgUnpr /\
  combineKSTDate (ev_ReceivedAt event) (field f idxCntgHour) = Some (FilledAt r) /\
  0 <= FillSeq r < 2147483648 /\
  rw_TR (RawPayloadJSON r) = ev_TR event /\ rw_Fields (RawPayloadJSON r) = f.
Proof.
  cbv zeta. unfold Decode. destruct (ev_Execution event) as [e|] eqn:Ee; [|done]. cbv zeta. intros H.
  split_if in H; [done|]. apply ClassifyNotice_fill in Eif as (X1 & X2 & X3 & X4 & X5 & X6).
  split_if in H; [done|]. unfold checkExecutionMatchesFrame in Eif. split_if in Eif; [done|]. bool_simpl.
  split_if in H; [done|]. split_if in H; [done|].
  destruct (QtyInt e) as [q|] eqn:Eq; [|done]. split_if in H; [done|].
  destruct (PriceRat e) as [p|] eqn:Ep; [|done]. split_if in H; [done|].
  destruct (_ && _)%bool eqn:Es in H; [done|].
  destruct (combineKSTDate _ _) as [t|] eqn:Et; [|done].
  destruct (observe _ _) as [[dups k]|]; [|done]. cbn [mbind option_bind] in H.
  injection H as <- <- <-. cbn [lr_Side BrokerOrderID lr_Symbol FilledQty FilledPrice FilledAt FillSeq
    RawPayloadJSON rw_TR rw_Fields].
  split; [split; [done|split; [done|split; [done|]]]|].
  { split; [destruct X4; congruence|]. split; [destruct X5; congruence|done]. }
  split.
  { exists e, q, p. split; [done|]. split; [done|]. split; [lia|]. split; [done|].
    assert (0 < Qnum p) by (apply Z.sgn_pos_iff; lia). unfold Qlt. cbn. lia. }
  split.
  { apply andb_false_iff in Es as [Es|Es]; bool_simpl; eauto. }
  repeat split; try congruence; apply land_bounds.
Qed.
End accounting.

(** ** A concrete broker *)

#[local] Instance sample_kis : GoKis := {|
  IsExecution tr := (tr =s "H0STCNI0") || (tr =s "H0STCNI9");
  SideBuy := "buy"; SideSell := "sell"; SideUnknown := "unknown";
  QtyInt e := ParseInt (ex_Qty e);
  PriceRat e := (fun z => z # 1)%Q <$> ParseInt (ex_Price e);
  upper s := s
|}.

(** A fill of three shares, and the notice that accepted its order. *)
Definition notice_fields (cntg : string) : list string :=
  ["CUST"; "ACNT"; "0000012345"; ""; "02"; "0"; "00"; "0"; "005930"; "0000000003"; "000070000";
   "093015"; "0"; cntg; "1"].
Definition notice_event (cntg : string) : KisEvent :=
  mkKisEvent "H0STCNI0" (notice_fields cntg) (kst_instant 20000 (34216 * second_ns))
    (Some (mkExecution "0000012345" "005930" "0000000003" "000070000" "093015" cntg "buy")).

Definition sample_run :=
  Decode_all (NewDecoder "mock" "krx" 0) (Some NewCounters)
    [notice_event "1"; notice_event "2"; mkKisEvent "H0STASP0" [] 0 None; notice_event "2"].

Lemma Decode_accounts_witness :
  (fun x => (length x.2, NonFill x.1.2, Dropped x.1.2, DupSuspect <$> x.2)) <$> sample_run
    = Some (2%nat, 1, 0, [false; true]) /\
  exists d c rs, sample_run = Some (d, Some c, rs) /\
    Z.of_nat (length rs) + Dropped (Some c) + NonFill (Some c) = 3.
Proof.
  split; [vm_compute; reflexivity|].
  destruct (Decode_accounts "mock" "krx" 0
    [notice_event "1"; notice_event "2"; mkKisEvent "H0STASP0" [] 0 None; notice_event "2"]
    ltac:(cbn; lia)) as (d & c & rs & E & H & _).
  exists d, c, rs. split; [exact E|exact H].
Defined.

Definition sample_decoder : Decoder := NewDecoder "mock" "krx" 0.
Definition sample_decoded := Decode sample_decoder None (notice_event "2").

Lemma sample_decoded_record :
  match sample_decoded with Some (_, _, Some _) => True | _ => False end.
Proof. vm_compute. exact I. Qed.

Lemma Decode_record_sound_witness :
  match sample_decoded with
  | Some (_, _, Some r) => FilledQty r = "0000000003" /\ BrokerOrderID r = "0000012345"
  | _ => False
  end.
Proof.
  pose proof sample_decoded_record as Hs. destruct sample_decoded as [[[d' c'] [r|]]|] eqn:H; [|done|done].
  destruct (Decode_record_sound sample_decoder None (notice_event "2") d' c' r H)
    as (_ & _ & _ & _ & Ho & _ & _ & _ & Hq & _).
  split; [exact Hq|]. rewrite Ho. vm_compute. reflexivity.
Defined.
