(* ===== verification/Stream.v ===== *)
(** [src/internal/stream/stream.go] and [src/internal/ctxwait/ctxwait.go]: the
    Redis stream between the decoder and the ledger, and the cancellable sleep.

    Redis is the interface [Redis], the JSON of a ledger record the interface
    [RecordCodec], the context and its clock the interface [Ctx]; each acts on
    a world of its client's choice. *)

From S2P Require Import Prelude GoStr Decode.
Local Open Scope Z_scope.

Definition payloadField : string := "payload".

(** [Config], without the counters and the logger. *)
Record StreamConfig := mkStreamConfig {
  Key : string; MaxLen : Z; Group : string; Consumer : string; BatchSize : Z; Block : Z; ClaimMinIdle : Z
}.

Record Message := mkMessage {
  m_ID : string; m_Record : LedgerRecord; m_DupSuspect : bool; m_DupObservationCount : Z
}.

(** A value go-redis hands over as [interface{}]. *)
Inductive rvalue : Type :=
| VString (s : string)
| VBytes (s : string)
| VOther.

(** [redis.XMessage]. *)
Record XMessage := mkXMessage { x_ID : string; x_Values : gmap string rvalue }.

Inductive stream_error : Type :=
| ErrConfig (reason : string)
| ErrRedis (text : string)
| ErrMarshal
| ErrNoPayload (id : string)
| ErrNotString (id : string)
| ErrDecode (id : string)
| ErrDupSuspect (id : string)
| ErrObservationCount (id : string).

(** [json.Marshal] and [json.Unmarshal] on a ledger record: the two fields
    with the tag ["-"] do not travel.  A faithful record has valid UTF-8. *)
Class RecordCodec := {
  rec_marshal : LedgerRecord -> option string;
  rec_unmarshal : string -> option LedgerRecord;
  rec_faithful : LedgerRecord -> Prop;
  rec_decode r p : rec_faithful r -> rec_marshal r = Some p ->
    rec_unmarshal p = Some (mkLedgerRecord (Broker r) (AccountMode r) (lr_Venue r) (lr_InstrumentType r)
      (lr_Symbol r) (RawSymbol r) (lr_Side r) (BrokerOrderID r) (FillSeq r) (FilledQty r) (FilledPrice r)
      (FilledNotional r) (FeeAmount r) (FeeCurrency r) (FilledAt r) (Currency r) (CorrelationID r)
      (RawPayloadJSON r) false 0)
}.

(** The commands of go-redis the program sends.  [XReadGroup] answers [None]
    for [redis.Nil]; an error is its text. *)
Class Redis (W : Type) := {
  XGroupCreateMkStream : W -> string -> string -> string -> W * option string;
  XAdd : W -> string -> Z -> list (string * string) -> W * result string string;
  XReadGroup : W -> StreamConfig -> W * result (option (list (list XMessage))) string;
  XAutoClaim : W -> StreamConfig -> string -> W * result (list XMessage * string) string;
  XAck : W -> string -> string -> list string -> W * result Z string
}.

(** [ctx.Err() != nil], and a [select] between [ctx.Done()] and a timer: true
    when the context won. *)
Class Ctx (W : Type) := {
  ctx_done : W -> bool;
  ctx_or_timer : W -> Z -> W * bool
}.

(** [ctxwait.Sleep]: true when it returns [ctx.Err()]. *)
Definition Sleep {W} `{Ctx W} (w : W) (d : Z) : W * bool :=
  if d <=? 0 then (w, ctx_done w) else ctx_or_timer w d.

(** ** Configuration *)

(** [New] for a client that is not nil. *)
Definition NewQueue (cfg : StreamConfig) : result StreamConfig stream_error :=
  if (TrimSpace (Key cfg) =s "") || (TrimSpace (Group cfg) =s "") || (TrimSpace (Consumer cfg) =s "")
  then Err (ErrConfig "key, group, and consumer are required")
  else if MaxLen cfg <=? 0 then Err (ErrConfig "max length must be positive")
  else if (BatchSize cfg <? 1) || (BatchSize cfg >? 200)
  then Err (ErrConfig "batch size must be between 1 and 200")
  else if (Block cfg <? 0) || (ClaimMinIdle cfg <? 0) then Err (ErrConfig "durations cannot be negative")
  else Ok cfg.

(** ** Entries *)

Definition payloadString (v : rvalue) : option string :=
  match v with VString s | VBytes s => Some s | VOther => None end.

(** [boolValue] and [uintValue]: an absent field is nil. *)
Definition boolValue (v : option rvalue) : option bool :=
  match v with None => Some false | Some v => payloadString v ≫= ParseBool end.
Definition uintValue (v : option rvalue) : option Z :=
  match v with None => Some 0 | Some v => payloadString v ≫= ParseUint end.

Section Stream.
Context {codec : RecordCodec}.

Definition decodeEntry (entry : XMessage) : result Message stream_error :=
  match x_Values entry !! payloadField with
  | None => Err (ErrNoPayload (x_ID entry))
  | Some raw =>
    match payloadString raw with
    | None => Err (ErrNotString (x_ID entry))
    | Some payload =>
      match rec_unmarshal payload with
      | None => Err (ErrDecode (x_ID entry))
      | Some record =>
        match boolValue (x_Values entry !! "dup_suspect") with
        | None => Err (ErrDupSuspect (x_ID entry))
        | Some dup =>
          match uintValue (x_Values entry !! "dup_observation_count") with
          | None => Err (ErrObservationCount (x_ID entry))
          | Some count => Ok (mkMessage (x_ID entry) record dup count)
          end
        end
      end
    end
  end.

Fixpoint decodeEntries (entries : list XMessage) : result (list Message) stream_error :=
  match entries with
  | [] => Ok []
  | entry :: entries =>
      match decodeEntry entry with
      | Err e => Err e
      | Ok m => match decodeEntries entries with Err e => Err e | Ok ms => Ok (m :: ms) end
      end
  end.

Definition decodeStreams (streams : list (list XMessage)) : result (list Message) stream_error :=
  decodeEntries (concat streams).

(** The field-value list [Enqueue] adds. *)
Definition entry_values (payload : string) (r : LedgerRecord) : list (string * string) :=
  [(payloadField, payload); ("dup_suspect", FormatBool (DupSuspect r));
   ("dup_observation_count", FormatUint (DupObservationCount r))].

(** ** Commands *)

Context {W : Type} {redis : Redis W}.

Definition EnsureGroup (cfg : StreamConfig) (w : W) : W * option stream_error :=
  let '(w, err) := XGroupCreateMkStream w (Key cfg) (Group cfg) "0" in
  match err with
  | None => (w, None)
  | Some text => if Contains text "BUSYGROUP" then (w, None) else (w, Some (ErrRedis text))
  end.

Definition Enqueue (cfg : StreamConfig) (w : W) (c : option Counters) (r : LedgerRecord)
  : W * option Counters * result string stream_error :=
  match rec_marshal r with
  | None => (w, c, Err ErrMarshal)
  | Some payload =>
      match XAdd w (Key cfg) (MaxLen cfg) (entry_values payload r) with
      | (w, Ok id) => (w, IncXAdded c, Ok id)
      | (w, Err text) => (w, c, Err (ErrRedis text))
      end
  end.

Definition ReadNew (cfg : StreamConfig) (w : W) : W * result (list Message) stream_error :=
  match XReadGroup w cfg with
  | (w, Ok None) => (w, Ok [])
  | (w, Ok (Some streams)) => (w, decodeStreams streams)
  | (w, Err text) => (w, Err (ErrRedis text))
  end.

Definition AutoClaim (cfg : StreamConfig) (w : W) (start : string)
  : W * result (list Message * string) stream_error :=
  match XAutoClaim w cfg start with
  | (w, Err text) => (w, Err (ErrRedis text))
  | (w, Ok (entries, next)) =>
      match decodeEntries entries with
      | Ok ms => (w, Ok (ms, next))
      | Err e => (w, Err e)
      end
  end.

Definition Ack (cfg : StreamConfig) (w : W) (c : option Counters) (ids : list string)
  : W * option Counters * option stream_error :=
  match ids with
  | [] => (w, c, None)
  | _ =>
      match XAck w (Key cfg) (Group cfg) ids with
      | (w, Err text) => (w, c, Some (ErrRedis text))
      | (w, Ok acked) =>
          let n := Z.of_nat (length ids) in
          let c := if acked >? 0 then AddXAcked acked c else c in
          let c := if negb (acked =? n) then
                     let missing := n -w acked in
                     if missing >? 0 then AddXAckShortfall missing c else c
                   else c in
          (w, c, None)
      end
  end.

(** ** Lemmas *)

(** An entry as go-redis returns what [XAdd] was given. *)
Definition stored (id : string) (values : list (string * string)) : XMessage :=
  mkXMessage id (list_to_map ((fun kv => (kv.1, VString kv.2)) <$> values)).

(** The record without its duplicate mark, as it is read back. *)
Definition unmarked (r : LedgerRecord) : LedgerRecord :=
  mkLedgerRecord (Broker r) (AccountMode r) (lr_Venue r) (lr_InstrumentType r) (lr_Symbol r)
    (RawSymbol r) (lr_Side r) (BrokerOrderID r) (FillSeq r) (FilledQty r) (FilledPrice r)
    (FilledNotional r) (FeeAmount r) (FeeCurrency r) (FilledAt r) (Currency r) (CorrelationID r)
    (RawPayloadJSON r) false 0.

Lemma decode_stored r payload id :
  rec_faithful r -> rec_marshal r = Some payload ->
  0 <= DupObservationCount r < 18446744073709551616 ->
  decodeEntry (stored id (entry_values payload r))
    = Ok (mkMessage id (unmarked r) (DupSuspect r) (DupObservationCount r)).
Proof.
  intros Hf Hm Hc. unfold decodeEntry, stored, entry_values. cbn [x_Values x_ID fmap list_fmap fst snd].
  unfold payloadField. rewrite !list_to_map_cons.
  rewrite lookup_insert_eq. cbn [payloadString]. rewrite (rec_decode r payload Hf Hm).
  rewrite lookup_insert_ne by done. rewrite lookup_insert_eq. cbn [boolValue payloadString mbind option_bind].
  rewrite ParseBool_FormatBool. rewrite !lookup_insert_ne by done. rewrite lookup_insert_eq.
  cbn [uintValue payloadString mbind option_bind]. by rewrite ParseUint_FormatUint.
Qed.

(** What [Enqueue] writes is what the reader decodes.  A batch of stored
    records comes back complete and in order, each record with its identifier
    and with the duplicate mark and count that its JSON leaves out. *)
Theorem enqueue_roundtrip (batch : list (string * LedgerRecord * string)) :
  Forall (fun '(id, r, payload) => rec_faithful r /\ rec_marshal r = Some payload /\
    0 <= DupObservationCount r < 18446744073709551616) batch ->
  decodeEntries ((fun '(id, r, payload) => stored id (entry_values payload r)) <$> batch)
    = Ok ((fun '(id, r, payload) => mkMessage id (unmarked r) (DupSuspect r) (DupObservationCount r))
            <$> batch).
Proof.
  induction 1 as [|[[id r] payload] batch (Hf & Hm & Hc) _ IH]; [done|].
  cbn [fmap list_fmap decodeEntries]. rewrite (decode_stored r payload id Hf Hm Hc).
  cbn [fmap list_fmap] in IH. by rewrite IH.
Qed.
End Stream.

(** ** A concrete record *)

Definition sample_raw : RawPayload := mkRawPayload "H0STCNI0" (notice_fields "2") 0 true 2.
Definition sample_record : LedgerRecord :=
  mkLedgerRecord "kis" "mock" "krx" "equity_kr" "005930" "005930" "buy" "0000012345" 7 "0000000003"
    "000070000" None None "KRW" 0 "KRW" None sample_raw true 2.

(** A codec that knows one record. *)
Definition known_codec (r0 : LedgerRecord) : RecordCodec.
Proof.
  refine {| rec_marshal r := Some "record"; rec_unmarshal s := Some (unmarked r0);
            rec_faithful r := r = r0 |}.
  by intros r p -> _.
Defined.
#[local] Instance sample_codec : RecordCodec := known_codec sample_record.

Lemma enqueue_roundtrip_witness :
  decodeEntries [stored "1-0" (entry_values "record" sample_record)]
    = Ok [mkMessage "1-0" (unmarked sample_record) true 2].
Proof.
  apply (enqueue_roundtrip [("1-0", sample_record, "record")]).
  constructor; [|constructor]. split; [reflexivity|]. split; [reflexivity|]. cbn. lia.
Defined.
