(* ===== verification/Sink.v ===== *)
(** [src/internal/sink/sink.go]: posting persisted fill records to the ledger
    ingest and acknowledging the confirmed stream entries.

    The HTTP client and the JSON of the envelope and the response are the
    interface [Ingest].  The runner keeps a log of what it read, posted and
    acknowledged, the latest first, that the program does not have. *)

From Stdlib Require Import Ascii SpecFloat.
From S2P Require Import Prelude GoStr Wire GoFloat Decode Stream.
Local Open Scope Z_scope.

Definition source : string := "fillwire".
Definition DefaultIngestTokenHeader : string := "X-Execution-Ledger-Ingest-Token".

(** ** The client *)

Definition isHTTPTokenChar (b : ascii) : bool :=
  byte_in 97 122 b || byte_in 65 90 b || byte_in 48 57 b ||
  existsb (Ascii.eqb b)
    ["!"; "#"; "$"; "%"; "&"; "'"; "*"; "+"; "-"; "."; "^"; "_"; "`"; "|"; "~"]%char.

(** True when the name is accepted. *)
Definition ValidateIngestTokenHeader (name : string) : bool :=
  (name <>s "") && str_forall isHTTPTokenChar name.

(** [HTTPConfig] and [Client]; the timeout is a duration. *)
Record HTTPConfig := mkHTTPConfig { h_URL : string; h_Token : string; h_TokenHeader : string; h_Timeout : Z }.
Record Client := mkClient { c_url : string; c_token : string; c_tokenHeader : string; c_timeout : Z }.

(** True when the URL is accepted. *)
Definition ValidateIngestURL `{NetURL} (raw : string) : bool :=
  match url_ParseRequestURI raw with
  | None => false
  | Some parsed =>
      if (u_Scheme parsed =s "") || (u_Host parsed =s "") then false
      else
        let scheme := str_map lower_byte (u_Scheme parsed) in
        (scheme =s "https") || ((scheme =s "http") && IsLoopbackHost (Hostname parsed))
  end.

Definition NewClient `{NetURL} (cfg : HTTPConfig) : option Client :=
  if negb (ValidateIngestURL (h_URL cfg)) then None
  else if h_Token cfg =s "" then None
  else
    let tokenHeader := if h_TokenHeader cfg =s "" then DefaultIngestTokenHeader else h_TokenHeader cfg in
    if negb (ValidateIngestTokenHeader tokenHeader) then None
    else if h_Timeout cfg <=? 0 then None
    else Some (mkClient (h_URL cfg) (h_Token cfg) tokenHeader (h_Timeout cfg)).

Record Envelope := mkEnvelope { Fills : list LedgerRecord; env_Source : string; env_SourceRunID : option string }.
Record Result := mkResult { Status : string; RowID : option Z; Reason : option string }.
Record Response := mkResponse {
  rs_Source : string; rs_SourceRunID : option string; Received : Z; Accepted : Z; Rejected : Z;
  Results : list Result
}.

(** A request: its URL, the headers it sets and its body. *)
Record HttpRequest := mkHttpRequest {
  rq_url : string; rq_headers : list (string * string); rq_body : string
}.

Inductive sink_error : Type :=
| ErrBatchSize
| ErrEncode
| ErrCreate
| ErrNetwork
| HTTPStatusError (status : Z)
| ErrResponse
| ErrTooMany
| ErrResultCount
| ErrStatus (status : string)
| ErrQueue (e : stream_error).

(** [do_request] is [None] on a network failure, else the status and body. *)
Class Ingest (W : Type) := {
  envelope_json : Envelope -> option string;
  valid_request : string -> bool;
  do_request : W -> Z -> HttpRequest -> W * option (Z * string);
  decode_response : string -> option Response
}.

(** [io.LimitReader(body, 4<<20)]. *)
Definition limited (body : string) : string :=
  if Z.of_nat (String.length body) <=? 4194304 then body else take_bytes (Z.to_nat 4194304) body.

(** [Client.Post]. *)
Definition Post {W} `{Ingest W} (cl : Client) (w : W) (fills : list LedgerRecord)
  : W * result Response sink_error :=
  let n := length fills in
  if (n <? 1)%nat || (200 <? n)%nat then (w, Err ErrBatchSize)
  else match envelope_json (mkEnvelope fills source None) with
  | None => (w, Err ErrEncode)
  | Some body =>
      if negb (valid_request (c_url cl)) then (w, Err ErrCreate)
      else
        match do_request w (c_timeout cl) (mkHttpRequest (c_url cl)
          [("Content-Type", "application/json"); (c_tokenHeader cl, c_token cl)] body) with
        | (w, None) => (w, Err ErrNetwork)
        | (w, Some (status, body)) =>
            if (status <? 200) || (status >=? 300) then (w, Err (HTTPStatusError status))
            else match decode_response (limited body) with
            | None => (w, Err ErrResponse)
            | Some response => (w, Ok response)
            end
        end
  end.

(** ** The runner *)

(** [Config] and [Runner]; the factor is a [float64]. *)
Record Runner := mkRunner {
  r_queue : StreamConfig; r_client : Client; retryMin : Z; retryMax : Z; factor : spec_float
}.

Definition NewRunner (queue : option StreamConfig) (client : option Client) (rmin rmax : Z)
  (f : spec_float) : option Runner :=
  match queue, client with
  | Some q, Some cl =>
      if (rmin <=? 0) || (rmax <? rmin) then None
      else if SFltb f float_one then None
      else Some (mkRunner q cl rmin rmax f)
  | _, _ => None
  end.

(** [retryDelay]'s loop, from iteration [i] on. *)
Fixpoint delay_loop (r : Runner) (i : nat) (delay : Z) : Z :=
  match i with
  | O => delay
  | S i =>
      if delay <? retryMax r then
        let next := int_of_float (float_mul (float_of_int delay) (factor r)) in
        if (next <=? delay) || (next >? retryMax r) then retryMax r
        else delay_loop r i next
      else delay
  end.
Definition retryDelay (r : Runner) (attempt : nat) : Z := delay_loop r attempt (retryMin r).

(** ** Delivery *)

(** What the runner did: it read a batch, posted records, acknowledged. *)
Inductive sink_event : Type :=
| EBatch (ms : list Message)
| EPost (ms : list Message) (answer : result Response sink_error)
| EAck (ids : list string).

Record sink_state (W : Type) := mkSinkState {
  sk_world : W; sk_counters : option Counters; sk_log : list sink_event
}.
#[global] Arguments mkSinkState {W} sk_world sk_counters sk_log.
#[global] Arguments sk_world {W} s.
#[global] Arguments sk_counters {W} s.
#[global] Arguments sk_log {W} s.

(** How a loop that may run forever was left. *)
Inductive sink_end : Type :=
| Returned
| Failed (e : sink_error)
| Cancelled
| Running.

Definition confirmed_status (s : string) : bool :=
  (s =s "inserted") || (s =s "updated") || (s =s "unchanged").

(** The loop over the results. *)
Fixpoint collect_acks (ackIDs : list string) (ms : list Message) (results : list Result)
  : result (list string) sink_error :=
  match ms, results with
  | m :: ms, res :: results =>
      if confirmed_status (Status res) then collect_acks (ackIDs ++ [m_ID m]) ms results
      else if Status res =s "rejected" then collect_acks ackIDs ms results
      else Err (ErrStatus (Status res))
  | _, _ => Ok ackIDs
  end.

Section Sink.
Context {kis : GoKis} {codec : RecordCodec} {W : Type} {redis : Redis W} {ingest : Ingest W} {ctx : Ctx W}.
Implicit Types (s : sink_state W).

Definition is_fill (m : Message) : bool :=
  let raw := RawPayloadJSON (m_Record m) in
  ClassifyNotice (rw_TR raw) (rw_Fields raw) =s NoticeFill.

(** The loop that classifies the stored frames again. *)
Fixpoint split_fills (c : option Counters) (ms : list Message)
  : option Counters * list string * list Message :=
  match ms with
  | [] => (c, [], [])
  | m :: ms =>
      if is_fill m then
        let '(c, ids, fills) := split_fills c ms in (c, ids, m :: fills)
      else
        let '(c, ids, fills) := split_fills (IncSinkNonFill c) ms in (c, m_ID m :: ids, fills)
  end.

(** [r.queue.Ack], recorded. *)
Definition ack (r : Runner) (s : sink_state W) (ids : list string) : sink_state W * option sink_error :=
  let '(w, c, err) := Ack (r_queue r) (sk_world s) (sk_counters s) ids in
  (mkSinkState w c (EAck ids :: sk_log s), ErrQueue <$> err).

Definition DeliverOnce (r : Runner) (s : sink_state W) (messages : list Message)
  : sink_state W * option sink_error :=
  if (length messages =? 0)%nat then (s, None)
  else if (200 <? length messages)%nat then (s, Some ErrTooMany)
  else
    let '(c, nonFillIDs, fillMessages) := split_fills (sk_counters s) messages in
    let s := mkSinkState (sk_world s) c (sk_log s) in
    if (length fillMessages =? 0)%nat then ack r s nonFillIDs
    else
      let '(w, answer) := Post (r_client r) (sk_world s) (m_Record <$> fillMessages) in
      let s := mkSinkState w (sk_counters s) (EPost fillMessages answer :: sk_log s) in
      match answer with
      | Err e => (s, Some e)
      | Ok response =>
          if negb (length (Results response) =? length fillMessages)%nat then (s, Some ErrResultCount)
          else match collect_acks nonFillIDs fillMessages (Results response) with
               | Err e => (s, Some e)
               | Ok ackIDs => ack r s ackIDs
               end
      end.

Fixpoint deliverWithRetry (fuel : nat) (r : Runner) (attempt : nat) (s : sink_state W)
  (messages : list Message) : sink_state W * sink_end :=
  match fuel with
  | O => (s, Running)
  | S fuel =>
      match DeliverOnce r s messages with
      | (s, None) => (s, Returned)
      | (s, Some _) =>
          let s := mkSinkState (sk_world s) (IncIngestFailure (sk_counters s)) (sk_log s) in
          if ctx_done (sk_world s) then (s, Cancelled)
          else
            let '(w, cancelled) := Sleep (sk_world s) (retryDelay r attempt) in
            let s := mkSinkState w (sk_counters s) (sk_log s) in
            if cancelled then (s, Cancelled) else deliverWithRetry fuel r (S attempt) s messages
      end
  end.

Fixpoint reclaimPending (fuel : nat) (r : Runner) (s : sink_state W) (cursor : string)
  : sink_state W * sink_end :=
  match fuel with
  | O => (s, Running)
  | S fuel' =>
      match AutoClaim (r_queue r) (sk_world s) cursor with
      | (w, Err e) => (mkSinkState w (sk_counters s) (sk_log s), Failed (ErrQueue e))
      | (w, Ok (messages, next)) =>
          let s := mkSinkState w (sk_counters s) (EBatch messages :: sk_log s) in
          let '(s, ended) :=
            if (0 <? length messages)%nat then deliverWithRetry fuel r 0 s messages else (s, Returned) in
          match ended with
          | Returned =>
              if (next =s "") || (next =s "0-0") || (next =s cursor) then (s, Returned)
              else reclaimPending fuel' r s next
          | _ => (s, ended)
          end
      end
  end.

Fixpoint read_loop (fuel : nat) (r : Runner) (s : sink_state W) : sink_state W * sink_end :=
  match fuel with
  | O => (s, Running)
  | S fuel' =>
      match ReadNew (r_queue r) (sk_world s) with
      | (w, Err e) =>
          (mkSinkState w (sk_counters s) (sk_log s),
           if ctx_done w then Cancelled else Failed (ErrQueue e))
      | (w, Ok messages) =>
          let s := mkSinkState w (sk_counters s) (EBatch messages :: sk_log s) in
          if (length messages =? 0)%nat then read_loop fuel' r s
          else match deliverWithRetry fuel r 0 s messages with
               | (s, Returned) => read_loop fuel' r s
               | (s, ended) => (s, ended)
               end
      end
  end.

(** [Run]: every loop of it is cut off after [fuel] rounds. *)
Definition Run (fuel : nat) (r : Runner) (s : sink_state W) : sink_state W * sink_end :=
  match EnsureGroup (r_queue r) (sk_world s) with
  | (w, Some e) => (mkSinkState w (sk_counters s) (sk_log s), Failed (ErrQueue e))
  | (w, None) =>
      let s := mkSinkState w (sk_counters s) (sk_log s) in
      match reclaimPending fuel r s "0-0" with
      | (s, Returned) => read_loop fuel r s
      | (s, ended) => (s, ended)
      end
  end.

(** ** What the log of a run satisfies *)

Definition fills_of (ms : list Message) : list Message := filter (fun m => is_fill m = true) ms.

(** The ledger answered, position by position, that it has the message. *)
Definition confirmed_by (ms : list Message) (resp : Response) (id : string) : Prop :=
  length (Results resp) = length ms /\
  exists i m res, ms !! i = Some m /\ Results resp !! i = Some res /\
    m_ID m = id /\ confirmed_status (Status res) = true.

(** Why an entry may be acknowledged, in a log with the latest event first. *)
Definition may_ack (log : list sink_event) (id : string) : Prop :=
  (exists ms resp, EPost ms (Ok resp) ∈ log /\ confirmed_by ms resp id) \/
  (exists ms m, EBatch ms ∈ log /\ m ∈ ms /\ is_fill m = false /\ m_ID m = id).

(** The batch under delivery, and whether the ledger has answered for it. *)
Fixpoint current (log : list sink_event) : option (list Message) :=
  match log with
  | [] => None
  | EBatch ms :: _ => Some ms
  | _ :: log => current log
  end.
Fixpoint answered (log : list sink_event) : bool :=
  match log with
  | [] => true
  | EBatch ms :: _ => (length (fills_of ms) =? 0)%nat
  | EPost ms (Ok resp) :: log => (length (Results resp) =? length ms)%nat || answered log
  | _ :: log => answered log
  end.

Definition event_ok (older : list sink_event) (e : sink_event) : Prop :=
  match e with
  | EBatch _ => answered older = true
  | EPost ms _ => exists batch, current older = Some batch /\ ms = fills_of batch /\
      (1 <= length ms <= 200)%nat
  | EAck ids => Forall (may_ack older) ids
  end.

Fixpoint log_ok (log : list sink_event) : Prop :=
  match log with
  | [] => True
  | e :: older => event_ok older e /\ log_ok older
  end.

Lemma split_fills_spec c ms :
  (split_fills c ms).2 = fills_of ms /\
  (split_fills c ms).1.2 = m_ID <$> filter (fun m => is_fill m = false) ms.
Proof.
  revert c. induction ms as [|m ms IH]; intros c; [done|]. cbn [split_fills]. unfold fills_of in *.
  rewrite !filter_cons. destruct (is_fill m) eqn:E.
  - destruct (split_fills c ms) as [[c' ids] fills] eqn:Es. specialize (IH c). rewrite Es in IH.
    destruct IH as [H1 H2]. cbn in *. by rewrite H1, H2.
  - destruct (split_fills (IncSinkNonFill c) ms) as [[c' ids] fills] eqn:Es.
    specialize (IH (IncSinkNonFill c)). rewrite Es in IH. destruct IH as [H1 H2]. cbn in *. by rewrite H1, H2.
Qed.

Lemma collect_acks_spec acks ms results ids :
  collect_acks acks ms results = Ok ids -> length results = length ms ->
  exists more, ids = acks ++ more /\
    forall id, id ∈ more -> exists i m res, ms !! i = Some m /\ results !! i = Some res /\
      m_ID m = id /\ confirmed_status (Status res) = true.
Proof.
  revert acks results. induction ms as [|m ms IH]; intros acks [|res results] H Hl; try discriminate Hl.
  - injection H as <-. exists []. rewrite app_nil_r. split; [done|]. set_solver.
  - cbn [collect_acks length] in *. injection Hl as Hl. split_if in H.
    + destruct (IH _ _ H Hl) as (more & -> & Hm). exists (m_ID m :: more).
      rewrite <- app_assoc. split; [done|]. intros id [-> | Hid]%elem_of_cons; [by exists 0%nat, m, res|].
      destruct (Hm id Hid) as (i & m' & res' & Hx). by exists (S i), m', res'.
    + split_if in H; [|done]. destruct (IH _ _ H Hl) as (more & -> & Hm). exists more. split; [done|].
      intros id Hid. destruct (Hm id Hid) as (i & m' & res' & Hx). by exists (S i), m', res'.
Qed.

Lemma current_in log batch : current log = Some batch -> EBatch batch ∈ log.
Proof.
  induction log as [|[ms|ms a|ids] log IH]; cbn; intros H; [done| | |]; [|right; by apply IH..].
  injection H as ->. left.
Qed.

(** A state whose log is sound, under delivery of one batch. *)
Definition delivering (batch : list Message) (s : sink_state W) : Prop :=
  log_ok (sk_log s) /\ current (sk_log s) = Some batch.

Lemma ack_log r s ids : sk_log (ack r s ids).1 = EAck ids :: sk_log s.
Proof. unfold ack. by destruct (Ack _ _ _ _) as [[w c] err]. Qed.

Lemma ack_delivering r s batch ids s' err :
  ack r s ids = (s', err) -> delivering batch s -> Forall (may_ack (sk_log s)) ids ->
  delivering batch s' /\ answered (sk_log s') = answered (sk_log s).
Proof.
  unfold ack. destruct (Ack _ _ _ _) as [[w c] e]. intros [= <- <-] [Hl Hc] Hm. done.
Qed.

Lemma skipped_ids batch log : current log = Some batch ->
  Forall (may_ack log) (m_ID <$> filter (fun m => is_fill m = false) batch).
Proof.
  intros Hc%current_in. apply Forall_fmap, Forall_forall. intros m [Hf Hm]%list_elem_of_filter.
  right. by exists batch, m.
Qed.

Lemma answered_without_fills log batch :
  current log = Some batch -> fills_of batch = [] -> answered log = true.
Proof.
  induction log as [|[ms|ms [resp|e]|ids] log IH]; cbn; intros H Hf; [done| | | |]; try by apply IH.
  - injection H as ->. by rewrite Hf.
  - rewrite IH by done. apply orb_true_r.
Qed.

Lemma may_ack_mono e log id : may_ack log id -> may_ack (e :: log) id.
Proof.
  intros [(ms & resp & H1 & H2)|(ms & m & H1 & H2)];
    [left; exists ms, resp|right; exists ms, m]; (split; [by right|done]).
Qed.

(** Acknowledging after a complete answer. *)
Lemma answered_acks batch log resp ids :
  current log = Some batch -> length (Results resp) = length (fills_of batch) ->
  collect_acks (m_ID <$> filter (fun m => is_fill m = false) batch) (fills_of batch) (Results resp) = Ok ids ->
  Forall (may_ack (EPost (fills_of batch) (Ok resp) :: log)) ids.
Proof.
  intros Hc Hl H. apply collect_acks_spec in H as (more & -> & Hm); [|done].
  apply Forall_app. split.
  - eapply Forall_impl; [by apply skipped_ids|]. intros id. apply may_ack_mono.
  - apply Forall_forall. intros id Hid. left. exists (fills_of batch), resp. split; [left|].
    split; [done|]. by apply Hm.
Qed.

Lemma DeliverOnce_delivering r s batch s' err :
  DeliverOnce r s batch = (s', err) -> delivering batch s ->
  delivering batch s' /\ (err = None -> answered (sk_log s') = true).
Proof.
  unfold DeliverOnce. intros H [Hl Hc]. destruct (Nat.eqb_spec (length batch) 0) as [E0|_].
  { injection H as <- <-. split; [done|]. intros _. apply (answered_without_fills _ batch); [done|].
    by destruct batch. }
  destruct (Nat.ltb_spec 200 (length batch)) as [|Hn]; [by injection H as <- <-|].
  destruct (split_fills (sk_counters s) batch) as [[c nonfill] fills] eqn:Es.
  destruct (split_fills_spec (sk_counters s) batch) as [Ef En]. rewrite Es in Ef, En. cbn in Ef, En. subst.
  destruct (Nat.eqb_spec (length (fills_of batch)) 0) as [E0|Hne].
  { apply (ack_delivering _ _ batch) in H as [Hd Ea]; [|done|by apply skipped_ids].
    split; [done|]. intros _. rewrite Ea. apply (answered_without_fills _ batch); [done|].
    by destruct (fills_of batch). }
  assert (Hf : (1 <= length (fills_of batch) <= 200)%nat).
  { pose proof (length_filter (fun m => is_fill m = true) batch). unfold fills_of in *. lia. }
  destruct (Post _ _ _) as [w answer]. cbn [sk_world sk_counters sk_log] in H.
  assert (Hd : delivering batch (mkSinkState w c (EPost (fills_of batch) answer :: sk_log s))).
  { split; [split; [by exists batch|done]|done]. }
  destruct answer as [resp|e]; [|by injection H as <- <-].
  destruct (Nat.eqb_spec (length (Results resp)) (length (fills_of batch))) as [Er|]; cbn [negb] in H;
    [|by injection H as <- <-].
  destruct (collect_acks _ _ _) as [ids|e] eqn:Ea; [|by injection H as <- <-].
  apply (ack_delivering _ _ batch) in H as [Hd' Ha]; [|done|by apply answered_acks].
  split; [done|]. intros _. rewrite Ha. cbn. by rewrite Er, Nat.eqb_refl.
Qed.

Lemma deliverWithRetry_delivering fuel r n s batch s' ended :
  deliverWithRetry fuel r n s batch = (s', ended) -> delivering batch s ->
  delivering batch s' /\ (ended = Returned -> answered (sk_log s') = true).
Proof.
  revert n s. induction fuel as [|fuel IH]; intros n s H Hd; cbn [deliverWithRetry] in H.
  { by injection H as <- <-. }
  destruct (DeliverOnce r s batch) as [s1 err] eqn:E.
  destruct (DeliverOnce_delivering _ _ _ _ _ E Hd) as [Hd1 Ha].
  destruct err as [e|]; [|injection H as <- <-; split; [done|]; intros _; by apply Ha].
  cbn [sk_world sk_counters sk_log] in H. destruct (ctx_done _); [by injection H as <- <-|].
  destruct (Sleep _ _) as [w []]; [by injection H as <- <-|]. by apply IH in H.
Qed.

Lemma batch_delivering w c log ms :
  log_ok log -> answered log = true -> delivering ms (mkSinkState w c (EBatch ms :: log)).
Proof. done. Qed.

Lemma reclaimPending_ok fuel r s cursor s' ended :
  reclaimPending fuel r s cursor = (s', ended) -> log_ok (sk_log s) -> answered (sk_log s) = true ->
  log_ok (sk_log s') /\ (ended = Returned -> answered (sk_log s') = true).
Proof.
  revert s cursor. induction fuel as [|fuel IH]; intros s cursor H Hl Ha; cbn [reclaimPending] in H.
  { by injection H as <- <-. }
  destruct (AutoClaim _ _ _) as [w [[ms next]|e]]; [|by injection H as <- <-].
  pose proof (batch_delivering w (sk_counters s) (sk_log s) ms Hl Ha) as Hd.
  destruct (Nat.ltb_spec 0 (length ms)) as [_|H0].
  - destruct (deliverWithRetry (S fuel) r 0 _ ms) as [s1 e1] eqn:E.
    destruct (deliverWithRetry_delivering _ _ _ _ _ _ _ E Hd) as [[Hl1 _] Ha1].
    destruct e1; try by injection H as <- <-. split_if in H; [by injection H as <- <-; auto|].
    apply IH in H; auto.
  - destruct ms; [|cbn in H0; lia]. split_if in H; [by injection H as <- <-|].
    apply IH in H; [done|apply Hd|done].
Qed.

Lemma read_loop_ok fuel r s s' ended :
  read_loop fuel r s = (s', ended) -> log_ok (sk_log s) -> answered (sk_log s) = true -> log_ok (sk_log s').
Proof.
  revert s. induction fuel as [|fuel IH]; intros s H Hl Ha; cbn [read_loop] in H.
  { by injection H as <- <-. }
  destruct (ReadNew _ _) as [w [ms|e]]; [|by injection H as <- <-].
  pose proof (batch_delivering w (sk_counters s) (sk_log s) ms Hl Ha) as Hd.
  destruct (Nat.eqb_spec (length ms) 0) as [E0|_].
  - destruct ms; [|done]. apply IH in H; [done|apply Hd|done].
  - destruct (deliverWithRetry (S fuel) r 0 _ ms) as [s1 e1] eqn:E.
    destruct (deliverWithRetry_delivering _ _ _ _ _ _ _ E Hd) as [[Hl1 _] Ha1].
    destruct e1; try by injection H as <- <-. apply IH in H; auto.
Qed.

Lemma Run_ok fuel r w c s' ended : Run fuel r (mkSinkState w c []) = (s', ended) -> log_ok (sk_log s').
Proof.
  unfold Run. destruct (EnsureGroup _ _) as [w1 [e|]]; [by intros [= <- <-]|].
  destruct (reclaimPending _ _ _ _) as [s1 e1] eqn:E.
  apply reclaimPending_ok in E as [Hl Ha]; [|done|done].
  destruct e1; intros H; try by injection H as <- <-. apply read_loop_ok in H; auto.
Qed.

Lemma log_ok_app newer older : log_ok (newer ++ older) -> log_ok older.
Proof. induction newer as [|e newer IH]; [done|]. intros [_ H]. by apply IH. Qed.

(** C10: Only confirmed entries are acknowledged.  Whatever Redis, the network
    and the ledger answer, whenever a run acknowledges an entry, either the
    ledger has answered for it before, at its position of a complete answer,
    that the record is inserted, updated or unchanged, or the stored frame is
    not a fill. *)
Theorem acks_are_confirmed fuel r w c s ended newer ids older :
  Run fuel r (mkSinkState w c []) = (s, ended) ->
  sk_log s = newer ++ EAck ids :: older -> Forall (may_ack older) ids.
Proof. intros H E. apply Run_ok in H. rewrite E in H. by apply log_ok_app in H as [H _]. Qed.

(** The ledger sees only fills, batch by batch.  Each post carries exactly
    the fills of the batch last read, between 1 and 200 of them and in its
    order; and no batch is read before the ledger has completely answered for
    the one before it. *)
Theorem posts_are_sequential fuel r w c s ended newer e older :
  Run fuel r (mkSinkState w c []) = (s, ended) -> sk_log s = newer ++ e :: older ->
  match e with
  | EPost ms _ => exists batch, current older = Some batch /\ ms = fills_of batch /\
      (1 <= length ms <= 200)%nat
  | EBatch _ => answered older = true
  | EAck _ => True
  end.
Proof.
  intros H E. apply Run_ok in H. rewrite E in H. apply log_ok_app in H as [H _]. by destruct e.
Qed.

(** No record of the decoder is lost to the sink's second look.  A record
    the decoder returned, once stored and read back, is posted to the ledger. *)
Theorem decoded_is_posted d c event d' c' rec payload id r s :
  Decode d c event = Some (d', c', Some rec) ->
  rec_faithful rec -> rec_marshal rec = Some payload ->
  0 <= DupObservationCount rec < 18446744073709551616 ->
  exists m, decodeEntries [stored id (entry_values payload rec)] = Ok [m] /\ m_ID m = id /\
    BrokerOrderID (m_Record m) = BrokerOrderID rec /\ FillSeq (m_Record m) = FillSeq rec /\
    exists answer, EPost [m] answer ∈ sk_log (DeliverOnce r s [m]).1.
Proof.
  intros Hd Hf Hm Hc. exists (mkMessage id (unmarked rec) (DupSuspect rec) (DupObservationCount rec)).
  cbn [decodeEntries]. rewrite (decode_stored rec payload id Hf Hm Hc).
  split; [done|]. split; [done|]. split; [done|]. split; [done|].
  assert (Hfill : is_fill (mkMessage id (unmarked rec) (DupSuspect rec) (DupObservationCount rec)) = true).
  { unfold is_fill. cbn. by rewrite (Decode_fill d c event d' c' rec Hd), String.eqb_refl. }
  unfold DeliverOnce. cbn [length Nat.eqb Nat.ltb Nat.leb split_fills]. rewrite Hfill.
  cbn [length Nat.eqb]. destruct (Post _ _ _) as [w answer]. exists answer.
  destruct answer as [resp|e]; [|left]. destruct (negb _); [left|].
  match goal with |- context [collect_acks ?a ?b ?c] => destruct (collect_acks a b c) end; [|left].
  rewrite ack_log. right. left.
Qed.
End Sink.

(** ** Pacing *)

Lemma delay_loop_S r i d : delay_loop r (S i) d =
  if d <? retryMax r then
    let next := int_of_float (float_mul (float_of_int d) (factor r)) in
    if (next <=? d) || (next >? retryMax r) then retryMax r else delay_loop r i next
  else d.
Proof. reflexivity. Qed.

Lemma delay_loop_grows r i d : d <= retryMax r ->
  d <= delay_loop r i d <= retryMax r /\
  (delay_loop r i d < retryMax r -> delay_loop r i d < delay_loop r (S i) d).
Proof.
  revert d. induction i as [|i IH]; intros d Hd.
  - cbn [delay_loop]. split; [lia|]. intros Hlt. rewrite (proj2 (Z.ltb_lt _ _) Hlt).
    destruct (_ || _) eqn:E; [lia|]. bool_simpl. lia.
  - rewrite (delay_loop_S r i d), (delay_loop_S r (S i) d).
    destruct (Z.ltb_spec d (retryMax r)); [|lia]. cbv zeta.
    set (next := int_of_float _). destruct (_ || _) eqn:E; [lia|]. rewrite Z.gtb_ltb in E. bool_simpl.
    destruct (IH next ltac:(lia)) as [Hb Hg]. split; [lia|exact Hg].
Qed.

(** The pause between attempts stays within the configured bounds and grows
    strictly from one attempt to the next until it is the maximum, whatever the
    factor and its rounding. *)
Theorem retryDelay_bounds r n : retryMin r <= retryMax r ->
  retryMin r <= retryDelay r n <= retryMax r /\
  (retryDelay r n < retryMax r -> retryDelay r n < retryDelay r (S n)).
Proof. apply delay_loop_grows. Qed.

(** ** A concrete run

    A stream with one batch, a fill and an older entry that is not one; a
    ledger whose first answer is lost. *)

#[local] Existing Instance sample_kis.
#[local] Existing Instance sample_codec.

Record sample_world := mkSampleWorld { sw_batches : list (list XMessage); sw_failures : nat }.

#[local] Instance sample_redis : Redis sample_world := {|
  XGroupCreateMkStream w _ _ _ := (w, Some "BUSYGROUP Consumer Group name already exists");
  XAdd w _ _ _ := (w, Ok "1-0");
  XReadGroup w _ :=
    match sw_batches w with
    | [] => (w, Err "closed")
    | b :: bs => (mkSampleWorld bs (sw_failures w), Ok (Some [b]))
    end;
  XAutoClaim w _ _ := (w, Ok ([], "0-0"));
  XAck w _ _ ids := (w, Ok (Z.of_nat (length ids)))
|}.
#[local] Instance sample_ingest : Ingest sample_world := {|
  envelope_json e := Some (String.concat "" ((fun _ => "f") <$> Fills e));
  valid_request _ := true;
  do_request w _ rq :=
    match sw_failures w with
    | O => (w, Some (201, rq_body rq))
    | S n => (mkSampleWorld (sw_batches w) n, None)
    end;
  decode_response b := Some (mkResponse "fillwire" None 1 1 0
    (replicate (String.length b) (mkResult "inserted" (Some 1) None)))
|}.
#[local] Instance sample_ctx : Ctx sample_world := {|
  ctx_done _ := false; ctx_or_timer w _ := (w, false)
|}.

Definition sample_runner : Runner :=
  mkRunner (mkStreamConfig "fills" 1000 "g" "c" 10 0 0) (mkClient "http://127.0.0.1/" "t" "h" 1)
    1000000000 60000000000 (binary_normalize 53 1024 2 0 false).
Definition sample_stored (id : string) : XMessage := stored id (entry_values "record" sample_record).
Definition sample_sink : sink_state sample_world :=
  mkSinkState (mkSampleWorld [[sample_stored "1-0"]] 1) None [].
Definition sample_message : Message := mkMessage "1-0" (unmarked sample_record) true 2.
Definition sample_answer : Response :=
  mkResponse "fillwire" None 1 1 0 [mkResult "inserted" (Some 1) None].
Definition sample_log : list sink_event :=
  [EAck ["1-0"]; EPost [sample_message] (Ok sample_answer); EPost [sample_message] (Err ErrNetwork);
   EBatch [sample_message]; EBatch []].

Lemma sample_run_log :
  (fun x => (sk_log x.1, x.2)) (Run 3 sample_runner sample_sink)
    = (sample_log, Failed (ErrQueue (ErrRedis "closed"))).
Proof. vm_compute. reflexivity. Qed.

Lemma sample_run_state :
  exists s, Run 3 sample_runner sample_sink = (s, Failed (ErrQueue (ErrRedis "closed"))) /\ sk_log s = sample_log.
Proof.
  exists (Run 3 sample_runner sample_sink).1. pose proof sample_run_log as H.
  destruct (Run 3 sample_runner sample_sink) as [s e]. injection H as H ->. by split.
Qed.

Lemma acks_are_confirmed_witness :
  Forall (may_ack [EPost [sample_message] (Ok sample_answer); EPost [sample_message] (Err ErrNetwork);
    EBatch [sample_message]; EBatch []]) ["1-0"].
Proof.
  destruct sample_run_state as (s & H & E).
  exact (acks_are_confirmed 3 sample_runner _ None s _ [] ["1-0"] _ H E).
Defined.

Lemma posts_are_sequential_witness :
  exists batch, current [EPost [sample_message] (Err ErrNetwork); EBatch [sample_message]; EBatch []]
    = Some batch /\ [sample_message] = fills_of batch /\ (1 <= 1 <= 200)%nat.
Proof.
  destruct sample_run_state as (s & H & E).
  exact (posts_are_sequential 3 sample_runner _ None s _ [EAck ["1-0"]]
    (EPost [sample_message] (Ok sample_answer)) _ H E).
Defined.

Lemma retryDelay_bounds_witness :
  retryDelay sample_runner 3 = 8000000000 /\ 1000000000 <= retryDelay sample_runner 99 <= 60000000000.
Proof.
  split; [vm_compute; reflexivity|].
  exact (proj1 (retryDelay_bounds sample_runner 99 ltac:(cbn; lia))).
Defined.

Lemma decoded_is_posted_witness :
  match sample_decoded with
  | Some (_, _, Some rec) =>
      exists m answer, m_ID m = "7-0" /\
        EPost [m] answer ∈ sk_log (@DeliverOnce _ _ sample_redis sample_ingest sample_runner sample_sink [m]).1
  | _ => False
  end.
Proof.
  pose proof sample_decoded_record as Hs.
  destruct sample_decoded as [[[d' c'] [rec|]]|] eqn:H; [|done|done].
  destruct (@decoded_is_posted _ (known_codec rec) _ sample_redis sample_ingest sample_decoder None
    (notice_event "2") d' c' rec "record" "7-0" sample_runner sample_sink H eq_refl eq_refl)
    as (m & _ & Hid & _ & _ & answer & Hin).
  - unfold sample_decoded in H. vm_compute in H. injection H as _ _ <-. split; discriminate || reflexivity.
  - exists m, answer. split; [exact Hid|exact Hin].
Defined.
