(* ===== verification/Logs.v ===== *)
(** What reaches the log of the fill and the quote lane: the lines of
    [src/internal/decode/decode.go] and [src/internal/sink/sink.go], and
    [safeReason] of [src/internal/quote/runner.go].

    The text of a [sink_error] is an argument where it is logged, since it can
    come from Redis; [lower] is [strings.ToLower] outside ASCII. *)

From Stdlib Require Import QArith.
From S2P Require Import Prelude GoStr Decode Stream Sink.
Local Open Scope Z_scope.

Inductive log_level := LevelInfo | LevelWarn | LevelError.
Inductive log_value := LogText (s : string) | LogInt (z : Z).
Record log_line := mkLogLine { lg_level : log_level; lg_text : string; lg_args : list (string * log_value) }.

(** ** The decoder *)

Definition fieldAt (fields : list string) (index : nat) : string := default "" (fields !! index).

Definition skipNonFill (kind : string) (event : KisEvent) (execution : Execution) : log_line :=
  mkLogLine (if kind =s NoticeUnknown then LevelWarn else LevelInfo) "skipping non-fill KIS execution notice"
    [("kind", LogText kind); ("tr", LogText (ev_TR event)); ("order_no", LogText (ex_OrderNo execution));
     ("symbol", LogText (ex_Symbol execution)); ("field_count", LogInt (Z.of_nat (length (ev_Fields event))));
     ("cntg_yn", LogText (fieldAt (ev_Fields event) idxCntgYN)); ("rfus_yn", LogText (fieldAt (ev_Fields event) idxRfusYN));
     ("rctf_cls", LogText (fieldAt (ev_Fields event) idxRctfCls)); ("acpt_yn", LogText (fieldAt (ev_Fields event) idxAcptYN))].

Definition drop_line (reason : string) (execution : Execution) : log_line :=
  mkLogLine LevelWarn "dropping invalid KIS execution"
    [("reason", LogText reason); ("order_no", LogText (ex_OrderNo execution)); ("symbol", LogText (ex_Symbol execution));
     ("qty", LogText (ex_Qty execution)); ("price", LogText (ex_Price execution))].

Section Decoder.
Context {kis : GoKis}.

(** The line [Decode] logs for an event, if any. *)
Definition decode_line (event : KisEvent) : option log_line :=
  match ev_Execution event with
  | None => None
  | Some execution =>
      let drop reason := Some (drop_line reason execution) in
      let kind := ClassifyNotice (ev_TR event) (ev_Fields event) in
      if kind <>s NoticeFill then Some (skipNonFill kind event execution)
      else if negb (checkExecutionMatchesFrame execution (ev_Fields event)) then drop "parsed execution disagrees with frame fields"
      else if TrimSpace (ex_OrderNo execution) =s "" then drop "empty broker order id"
      else if ToUpper (TrimSpace (ex_Symbol execution)) =s "" then drop "empty symbol"
      else match QtyInt execution with
      | None => drop "filled quantity must be a positive integer"
      | Some qty =>
        if qty <=? 0 then drop "filled quantity must be a positive integer"
        else match PriceRat execution with
        | None => drop "filled price must be positive"
        | Some price =>
          if Z.sgn (Qnum price) <=? 0 then drop "filled price must be positive"
          else if (ex_Side execution <>s SideBuy) && (ex_Side execution <>s SideSell) then drop "unknown execution side"
          else match combineKSTDate (ev_ReceivedAt event) (ex_FilledAt execution) with
          | None => drop "invalid filled_at"
          | Some _ => None
          end
        end
      end
  end.

(** A notice becomes a record or a line of the log. *)
Lemma decode_line_complete d c event d' c' r : Decode d c event = Some (d', c', r) -> is_Some (ev_Execution event) ->
  (is_Some r <-> decode_line event = None).
Proof.
  intros Hd [execution He]. unfold Decode, decode_line in *. rewrite He in *. cbv zeta in *.
  assert (Hn : forall l : log_line, is_Some (@None LedgerRecord) <-> Some l = None) by (intros l; split; [intros [? [=]]|done]).
  repeat (split_if_goal; [injection Hd as _ _ <-; apply Hn|]).
  destruct (QtyInt execution) as [qty|]; [|injection Hd as _ _ <-; apply Hn].
  split_if_goal; [injection Hd as _ _ <-; apply Hn|]. destruct (PriceRat execution) as [price|]; [|injection Hd as _ _ <-; apply Hn].
  repeat (split_if_goal; [injection Hd as _ _ <-; apply Hn|]).
  destruct (combineKSTDate _ _); [|injection Hd as _ _ <-; apply Hn]. destruct (observe _ _) as [[t n]|]; [|done]. cbn in Hd.
  injection Hd as _ _ <-. by split.
Qed.

(** The columns the decoder looks at one by one: not the customer and the
    account (0 and 1), nor what follows column 14. *)
Definition read_columns : list nat :=
  [idxOrderNo; idxSide; idxRctfCls; idxSymbol; idxCntgQty; idxCntgUnpr; idxCntgHour; idxRfusYN; idxCntgYN; idxAcptYN].
Record same_columns (event event' : KisEvent) : Prop := {
  sc_tr : ev_TR event = ev_TR event';
  sc_received : ev_ReceivedAt event = ev_ReceivedAt event';
  sc_execution : ev_Execution event = ev_Execution event';
  sc_length : length (ev_Fields event) = length (ev_Fields event');
  sc_fields : forall i, i ∈ read_columns -> ev_Fields event !! i = ev_Fields event' !! i
}.

(** No other column of a notice has an influence on what is logged of it: an
    account or a customer's name cannot be told from the log. *)
Lemma decode_line_private event event' : same_columns event event' -> decode_line event = decode_line event'.
Proof.
  intros [Ht Hr He Hl Hf]. unfold decode_line. rewrite He, Hr. destruct (ev_Execution event') as [execution|]; [|done]. cbv zeta.
  assert (Hfield : forall i, i ∈ read_columns -> field (ev_Fields event) i = field (ev_Fields event') i)
    by (intros i Hi; unfold field; by rewrite (Hf i Hi)).
  assert (Hc : ClassifyNotice (ev_TR event) (ev_Fields event) = ClassifyNotice (ev_TR event') (ev_Fields event')).
  { unfold ClassifyNotice, codeField. rewrite Ht, Hl, !Hfield by (unfold read_columns; set_solver). done. }
  assert (Hm : checkExecutionMatchesFrame execution (ev_Fields event) = checkExecutionMatchesFrame execution (ev_Fields event')).
  { unfold checkExecutionMatchesFrame. rewrite Hl, !Hfield by (unfold read_columns; set_solver). done. }
  assert (Hs : forall kind, skipNonFill kind event execution = skipNonFill kind event' execution).
  { intros kind. unfold skipNonFill, fieldAt. rewrite Ht, Hl, !Hf by (unfold read_columns; set_solver). done. }
  by rewrite Hc, Hm, Hs.
Qed.
End Decoder.

(** ** The sink *)

Section Reasons.
Variable lower : string -> string.

(** [strings.ToLower]. *)
Definition ToLower (s : string) : string := if str_forall ascii_byte s then str_map lower_byte s else lower s.

Definition safeErrorReason (text : string) : string :=
  if Contains text "://" || Contains (ToLower text) "authorization" then "redacted" else text.
Definition logFailure (e : sink_error) (text : string) : log_line :=
  let failed := mkLogLine LevelWarn "ingest attempt failed; retaining pending records" [("reason", LogText (safeErrorReason text))] in
  match e with
  | HTTPStatusError status =>
      if (status >=? 400) && (status <? 500)
      then mkLogLine LevelError "ingest request rejected; retaining pending records" [("status_code", LogInt status)]
      else failed
  | _ => failed
  end.

(** A logged reason names no URL and no authorization. *)
Lemma safeErrorReason_safe text :
  Contains (safeErrorReason text) "://" = false /\ Contains (ToLower (safeErrorReason text)) "authorization" = false.
Proof. unfold safeErrorReason. destruct (_ || _) eqn:E; [by vm_compute|]. by apply orb_false_iff in E. Qed.

Lemma logFailure_safe e text name value : (name, LogText value) ∈ lg_args (logFailure e text) ->
  Contains value "://" = false /\ Contains (ToLower value) "authorization" = false.
Proof.
  assert (H : forall l x, (name, LogText value) ∈ [("reason", LogText (safeErrorReason x)) : string * log_value] ++ l -> l = [] ->
    Contains value "://" = false /\ Contains (ToLower value) "authorization" = false).
  { intros l x Hin ->. apply list_elem_of_singleton in Hin. injection Hin as -> ->. apply safeErrorReason_safe. }
  destruct e; try exact (fun Hin => H [] text Hin eq_refl). cbn [logFailure]. destruct (_ && _); [|exact (fun Hin => H [] text Hin eq_refl)].
  intros [=]%list_elem_of_singleton.
Qed.
End Reasons.

(** [safeReason] of the quote lane. *)
Definition safeReason (text : string) : string := if Contains text "://" then "redacted transport failure" else text.
Lemma safeReason_safe text : Contains (safeReason text) "://" = false.
Proof. unfold safeReason. by destruct (Contains text "://") eqn:E. Qed.

(** The line on the answer of the ledger counts its statuses. *)
Definition count_status (status : string) (results : list Result) : Z :=
  Z.of_nat (length (filter (fun r => Status r = status) results)).
Definition statuses_line (batch : nat) (results : list Result) : log_line :=
  mkLogLine LevelInfo "ingest response statuses observed"
    (("batch_size", LogInt (Z.of_nat batch)) ::
     map (fun status => (status, LogInt (count_status status results))) ["inserted"; "updated"; "unchanged"; "rejected"]).

Lemma count_status_cons status r results :
  count_status status (r :: results) = (if Status r =s status then 1 else 0) + count_status status results.
Proof.
  unfold count_status. rewrite filter_cons. destruct (Status r =s status) eqn:E; bool_simpl.
  - rewrite decide_True by done. cbn [length]. lia.
  - rewrite decide_False by done. lia.
Qed.

(** On an answer that is taken, the four counts make up the batch, and all but
    the rejected are acknowledged. *)
Lemma statuses_accounted ms : forall acks results ids, length results = length ms -> collect_acks acks ms results = Ok ids ->
  let n status := count_status status results in
  n "inserted" + n "updated" + n "unchanged" + n "rejected" = Z.of_nat (length ms) /\
  Z.of_nat (length ids) = Z.of_nat (length acks) + n "inserted" + n "updated" + n "unchanged".
Proof.
  cbv zeta. induction ms as [|m ms IH]; intros acks [|r results] ids Hl Hc; try done.
  - injection Hc as <-. unfold count_status. cbn. lia.
  - cbn [collect_acks] in Hc. injection Hl as Hl. rewrite !count_status_cons. unfold confirmed_status in Hc.
    assert (Hx : forall a b, a <> b -> Status r = a -> (Status r =s b) = false) by (intros a b Hab ->; by apply String.eqb_neq).
    destruct (Status r =s "inserted") eqn:E1; [|destruct (Status r =s "updated") eqn:E2; [|destruct (Status r =s "unchanged") eqn:E3;
      [|destruct (Status r =s "rejected") eqn:E4; [|done]]]]; cbn [orb] in Hc; destruct (IH _ _ _ Hl Hc) as [H1 H2];
      rewrite ?length_app in H2; cbn [length] in *; bool_simpl.
    + rewrite !(Hx "inserted") by done. lia.
    + rewrite !(Hx "updated") by done. lia.
    + rewrite !(Hx "unchanged") by done. lia.
    + lia.
Qed.

(** The two lines on a message. *)
Definition logNonFillSkipped (m : Message) (kind : string) : log_line :=
  mkLogLine LevelWarn "skipping stored KIS notice that is not a fill"
    [("kind", LogText kind); ("order_no", LogText (BrokerOrderID (m_Record m))); ("symbol", LogText (lr_Symbol (m_Record m)))].
Definition logDuplicateAbsorbed (m : Message) : log_line :=
  mkLogLine LevelInfo "duplicate KIS fill absorbed by ledger"
    [("order_no", LogText (BrokerOrderID (m_Record m))); ("fill_seq", LogInt (FillSeq (m_Record m)));
     ("observation_count", LogInt (m_DupObservationCount m))].

(** ** A notice whose account changes *)

Example account_is_private :
  let kis := sample_kis in
  decode_line (notice_event "1") = decode_line (mkKisEvent (ev_TR (notice_event "1"))
    (<[1%nat := "another account"]> (ev_Fields (notice_event "1"))) (ev_ReceivedAt (notice_event "1")) (ev_Execution (notice_event "1"))) /\
  is_Some (decode_line (notice_event "1")).
Proof. vm_compute. split; [done|by eexists]. Qed.
