(* ===== verification/Limits.v ===== *)
(** [src/internal/quote/limits.go] and [src/internal/quote/safe.go]: the
    declaration limiter, the memory of refused tokens and the guard that holds
    the quote lane to one websocket.

    The limiter's lock serialises its callers, so any interleaving of them is
    a sequence of [reserve] and [coolDown] steps. *)

From Stdlib Require Import Ascii.
From Stdlib Require Import Sorting.Sorted.
From S2P Require Import Prelude GoStr KST Sha256.
Local Open Scope Z_scope.
#[local] Arguments String.append !_ _ / : simpl nomatch.

(** ** The declaration limiter *)

Definition declareLimit : nat := 5.
Definition declareWindow : Z := second_ns.
Definition rateLimitCoolDown : Z := second_ns.
Definition maxRefusedTokens : nat := 32.

(** Instants are nanoseconds since the epoch; the zero [time.Time] is the
    first of January of the year 1. *)
Definition zero_time : Z := -62135596800 * second_ns.

(** [Time.Sub] saturates. *)
Definition time_sub (a b : Z) : Z := Z.max min_int64 (Z.min max_int64 (a - b)).

Record declareLimiter := mkDeclareLimiter { admitted : list Z; notBefore : Z }.
Definition newDeclareLimiter : declareLimiter := mkDeclareLimiter [] zero_time.

Definition coolDown (l : declareLimiter) (until : Z) : declareLimiter :=
  if until >? notBefore l then mkDeclareLimiter (admitted l) until else l.

(** [reserve] at the instant the clock shows: [inr] is admission, [inl] the
    wait it asks for. *)
Definition reserve (l : declareLimiter) (now : Z) : declareLimiter * (Z + unit) :=
  let kept := filter (fun at_ => time_sub now at_ < declareWindow) (admitted l) in
  let l := mkDeclareLimiter kept (notBefore l) in
  if now <? notBefore l then (l, inl (time_sub (notBefore l) now))
  else if (declareLimit <=? length kept)%nat then
    (l, inl (time_sub (hd 0 kept + declareWindow) now))
  else (mkDeclareLimiter (kept ++ [now]) (notBefore l), inr tt).

(** [Wait], for a caller the context lets run: [late] is how much longer than
    asked each timer takes, at most [fuel] rounds. *)
Fixpoint Wait (fuel : nat) (late : nat -> Z) (l : declareLimiter) (now : Z) : option (declareLimiter * Z) :=
  match fuel with
  | O => None
  | S fuel =>
      match reserve l now with
      | (l, inr _) => Some (l, now)
      | (l, inl wait) => Wait fuel late l (now + Z.max 0 wait + late fuel)
      end
  end.

(** What the callers of one limiter do. *)
Inductive limit_op : Type :=
| OpReserve (now : Z)
| OpCoolDown (until : Z).

(** The limiter over a sequence of steps, with the admissions it grants. *)
Fixpoint limiter_run (l : declareLimiter) (ops : list limit_op) : declareLimiter * list Z :=
  match ops with
  | [] => (l, [])
  | OpCoolDown until :: ops => limiter_run (coolDown l until) ops
  | OpReserve now :: ops =>
      let '(l, granted) := reserve l now in
      let '(l, adm) := limiter_run l ops in
      (l, (match granted with inr _ => [now] | inl _ => [] end) ++ adm)
  end.

(** ** Refused tokens *)

Definition hex_digit (n : Z) : ascii :=
  if n <? 10 then ascii_of_nat (48 + Z.to_nat n) else ascii_of_nat (87 + Z.to_nat n).
(** [hex.EncodeToString]. *)
Definition hex_encode (bytes : list Z) : string :=
  fold_right (fun b s => String (hex_digit (b / 16)) (String (hex_digit (b mod 16)) s)) "" bytes.
Definition tokenFingerprint (token : string) : string := hex_encode (Sum256 token).

Record refusedTokens := mkRefusedTokens { rt_order : list string; rt_set : gset string }.

(** [add] on a fingerprint; the queue is never empty when it is full. *)
Definition add_fingerprint (r : refusedTokens) (fingerprint : string) : refusedTokens :=
  if decide (fingerprint ∈ rt_set r) then r
  else
    let '(order, set) :=
      if (maxRefusedTokens <=? length (rt_order r))%nat
      then match rt_order r with
           | oldest :: order => (order, rt_set r ∖ {[ oldest ]})
           | [] => ([], rt_set r)
           end
      else (rt_order r, rt_set r) in
    mkRefusedTokens (order ++ [fingerprint]) (set ∪ {[ fingerprint ]}).
Definition add (r : refusedTokens) (token : string) : refusedTokens :=
  add_fingerprint r (tokenFingerprint token).
Definition contains (r : refusedTokens) (token : string) : bool :=
  bool_decide (tokenFingerprint token ∈ rt_set r).

(** ** One connection *)

(** [singleConnection.open] and the transports it handed out: true until the
    first [Close] of the transport has released it. *)
Record lane := mkLane { sc_open : bool; sc_dialing : nat; sc_live : list bool }.

(** The steps of [Dial] and [Close] between which other goroutines run. *)
Inductive lane_op : Type :=
| DialStart
| DialDone (ok : bool)
| CloseTransport (i : nat).

(** A step that is not possible ([DialDone] without a dial) changes nothing;
    [Dial] refused while open is [DialStart] without effect. *)
Definition lane_step (s : lane) (op : lane_op) : lane :=
  match op with
  | DialStart => if sc_open s then s else mkLane true (S (sc_dialing s)) (sc_live s)
  | DialDone ok =>
      match sc_dialing s with
      | O => s
      | S n =>
          if ok then mkLane (sc_open s) n (sc_live s ++ [true]) else mkLane false n (sc_live s)
      end
  | CloseTransport i =>
      match sc_live s !! i with
      | Some true => mkLane false (sc_dialing s) (<[i := false]> (sc_live s))
      | _ => s
      end
  end.
Definition lane_run (ops : list lane_op) : lane := fold_left lane_step ops (mkLane false 0 []).

(** ** The limiter's rate *)

(** The clock never runs backwards over the steps. *)
Fixpoint clock_ok (t : Z) (ops : list limit_op) : Prop :=
  match ops with
  | [] => True
  | OpReserve now :: ops => t <= now /\ clock_ok now ops
  | OpCoolDown _ :: ops => clock_ok t ops
  end.

(** Any six admissions in a row span the window. *)
Definition spaced (h : list Z) : Prop :=
  forall i a b, h !! i = Some a -> h !! (i + declareLimit)%nat = Some b -> declareWindow <= b - a.

Definition recent (t at_ : Z) : Prop := t - at_ < declareWindow.
#[local] Instance recent_dec t at_ : Decision (recent t at_). Proof. unfold recent. apply _. Defined.

(** The limiter has seen the admissions [h] until the instant [t]. *)
Definition limiter_ok (l : declareLimiter) (h : list Z) (t : Z) : Prop :=
  admitted l = filter (recent t) h /\ StronglySorted Z.le h /\ Forall (fun a => a <= t) h /\ spaced h.

Lemma time_sub_recent now at_ : time_sub now at_ < declareWindow <-> recent now at_.
Proof.
  unfold time_sub, recent, declareWindow, second_ns, min_int64, max_int64. lia.
Qed.

Lemma kept_recent l h t now : limiter_ok l h t -> t <= now ->
  filter (fun at_ => time_sub now at_ < declareWindow) (admitted l) = filter (recent now) h.
Proof.
  intros (-> & _) Ht. rewrite list_filter_filter_l.
  - apply list_filter_iff. intros x. apply time_sub_recent.
  - intros x Hx%time_sub_recent. unfold recent in *. lia.
Qed.

Lemma sorted_lookup_le h i j a b :
  StronglySorted Z.le h -> h !! i = Some a -> h !! j = Some b -> (i <= j)%nat -> a <= b.
Proof.
  intros Hs. revert i j. induction Hs as [|x h Hs IH Hx]; intros i j Ha Hb Hij; [done|].
  destruct i as [|i], j as [|j]; cbn in *; try lia.
  - assert (a = b) by congruence. lia.
  - injection Ha as ->. rewrite Forall_forall in Hx. apply Hx. by eapply list_elem_of_lookup_2.
  - apply (IH i j); [done..|lia].
Qed.

Lemma filter_all {A} (P : A -> Prop) `{forall x, Decision (P x)} (l : list A) :
  (forall x, x ∈ l -> P x) -> filter P l = l.
Proof.
  induction l as [|x l IH]; [done|]. intros Hl. rewrite filter_cons_True by (apply Hl; left).
  f_equal. apply IH. intros y Hy. apply Hl. by right.
Qed.

(** Fewer than five recent admissions: the fifth last is not recent. *)
Lemma not_recent h now i a :
  StronglySorted Z.le h -> (length (filter (recent now) h) < declareLimit)%nat ->
  h !! i = Some a -> length h = (i + declareLimit)%nat -> declareWindow <= now - a.
Proof.
  intros Hs Hf Hi Hl. destruct (Z.le_gt_cases declareWindow (now - a)); [done|]. exfalso.
  rewrite <- (take_drop i h), filter_app, length_app in Hf.
  assert (E : filter (recent now) (drop i h) = drop i h).
  { apply filter_all. intros x [j Hx]%list_elem_of_lookup. rewrite lookup_drop in Hx.
    pose proof (sorted_lookup_le h i (i + j) a x Hs Hi Hx ltac:(lia)). unfold recent. lia. }
  rewrite E, length_drop in Hf. unfold declareLimit in *. lia.
Qed.

Lemma sorted_snoc h t : StronglySorted Z.le h -> Forall (fun a => a <= t) h -> StronglySorted Z.le (h ++ [t]).
Proof.
  induction 1 as [|x h Hs IH Hx]; intros Hf; cbn; [by repeat constructor|].
  apply Forall_cons in Hf as [H1 H2]. constructor; [by apply IH|]. apply Forall_app. split; [done|].
  by constructor.
Qed.

Lemma spaced_snoc h now :
  StronglySorted Z.le h -> spaced h -> (length (filter (recent now) h) < declareLimit)%nat ->
  spaced (h ++ [now]).
Proof.
  intros Hs Hsp Hf i a b Ha Hb.
  apply lookup_snoc_Some in Ha as [[Hi Ha]|[-> ->]]; apply lookup_snoc_Some in Hb as [[Hj Hb]|[Hj <-]];
    try (unfold declareLimit in *; lia).
  - by apply (Hsp i).
  - by apply (not_recent h now i a).
Qed.

Lemma reserve_ok l h t now :
  limiter_ok l h t -> t <= now ->
  limiter_ok (reserve l now).1 (h ++ match (reserve l now).2 with inr _ => [now] | inl _ => [] end) now.
Proof.
  intros Hl Ht. pose proof (kept_recent l h t now Hl Ht) as Ek. destruct Hl as (_ & Hs & Hf & Hsp).
  assert (Hf' : Forall (fun a => a <= now) h) by (eapply Forall_impl; [done|]; cbn; lia).
  unfold reserve. rewrite Ek. cbv zeta. cbn [notBefore].
  destruct (now <? notBefore l); [rewrite app_nil_r; done|].
  destruct (Nat.leb_spec declareLimit (length (filter (recent now) h))); [rewrite app_nil_r; done|].
  split; [|split; [by apply sorted_snoc|split]].
  - cbn [fst admitted]. rewrite filter_app, (filter_all _ [now]); [done|].
    intros x ->%list_elem_of_singleton. unfold recent, declareWindow, second_ns. lia.
  - apply Forall_app. split; [done|]. by constructor.
  - by apply spaced_snoc.
Qed.

Lemma coolDown_ok l h t u : limiter_ok l h t -> limiter_ok (coolDown l u) h t.
Proof. unfold coolDown. by destruct (u >? notBefore l). Qed.

Lemma limiter_run_ok l h t ops : limiter_ok l h t -> clock_ok t ops -> spaced (h ++ (limiter_run l ops).2).
Proof.
  revert l h t. induction ops as [|[now|u] ops IH]; intros l h t Hl Hc; cbn [limiter_run clock_ok] in *.
  - cbn. rewrite app_nil_r. by destruct Hl as (_ & _ & _ & ?).
  - destruct Hc as [Ht Hc]. pose proof (reserve_ok l h t now Hl Ht) as Hr.
    destruct (reserve l now) as [l1 g]. specialize (IH l1 _ now Hr Hc).
    destruct (limiter_run l1 ops) as [l2 adm]. cbn [snd] in *. by rewrite app_assoc.
  - apply (IH _ h t); [by apply coolDown_ok|done].
Qed.

Lemma reserve_notBefore l now : notBefore (reserve l now).1 = notBefore l /\
  (forall u, (reserve l now).2 = inr u -> notBefore l <= now).
Proof.
  unfold reserve. cbv zeta. cbn [notBefore]. destruct (Z.ltb_spec now (notBefore l)); [done|].
  by destruct (_ <=? _)%nat.
Qed.

Lemma limiter_run_cool l ops : Forall (fun t => notBefore l <= t) (limiter_run l ops).2.
Proof.
  revert l. induction ops as [|[now|u] ops IH]; intros l; cbn [limiter_run]; [constructor| |].
  - destruct (reserve_notBefore l now) as [E Hg]. destruct (reserve l now) as [l1 g].
    cbn [fst snd] in *. specialize (IH l1). rewrite E in IH. destruct (limiter_run l1 ops) as [l2 adm].
    cbn [snd] in *. apply Forall_app. split; [|done]. destruct g as [|u]; constructor; [by apply (Hg u)|constructor].
  - eapply Forall_impl; [apply IH|]. cbn. intros t. unfold coolDown.
    destruct (Z.gtb_spec u (notBefore l)); cbn; lia.
Qed.

(** C21: However callers and cool-downs interleave, the limiter admits at most
    five declarations in any window of a second, and none before the end of a
    cool-down that was set. *)
Theorem limiter_rate t ops1 u ops2 :
  clock_ok t (ops1 ++ OpCoolDown u :: ops2) ->
  spaced (limiter_run newDeclareLimiter (ops1 ++ OpCoolDown u :: ops2)).2 /\
  Forall (fun a => u <= a) (limiter_run (coolDown (limiter_run newDeclareLimiter ops1).1 u) ops2).2.
Proof.
  intros Hc. split.
  - apply (limiter_run_ok newDeclareLimiter [] t); [|done]. repeat split; try constructor. intros i. by intros.
  - eapply Forall_impl; [apply limiter_run_cool|]. cbn. intros a. unfold coolDown.
    destruct (Z.gtb_spec u (notBefore (limiter_run newDeclareLimiter ops1).1)); cbn; lia.
Qed.

(** Six callers in a row and a cool-down: the sixth waits. *)
Definition sample_ops : list limit_op :=
  [OpReserve 0; OpReserve 1; OpReserve 2; OpReserve 3; OpReserve 4; OpReserve 5; OpReserve second_ns].

Lemma limiter_rate_witness :
  (limiter_run newDeclareLimiter sample_ops).2 = [0; 1; 2; 3; 4; second_ns] /\
  spaced (limiter_run newDeclareLimiter (sample_ops ++ [OpCoolDown (2 * second_ns); OpReserve (second_ns + 1)])).2.
Proof.
  split; [vm_compute; reflexivity|].
  apply (limiter_rate 0 sample_ops (2 * second_ns) [OpReserve (second_ns + 1)]).
  cbn. unfold second_ns. lia.
Defined.

(** ** [Wait] returns *)

Lemma reserve_length l now : (length (admitted l) <= declareLimit)%nat ->
  (length (admitted (reserve l now).1) <= declareLimit)%nat.
Proof.
  intros Hl. unfold reserve. cbv zeta.
  pose proof (length_filter (fun at_ => time_sub now at_ < declareWindow) (admitted l)).
  destruct (_ <? _); cbn [notBefore admitted fst]; [lia|].
  destruct (Nat.leb_spec declareLimit (length (filter (fun at_ => time_sub now at_ < declareWindow) (admitted l))));
    cbn [fst admitted]; [lia|]. rewrite length_app. cbn. lia.
Qed.

Lemma limiter_run_length l ops : (length (admitted l) <= declareLimit)%nat ->
  (length (admitted (limiter_run l ops).1) <= declareLimit)%nat.
Proof.
  revert l. induction ops as [|[now|u] ops IH]; intros l Hl; cbn [limiter_run]; [done| |].
  - pose proof (reserve_length l now Hl) as Hr. destruct (reserve l now) as [l1 g]. specialize (IH l1 Hr).
    by destruct (limiter_run l1 ops).
  - apply IH. unfold coolDown. by destruct (u >? notBefore l).
Qed.

Lemma reserve_past l now t : Forall (fun a => a <= t) (admitted l) -> t <= now ->
  Forall (fun a => a <= now) (admitted (reserve l now).1).
Proof.
  intros Hl Ht. set (kept := filter (fun at_ => time_sub now at_ < declareWindow) (admitted l)).
  assert (Hk : Forall (fun a => a <= now) kept).
  { apply Forall_forall. intros a [_ Ha]%list_elem_of_filter. rewrite Forall_forall in Hl.
    specialize (Hl a Ha). lia. }
  unfold reserve. fold kept. cbv zeta. cbn [notBefore]. destruct (_ <? _); [done|].
  destruct (_ <=? _)%nat; [done|]. cbn. apply Forall_app. split; [done|]. by constructor.
Qed.

Lemma limiter_run_past t l ops now : Forall (fun a => a <= t) (admitted l) ->
  clock_ok t (ops ++ [OpReserve now]) -> Forall (fun a => a <= now) (admitted (limiter_run l ops).1).
Proof.
  revert t l. induction ops as [|[n|u] ops IH]; intros t l Hl Hc; cbn [limiter_run app clock_ok] in *.
  - destruct Hc as [Hc _]. eapply Forall_impl; [done|]. cbn. lia.
  - destruct Hc as [Ht Hc]. pose proof (reserve_past l n t Hl Ht) as Hr. destruct (reserve l n) as [l1 g].
    specialize (IH n l1 Hr Hc). by destruct (limiter_run l1 ops).
  - apply (IH t); [|done]. unfold coolDown. by destruct (u >? notBefore l).
Qed.

(** Past the cool-down a refused caller need wait once. *)
Lemma reserve_after l now wait l' now' :
  (length (admitted l) <= declareLimit)%nat -> Forall (fun a => a <= now) (admitted l) ->
  notBefore l <= now -> reserve l now = (l', inl wait) -> now + Z.max 0 wait <= now' ->
  exists l'', reserve l' now' = (l'', inr tt).
Proof.
  intros Hl Hpast Hn. unfold reserve at 1. cbv zeta. cbn [notBefore].
  destruct (Z.ltb_spec now (notBefore l)); [lia|].
  pose proof (length_filter (fun at_ => time_sub now at_ < declareWindow) (admitted l)) as Hlen.
  set (kept := filter _ (admitted l)) in *.
  destruct (Nat.leb_spec declareLimit (length kept)) as [Hk|]; [|done]. intros [= <- <-] Hw.
  destruct kept as [|oldest rest] eqn:Ek; [unfold declareLimit in Hk; cbn in Hk; lia|]. cbn [hd] in Hw.
  assert (Ho : recent now oldest /\ oldest <= now).
  { assert (oldest ∈ kept) as [? Hin]%list_elem_of_filter by (rewrite Ek; left).
    rewrite Forall_forall in Hpast. split; [by apply time_sub_recent|by apply Hpast]. }
  assert (Hold : ~ (time_sub now' oldest < declareWindow)).
  { rewrite time_sub_recent. unfold recent, time_sub, declareWindow, second_ns, min_int64, max_int64 in *. lia. }
  unfold reserve. cbn [admitted notBefore]. cbv zeta. rewrite filter_cons_False by done.
  destruct (Z.ltb_spec now' (notBefore l)); [lia|].
  pose proof (length_filter (fun at_ => time_sub now' at_ < declareWindow) rest) as Hr. cbn in Hk, Hlen.
  destruct (Nat.leb_spec declareLimit (length (filter (fun at_ => time_sub now' at_ < declareWindow) rest)));
    [unfold declareLimit in *; lia|]. eauto.
Qed.

Lemma Wait_reserve fuel late l now : (length (admitted l) <= declareLimit)%nat ->
  Forall (fun a => a <= now) (admitted l) -> notBefore l <= now ->
  (forall n, 0 <= late n) -> exists l' t, Wait (S (S fuel)) late l now = Some (l', t).
Proof.
  intros Hl Hpast Hn Hlate. cbn [Wait]. destruct (reserve l now) as [l1 [wait|u]] eqn:E; [|eauto].
  destruct (reserve_after l now wait l1 (now + Z.max 0 wait + late (S fuel)) Hl Hpast Hn E) as [l2 E2].
  - specialize (Hlate (S fuel)). lia.
  - rewrite E2. eauto.
Qed.

(** A caller that no other caller disturbs is admitted: [Wait] returns
    after at most three looks at the limiter, however late its timers fire. *)
Theorem Wait_terminates t ops now late :
  let l := (limiter_run newDeclareLimiter ops).1 in
  clock_ok t (ops ++ [OpReserve now]) -> (forall n, 0 <= late n) -> notBefore l - now <= max_int64 ->
  exists l' at_, Wait 3 late l now = Some (l', at_).
Proof.
  intros l Hc Hlate Hn. assert (Hpast : Forall (fun a => a <= now) (admitted l))
    by (apply (limiter_run_past t); [constructor|done]).
  assert (Hl : (length (admitted l) <= declareLimit)%nat)
    by (apply limiter_run_length; cbn; lia).
  destruct (Z.le_gt_cases (notBefore l) now) as [Hle|Hgt]; [by apply Wait_reserve|].
  cbn [Wait]. destruct (reserve l now) as [l1 g] eqn:E.
  pose proof (reserve_length l now Hl) as Hl1. pose proof (proj1 (reserve_notBefore l now)) as En.
  rewrite E in Hl1, En. cbn [fst] in Hl1, En.
  unfold reserve in E. cbv zeta in E. cbn [notBefore] in E. rewrite (proj2 (Z.ltb_lt _ _) Hgt) in E.
  injection E as <- <-. specialize (Hlate 2%nat) as Hlate2.
  apply (Wait_reserve 0); [done| | |done].
  { apply Forall_forall. intros a [_ Ha]%list_elem_of_filter. rewrite Forall_forall in Hpast.
    specialize (Hpast a Ha). unfold time_sub, min_int64, max_int64 in *. lia. }
  cbn [notBefore]. unfold time_sub. unfold min_int64, max_int64 in *. lia.
Qed.

Lemma Wait_terminates_witness :
  exists l' at_, Wait 3 (fun _ => 0) (limiter_run newDeclareLimiter (take 6 sample_ops)).1 5 = Some (l', at_).
Proof.
  apply (Wait_terminates 0 (take 6 sample_ops) 5 (fun _ => 0)).
  - cbn. lia.
  - intros _. lia.
  - vm_compute. discriminate.
Defined.

(** ** The memory of refused tokens *)

Definition tokens_ok (r : refusedTokens) : Prop :=
  rt_set r = list_to_set (rt_order r) /\ NoDup (rt_order r) /\ (length (rt_order r) <= maxRefusedTokens)%nat.

Lemma add_fingerprint_ok r f : tokens_ok r ->
  let r' := add_fingerprint r f in
  tokens_ok r' /\
  ((f ∈ rt_order r /\ rt_order r' = rt_order r) \/
   (f ∉ rt_order r /\ exists n, (n = 0 \/ n = 1 /\ length (rt_order r) = maxRefusedTokens)%nat /\
      rt_order r' = drop n (rt_order r) ++ [f])).
Proof.
  intros (Hs & Hn & Hl). cbv zeta. unfold add_fingerprint. rewrite Hs.
  destruct (decide _) as [Hin|Hin]; rewrite elem_of_list_to_set in Hin.
  { split; [done|]. by left. }
  destruct (Nat.leb_spec maxRefusedTokens (length (rt_order r))) as [Hfull|Hfree].
  - destruct (rt_order r) as [|oldest order] eqn:E; [unfold maxRefusedTokens in Hfull; cbn in Hfull; lia|].
    apply NoDup_cons in Hn as [Ho Hn]. apply not_elem_of_cons in Hin as [Hne Hin]. split.
    + split; [|split]; cbn [rt_set rt_order].
      * rewrite list_to_set_app_L. cbn [list_to_set].
        assert (oldest ∉ (list_to_set order : gset string)) by (by rewrite elem_of_list_to_set).
        apply set_eq. intros x. set_unfold. naive_solver.
      * by apply NoDup_snoc.
      * rewrite length_app. cbn in *. lia.
    + right. split; [by apply not_elem_of_cons|]. exists 1%nat. split; [right; split; [done|cbn in *; lia]|done].
  - split.
    + split; [|split]; cbn [rt_set rt_order].
      * rewrite list_to_set_app_L. cbn [list_to_set]. set_solver.
      * by apply NoDup_snoc.
      * rewrite length_app. cbn. lia.
    + right. split; [done|]. exists 0%nat. split; [by left|done].
Qed.

Definition no_tokens : refusedTokens := mkRefusedTokens [] ∅.

(** The token [g] is remembered, and at most [k] newer ones are. *)
Definition remembered (r : refusedTokens) (g : string) (k : nat) : Prop :=
  tokens_ok r /\ exists i, rt_order r !! i = Some g /\ (length (rt_order r) <= S (i + k))%nat.

Lemma remembered_add r f g k : remembered r g k -> (S k < maxRefusedTokens)%nat ->
  remembered (add_fingerprint r f) g (S k).
Proof.
  intros [Hr (i & Hi & Hk)] Hm. destruct (add_fingerprint_ok r f Hr) as [Hr' Hc]. split; [done|].
  destruct Hc as [[_ E]|(_ & n & Hn & E)]; rewrite E.
  - exists i. split; [done|lia].
  - pose proof (lookup_lt_Some _ _ _ Hi) as Hlt. exists (i - n)%nat.
    split; [|rewrite length_app, length_drop; cbn; unfold maxRefusedTokens in *; lia].
    apply lookup_app_l_Some. rewrite lookup_drop.
    by replace (n + (i - n))%nat with i by (unfold maxRefusedTokens in *; lia).
Qed.

Lemma adds_ok ts r : tokens_ok r -> tokens_ok (fold_left add ts r).
Proof. revert r. induction ts as [|t ts IH]; intros r Hr; cbn; [done|]. apply IH, add_fingerprint_ok, Hr. Qed.

Lemma remembered_adds r g ts k : remembered r g k -> (k + length ts < maxRefusedTokens)%nat ->
  remembered (fold_left add ts r) g (k + length ts).
Proof.
  revert r k. induction ts as [|t ts IH]; intros r k Hr Hm; cbn [fold_left length] in *.
  - by rewrite Nat.add_0_r.
  - replace (k + S (length ts))%nat with (S k + length ts)%nat by lia. apply IH; [|lia].
    apply remembered_add; [done|lia].
Qed.

Lemma no_tokens_ok : tokens_ok no_tokens.
Proof. split; [done|]. split; [constructor|]. cbn. unfold maxRefusedTokens. lia. Qed.

(** A token that is refused is not tried again soon.  The memory never
    exceeds its bound, and a newly refused token is still in it after up to 31
    further refusals, whatever was refused before. *)
Theorem refused_token_kept before token after :
  contains (fold_left add before no_tokens) token = false ->
  (length after < maxRefusedTokens)%nat ->
  let r := fold_left add (before ++ token :: after) no_tokens in
  contains r token = true /\ (length (rt_order r) <= maxRefusedTokens)%nat.
Proof.
  intros Hnew Hm. cbv zeta. pose proof (adds_ok before no_tokens no_tokens_ok) as Hb.
  split; [|apply (adds_ok _ _ no_tokens_ok)]. rewrite fold_left_app. cbn [fold_left].
  set (r := fold_left add before no_tokens) in *.
  unfold contains in *. apply bool_decide_eq_true. apply bool_decide_eq_false in Hnew.
  destruct (add_fingerprint_ok r (tokenFingerprint token) Hb) as [Hok Hc].
  assert (Hr : remembered (add r token) (tokenFingerprint token) 0).
  { split; [done|]. destruct Hc as [[Hin _]|(_ & n & _ & E)].
    - destruct Hb as [Hs _]. rewrite Hs, elem_of_list_to_set in Hnew. done.
    - unfold add. rewrite E. exists (length (drop n (rt_order r))).
      rewrite lookup_app_r, Nat.sub_diag by lia. split; [done|]. rewrite length_app. cbn. lia. }
  apply (remembered_adds _ _ after) in Hr as [[Hs _] (i & Hi & _)]; [|done].
  rewrite Hs, elem_of_list_to_set. by apply list_elem_of_lookup_2 in Hi.
Qed.

Lemma refused_token_kept_witness :
  contains (fold_left add ["first"; "second"; "third"] no_tokens) "second" = true.
Proof.
  apply (refused_token_kept ["first"] "second" ["third"]).
  - vm_compute. reflexivity.
  - cbn. unfold maxRefusedTokens. lia.
Defined.

(** ** At most one connection *)

Definition count_live (s : lane) : nat := length (filter (fun b => b = true) (sc_live s)).
Definition lane_ok (s : lane) : Prop :=
  (count_live s + sc_dialing s = if sc_open s then 1 else 0)%nat.

Lemma count_release l i : l !! i = Some true ->
  length (filter (fun b => b = true) l) = S (length (filter (fun b => b = true) (<[i := false]> l))).
Proof.
  intros Hi. rewrite <- (take_drop_middle l i true Hi) at 1. rewrite insert_take_drop by (by eapply lookup_lt_Some).
  rewrite !filter_app, !length_app, filter_cons_True, filter_cons_False by done. cbn. lia.
Qed.

Lemma lane_step_ok s op : lane_ok s -> lane_ok (lane_step s op).
Proof.
  unfold lane_ok, count_live. destruct s as [open dialing live], op as [|ok|i]; cbn.
  - destruct open; cbn; lia.
  - destruct dialing as [|n]; [done|]. destruct ok; cbn; [|destruct open; lia].
    rewrite filter_app, length_app. rewrite (filter_all _ [true]) by (by intros x ->%list_elem_of_singleton). cbn. destruct open; lia.
  - destruct (live !! i) as [[]|] eqn:E; [|done..]. cbn. rewrite (count_release live i E). destruct open; lia.
Qed.

(** The quote lane holds at most one websocket: however dials, their
    results and repeated closes interleave, the transports that are not closed
    and the dials under way are together at most one, and a new dial is refused
    exactly while there is one. *)
Theorem one_connection ops : let s := lane_run ops in
  (count_live s + sc_dialing s <= 1)%nat /\
  (sc_open s = true <-> (count_live s + sc_dialing s = 1)%nat).
Proof.
  cbv zeta. assert (Hok : lane_ok (lane_run ops)).
  { unfold lane_run. assert (H0 : lane_ok (mkLane false 0 [])) by done.
    revert H0. generalize (mkLane false 0 []). induction ops as [|op ops IH]; intros s Hs; cbn; [done|].
    by apply IH, lane_step_ok. }
  unfold lane_ok in Hok. destruct (sc_open (lane_run ops)); split; try lia; split; intros; (done || lia).
Qed.
