(* ===== verification/Session.v ===== *)
(** [src/internal/quote/session.go]: session labels and the schedule of the
    quote socket.

    A time zone is its offset from UTC, in seconds, at each Unix second; US
    Eastern time comes from the tz database and is a parameter. *)

From Stdlib Require Import Ascii.
From Stdlib Require Import Sorting.Sorted.
From stdpp Require Import sorting.
From S2P Require Import Prelude GoStr KST.
Local Open Scope Z_scope.

Definition MarketKR : string := "kr".
Definition MarketUS : string := "us".
Definition SessionNXTPre : string := "nxt_pre".
Definition SessionKRXRegular : string := "krx_regular".
Definition SessionNXTAfter : string := "nxt_after".
Definition SessionUSPre : string := "us_pre".
Definition SessionUSRegular : string := "us_regular".
Definition SessionUSAfter : string := "us_after".

(** ** Zones *)

Definition location : Type := Z -> Z.
Definition KST : location := fun _ => 32400.
Definition day_seconds : Z := 86400.

(** The seconds since the epoch that a clock in the zone shows. *)
Definition local_seconds (loc : location) (t : Z) : Z :=
  let u := t / second_ns in u + loc u.
Definition local_day (loc : location) (t : Z) : Z := local_seconds loc t / day_seconds.

(** [time.Date] from a day number and seconds after midnight: the offset is
    looked up twice. *)
Definition time_date (loc : location) (day sec : Z) : Z :=
  let u := day * day_seconds + sec in
  let off := loc u in
  (if off =? 0 then u else u - loc (u - off)) * second_ns.

(** Day 0 is a Thursday; Sunday is 0. *)
Definition weekday (day : Z) : bool :=
  negb ((((day + 4) mod 7) =? 6) || (((day + 4) mod 7) =? 0)).

(** ** Windows *)

Record window := mkWindow { w_name : string; w_start : Z; w_end : Z }.
Definition minute : Z := 60.

Definition sessionWindows (market : string) : option (list window) :=
  if market =s MarketKR then
    Some [mkWindow SessionNXTPre (8 * 60 * minute) (8 * 60 * minute + 51 * minute);
          mkWindow SessionKRXRegular (9 * 60 * minute) (15 * 60 * minute + 31 * minute);
          mkWindow SessionNXTAfter (16 * 60 * minute) (20 * 60 * minute + 1 * minute)]
  else if market =s MarketUS then
    Some [mkWindow SessionUSPre (4 * 60 * minute) (9 * 60 * minute + 30 * minute);
          mkWindow SessionUSRegular (9 * 60 * minute + 30 * minute) (16 * 60 * minute);
          mkWindow SessionUSAfter (16 * 60 * minute) (20 * 60 * minute + 1 * minute)]
  else None.

Record interval := mkInterval { iv_start : Z; iv_end : Z }.

(** [mergeGap]. *)
Definition mergeGap : Z := 30 * minute_ns.

Definition starts_before (a b : interval) : Prop := iv_start a <= iv_start b.
#[export] Instance starts_before_dec : RelDecision starts_before.
Proof. intros a b. unfold starts_before. apply _. Defined.
#[export] Instance starts_before_total : Total starts_before.
Proof. intros a b. unfold starts_before. lia. Qed.
#[export] Instance starts_before_trans : Transitive starts_before.
Proof. intros a b c. unfold starts_before. lia. Qed.

(** The loop of [intervals] over the sorted windows; the merged list is built
    latest first. *)
Fixpoint merge_loop (merged all : list interval) : list interval :=
  match all with
  | [] => rev merged
  | next :: all =>
      match merged with
      | last :: older =>
          if negb (iv_start next >? iv_end last + mergeGap) then
            merge_loop ((if iv_end next >? iv_end last then mkInterval (iv_start last) (iv_end next)
                         else last) :: older) all
          else merge_loop (next :: merged) all
      | [] => merge_loop [next] all
      end
  end.

Section Session.
Context (Eastern : location).

Definition marketLocation (market : string) : location :=
  if market =s MarketUS then Eastern else KST.

(** [SessionLabel]. *)
Definition SessionLabel (market : string) (t : Z) : option string :=
  windows ← sessionWindows market;
  let loc := marketLocation market in
  if negb (weekday (local_day loc t)) then None
  else
    let second := local_seconds loc t mod day_seconds in
    w ← List.find (fun w => (second >=? w_start w) && (second <? w_end w)) windows;
    Some (w_name w).

(** [NewSchedule]: a schedule is its known markets. *)
Definition NewSchedule (markets : list string) : list string :=
  filter (fun m => is_Some (sessionWindows m)) markets.

(** The windows of one market on the day [offset] days from that of [t]. *)
Definition day_windows (market : string) (t offset : Z) : list interval :=
  let loc := marketLocation market in
  let day := local_day loc (time_date loc (local_day loc t + offset) 0) in
  if negb (weekday day) then []
  else (fun w => mkInterval (time_date loc day (w_start w)) (time_date loc day (w_end w)))
         <$> default [] (sessionWindows market).

(** [intervals]. *)
Definition all_windows (s : list string) (t : Z) : list interval :=
  s ≫= fun market => seqZ (-2) 12 ≫= day_windows market t.
Definition intervals (s : list string) (t : Z) : list interval :=
  merge_loop [] (merge_sort starts_before (all_windows s t)).

(** [At]: the closing instant when the socket is open. *)
Definition At (s : list string) (t : Z) : option Z :=
  iv_end <$> List.find (fun w => negb (t <? iv_start w) && (t <? iv_end w)) (intervals s t).

(** [NextOpen]. *)
Definition NextOpen (s : list string) (t : Z) : Z :=
  match List.find (fun w => iv_start w >? t) (intervals s t) with
  | Some w => iv_start w
  | None => t + day_ns
  end.
End Session.

(** Monday 2024-01-01 in Seoul: 15:30:59 is regular, 15:31 is not; the socket
    stays open until 20:01 and opens again on Tuesday at 08:00. *)
Definition monday : Z := 19723 * day_ns - 9 * hour_ns.
Example label_1530 : SessionLabel KST MarketKR (monday + 15 * hour_ns + 30 * minute_ns + 59 * second_ns)
  = Some SessionKRXRegular.
Proof. vm_compute. reflexivity. Qed.
Example label_1531 : SessionLabel KST MarketKR (monday + 15 * hour_ns + 31 * minute_ns) = None.
Proof. vm_compute. reflexivity. Qed.
Example at_1531 : At KST [MarketKR] (monday + 15 * hour_ns + 31 * minute_ns)
  = Some (monday + 20 * hour_ns + minute_ns).
Proof. vm_compute. reflexivity. Qed.
Example next_tuesday : NextOpen KST [MarketKR] (monday + 21 * hour_ns) = monday + 32 * hour_ns.
Proof. vm_compute. reflexivity. Qed.

(** ** Merging *)

Lemma elem_of_rev {A} (x : A) l : x ∈ rev l <-> x ∈ l.
Proof. rewrite !list_elem_of_In. symmetry. apply in_rev. Qed.

(** The interval lies inside one of the list. *)
Definition covered (x : interval) (l : list interval) : Prop :=
  exists m, m ∈ l /\ iv_start m <= iv_start x /\ iv_end x <= iv_end m.

Lemma covered_in x l : x ∈ l -> covered x l.
Proof. intros H. exists x. split; [done|lia]. Qed.

(** Every window starts no earlier than the last merged one. *)
Definition after_last (merged all : list interval) : Prop :=
  match merged with [] => True | last :: _ => Forall (starts_before last) all end.

Lemma merge_step_cases merged next all r :
  merge_loop merged (next :: all) = r ->
  exists merged', r = merge_loop merged' all /\
    ((exists last older e, merged = last :: older /\ merged' = mkInterval (iv_start last) e :: older /\
        iv_end last <= e /\ iv_end next <= e /\ mkInterval (iv_start last) e ∈ merged') \/
     merged' = next :: merged).
Proof.
  cbn [merge_loop]. intros <-. destruct merged as [|last older]; [exists [next]; eauto|].
  destruct (negb _); [|eauto]. destruct (Z.gtb_spec (iv_end next) (iv_end last)).
  - eexists. split; [reflexivity|]. left. exists last, older, (iv_end next).
    split; [done|]. split; [done|]. split; [lia|]. split; [lia|left].
  - eexists. split; [reflexivity|]. left. exists last, older, (iv_end last).
    split; [done|]. split; [by destruct last|]. split; [lia|]. split; [lia|]. destruct last. left.
Qed.

Lemma merge_covers merged all x :
  StronglySorted starts_before all -> after_last merged all ->
  (x ∈ all \/ covered x merged) -> covered x (merge_loop merged all).
Proof.
  revert merged. induction all as [|next all IH]; intros merged Hs Ha Hx.
  { cbn. destruct Hx as [Hx|(m & Hm & ?)]; [by apply not_elem_of_nil in Hx|].
    exists m. split; [by apply elem_of_rev|done]. }
  apply StronglySorted_inv in Hs as [Hs Hn].
  destruct (merge_step_cases merged next all _ eq_refl) as (merged' & -> & [(last & older & e & -> & -> & H1 & H2 & Hin)| ->]).
  - cbn [after_last] in Ha. apply Forall_cons in Ha as [Hl Ha]. apply IH; [done|exact Ha|].
    destruct Hx as [[-> | Hx]%elem_of_cons|(m & [-> | Hm]%elem_of_cons & H3 & H4)]; [right|by left|right..].
    + exists (mkInterval (iv_start last) e). split; [done|]. cbn. unfold starts_before in Hl. lia.
    + exists (mkInterval (iv_start last) e). split; [done|]. cbn. lia.
    + exists m. split; [by right|lia].
  - apply IH; [done|exact Hn|]. destruct Hx as [[-> | Hx]%elem_of_cons|(m & Hm & ?)]; [right|by left|right].
    + apply covered_in. left.
    + exists m. split; [by right|done].
Qed.

(** A merged window starts where one of the windows does. *)
Lemma merge_starts merged all m : m ∈ merge_loop merged all ->
  exists x, (x ∈ merged \/ x ∈ all) /\ iv_start m = iv_start x.
Proof.
  revert merged. induction all as [|next all IH]; intros merged Hm.
  { exists m. cbn in Hm. rewrite elem_of_rev in Hm. split; [by left|done]. }
  destruct (merge_step_cases merged next all _ eq_refl) as (merged' & E & Hc). rewrite E in Hm.
  apply IH in Hm as (x & Hx & Ex).
  destruct Hc as [(last & older & e & -> & -> & _)| ->].
  - destruct Hx as [[-> | Hx]%elem_of_cons|Hx]; [exists last|exists x|exists x]; (split; [|done]).
    + left. left.
    + left. by right.
    + right. by right.
  - destruct Hx as [[-> | Hx]%elem_of_cons|Hx]; [exists next|exists x|exists x]; (split; [|done]).
    + right. left.
    + by left.
    + right. by right.
Qed.

(** The merged windows are ordered by their start. *)
Lemma merge_sorted merged all :
  StronglySorted starts_before all -> after_last merged all ->
  StronglySorted (flip starts_before) merged -> StronglySorted starts_before (merge_loop merged all).
Proof.
  revert merged. induction all as [|next all IH]; intros merged Hs Ha Hm.
  { cbn. clear Ha Hs. induction Hm as [|x l Hl IH Hx]; cbn; [constructor|].
    apply StronglySorted_app. split; [|split; [done|by repeat constructor]].
    intros a b Ha ->%list_elem_of_singleton. rewrite elem_of_rev in Ha.
    rewrite Forall_forall in Hx. by apply Hx. }
  apply StronglySorted_inv in Hs as [Hs Hn].
  destruct (merge_step_cases merged next all _ eq_refl) as (merged' & -> & [(last & older & e & -> & -> & _)| ->]).
  - apply Forall_cons in Ha as [_ Ha]. apply StronglySorted_inv in Hm as [Hm Hf].
    apply IH; [done|exact Ha|]. constructor; done.
  - apply IH; [done|exact Hn|]. constructor; [done|]. destruct merged as [|last older]; [constructor|].
    apply Forall_cons in Ha as [Hl _]. apply StronglySorted_inv in Hm as [_ Hf]. constructor; [done|].
    eapply Forall_impl; [exact Hf|]. cbn. unfold starts_before in *. lia.
Qed.

(** ** Zones that keep one offset on a weekday *)

(** The offset [o] holds from the UTC and from the local start of the day to
    its end, and nowhere else does the local date show the day. *)
Definition weekday_offset (loc : location) (d o : Z) : Prop :=
  (forall v, d * day_seconds <= v <= (d + 1) * day_seconds -> loc v = o) /\
  (forall v, d * day_seconds <= v + o <= (d + 1) * day_seconds -> loc v = o) /\
  (forall v, (v + loc v) / day_seconds = d -> loc v = o).

(** Clocks change on weekends only, and no zone is more than 14 hours from
    UTC. *)
Definition zone_regular (loc : location) : Prop :=
  (forall v, -50400 <= loc v <= 50400) /\
  forall d, 0 <= d -> weekday d = true -> exists o, weekday_offset loc d o.

Lemma KST_regular : zone_regular KST.
Proof. split; [done|]. intros d _ _. exists 32400. by repeat split. Qed.

Lemma window_bounds market ws w : sessionWindows market = Some ws -> w ∈ ws ->
  0 <= w_start w <= 57600 /\ w_start w < w_end w <= day_seconds.
Proof.
  unfold sessionWindows. intros H Hw. split_if in H; [|split_if in H; [|done]]; injection H as <-;
    repeat (apply elem_of_cons in Hw as [-> | Hw]; [cbn; unfold day_seconds, minute; lia|]);
    by apply not_elem_of_nil in Hw.
Qed.

Lemma date_on_weekday loc d o s : weekday_offset loc d o -> 0 <= s <= day_seconds ->
  time_date loc d s = (d * day_seconds + s - o) * second_ns.
Proof.
  intros (H1 & H2 & _) Hs. unfold time_date. cbv zeta. rewrite (H1 (d * day_seconds + s)) by lia.
  destruct (Z.eqb_spec o 0) as [->|]; [f_equal; lia|]. rewrite H2 by lia. done.
Qed.

Lemma second_div z : z * second_ns / second_ns = z.
Proof. apply Z.div_mul. unfold second_ns. lia. Qed.

(** The clock at an instant [time_date] builds shows its arguments. *)
Lemma date_clock loc d o s : weekday_offset loc d o -> 0 <= s < day_seconds ->
  local_day loc (time_date loc d s) = d /\ local_seconds loc (time_date loc d s) mod day_seconds = s.
Proof.
  intros Ho Hs. rewrite (date_on_weekday loc d o) by (done || lia). unfold local_day, local_seconds.
  rewrite second_div. cbv zeta. destruct Ho as (_ & H2 & _). rewrite H2 by lia.
  replace (d * day_seconds + s - o + o) with (s + d * day_seconds) by lia.
  rewrite Z.mod_add, Z.div_add, Z.div_small, Z.mod_small by (done || lia). lia.
Qed.

Section schedule.
Context (Eastern : location) (Hregular : zone_regular Eastern).

Lemma market_regular market : zone_regular (marketLocation Eastern market).
Proof using Hregular. unfold marketLocation. destruct (_ =s _); [done|apply KST_regular]. Qed.

(** An instant with a label lies in a window of its own day. *)
Lemma label_window market t l :
  SessionLabel Eastern market t = Some l -> 0 <= local_day (marketLocation Eastern market) t ->
  exists ws w, sessionWindows market = Some ws /\ w ∈ ws /\
    let d := local_day (marketLocation Eastern market) t in weekday d = true /\
    time_date (marketLocation Eastern market) d (w_start w) <= t <
      time_date (marketLocation Eastern market) d (w_end w).
Proof using Hregular.
  unfold SessionLabel. destruct (sessionWindows market) as [ws|] eqn:Ew; [|done]. cbn [mbind option_bind].
  set (loc := marketLocation Eastern market). intros H Hd. split_if in H; [done|].
  destruct (List.find _ ws) as [w|] eqn:Ef; [|done]. apply find_some in Ef as [Hin Hw].
  exists ws, w. split; [done|]. apply list_elem_of_In in Hin. split; [done|]. cbv zeta. split; [done|].
  destruct (window_bounds market ws w Ew Hin) as [B1 B2].
  destruct (market_regular market) as [_ Hr]. destruct (Hr _ Hd Eif) as [o Ho]. fold loc in Ho.
  rewrite !(date_on_weekday loc _ o) by (done || lia).
  rewrite Z.geb_leb in Hw. bool_simpl. unfold local_day, local_seconds in *. cbv zeta in *.
  assert (El : loc (t / second_ns) = o) by (apply Ho; done). rewrite El in *.
  pose proof (Z.div_mod (t / second_ns + o) day_seconds ltac:(done)) as Hq.
  pose proof (Z.div_mod t second_ns ltac:(done)). pose proof (Z.mod_pos_bound t second_ns ltac:(done)). nia.
Qed.

(** The windows of a weekday are among those of an instant some days away. *)
Lemma window_listed s market t d k ws w :
  market ∈ s -> sessionWindows market = Some ws -> w ∈ ws ->
  0 <= d -> weekday d = true -> d = local_day (marketLocation Eastern market) t + k -> -2 <= k <= 9 ->
  mkInterval (time_date (marketLocation Eastern market) d (w_start w))
    (time_date (marketLocation Eastern market) d (w_end w)) ∈ all_windows Eastern s t.
Proof using Hregular.
  intros Hm Ew Hw Hd Hwd Hk Hrange. unfold all_windows. apply list_elem_of_bind. exists market. split; [|done].
  apply list_elem_of_bind. exists k. split; [|apply elem_of_seqZ; lia].
  unfold day_windows. rewrite <- Hk. destruct (market_regular market) as [_ Hr].
  destruct (Hr d Hd Hwd) as [o Ho].
  rewrite (proj1 (date_clock _ d o 0 Ho ltac:(done))), Hwd, Ew. cbn [negb default].
  apply list_elem_of_fmap. by exists w.
Qed.

Lemma listed_covered s t x : x ∈ all_windows Eastern s t -> covered x (intervals Eastern s t).
Proof using Type.
  intros Hx. apply merge_covers; [|done|left; by rewrite merge_sort_Permutation].
  apply (StronglySorted_merge_sort _).
Qed.

Lemma At_covered s t x : covered x (intervals Eastern s t) -> iv_start x <= t < iv_end x ->
  exists closes, At Eastern s t = Some closes /\ t < closes.
Proof using Type.
  intros (m & Hm & H1 & H2) Ht. unfold At. destruct (List.find _ _) as [w|] eqn:Ef.
  - apply find_some in Ef as [_ Hw]. exists (iv_end w). split; [done|]. bool_simpl. lia.
  - exfalso. apply list_elem_of_In in Hm. apply (find_none _ _ Ef) in Hm.
    apply andb_false_iff in Hm as [Hm|Hm]; bool_simpl; lia.
Qed.

Lemma local_day_near market t :
  t / day_ns - 2 <= local_day (marketLocation Eastern market) t <= t / day_ns + 1.
Proof using Hregular.
  destruct (market_regular market) as [Hb _]. specialize (Hb (t / second_ns)).
  unfold local_day, local_seconds. cbv zeta. replace day_ns with (second_ns * day_seconds) by done.
  rewrite <- Z.div_div by done. unfold day_seconds in *. Z.to_euclidean_division_equations. lia.
Qed.

Lemma in_schedule market markets ws :
  market ∈ markets -> sessionWindows market = Some ws -> market ∈ NewSchedule markets.
Proof using Type. intros Hm Hw. apply list_elem_of_filter. split; [by exists ws|done]. Qed.

(** A labelled instant lies in a window listed from an instant days away. *)
Lemma label_listed s market t t0 l :
  market ∈ s -> 2 * day_ns <= t -> SessionLabel Eastern market t = Some l ->
  -2 <= local_day (marketLocation Eastern market) t - local_day (marketLocation Eastern market) t0 <= 9 ->
  exists x, x ∈ all_windows Eastern s t0 /\ iv_start x <= t < iv_end x.
Proof using Hregular.
  intros Hm Ht Hl Hk. pose proof (local_day_near market t) as Hn.
  assert (2 <= t / day_ns) by (apply Z.div_le_lower_bound; [done|lia]).
  destruct (label_window market t l Hl ltac:(lia)) as (ws & w & Ew & Hw & Hwd & Hin).
  eexists (mkInterval _ _). split; [|exact Hin].
  apply (window_listed s market t0 _ (local_day (marketLocation Eastern market) t
    - local_day (marketLocation Eastern market) t0) ws w); [done..|lia|done|lia|done].
Qed.

Lemma labelled_open s market t l :
  market ∈ s -> 2 * day_ns <= t -> SessionLabel Eastern market t = Some l ->
  exists closes, At Eastern s t = Some closes /\ t < closes.
Proof using Hregular.
  intros Hm Ht Hl. destruct (label_listed s market t t l Hm Ht Hl ltac:(lia)) as (x & Hx & Hin).
  by apply (At_covered _ _ x); [apply listed_covered|].
Qed.

(** No labelled tick can arrive while the socket is closed: at every
    instant that has a session label in one of the schedule's markets, the
    schedule says the socket is open, and until later. *)
Theorem labelled_is_open markets market t l :
  market ∈ markets -> 2 * day_ns <= t -> SessionLabel Eastern market t = Some l ->
  exists closes, At Eastern (NewSchedule markets) t = Some closes /\ t < closes.
Proof using Hregular.
  intros Hm Ht Hl. apply (labelled_open _ market t l); [|done..].
  unfold SessionLabel in Hl. destruct (sessionWindows market) as [ws|] eqn:Ew; [|done].
  by apply (in_schedule market markets ws).
Qed.

(** ** The next opening *)

(** Each listed window is one of a weekday of its market. *)
Lemma listed_window s t x : 6 * day_ns <= t -> x ∈ all_windows Eastern s t ->
  exists market ws w d, market ∈ s /\ sessionWindows market = Some ws /\ w ∈ ws /\ 0 <= d /\
    weekday d = true /\ x = mkInterval (time_date (marketLocation Eastern market) d (w_start w))
      (time_date (marketLocation Eastern market) d (w_end w)).
Proof using Hregular.
  intros Ht Hx. unfold all_windows in Hx. apply list_elem_of_bind in Hx as (market & Hx & Hm).
  apply list_elem_of_bind in Hx as (k & Hx & Hk). apply elem_of_seqZ in Hk.
  unfold day_windows in Hx. set (loc := marketLocation Eastern market) in *.
  set (d := local_day loc (time_date loc (local_day loc t + k) 0)) in *.
  destruct (weekday d) eqn:Hw; cbn [negb] in Hx; [|by apply not_elem_of_nil in Hx].
  destruct (sessionWindows market) as [ws|] eqn:Ew; [|by apply not_elem_of_nil in Hx].
  apply list_elem_of_fmap in Hx as (w & -> & Hin). exists market, ws, w, d.
  split; [done|]. split; [done|]. split; [done|]. split; [|done].
  pose proof (local_day_near market t) as Hn. fold loc in Hn.
  assert (6 <= t / day_ns) by (apply Z.div_le_lower_bound; [done|lia]).
  destruct (market_regular market) as [Hb _]. fold loc in Hb.
  unfold d. set (D := local_day loc t + k). assert (2 <= D) by (unfold D; lia).
  unfold local_day, local_seconds, time_date. cbv zeta. rewrite second_div.
  set (u := if loc (D * day_seconds + 0) =? 0 then _ else _).
  assert (day_seconds <= u).
  { unfold u. pose proof (Hb (D * day_seconds + 0 - loc (D * day_seconds + 0))).
    unfold day_seconds in *. destruct (_ =? 0); lia. }
  pose proof (Hb u). apply Z.div_pos; unfold day_seconds in *; lia.
Qed.

(** A window's first instant has a label. *)
Lemma window_start_label market ws w d :
  sessionWindows market = Some ws -> w ∈ ws -> 0 <= d -> weekday d = true ->
  exists l, SessionLabel Eastern market (time_date (marketLocation Eastern market) d (w_start w)) = Some l.
Proof using Hregular.
  intros Ew Hw Hd Hwd. destruct (window_bounds market ws w Ew Hw) as [B1 B2].
  destruct (market_regular market) as [_ Hr]. destruct (Hr d Hd Hwd) as [o Ho].
  destruct (date_clock _ d o (w_start w) Ho ltac:(lia)) as [E1 E2].
  unfold SessionLabel. rewrite Ew. cbn [mbind option_bind]. cbv zeta. rewrite E1, E2, Hwd. cbn [negb].
  destruct (List.find _ ws) as [w'|] eqn:Ef; [by eexists|]. exfalso.
  apply list_elem_of_In in Hw. apply (find_none _ _ Ef) in Hw. rewrite Z.geb_leb in Hw.
  apply andb_false_iff in Hw as [Hw|Hw]; bool_simpl; lia.
Qed.

Lemma find_first_start l t x :
  StronglySorted starts_before l -> List.find (fun w => iv_start w >? t) l = Some x ->
  x ∈ l /\ t < iv_start x /\ forall y, y ∈ l -> t < iv_start y -> iv_start x <= iv_start y.
Proof using Type.
  induction 1 as [|a l Hs IH Ha]; cbn; [done|]. destruct (Z.gtb_spec (iv_start a) t) as [Hgt|Hle].
  - intros [= ->]. split; [left|]. split; [done|]. rewrite Forall_forall in Ha.
    intros y [-> | Hy]%elem_of_cons _; [lia|]. by apply Ha.
  - intros H. destruct (IH H) as (H1 & H2 & H3). split; [by right|]. split; [done|].
    intros y [-> | Hy]%elem_of_cons Hlt; [lia|]. by apply H3.
Qed.

(** A window not past covers nothing that began while the socket was closed. *)
Lemma closed_covered s t x : At Eastern s t = None -> covered x (intervals Eastern s t) -> t < iv_end x ->
  exists m, m ∈ intervals Eastern s t /\ t < iv_start m <= iv_start x.
Proof using Type.
  intros Hat (m & Hm & H1 & H2) Ht. exists m. split; [done|]. split; [|done].
  destruct (Z.lt_ge_cases t (iv_start m)); [done|]. exfalso.
  destruct (At_covered s t m) as (c & E & _); [by apply covered_in|lia|congruence].
Qed.

Lemma intervals_sorted s t : StronglySorted starts_before (intervals Eastern s t).
Proof using Type.
  apply merge_sorted; [apply (StronglySorted_merge_sort _)|done|constructor].
Qed.

(** Some window opens within the next days. *)
Lemma window_ahead s market ws t :
  market ∈ s -> sessionWindows market = Some ws -> 6 * day_ns <= t ->
  exists x, x ∈ all_windows Eastern s t /\ t < iv_start x < t + 7 * day_ns /\ iv_start x <= iv_end x.
Proof using Hregular.
  intros Hm Ew Ht. set (loc := marketLocation Eastern market).
  destruct (market_regular market) as [Hb Hr]. fold loc in Hb, Hr.
  assert (Hday : exists k, 3 <= k <= 5 /\ weekday (local_day loc t + k) = true).
  { unfold weekday. generalize (local_day loc t). intros D.
    destruct (Z.eq_dec ((D + 3 + 4) mod 7) 6); [|destruct (Z.eq_dec ((D + 3 + 4) mod 7) 0)];
      [exists 5|exists 4|exists 3]; (split; [lia|]); rewrite negb_true_iff, orb_false_iff, !Z.eqb_neq;
      Z.to_euclidean_division_equations; lia. }
  destruct Hday as (k & Hk & Hwd). pose proof (local_day_near market t) as Hn. fold loc in Hn.
  assert (6 <= t / day_ns) by (apply Z.div_le_lower_bound; [done|lia]).
  assert (Hd : 0 <= local_day loc t + k) by lia.
  assert (Hw : exists w, w ∈ ws).
  { unfold sessionWindows in Ew. split_if in Ew; [|split_if in Ew; [|done]]; injection Ew as <-; eexists; left. }
  destruct Hw as [w Hw]. destruct (window_bounds market ws w Ew Hw) as [B1 B2].
  destruct (Hr _ Hd Hwd) as [o Ho].
  eexists (mkInterval _ _). split; [apply (window_listed s market t (local_day loc t + k) k ws w); (done || lia)|].
  fold loc. cbn [iv_start iv_end]. rewrite !(date_on_weekday loc _ o) by (done || lia).
  assert (Hob : -50400 <= o <= 50400).
  { destruct Ho as (H1 & _). rewrite <- (H1 ((local_day loc t + k) * day_seconds)); [apply Hb|].
    unfold day_seconds. lia. }
  specialize (Hb (t / second_ns)). unfold local_day, local_seconds in *. cbv zeta in *.
  unfold day_ns, hour_ns, minute_ns, second_ns, day_seconds in *.
  Z.to_euclidean_division_equations. lia.
Qed.

(** C33: The socket opens again in time.  From an instant at which it is closed,
    [NextOpen] is a later instant less than seven days away, never the
    fallback; the socket is open then; and no tick with a session label in a
    market of the schedule can come before. *)
Theorem NextOpen_correct markets market ws t :
  market ∈ markets -> sessionWindows market = Some ws -> 6 * day_ns <= t ->
  At Eastern (NewSchedule markets) t = None ->
  let next := NextOpen Eastern (NewSchedule markets) t in
  t < next < t + 7 * day_ns /\
  (exists closes, At Eastern (NewSchedule markets) next = Some closes) /\
  forall m t', m ∈ markets -> t < t' < next -> SessionLabel Eastern m t' = None.
Proof using Hregular.
  intros Hm Ew Ht Hat. cbv zeta. set (s := NewSchedule markets) in *. pose proof day_ns_pos as Hday.
  pose proof (in_schedule market markets ws Hm Ew) as Hs. fold s in Hs.
  destruct (window_ahead s market ws t Hs Ew Ht) as (x & Hx & Hgt & Hle).
  destruct (closed_covered s t x Hat (listed_covered s t x Hx) ltac:(lia)) as (m & Hmi & Hmx).
  unfold NextOpen. destruct (List.find _ _) as [n|] eqn:Ef.
  2:{ exfalso. apply list_elem_of_In in Hmi. apply (find_none _ _ Ef) in Hmi. lia. }
  destruct (find_first_start _ _ _ (intervals_sorted s t) Ef) as (Hn & Hnt & Hmin).
  specialize (Hmin m Hmi ltac:(lia)) as Hnm. split; [lia|]. split.
  - destruct (merge_starts _ _ _ Hn) as (y & Hy & Ey).
    destruct Hy as [Hy|Hy]; [by apply not_elem_of_nil in Hy|]. rewrite merge_sort_Permutation in Hy.
    destruct (listed_window s t y Ht Hy) as (mk & ws' & w & d & Hmk & Ew' & Hw & Hd & Hwd & ->).
    destruct (window_start_label mk ws' w d Ew' Hw Hd Hwd) as [l Hl]. cbn [iv_start] in Ey. rewrite Ey in *.
    assert (H2 : 2 * day_ns <= time_date (marketLocation Eastern mk) d (w_start w)) by lia.
    destruct (labelled_open s mk _ l Hmk H2 Hl) as (c & Hc & _). by exists c.
  - intros mk t' Hmk Ht'. destruct (SessionLabel Eastern mk t') as [l|] eqn:El; [|done]. exfalso.
    assert (Hms : mk ∈ s).
    { unfold SessionLabel in El. destruct (sessionWindows mk) eqn:Ew'; [|done]. by eapply in_schedule. }
    destruct (label_listed s mk t' t l Hms ltac:(lia) El) as (y & Hy & Hyt).
    + destruct (market_regular mk) as [Hb _]. pose proof (Hb (t / second_ns)). pose proof (Hb (t' / second_ns)).
      unfold local_day, local_seconds. cbv zeta. unfold day_ns, hour_ns, minute_ns, second_ns, day_seconds in *.
      Z.to_euclidean_division_equations. lia.
    + destruct (closed_covered s t y Hat (listed_covered s t y Hy) ltac:(lia)) as (m' & Hm' & Hb').
      specialize (Hmin m' Hm' ltac:(lia)). lia.
Qed.
End schedule.

Lemma labelled_is_open_witness :
  exists closes, At KST (NewSchedule [MarketKR]) (monday + 10 * hour_ns) = Some closes /\
    monday + 10 * hour_ns < closes.
Proof.
  apply (labelled_is_open KST KST_regular [MarketKR] MarketKR _ SessionKRXRegular).
  - left.
  - vm_compute. discriminate.
  - vm_compute. reflexivity.
Defined.

Lemma NextOpen_correct_witness : let next := NextOpen KST (NewSchedule [MarketKR; "jp"]) (monday + 21 * hour_ns) in
  monday + 21 * hour_ns < next < monday + 21 * hour_ns + 7 * day_ns.
Proof.
  apply (NextOpen_correct KST KST_regular [MarketKR; "jp"] MarketKR
    [mkWindow SessionNXTPre 28800 31860; mkWindow SessionKRXRegular 32400 55860;
     mkWindow SessionNXTAfter 57600 72060]).
  - left.
  - reflexivity.
  - vm_compute. discriminate.
  - vm_compute. reflexivity.
Defined.
