(* ===== verification/Quotes.v ===== *)
(** [src/internal/quote/symbols.go], [decode.go] and [token.go], and the
    subscription declaration of [runner.go]: what the quote lane subscribes to
    and how it turns Toss frames into ticks.

    [encoding/json] on the wire types and the RFC 3339 times of package [time]
    are the interface [TossCodec]. *)

From Stdlib Require Import Ascii SpecFloat.
From S2P Require Import Prelude GoStr GoFloat KST Session.
Local Open Scope Z_scope.
#[local] Arguments String.append !_ _ / : simpl nomatch.

(** ** Symbols *)

Definition MaxSymbols : nat := 40.
Definition maxSymbolsFileBytes : Z := 65536.

Record QSymbol := mkQSymbol { qs_Market : string; qs_Code : string }.
#[export] Instance QSymbol_eq_dec : EqDecision QSymbol. Proof. solve_decision. Defined.
#[export] Instance QSymbol_countable : Countable QSymbol.
Proof.
  refine (inj_countable' (fun s => (qs_Market s, qs_Code s)) (fun '(m, c) => mkQSymbol m c) _). by intros [].
Defined.

Definition upper_byte_range (c : ascii) : bool := byte_in 65 90 c.
Definition upperOrDigit (c : ascii) : bool := digit_byte c || upper_byte_range c.

Definition ValidSymbol (s : QSymbol) : bool :=
  if qs_Market s =s MarketKR then
    (String.length (qs_Code s) =? 6)%nat && str_forall upperOrDigit (qs_Code s)
  else if qs_Market s =s MarketUS then
    match qs_Code s with
    | EmptyString => false
    | String c _ =>
        (String.length (qs_Code s) <=? 10)%nat && upper_byte_range c &&
        str_forall (fun c => upperOrDigit c || Ascii.eqb c "." || Ascii.eqb c "-") (qs_Code s)
    end
  else false.

Inductive symbols_error : Type :=
| ErrTooLarge
| ErrNotPair (line : Z)
| ErrInvalid (line : Z)
| ErrRepeats (line first : Z)
| ErrTooMany
| ErrUnreadable
| ErrNoSymbols.

Definition newline_char : ascii := ascii_of_nat 10.

(** [bufio.ScanLines]: a line loses one carriage return; the text after the
    last newline is a line when it is not empty. *)
Fixpoint drop_cr (s : string) : string :=
  match s with
  | EmptyString => EmptyString
  | String c EmptyString => if Ascii.eqb c (ascii_of_nat 13) then EmptyString else s
  | String c s => String c (drop_cr s)
  end.
Fixpoint complete_lines (parts : list string) : list string :=
  match parts with
  | [] => []
  | [last] => if last =s "" then [] else [last]
  | part :: parts => part :: complete_lines parts
  end.
Definition scan_lines (s : string) : list string := drop_cr <$> complete_lines (Split newline_char s).

(** A line that fills the scanner's buffer before its newline: only a file of
    the largest size without any. *)
Definition too_long_line (s : string) : bool :=
  (Z.of_nat (String.length s) =? maxSymbolsFileBytes) && without newline_char s.

(** The text before the comment. *)
Fixpoint before_comment (s : string) : string :=
  match s with
  | EmptyString => EmptyString
  | String c s => if Ascii.eqb c "#" then EmptyString else String c (before_comment s)
  end.

(** [strings.Fields]. *)
Fixpoint fields_from (fuel : nat) (cur s : string) : list string :=
  let flush := if cur =s "" then [] else [cur] in
  match fuel, s with
  | O, _ | _, EmptyString => flush
  | S fuel, String c r =>
      match strip_one space_runes s with
      | Some rest => flush ++ fields_from fuel "" rest
      | None => fields_from fuel (cur +:+ String c "") r
      end
  end.
Definition Fields (s : string) : list string := fields_from (S (String.length s)) "" s.

(** The loop of [ParseSymbols], from the line after number [line] on. *)
Fixpoint symbols_loop (line : Z) (seen : gmap QSymbol Z) (symbols : list QSymbol) (lines : list string)
  : result (list QSymbol) symbols_error :=
  match lines with
  | [] => Ok symbols
  | text :: lines =>
      let line := line + 1 in
      match Fields (before_comment text) with
      | [] => symbols_loop line seen symbols lines
      | [market; code] =>
          let symbol := mkQSymbol market code in
          if negb (ValidSymbol symbol) then Err (ErrInvalid line)
          else match seen !! symbol with
               | Some first => Err (ErrRepeats line first)
               | None =>
                   let symbols := symbols ++ [symbol] in
                   if (MaxSymbols <? length symbols)%nat then Err ErrTooMany
                   else symbols_loop line (<[symbol := line]> seen) symbols lines
               end
      | _ => Err (ErrNotPair line)
      end
  end.

Definition ParseSymbols (contents : string) : result (list QSymbol) symbols_error :=
  if Z.of_nat (String.length contents) >? maxSymbolsFileBytes then Err ErrTooLarge
  else if too_long_line contents then Err ErrUnreadable
  else match symbols_loop 0 ∅ [] (scan_lines contents) with
       | Err e => Err e
       | Ok [] => Err ErrNoSymbols
       | Ok symbols => Ok symbols
       end.

(** ** The declaration *)

Definition MaxSubscriptions : Z := 100.

(** The codes by market, the markets in the order of their first symbol. *)
Fixpoint group_codes (codes : gmap string (list string)) (markets : list string) (symbols : list QSymbol)
  : gmap string (list string) * list string :=
  match symbols with
  | [] => (codes, markets)
  | s :: symbols =>
      let markets := match codes !! qs_Market s with Some _ => markets | None => markets ++ [qs_Market s] end in
      group_codes (<[qs_Market s := default [] (codes !! qs_Market s) ++ [qs_Code s]]> codes) markets symbols
  end.

(** [buildDeclaration] before its JSON: the subscriptions by channel, and the
    markets; [None] when they exceed the limit. *)
Definition buildDeclaration (symbols : list QSymbol) : option (list (string * list string) * list string) :=
  let '(codes, markets) := group_codes ∅ [] symbols in
  let declaration :=
    markets ≫= fun market =>
      (fun channel => (channel +:+ ":" +:+ market, default [] (codes !! market))) <$> ["trade"; "orderbook"] in
  let total := foldr Z.add 0 ((fun d => Z.of_nat (length d.2)) <$> declaration) in
  if total >? MaxSubscriptions then None else Some (declaration, markets).

(** ** Frames *)

Record QTick := mkQTick {
  tk_Symbol : string; TS : string; tk_Price : string; Bid1 : string; Ask1 : string;
  BidQty : string; AskQty : string; tk_Session : string
}.
Definition no_tick : QTick := mkQTick "" "" "" "" "" "" "" "".

(** [values], the fields of a stream entry in the order of [StreamFields]. *)
Definition StreamFields : list string :=
  ["symbol"; "ts"; "price"; "bid1"; "ask1"; "bid_qty"; "ask_qty"; "session"].
Definition values (t : QTick) : list (string * string) :=
  [("symbol", tk_Symbol t); ("ts", TS t); ("price", tk_Price t); ("bid1", Bid1 t); ("ask1", Ask1 t);
   ("bid_qty", BidQty t); ("ask_qty", AskQty t); ("session", tk_Session t)].

Definition maxDecimal : nat := 30.
Definition DropMalformed : string := "malformed".
Definition DropUnknownTopic : string := "unknown_topic".
Definition DropUnknownSym : string := "unknown_symbol".
Definition DropNoTimestamp : string := "no_timestamp".
Definition DropEmptyBook : string := "empty_book".
Definition DropOutOfSession : string := "out_of_session".

Record Rejection := mkRejection { rj_Target : string; rj_Code : string }.

(** [Frame], by its kind. *)
Inductive QFrame : Type :=
| FrameUnknown
| FrameMessage (tick : QTick) (drop : string)
| FrameSubscriptions (subscribed : list string) (rejected : list Rejection)
| FrameError (code : string)
| FramePong.

(** The wire types; a missing or null field is [None]. *)
Record wireFrame := mkWireFrame {
  wf_Type : string; wf_Topic : string; wf_Data : string; wf_Subscribed : list string;
  wf_Rejected : list Rejection; wf_Error : option string
}.
Record tradeData := mkTradeData { td_Price : option string; td_Timestamp : option string }.
Record qlevel := mkQLevel { ql_Price : option string; ql_Volume : option string }.
Record orderbookData := mkOrderbookData {
  od_Timestamp : option string; od_Asks : list qlevel; od_Bids : list qlevel
}.

(** [json.Unmarshal] of the three types, and [time.Parse] and [Format] with
    the layouts of the source: an instant and the zone it was written in. *)
Class TossCodec := {
  unmarshal_frame : string -> option wireFrame;
  unmarshal_trade : string -> option tradeData;
  unmarshal_book : string -> option orderbookData;
  parse_time : string -> option (Z * Z);
  format_time : Z * Z -> string
}.

(** [decimal]: the loop from position [index], with the dot seen or not. *)
Fixpoint decimal_loop (dot first : bool) (s : string) : bool :=
  match s with
  | EmptyString => true
  | String c s' =>
      if digit_byte c then decimal_loop dot false s'
      else if Ascii.eqb c "." && negb dot && negb first && negb (s' =s "")
      then decimal_loop true false s'
      else false
  end.
Definition decimal_string (value : string) : bool :=
  (value <>s "") && (String.length value <=? maxDecimal)%nat && decimal_loop false true value.

Definition isZero (value : string) : bool :=
  TrimSet (fun c => Ascii.eqb c "0" || Ascii.eqb c ".") value =s "".

(** [best]. *)
Definition best (levels : list qlevel) : option (string * string) :=
  match levels with
  | [] => Some ("", "")
  | first :: _ =>
      match ql_Price first, ql_Volume first with
      | Some p, Some v => if decimal_string p && decimal_string v then Some (p, v) else None
      | _, _ => None
      end
  end.

Section Decode.
Context {codec : TossCodec} (Eastern : location).

(** The data of a message: the tick so far and its timestamp, or the reason to
    drop it. *)
Definition trade_part (code data : string) : result (QTick * string) string :=
  match unmarshal_trade data with
  | None => Err DropMalformed
  | Some d =>
      match td_Price d with
      | None => Err DropMalformed
      | Some price =>
          if negb (decimal_string price) || isZero price then Err DropMalformed
          else match td_Timestamp d with
               | None => Err DropMalformed
               | Some stamp => Ok (mkQTick code "" price "" "" "" "" "", stamp)
               end
      end
  end.

Definition book_part (code data : string) : result (QTick * string) string :=
  match unmarshal_book data with
  | None => Err DropMalformed
  | Some d =>
      match best (od_Asks d) with
      | None => Err DropMalformed
      | Some (ask, askq) =>
          match best (od_Bids d) with
          | None => Err DropMalformed
          | Some (bid, bidq) =>
              if (length (od_Asks d) =? 0)%nat && (length (od_Bids d) =? 0)%nat then Err DropEmptyBook
              else match od_Timestamp d with
                   | None => Err DropNoTimestamp
                   | Some stamp => Ok (mkQTick code "" "" bid ask bidq askq "", stamp)
                   end
          end
      end
  end.

Definition decodeMessage (symbols : gset QSymbol) (wire : wireFrame) : result QTick string :=
  match Split ":" (wf_Topic wire) with
  | [channel; market; code] =>
      if negb ((channel =s "trade") || (channel =s "orderbook")) then Err DropUnknownTopic
      else
        let symbol := mkQSymbol market code in
        if negb (ValidSymbol symbol) then Err DropUnknownTopic
        else if negb (bool_decide (symbol ∈ symbols)) then Err DropUnknownSym
        else if (wf_Data wire =s "") || (wf_Data wire =s "null") then Err DropMalformed
        else
          match (if channel =s "trade" then trade_part code (wf_Data wire)
                 else book_part code (wf_Data wire)) with
          | Err reason => Err reason
          | Ok (t, stamp) =>
              match parse_time stamp with
              | None => Err DropMalformed
              | Some at_ =>
                  match SessionLabel Eastern market at_.1 with
                  | None => Err DropOutOfSession
                  | Some session =>
                      Ok (mkQTick (tk_Symbol t) (format_time at_) (tk_Price t) (Bid1 t) (Ask1 t)
                            (BidQty t) (AskQty t) session)
                  end
              end
          end
  | _ => Err DropUnknownTopic
  end.

(** [Decode]. *)
Definition DecodeFrame (symbols : gset QSymbol) (raw : string) : QFrame :=
  match unmarshal_frame raw with
  | None => FrameUnknown
  | Some wire =>
      if wf_Type wire =s "message" then
        match decodeMessage symbols wire with
        | Ok tick => FrameMessage tick ""
        | Err drop => FrameMessage no_tick drop
        end
      else if wf_Type wire =s "subscriptions" then FrameSubscriptions (wf_Subscribed wire) (wf_Rejected wire)
      else if wf_Type wire =s "error" then FrameError (default "" (wf_Error wire))
      else if wf_Type wire =s "pong" then FramePong
      else FrameUnknown
  end.

(** [NewDecoder]. *)
Definition NewQuoteDecoder (symbols : list QSymbol) : gset QSymbol := list_to_set symbols.
End Decode.

(** ** The cached token *)

Definition tokenExpiryBuffer : Z := 120 * second_ns.
Definition hex_byte (c : ascii) : bool := digit_byte c || byte_in 97 102 c.

(** [tokenKeyPattern]: [^toss:oauth:[0-9a-f]{16}:access_token$]. *)
Definition ValidTokenKey (key : string) : bool :=
  match strip_prefix "toss:oauth:" key with
  | None => false
  | Some rest =>
      str_forall hex_byte (take_bytes 16 rest) && (String.length (take_bytes 16 rest) =? 16)%nat &&
      (drop_bytes 16 rest =s ":access_token")
  end.

(** [NewCachedToken]: the key of the cache the token is read from. *)
Definition NewCachedToken (client : bool) (key : string) : option string :=
  if negb client || negb (ValidTokenKey key) then None else Some key.

Inductive token_result : Type :=
| TokenOk (token : string)
| ErrTokenUnavailable
| ErrTokenRead.

(** [Token]: what the GET answered ([None] for [redis.Nil]), the JSON decoder
    of the payload and the clock. *)
Definition Token (answer : result (option string) string)
  (unmarshal : string -> option (option string * option spec_float)) (now : Z) : token_result :=
  match answer with
  | Err _ => ErrTokenRead
  | Ok None => ErrTokenUnavailable
  | Ok (Some raw) =>
      match unmarshal raw with
      | Some (Some token, Some expires) =>
          if token =s "" then ErrTokenUnavailable
          else
            let expiresAt := int_of_float (float_mul expires (float_of_int second_ns)) in
            if negb (now <? expiresAt - tokenExpiryBuffer) then ErrTokenUnavailable else TokenOk token
      | _ => ErrTokenUnavailable
      end
  end.

(** ** The symbol list *)

Definition symbols_ok (symbols : list QSymbol) : Prop :=
  NoDup symbols /\ Forall (fun s => ValidSymbol s = true) symbols /\ (length symbols <= MaxSymbols)%nat.

Lemma symbols_loop_ok line seen symbols lines out :
  symbols_loop line seen symbols lines = Ok out -> symbols_ok symbols ->
  (forall s, s ∈ symbols <-> is_Some (seen !! s)) -> symbols_ok out.
Proof.
  revert line seen symbols. induction lines as [|text lines IH]; intros line seen symbols H Hok Hs;
    cbn [symbols_loop] in H; [by injection H as <-|].
  destruct (Fields _) as [|market [|code [|]]]; try discriminate; [by apply (IH _ _ _ H)|].
  cbv zeta in H. split_if in H; [done|]. destruct (seen !! _) eqn:E; [done|].
  destruct (Nat.ltb_spec MaxSymbols (length (symbols ++ [mkQSymbol market code]))); [done|].
  apply (IH _ _ _ H).
  - destruct Hok as (Hn & Hv & _). split; [|split; [|done]].
    + apply NoDup_snoc; [done|]. rewrite Hs, E. by intros [].
    + apply Forall_app. split; [done|]. by constructor.
  - intros s. rewrite elem_of_app, list_elem_of_singleton, Hs. destruct (decide (s = mkQSymbol market code)) as [->|Hne].
    + rewrite lookup_insert_eq. split; [eauto|by right].
    + rewrite lookup_insert_ne by done. naive_solver.
Qed.

(** The file that lists the symbols, a line each. *)
Definition symbol_line (s : QSymbol) : string := qs_Market s +:+ String " " (qs_Code s).
Definition render_symbols (symbols : list QSymbol) : string :=
  fold_right (fun s rest => symbol_line s +:+ String newline_char rest) "" symbols.

Lemma str_forall_impl (f g : ascii -> bool) s :
  (forall c, f c = true -> g c = true) -> str_forall f s = true -> str_forall g s = true.
Proof.
  intros Hfg. induction s as [|c s IH]; cbn; [done|]. intros [Hc Hs]%andb_true_iff.
  by rewrite (Hfg c Hc), IH.
Qed.

(** The bytes of a market or a code: printable and no comment sign. *)
Definition symbol_byte (c : ascii) : bool := plain_byte c && negb (Ascii.eqb c "#").

Lemma code_bytes c : upperOrDigit c || Ascii.eqb c "." || Ascii.eqb c "-" = true -> symbol_byte c = true.
Proof. destruct c as [[] [] [] [] [] [] [] []]; vm_compute; done. Qed.

Lemma ValidSymbol_bytes s : ValidSymbol s = true ->
  str_forall symbol_byte (qs_Market s) = true /\ qs_Market s <> "" /\
  str_forall symbol_byte (qs_Code s) = true /\ qs_Code s <> "" /\ (String.length (qs_Code s) <= 10)%nat.
Proof.
  destruct s as [market code]. unfold ValidSymbol. cbn [qs_Market qs_Code]. intros H.
  destruct (String.eqb_spec market MarketKR) as [->|_].
  - apply andb_true_iff in H as [Hl Hc]. apply Nat.eqb_eq in Hl.
    split; [done|]. split; [done|]. split; [|split; [by destruct code|lia]].
    eapply str_forall_impl; [|exact Hc]. intros c Hu. apply code_bytes. by rewrite Hu.
  - destruct (String.eqb_spec market MarketUS) as [->|_]; [|done]. destruct code as [|c r] eqn:Ec; [done|].
    apply andb_true_iff in H as [[Hl _]%andb_true_iff Hc]. apply Nat.leb_le in Hl.
    split; [done|]. split; [done|]. split; [|split; [done|done]].
    eapply str_forall_impl; [|exact Hc]. apply code_bytes.
Qed.

Lemma symbol_byte_facts s : str_forall symbol_byte s = true ->
  without newline_char s = true /\ before_comment s = s /\ drop_cr s = s /\ str_forall plain_byte s = true.
Proof.
  intros H. assert (Hp : str_forall plain_byte s = true).
  { eapply str_forall_impl; [|exact H]. intros c. unfold symbol_byte. by intros [? _]%andb_true_iff. }
  assert (Hw : forall c, plain_byte c = true ->
    Ascii.eqb c newline_char = false /\ Ascii.eqb c (ascii_of_nat 13) = false)
    by (intros [[] [] [] [] [] [] [] []]; vm_compute; done).
  split; [|split; [|split; [|done]]].
  - eapply str_forall_impl; [|exact Hp]. intros c Hc. by rewrite (proj1 (Hw c Hc)).
  - clear Hp. induction s as [|c s IH]; [done|]. cbn in H. apply andb_true_iff in H as [Hc Hs].
    unfold symbol_byte in Hc. apply andb_true_iff in Hc as [_ Hc]. apply negb_true_iff in Hc.
    cbn [before_comment]. by rewrite Hc, IH.
  - clear H. induction s as [|c s IH]; [done|]. cbn in Hp. apply andb_true_iff in Hp as [Hc Hs].
    cbn [drop_cr]. rewrite (proj2 (Hw c Hc)). specialize (IH Hs). destruct s; [done|]. by rewrite IH.
Qed.

Lemma fields_plain x fuel cur rest : str_forall plain_byte x = true ->
  fields_from (String.length x + fuel) cur (x +:+ rest) = fields_from fuel (cur +:+ x) rest.
Proof.
  revert cur. induction x as [|c x IH]; intros cur; cbn [str_forall String.length].
  - intros _. by rewrite str_app_nil_r.
  - intros [Hc Hx]%andb_true_iff. cbn [Nat.add String.append fields_from].
    rewrite strip_one_lead by (by apply plain_not_space). rewrite IH by done.
    by rewrite <- str_app_assoc.
Qed.

Lemma fields_end fuel cur : cur <> "" -> fields_from fuel cur "" = [cur].
Proof. intros H. destruct fuel; cbn; by rewrite string_eqb_ne. Qed.

Lemma Fields_pair m c : str_forall plain_byte m = true -> str_forall plain_byte c = true ->
  m <> "" -> c <> "" -> Fields (m +:+ String " " c) = [m; c].
Proof.
  intros Hm Hc Nm Nc. unfold Fields.
  replace (S (String.length (m +:+ String " " c))) with (String.length m + S (String.length c + 1))%nat
    by (rewrite strlen_app; cbn [String.length]; lia).
  rewrite fields_plain by done. change ("" +:+ m) with m. cbn [fields_from].
  change (strip_one space_runes (String " " c)) with (Some c).
  rewrite string_eqb_ne by done. cbn [app]. f_equal.
  rewrite <- (str_app_nil_r c) at 2. rewrite fields_plain by done. by apply fields_end.
Qed.

Lemma without_app c a b : without c (a +:+ b) = without c a && without c b.
Proof. apply str_forall_app. Qed.

Lemma symbol_line_facts s : ValidSymbol s = true ->
  without newline_char (symbol_line s) = true /\ drop_cr (symbol_line s) = symbol_line s /\
  Fields (before_comment (symbol_line s)) = [qs_Market s; qs_Code s] /\
  (String.length (symbol_line s) <= 13)%nat.
Proof.
  intros Hv. assert (Hm : (String.length (qs_Market s) <= 2)%nat).
  { unfold ValidSymbol in Hv. destruct (String.eqb_spec (qs_Market s) MarketKR) as [->|_]; [by cbn; lia|].
    destruct (String.eqb_spec (qs_Market s) MarketUS) as [->|_]; [by cbn; lia|done]. }
  destruct (ValidSymbol_bytes s Hv) as (M1 & M2 & C1 & C2 & Cl).
  destruct (symbol_byte_facts _ M1) as (M3 & M4 & M5 & M6).
  destruct (symbol_byte_facts _ C1) as (C3 & C4 & C5 & C6).
  unfold symbol_line. set (m := qs_Market s) in *. set (c := qs_Code s) in *.
  split; [|split; [|split]].
  - rewrite without_app, M3. cbn. exact C3.
  - clear - C5 C2. induction m as [|d m IH].
    + cbn [String.append drop_cr]. rewrite C5. by destruct c.
    + change (String d m +:+ String " " c) with (String d (m +:+ String " " c)). cbn [drop_cr].
      rewrite IH. by destruct (m +:+ String " " c) eqn:E; [destruct m|].
  - assert (E : before_comment (m +:+ String " " c) = m +:+ String " " c).
    { clear - M1 C4. induction m as [|d m IH]; cbn; [by rewrite C4|]. cbn in M1.
      apply andb_true_iff in M1 as [Hd Hm]. unfold symbol_byte in Hd. apply andb_true_iff in Hd as [_ Hd].
      apply negb_true_iff in Hd. rewrite Hd. f_equal. by apply IH. }
    rewrite E. by apply Fields_pair.
  - rewrite strlen_app. cbn [String.length]. lia.
Qed.

Lemma Split_render ss : Forall (fun s => ValidSymbol s = true) ss ->
  Split newline_char (render_symbols ss) = (symbol_line <$> ss) ++ [""].
Proof.
  induction 1 as [|s ss Hs _ IH]; [done|]. cbn [render_symbols fold_right fmap list_fmap app].
  rewrite Split_app by (by apply symbol_line_facts). f_equal. exact IH.
Qed.

Lemma complete_lines_end parts : complete_lines (parts ++ [""]) = parts.
Proof.
  induction parts as [|p parts IH]; [done|]. cbn [app complete_lines]. rewrite IH. by destruct parts.
Qed.

Lemma scan_render ss : Forall (fun s => ValidSymbol s = true) ss ->
  scan_lines (render_symbols ss) = symbol_line <$> ss.
Proof.
  intros Hs. unfold scan_lines. rewrite Split_render, complete_lines_end by done.
  rewrite <- list_fmap_compose. apply list_fmap_ext. intros i s Hi. cbn.
  rewrite Forall_forall in Hs. apply symbol_line_facts, Hs. by apply list_elem_of_lookup_2 in Hi.
Qed.

Lemma symbols_loop_render ss line seen symbols :
  symbols_ok (symbols ++ ss) -> (forall s, s ∈ symbols <-> is_Some (seen !! s)) ->
  symbols_loop line seen symbols (symbol_line <$> ss) = Ok (symbols ++ ss).
Proof.
  revert line seen symbols. induction ss as [|s ss IH]; intros line seen symbols Hok Hs; cbn [fmap list_fmap symbols_loop].
  { by rewrite app_nil_r. }
  assert (Hok' := Hok). destruct Hok' as (Hn & Hv & Hl).
  assert (Hvs : ValidSymbol s = true) by (apply Forall_app in Hv as [_ Hv]; by apply Forall_cons in Hv as [? _]).
  destruct (symbol_line_facts s Hvs) as (_ & _ & -> & _). destruct s as [market code]. cbn [qs_Market qs_Code].
  cbv zeta. rewrite Hvs. cbn [negb].
  assert (Hnew : seen !! mkQSymbol market code = None).
  { apply eq_None_not_Some. rewrite <- Hs. intros Hin. apply NoDup_app in Hn as (_ & Hd & _).
    apply (Hd _ Hin). left. }
  rewrite Hnew. rewrite (cons_middle _ symbols ss), app_assoc in *.
  assert (Hlen : (length (symbols ++ [mkQSymbol market code]) <= MaxSymbols)%nat)
    by (rewrite length_app in Hl; lia).
  destruct (Nat.ltb_spec MaxSymbols (length (symbols ++ [mkQSymbol market code]))); [lia|].
  apply IH; [done|]. intros t. rewrite elem_of_app, list_elem_of_singleton, Hs.
  destruct (decide (t = mkQSymbol market code)) as [->|Hne].
  - rewrite lookup_insert_eq. split; [eauto|by right].
  - rewrite lookup_insert_ne by done. naive_solver.
Qed.

Lemma render_length ss : Forall (fun s => ValidSymbol s = true) ss ->
  (String.length (render_symbols ss) <= 14 * length ss)%nat.
Proof.
  induction 1 as [|s ss Hs _ IH]; [done|]. cbn [render_symbols fold_right length].
  rewrite strlen_app. cbn [String.length]. destruct (symbol_line_facts s Hs) as (_ & _ & _ & Hl).
  unfold render_symbols in IH. lia.
Qed.

(** The symbol list is parsed exactly.  An accepted file yields between 1
    and 40 distinct, well-formed symbols; and every such list, written one
    symbol to a line, is accepted and read back as it is. *)
Theorem ParseSymbols_exact symbols :
  symbols_ok symbols /\ symbols <> [] <-> exists contents, ParseSymbols contents = Ok symbols.
Proof.
  split.
  - intros [Hok Hne]. exists (render_symbols symbols). assert (Hv : Forall (fun s => ValidSymbol s = true) symbols)
      by apply Hok.
    pose proof (render_length symbols Hv) as Hlen. destruct Hok as (Hn & _ & Hl).
    unfold ParseSymbols, too_long_line, maxSymbolsFileBytes. unfold MaxSymbols in Hl.
    destruct (Z.gtb_spec (Z.of_nat (String.length (render_symbols symbols))) 65536); [lia|].
    destruct (Z.eqb_spec (Z.of_nat (String.length (render_symbols symbols))) 65536); [lia|]. cbn [andb].
    rewrite scan_render by done. rewrite (symbols_loop_render symbols 0 ∅ []); [by destruct symbols|done|].
    intros s. rewrite lookup_empty. split; [by intros ?%not_elem_of_nil|by intros []].
  - intros [contents H]. unfold ParseSymbols in H. split_if in H; [done|]. split_if in H; [done|].
    destruct (symbols_loop _ _ _ _) as [out|] eqn:E; [|done].
    assert (Hok : symbols_ok out).
    { apply (symbols_loop_ok _ _ _ _ _ E); [split; [constructor|split; [constructor|cbn; lia]]|].
      intros s. rewrite lookup_empty. split; [by intros ?%not_elem_of_nil|by intros []]. }
    destruct out as [|s out]; [done|]. by injection H as <-.
Qed.

(** ** Ticks *)

Definition drop_reasons : list string :=
  [DropMalformed; DropUnknownTopic; DropUnknownSym; DropNoTimestamp; DropEmptyBook; DropOutOfSession].

(** One side of a tick: empty, or a price and a quantity. *)
Definition side_ok (price qty : string) : Prop :=
  (price = "" /\ qty = "") \/ (decimal_string price = true /\ decimal_string qty = true).

(** What a tick carries besides its symbol, time and session. *)
Definition tick_values_ok (t : QTick) : Prop :=
  (decimal_string (tk_Price t) = true /\ isZero (tk_Price t) = false /\
   Bid1 t = "" /\ Ask1 t = "" /\ BidQty t = "" /\ AskQty t = "") \/
  (tk_Price t = "" /\ side_ok (Bid1 t) (BidQty t) /\ side_ok (Ask1 t) (AskQty t) /\
   ~ (Bid1 t = "" /\ Ask1 t = "")).

Section ticks.
Context {codec : TossCodec} (Eastern : location).

Lemma best_side levels p v : best levels = Some (p, v) ->
  side_ok p v /\ (p = "" -> levels = []).
Proof.
  unfold best. destruct levels as [|l levels]; [intros [= <- <-]; split; [by left|done]|].
  destruct (ql_Price l) as [p'|]; [|done]. destruct (ql_Volume l) as [v'|]; [|done].
  destruct (decimal_string p' && decimal_string v') eqn:E; [|done]. intros [= <- <-].
  apply andb_true_iff in E as [E1 E2]. split; [by right|]. intros ->. done.
Qed.

Lemma trade_part_spec code data :
  match trade_part code data with
  | Ok (t, _) => tick_values_ok t /\ tk_Symbol t = code
  | Err reason => reason ∈ drop_reasons
  end.
Proof.
  unfold trade_part. destruct (unmarshal_trade data) as [d|]; [|left].
  destruct (td_Price d) as [price|]; [|left]. destruct (_ || _) eqn:E; [left|].
  destruct (td_Timestamp d); [|left]. bool_simpl. split; [|done]. by left.
Qed.

Lemma book_part_spec code data :
  match book_part code data with
  | Ok (t, _) => tick_values_ok t /\ tk_Symbol t = code
  | Err reason => reason ∈ drop_reasons
  end.
Proof.
  unfold book_part. destruct (unmarshal_book data) as [d|]; [|left].
  destruct (best (od_Asks d)) as [[ask askq]|] eqn:Ea; [|left].
  destruct (best (od_Bids d)) as [[bid bidq]|] eqn:Eb; [|left].
  apply best_side in Ea as [Sa Na], Eb as [Sb Nb].
  destruct (_ && _)%bool eqn:E; [do 4 right; left|]. destruct (od_Timestamp d); [|do 3 right; left].
  split; [|done]. right. cbn. split; [done|]. split; [done|]. split; [done|].
  intros [-> ->]. rewrite Na, Nb in E by done. done.
Qed.

Lemma decodeMessage_spec symbols wire :
  match decodeMessage Eastern symbols wire with
  | Ok t => tick_values_ok t /\ exists market at_,
      mkQSymbol market (tk_Symbol t) ∈ symbols /\ ValidSymbol (mkQSymbol market (tk_Symbol t)) = true /\
      TS t = format_time at_ /\ SessionLabel Eastern market at_.1 = Some (tk_Session t)
  | Err reason => reason ∈ drop_reasons
  end.
Proof.
  unfold decodeMessage. destruct (Split ":" (wf_Topic wire)) as [|channel [|market [|code []]]];
    try (right; left). cbv zeta.
  destruct (negb _); [right; left|]. destruct (ValidSymbol _) eqn:Ev; [|right; left]. cbn [negb].
  destruct (decide (mkQSymbol market code ∈ symbols)) as [Hin|Hin];
    [rewrite bool_decide_eq_true_2 by done|rewrite bool_decide_eq_false_2 by done; do 2 right; left].
  cbn [negb]. destruct (_ || _)%bool; [left|].
  assert (Hp : match (if channel =s "trade" then trade_part code (wf_Data wire)
      else book_part code (wf_Data wire)) with
    | Ok (t, _) => tick_values_ok t /\ tk_Symbol t = code
    | Err reason => reason ∈ drop_reasons end)
    by (destruct (channel =s "trade"); [apply trade_part_spec|apply book_part_spec]).
  destruct (if channel =s "trade" then _ else _) as [[t stamp]|reason]; [|done].
  destruct Hp as [Ht <-]. destruct (parse_time stamp) as [at_|]; [|left].
  destruct (SessionLabel Eastern market at_.1) as [session|] eqn:El; [|do 5 right; left].
  split; [exact Ht|]. by exists market, at_.
Qed.

(** A tick of the quote stream is sound.  A data frame becomes a tick only
    for a configured, well-formed symbol, with the session label of the
    frame's own time in that symbol's market and with values that are the
    decimals of one frame: a non-zero trade price alone, or a book with at
    least one side.  Every other data frame is dropped for one of the six
    counted reasons and carries no values. *)
Theorem tick_sound symbols raw t drop :
  DecodeFrame Eastern symbols raw = FrameMessage t drop ->
  (drop = "" /\ tick_values_ok t /\ exists market at_,
     mkQSymbol market (tk_Symbol t) ∈ symbols /\ ValidSymbol (mkQSymbol market (tk_Symbol t)) = true /\
     TS t = format_time at_ /\ SessionLabel Eastern market at_.1 = Some (tk_Session t)) \/
  (drop ∈ drop_reasons /\ t = no_tick).
Proof.
  unfold DecodeFrame. destruct (unmarshal_frame raw) as [wire|]; [|done].
  destruct (wf_Type wire =s "message").
  - pose proof (decodeMessage_spec symbols wire) as Hs.
    destruct (decodeMessage Eastern symbols wire) as [t'|reason]; intros [= <- <-]; [by left|by right].
  - destruct (_ =s _); [done|]. destruct (_ =s _); [done|]. by destruct (_ =s _).
Qed.
End ticks.

(** A codec for one trade frame of Monday 2024-01-01, 10:00 in Seoul. *)
#[local] Instance sample_toss : TossCodec := {|
  unmarshal_frame _ := Some (mkWireFrame "message" "trade:kr:005930" "data" [] [] None);
  unmarshal_trade _ := Some (mkTradeData (Some "70000") (Some "2024-01-01T10:00:00.000+09:00"));
  unmarshal_book _ := None;
  parse_time _ := Some (monday + 10 * hour_ns, 32400);
  format_time _ := "2024-01-01T10:00:00.000+09:00"
|}.
Definition sample_symbol : QSymbol := mkQSymbol "kr" "005930".
Definition sample_tick : QTick :=
  mkQTick "005930" "2024-01-01T10:00:00.000+09:00" "70000" "" "" "" "" SessionKRXRegular.

Lemma tick_sound_witness : tick_values_ok sample_tick.
Proof.
  destruct (tick_sound KST {[ sample_symbol ]} "frame" sample_tick "") as [(_ & H & _)|[_ H]].
  - vm_compute. reflexivity.
  - exact H.
  - discriminate H.
Defined.

(** ** The declaration *)

Definition subscriptions (d : list (string * list string)) : Z :=
  foldr Z.add 0 ((fun e => Z.of_nat (length e.2)) <$> d).

(** The codes by market of a prefix of the symbols. *)
Definition codes_of (market : string) (ss : list QSymbol) : list string :=
  qs_Code <$> filter (fun s => qs_Market s = market) ss.

Lemma codes_of_snoc market ss s : codes_of market (ss ++ [s]) =
  codes_of market ss ++ (if decide (qs_Market s = market) then [qs_Code s] else []).
Proof.
  unfold codes_of. rewrite filter_app, fmap_app. f_equal. rewrite filter_cons, filter_nil.
  by destruct (decide (qs_Market s = market)).
Qed.

(** What the grouping loop has built from the symbols [ss]. *)
Definition grouped (codes : gmap string (list string)) (markets : list string) (ss : list QSymbol) : Prop :=
  (forall m, default [] (codes !! m) = codes_of m ss) /\
  (forall m, m ∈ markets <-> is_Some (codes !! m)) /\ NoDup markets /\
  (forall m, m ∈ markets <-> exists s, s ∈ ss /\ qs_Market s = m).

Lemma group_step codes markets ss s : grouped codes markets ss ->
  grouped (<[qs_Market s := default [] (codes !! qs_Market s) ++ [qs_Code s]]> codes)
    (match codes !! qs_Market s with Some _ => markets | None => markets ++ [qs_Market s] end) (ss ++ [s]).
Proof.
  intros (Hc & Hm & Hn & Hs). split; [|split; [|split]].
  - intros m. rewrite codes_of_snoc. destruct (decide (qs_Market s = m)) as [<-|Hne].
    + rewrite lookup_insert_eq. cbn. by rewrite Hc.
    + rewrite lookup_insert_ne, app_nil_r by done. apply Hc.
  - intros m. destruct (decide (qs_Market s = m)) as [<-|Hne].
    + rewrite lookup_insert_eq. split; [eauto|]. intros _. destruct (codes !! qs_Market s) eqn:E;
        [apply Hm; by rewrite E|apply elem_of_app; right; left].
    + rewrite lookup_insert_ne by done. rewrite <- Hm. destruct (codes !! qs_Market s); [done|].
      rewrite elem_of_app, list_elem_of_singleton. naive_solver.
  - destruct (codes !! qs_Market s) eqn:E; [done|]. apply NoDup_snoc; [done|]. rewrite Hm, E. by intros [].
  - intros m. assert (Hx : (exists t, t ∈ ss ++ [s] /\ qs_Market t = m) <-> m ∈ markets \/ m = qs_Market s).
    { rewrite Hs. setoid_rewrite elem_of_app. setoid_rewrite list_elem_of_singleton. naive_solver. }
    rewrite Hx. destruct (codes !! qs_Market s) eqn:E.
    + split; [by left|]. intros [?| ->]; [done|]. apply Hm. by rewrite E.
    + rewrite elem_of_app, list_elem_of_singleton. done.
Qed.

Lemma group_codes_ok codes markets pre ss c m :
  grouped codes markets pre -> group_codes codes markets ss = (c, m) -> grouped c m (pre ++ ss).
Proof.
  revert codes markets pre. induction ss as [|s ss IH]; intros codes markets pre Hg H; cbn [group_codes] in H.
  - injection H as <- <-. by rewrite app_nil_r.
  - apply IH with (pre := pre ++ [s]) in H; [by rewrite <- app_assoc in H|]. by apply group_step.
Qed.

Lemma indicator_sum (x : string) markets : NoDup markets -> x ∈ markets ->
  foldr Z.add 0 ((fun m => if decide (x = m) then 1 else 0) <$> markets) = 1.
Proof.
  assert (H0 : forall l, x ∉ l -> foldr Z.add 0 ((fun m => if decide (x = m) then 1 else 0) <$> l) = 0).
  { induction l as [|m l IH]; [done|]. intros [Hm Hl]%not_elem_of_cons. cbn.
    rewrite decide_False by done. rewrite IH by done. done. }
  induction 1 as [|m l Hm Hl IH]; [by intros ?%not_elem_of_nil|]. cbn.
  intros [<- | Hx]%elem_of_cons.
  - rewrite decide_True, H0 by done. done.
  - rewrite decide_False by (intros ->; done). rewrite IH by done. done.
Qed.

Lemma sum_plus {A} (f g : A -> Z) l :
  foldr Z.add 0 ((fun x => f x + g x) <$> l) = foldr Z.add 0 (f <$> l) + foldr Z.add 0 (g <$> l).
Proof. induction l as [|x l IH]; cbn in *; lia. Qed.

(** The codes of distinct markets add up. *)
Lemma codes_total markets ss : NoDup markets -> (forall s, s ∈ ss -> qs_Market s ∈ markets) ->
  foldr Z.add 0 ((fun m => Z.of_nat (length (codes_of m ss))) <$> markets) = Z.of_nat (length ss).
Proof.
  intros Hn. induction ss as [|s ss IH]; intros Hin.
  { clear Hn Hin. induction markets as [|m l IH]; cbn in *; lia. }
  assert (E : forall m, Z.of_nat (length (codes_of m (s :: ss)))
    = (if decide (qs_Market s = m) then 1 else 0) + Z.of_nat (length (codes_of m ss))).
  { intros m. unfold codes_of. rewrite filter_cons. destruct (decide (qs_Market s = m)); cbn; lia. }
  rewrite (list_fmap_ext _ (fun m => (if decide (qs_Market s = m) then 1 else 0)
    + Z.of_nat (length (codes_of m ss))) markets) by (intros; apply E).
  rewrite (sum_plus (fun m => if decide (qs_Market s = m) then 1 else 0)), indicator_sum, IH.
  - cbn. lia.
  - intros t Ht. apply Hin. by right.
  - done.
  - apply Hin. left.
Qed.

Lemma declaration_total (codes : gmap string (list string)) markets :
  subscriptions (markets ≫= fun market =>
    (fun channel => (channel +:+ ":" +:+ market, default [] (codes !! market))) <$> ["trade"; "orderbook"])
  = 2 * foldr Z.add 0 ((fun m => Z.of_nat (length (default [] (codes !! m)))) <$> markets).
Proof. unfold subscriptions. induction markets as [|m markets IH]; cbn in *; lia. Qed.

(** One declaration subscribes to everything, within the limit.  For every
    list of symbols the parser accepts, [buildDeclaration] succeeds; each
    symbol's code is declared on both channels of its market and nothing else
    is; and it needs exactly two of the hundred subscriptions per symbol. *)
Theorem declaration_complete symbols : symbols_ok symbols ->
  exists d markets, buildDeclaration symbols = Some (d, markets) /\
    subscriptions d = 2 * Z.of_nat (length symbols) /\ subscriptions d <= MaxSubscriptions /\
    forall channel codes, (channel, codes) ∈ d <->
      exists kind market, channel = kind +:+ ":" +:+ market /\ (kind = "trade" \/ kind = "orderbook") /\
        (exists s, s ∈ symbols /\ qs_Market s = market) /\ codes = codes_of market symbols.
Proof.
  intros (_ & _ & Hl). unfold buildDeclaration. destruct (group_codes ∅ [] symbols) as [codes markets] eqn:E.
  assert (H0 : grouped ∅ [] []).
  { split; [|split; [|split; [constructor|]]]; intros m; rewrite ?lookup_empty; [done| |];
      (split; [by intros ?%not_elem_of_nil|]); [by intros []|by intros (s & ?%not_elem_of_nil & _)]. }
  apply (group_codes_ok _ _ _ _ _ _ H0) in E as (Hc & _ & Hn & Hs). cbn [app] in Hc, Hs.
  set (d := markets ≫= _). assert (Hd : subscriptions d = 2 * Z.of_nat (length symbols)).
  { unfold d. rewrite declaration_total.
    rewrite (list_fmap_ext _ (fun m => Z.of_nat (length (codes_of m symbols))) markets)
      by (intros; by rewrite Hc).
    rewrite codes_total; [done|done|]. intros s Hin. apply Hs. by exists s. }
  fold (subscriptions d). rewrite Hd. unfold MaxSubscriptions, MaxSymbols in *.
  destruct (Z.gtb_spec (2 * Z.of_nat (length symbols)) 100); [lia|].
  exists d, markets. split; [done|]. split; [done|]. split; [lia|]. intros channel cs. unfold d.
  rewrite list_elem_of_bind. split.
  - intros (m & Hin & Hm). rewrite Hc in Hin. apply Hs in Hm as (s & Hss & <-).
    apply list_elem_of_fmap in Hin as (kind & [= -> ->] & Hk).
    exists kind, (qs_Market s). split; [done|]. split; [|split; [by exists s|done]].
    apply elem_of_cons in Hk as [-> | ->%list_elem_of_singleton]; auto.
  - intros (kind & m & -> & Hk & Hm & ->). exists m. split; [|by apply Hs]. rewrite Hc.
    apply list_elem_of_fmap. exists kind. split; [done|]. destruct Hk as [-> | ->]; [left|right; left].
Qed.

Lemma declaration_complete_witness :
  exists d markets, buildDeclaration [sample_symbol; mkQSymbol "us" "AAPL"] = Some (d, markets) /\
    subscriptions d = 4.
Proof.
  destruct (declaration_complete [sample_symbol; mkQSymbol "us" "AAPL"]) as (d & ms & E & Hd & _).
  - split; [|split].
    + repeat constructor; set_solver.
    + repeat constructor.
    + cbn. unfold MaxSymbols. lia.
  - exists d, ms. split; [exact E|exact Hd].
Defined.
