(* ===== verification/Frame.v ===== *)
(** [src/internal/book/frame.go]: parsing of KIS realtime frames. *)

From Stdlib Require Import Ascii.
From S2P Require Import Prelude GoStr.
Local Open Scope Z_scope.
#[local] Arguments String.append !_ _ / : simpl nomatch.

Definition TRBook : string := "H0STASP0".
Definition TRTrade : string := "H0STCNT0".
Definition Depth : nat := 10.

(** Field positions of the two records. *)
Definition bookSymbol : nat := 0.
Definition bookHour : nat := 1.
Definition bookAsk1 : nat := 3.
Definition bookBid1 : nat := bookAsk1 + Depth.
Definition bookAskQty1 : nat := bookBid1 + Depth.
Definition bookBidQty1 : nat := bookAskQty1 + Depth.
Definition bookTotalAsk : nat := bookBidQty1 + Depth.
Definition bookTotalBid : nat := bookTotalAsk + 1.
Definition bookMinWidth : nat := bookTotalBid + 1.
Definition tradeSymbol : nat := 0.
Definition tradeHour : nat := 1.
Definition tradePrice : nat := 2.
Definition tradeQty : nat := 12.
Definition tradeAcmlVol : nat := 13.
Definition tradeSideCode : nat := 21.
Definition tradeMinWidth : nat := tradeSideCode + 1.

Record Level := mkLevel { lv_Price : Z; lv_Qty : Z }.
#[export] Instance Level_eq_dec : EqDecision Level. Proof. solve_decision. Defined.

(** [BookRecord]; the ten-element arrays are lists of length [Depth]. *)
Record BookRecord := mkBookRecord {
  br_Symbol : string; br_Hour : string; br_Asks : list Level; br_Bids : list Level;
  br_TotalAsk : Z; br_TotalBid : Z; br_text : string
}.

Record TradeRecord := mkTradeRecord {
  tr_Symbol : string; tr_Hour : string; tr_Price : Z; tr_Qty : Z; tr_AcmlVol : Z;
  tr_Side : string; tr_text : string
}.

Record Frame := mkFrame { fr_TR : string; fr_Books : list BookRecord; fr_Trades : list TradeRecord }.

Inductive record_error :=
| TooFewFields | EmptySymbol | BadHour | HourOutOfRange | BadSideCode | BadVolume | BadPrice | NotInteger.

(** The errors of [ParseFrame]; each comes with the frame's [TR]. *)
Inductive frame_error :=
| ErrNotRealtime
| ErrUnsupportedTR
| ErrEncrypted
| ErrHeader
| ErrCount
| ErrSplit
| ErrRecord (i : nat) (e : record_error).

(** The [errors.Is] classes the recorder tells apart. *)
Definition is_not_realtime (e : frame_error) : bool := match e with ErrNotRealtime => true | _ => false end.
Definition is_unsupported (e : frame_error) : bool := match e with ErrUnsupportedTR => true | _ => false end.

(** ** Numbers and headers *)

Definition field (f : list string) (i : nat) : string := default "" (f !! i).

(** [numberParser.int]: an empty field is 0; [None] records the error. *)
Definition number (f : list string) (i : nat) : option Z :=
  if field f i =s "" then Some 0 else ParseInt (field f i).

(** The value [numberParser.int] returns, and whether no field failed. *)
Definition num (f : list string) (i : nat) : Z := default 0 (number f i).
Definition parsed_ok (f : list string) (ixs : list nat) : bool :=
  forallb (fun i => match number f i with Some _ => true | None => false end) ixs.

Definition hour_part (h : string) (i : nat) : string := String.substring i 2 h.

Definition validateHeader (symbol hour : string) : option record_error :=
  if symbol =s "" then Some EmptySymbol
  else if negb (String.length hour =? 6)%nat then Some BadHour
  else if negb (all_digits hour) then Some BadHour
  else if String.ltb "23" (hour_part hour 0) || String.ltb "59" (hour_part hour 2)
          || String.ltb "59" (hour_part hour 4) then Some HourOutOfRange
  else None.

(** ** Records *)

Definition levels (f : list string) (price qty : nat) : list Level :=
  map (fun i => mkLevel (num f (price + i)) (num f (qty + i))) (seq 0 Depth).

Definition book_fields : list nat :=
  seq bookAsk1 (4 * Depth) ++ [bookTotalAsk; bookTotalBid].

Definition parseBook (f : list string) : result BookRecord record_error :=
  if (length f <? bookMinWidth)%nat then Err TooFewFields
  else
    let r := mkBookRecord (field f bookSymbol) (field f bookHour)
      (levels f bookAsk1 bookAskQty1) (levels f bookBid1 bookBidQty1)
      (num f bookTotalAsk) (num f bookTotalBid) (Join "^" f) in
    match validateHeader (br_Symbol r) (br_Hour r) with
    | Some e => Err e
    | None => if parsed_ok f book_fields then Ok r else Err NotInteger
    end.

Definition trade_side (code : string) : option string :=
  if code =s "1" then Some "buy"
  else if code =s "5" then Some "sell"
  else if code =s "3" then Some "auction"
  else None.

Definition parseTrade (f : list string) : result TradeRecord record_error :=
  if (length f <? tradeMinWidth)%nat then Err TooFewFields
  else match trade_side (field f tradeSideCode) with
       | None => Err BadSideCode
       | Some side =>
           let r := mkTradeRecord (field f tradeSymbol) (field f tradeHour) (num f tradePrice)
             (num f tradeQty) (num f tradeAcmlVol) side (Join "^" f) in
           let ok := parsed_ok f [tradePrice; tradeQty; tradeAcmlVol] in
           match validateHeader (tr_Symbol r) (tr_Hour r) with
           | Some e => Err e
           | None =>
               if ok && ((tr_Qty r <=? 0) || (tr_AcmlVol r <? tr_Qty r)) then Err BadVolume
               else if ok && (tr_Price r <=? 0) then Err BadPrice
               else if ok then Ok r else Err NotInteger
           end
       end.

(** ** Frames *)

Definition crlf (c : ascii) : bool := Ascii.eqb c "013" || Ascii.eqb c "010".
Definition leading_space (c : ascii) : bool := Ascii.eqb c " " || Ascii.eqb c "009" || crlf c.

(** The loop over the records: [n] left, from record [i], [width] fields each. *)
Fixpoint record_loop (tr : string) (n i width : nat) (fields : list string) (frame : Frame)
  : result Frame frame_error :=
  match n with
  | O => Ok frame
  | S n =>
      let record := take width (drop (i * width) fields) in
      if tr =s TRBook then
        match parseBook record with
        | Err e => Err (ErrRecord i e)
        | Ok r => record_loop tr n (S i) width fields
                    (mkFrame (fr_TR frame) (fr_Books frame ++ [r]) (fr_Trades frame))
        end
      else
        match parseTrade record with
        | Err e => Err (ErrRecord i e)
        | Ok r => record_loop tr n (S i) width fields
                    (mkFrame (fr_TR frame) (fr_Books frame) (fr_Trades frame ++ [r]))
        end
  end.

(** [ParseFrame]: the [TR] of the returned frame, with the parsed frame or the
    error. *)
Definition ParseFrame (raw : string) : string * result Frame frame_error :=
  let text := TrimRightSet crlf raw in
  if HasPrefix (TrimLeftSet leading_space text) "{" then ("", Err ErrNotRealtime)
  else
    match SplitN "|" 3 text with
    | [flag; tr; count; payload] =>
        if ((flag <>s "0") && (flag <>s "1")) || (tr =s "") then
          if (tr =s TRBook) || (tr =s TRTrade) then (tr, Err ErrHeader) else ("", Err ErrNotRealtime)
        else if (tr <>s TRBook) && (tr <>s TRTrade) then (tr, Err ErrUnsupportedTR)
        else if flag =s "1" then (tr, Err ErrEncrypted)
        else match Atoi count with
             | None => (tr, Err ErrCount)
             | Some n =>
                 if n <=? 0 then (tr, Err ErrCount)
                 else
                   let fields := Split "^" payload in
                   let len := Z.of_nat (length fields) in
                   if negb (Z.rem len n =? 0) then (tr, Err ErrSplit)
                   else
                     (tr, record_loop tr (Z.to_nat n) 0 (Z.to_nat (Z.quot len n)) fields (mkFrame tr [] []))
             end
    | _ :: tr :: _ =>
        if (tr =s TRBook) || (tr =s TRTrade) then (tr, Err ErrHeader) else ("", Err ErrNotRealtime)
    | _ => ("", Err ErrNotRealtime)
    end.

(** ** Specification *)

Definition header_ok (symbol hour : string) : Prop := validateHeader symbol hour = None.

Definition trade_ok (r : TradeRecord) : Prop :=
  header_ok (tr_Symbol r) (tr_Hour r) /\ 1 <= tr_Price r <= max_int64 /\
  1 <= tr_Qty r /\ tr_Qty r <= tr_AcmlVol r <= max_int64 /\
  (tr_Side r = "buy" \/ tr_Side r = "sell" \/ tr_Side r = "auction").

Definition level_ok (l : Level) : Prop := in_int64 (lv_Price l) /\ in_int64 (lv_Qty l).

Definition book_ok (r : BookRecord) : Prop :=
  header_ok (br_Symbol r) (br_Hour r) /\ length (br_Asks r) = Depth /\ length (br_Bids r) = Depth /\
  Forall level_ok (br_Asks r) /\ Forall level_ok (br_Bids r) /\
  in_int64 (br_TotalAsk r) /\ in_int64 (br_TotalBid r).

(** Exactly one kind of record, at least one of them, each well formed. *)
Record frame_ok (f : Frame) : Prop := {
  fo_books : Forall book_ok (fr_Books f);
  fo_trades : Forall trade_ok (fr_Trades f);
  fo_kind : (fr_TR f = TRBook /\ fr_Trades f = [] /\ fr_Books f <> []) \/
            (fr_TR f = TRTrade /\ fr_Books f = [] /\ fr_Trades f <> [])
}.

(** A trade frame as KIS sends it. *)
Definition render (tr : string) (records : list (list string)) : string :=
  "0|" +:+ tr +:+ "|" +:+ pretty (length records) +:+ "|" +:+ Join "^" (concat records).

Definition field_text (x : string) : Prop := str_forall plain_byte x = true /\ without "^" x = true.

(** ** Parsed records are well formed *)

Lemma num_range f i : in_int64 (num f i).
Proof.
  unfold num, number. destruct (field f i =s ""); [cbn; in64|].
  destruct (ParseInt (field f i)) as [n|] eqn:E; cbn; [by apply ParseInt_range in E|in64].
Qed.

Lemma levels_ok f p q : length (levels f p q) = Depth /\ Forall level_ok (levels f p q).
Proof.
  unfold levels. split; [by rewrite length_map, length_seq|].
  apply Forall_forall. intros l (i & -> & _)%list_elem_of_fmap. split; apply num_range.
Qed.

Lemma parseBook_ok f r : parseBook f = Ok r -> book_ok r.
Proof.
  unfold parseBook. destruct (_ <? _)%nat; [done|]. destruct (validateHeader _ _) eqn:Eh; [done|].
  destruct (parsed_ok _ _); [|done]. intros [= <-].
  destruct (levels_ok f bookAsk1 bookAskQty1), (levels_ok f bookBid1 bookBidQty1).
  repeat split; try done; apply num_range.
Qed.

Lemma trade_side_values code s : trade_side code = Some s -> s = "buy" \/ s = "sell" \/ s = "auction".
Proof.
  unfold trade_side. repeat (case_match; [naive_solver|]). done.
Qed.

Lemma parseTrade_ok f r : parseTrade f = Ok r -> trade_ok r.
Proof.
  unfold parseTrade. destruct (_ <? _)%nat; [done|].
  destruct (trade_side _) as [side|] eqn:Es; [|done].
  destruct (validateHeader _ _) eqn:Eh; [done|]. cbn [tr_Qty tr_AcmlVol tr_Price].
  destruct (parsed_ok _ _); cbn [andb]; [|done].
  destruct (_ || _) eqn:E1; bool_simpl; [done|]. destruct (_ <=? 0) eqn:E2; bool_simpl; [done|].
  intros [= <-]. pose proof (num_range f tradePrice). pose proof (num_range f tradeAcmlVol).
  unfold in_int64 in *. repeat split; cbn; try done; try lia. by apply (trade_side_values _ _ Es).
Qed.

(** What the loop adds to the frame it starts from. *)
Lemma record_loop_ok tr n : forall i width fields f f',
  record_loop tr n i width fields f = Ok f' ->
  fr_TR f' = fr_TR f /\
  exists bs ts, fr_Books f' = fr_Books f ++ bs /\ fr_Trades f' = fr_Trades f ++ ts /\
    Forall book_ok bs /\ Forall trade_ok ts /\
    (if tr =s TRBook then length bs = n /\ ts = [] else length ts = n /\ bs = []).
Proof.
  induction n as [|n IH]; intros i width fields f f' H; cbn [record_loop] in H.
  { simplify_eq. split; [done|]. exists [], []. rewrite !app_nil_r. by destruct (tr =s TRBook). }
  destruct (tr =s TRBook) eqn:Et.
  - destruct (parseBook _) as [r|] eqn:Er; [|done]. apply parseBook_ok in Er.
    apply IH in H as (H1 & bs & ts & H2 & H3 & H4 & H5 & H6 & H7). cbn in *.
    split; [done|]. exists (r :: bs), ts. rewrite H2, <- app_assoc. repeat split; try done; [by constructor|].
    cbn. lia.
  - destruct (parseTrade _) as [r|] eqn:Er; [|done]. apply parseTrade_ok in Er.
    apply IH in H as (H1 & bs & ts & H2 & H3 & H4 & H5 & H6 & H7). cbn in *.
    split; [done|]. exists bs, (r :: ts). rewrite H3, <- app_assoc. repeat split; try done; [by constructor|].
    cbn. lia.
Qed.

Lemma ParseFrame_facts raw tr f : ParseFrame raw = (tr, Ok f) -> fr_TR f = tr /\ frame_ok f.
Proof.
  unfold ParseFrame. destruct (HasPrefix _ _); [done|].
  destruct (SplitN _ _ _) as [|flag [|tr' l]]; [done|done|].
  assert (Hdam : (if (tr' =s TRBook) || (tr' =s TRTrade) then (tr', Err ErrHeader) else ("", Err ErrNotRealtime))
    <> (tr, Ok f)) by (by destruct (_ || _)).
  destruct l as [|count [|payload [|]]]; try (intros Hx; by destruct (Hdam Hx)).
  destruct (_ || (tr' =s "")) eqn:E1; [intros Hx; by destruct (Hdam Hx)|].
  destruct ((tr' <>s TRBook) && (tr' <>s TRTrade)) eqn:E2; [done|].
  destruct (flag =s "1"); [done|]. destruct (Atoi count) as [n|]; [|done].
  intros Hx. split_if in Hx; [done|]. split_if in Hx; [done|].
  assert (tr' = tr) as -> by congruence. assert (Hrec : record_loop tr (Z.to_nat n) 0
    (Z.to_nat (Z.quot (Z.of_nat (length (Split "^" payload))) n)) (Split "^" payload) (mkFrame tr [] []) = Ok f)
    by congruence.
  apply record_loop_ok in Hrec as (F1 & bs & ts & F2 & F3 & F4 & F5 & F6). cbn in F1, F2, F3.
  split; [done|]. subst bs ts. constructor; [done|done|]. rewrite F1.
  destruct (tr =s TRBook) eqn:Et; bool_simpl.
  - left. destruct F6 as [Hl Ht]. split; [done|]. split; [done|]. intros E. rewrite E in Hl. cbn in Hl. lia.
  - right. apply andb_false_iff in E2 as [E2|E2]; bool_simpl; [done|].
    destruct F6 as [Hl Hb]. split; [done|]. split; [done|]. intros E'. rewrite E' in Hl. cbn in Hl. lia.
Qed.


(** A trade frame with one record. *)
Definition sample_frame_raw : string :=
  "0|H0STCNT0|001|005930^093000^70000^2^100^0.1^69900^69800^70100^69700^70000^69900^10^500^0^0^0^0^0^0^0^1".
Definition sample_trade : TradeRecord :=
  mkTradeRecord "005930" "093000" 70000 10 500 "buy"
    "005930^093000^70000^2^100^0.1^69900^69800^70100^69700^70000^69900^10^500^0^0^0^0^0^0^0^1".

