(* ===== verification/Detect.v ===== *)
(** [src/internal/book/detect.go]: the continuity verdict on every book and
    trade record, shared by the recorder and replay. *)

From Stdlib Require Import Ascii.
From S2P Require Import Prelude GoStr KST Frame.
Local Open Scope Z_scope.

Definition ClassOK : string := "ok".
Definition ClassGap : string := "gap".
Definition ClassDuplicate : string := "duplicate".
Definition ClassRegress : string := "regress".

(** [Class.Applied]. *)
Definition Applied (c : string) : bool := (c =s ClassOK) || (c =s ClassGap).

Record Verdict := mkVerdict { vd_Symbol : string; vd_Class : string; vd_Resync : bool; vd_MissingVol : Z }.
#[export] Instance Verdict_eq_dec : EqDecision Verdict. Proof. solve_decision. Defined.

Record bookCursor := mkBookCursor { bc_text : string; bc_hour : string; bc_synced : bool }.
Record tradeCursor := mkTradeCursor { tc_acml : Z; tc_text : string; tc_resync : bool; tc_restart : bool }.
#[export] Instance bookCursor_eq_dec : EqDecision bookCursor. Proof. solve_decision. Defined.
#[export] Instance tradeCursor_eq_dec : EqDecision tradeCursor. Proof. solve_decision. Defined.

(** [tracker]; no cursor is shared between two keys, so maps of values stand for
    the maps of pointers. *)
Record tracker := mkTracker {
  tk_books : gmap string bookCursor; tk_trades : gmap string tradeCursor; tk_day : Z
}.
#[export] Instance tracker_eq_dec : EqDecision tracker. Proof. solve_decision. Defined.

Definition newTracker : tracker := mkTracker ∅ ∅ 0.

Definition kstOffset : Z := Offset.

(** [exchangeDay]: Go's division truncates toward zero. *)
Definition exchangeDay (atNS : Z) : Z := Z.quot (atNS +w kstOffset) day_ns.

Definition unsync_cursor (c : bookCursor) : bookCursor := mkBookCursor (bc_text c) (bc_hour c) false.
Definition resync_cursor (c : tradeCursor) : tradeCursor :=
  mkTradeCursor (tc_acml c) (tc_text c) true (tc_restart c).
Definition restart_cursor (c : tradeCursor) : tradeCursor :=
  mkTradeCursor (tc_acml c) (tc_text c) (tc_resync c) true.

Definition reconnect (t : tracker) : tracker :=
  mkTracker (unsync_cursor <$> tk_books t) (resync_cursor <$> tk_trades t) (tk_day t).

Definition startDay (t : tracker) : tracker :=
  mkTracker (unsync_cursor <$> tk_books t) (restart_cursor <$> tk_trades t) (tk_day t).

(** [tracker.book]. *)
Definition track_book (t : tracker) (r : BookRecord) : tracker * Verdict :=
  let apply resync :=
    (mkTracker (<[br_Symbol r := mkBookCursor (br_text r) (br_Hour r) true]> (tk_books t)) (tk_trades t) (tk_day t),
     mkVerdict (br_Symbol r) ClassOK resync 0) in
  match tk_books t !! br_Symbol r with
  | None => apply false
  | Some c =>
      if negb (bc_synced c) then apply true
      else if br_text r =s bc_text c then (t, mkVerdict (br_Symbol r) ClassDuplicate false 0)
      else if String.ltb (br_Hour r) (bc_hour c) then (t, mkVerdict (br_Symbol r) ClassRegress false 0)
      else apply false
  end.

(** The part of [tracker.trade] on one cursor: the verdict's class, resync and
    missing volume, and the cursor after. *)
Definition trade_cursor (r : TradeRecord) (c : tradeCursor) : tradeCursor * (string * bool * Z) :=
  let baseline := mkTradeCursor (tr_AcmlVol r) (tr_text r) false false in
  if tc_restart c then (baseline, (ClassOK, true, 0))
  else
    let resync := tc_resync c in
    let c := mkTradeCursor (tc_acml c) (tc_text c) false (tc_restart c) in
    let move := mkTradeCursor (tr_AcmlVol r) (tr_text r) false (tc_restart c) in
    if resync && (tr_AcmlVol r <? tc_acml c) then (move, (ClassOK, resync, 0))
    else if tr_text r =s tc_text c then (c, (ClassDuplicate, resync, 0))
    else
      let previous := tr_AcmlVol r -w tr_Qty r in
      if tr_AcmlVol r =? tc_acml c then (c, (ClassDuplicate, resync, 0))
      else if tr_AcmlVol r <? tc_acml c then (c, (ClassRegress, resync, 0))
      else if previous >? tc_acml c then (move, (ClassGap, resync, previous -w tc_acml c))
      else (move, (ClassOK, resync, 0)).

(** [tracker.trade]. *)
Definition track_trade (t : tracker) (r : TradeRecord) : tracker * Verdict :=
  let put c := mkTracker (tk_books t) (<[tr_Symbol r := c]> (tk_trades t)) (tk_day t) in
  match tk_trades t !! tr_Symbol r with
  | None => (put (mkTradeCursor (tr_AcmlVol r) (tr_text r) false false),
             mkVerdict (tr_Symbol r) ClassOK false 0)
  | Some c =>
      let '(c, (class, resync, missing)) := trade_cursor r c in
      (put c, mkVerdict (tr_Symbol r) class resync missing)
  end.

(** The two loops of [tracker.frame]. *)
Fixpoint track_all {R} (track : tracker -> R -> tracker * Verdict) (t : tracker) (rs : list R)
  : tracker * list Verdict :=
  match rs with
  | [] => (t, [])
  | r :: rs =>
      let '(t, v) := track t r in
      let '(t, vs) := track_all track t rs in (t, v :: vs)
  end.

(** [tracker.frame]: the tracker after, the verdicts, whether a day began. *)
Definition track_frame (t : tracker) (f : Frame) (atNS : Z) : tracker * list Verdict * bool :=
  let day := exchangeDay atNS in
  let '(t, newDay) :=
    if day >? tk_day t then
      let newDay := negb (tk_day t =? 0) in
      let t := mkTracker (tk_books t) (tk_trades t) day in
      (if newDay then startDay t else t, newDay)
    else (t, false) in
  let '(t, vb) := track_all track_book t (fr_Books f) in
  let '(t, vt) := track_all track_trade t (fr_Trades f) in
  (t, vb ++ vt, newDay).

(** ** Volume accounting *)

(** The volume a verdict accounts for: the trade's own and what is missing. *)
Definition accounted (r : TradeRecord) (v : Verdict) : Z :=
  if Applied (vd_Class v) then tr_Qty r + vd_MissingVol v else 0.

(** The volume accounted for on one symbol's tape. *)
Fixpoint accounted_all (sym : string) (rs : list TradeRecord) (vs : list Verdict) : Z :=
  match rs, vs with
  | r :: rs, v :: vs =>
      (if decide (tr_Symbol r = sym) then accounted r v else 0) + accounted_all sym rs vs
  | _, _ => 0
  end.

(** The trade leaves no doubt: it starts no earlier than the last applied one
    ended. *)
Definition no_overlap (acml : Z) (r : TradeRecord) : Prop :=
  tr_AcmlVol r <= acml \/ acml <= tr_AcmlVol r - tr_Qty r.

(** No trade of the symbol overlaps the volume already applied when it comes. *)
Fixpoint no_overlaps (t : tracker) (sym : string) (rs : list TradeRecord) : Prop :=
  match rs with
  | [] => True
  | r :: rs =>
      (tr_Symbol r = sym -> no_overlap (from_option tc_acml 0 (tk_trades t !! sym)) r) /\
      no_overlaps (fst (track_trade t r)) sym rs
  end.

(** Consecutive trades of one symbol, with no reconnect and no new day. *)
Definition running (c : tradeCursor) : Prop :=
  tc_resync c = false /\ tc_restart c = false /\ 0 <= tc_acml c <= max_int64.

Definition acml_of (t : tracker) (sym : string) : Z := from_option tc_acml 0 (tk_trades t !! sym).

Lemma trade_cursor_running r c :
  trade_ok r -> running c ->
  let '(c', (class, resync, missing)) := trade_cursor r c in
  running c' /\ resync = false /\ tc_acml c <= tc_acml c' /\
  (Applied class = true -> tc_acml c' = tr_AcmlVol r /\ tc_acml c < tr_AcmlVol r /\
     tc_acml c' - tc_acml c <= tr_Qty r + missing /\
     (no_overlap (tc_acml c) r -> tc_acml c' - tc_acml c = tr_Qty r + missing) /\
     missing = Z.max 0 (tr_AcmlVol r - tr_Qty r - tc_acml c)) /\
  (Applied class = false -> c' = c /\ tr_AcmlVol r <= tc_acml c \/ tr_text r = tc_text c /\ c' = c).
Proof.
  intros (_ & _ & Hq & Ha & _) (Hr & Hs & Hc). unfold trade_cursor. rewrite Hs, Hr. cbv zeta. cbn [andb tc_acml tc_text tc_resync tc_restart].
  rewrite wrap64_small by in64.
  assert (Ec : mkTradeCursor (tc_acml c) (tc_text c) false false = c) by (destruct c; cbn in *; congruence).
  assert (Hrun : running c) by done.
  destruct (tr_text r =s tc_text c) eqn:Et; cbn [tc_acml tc_text tc_restart].
  { bool_simpl. rewrite Ec. cbv beta iota zeta. split; [done|]. split; [done|]. split; [lia|].
    split; [discriminate|]. intros _. by right. }
  destruct (Z.eqb_spec (tr_AcmlVol r) (tc_acml c)) as [E|E].
  { rewrite Ec. cbv beta iota zeta. split; [done|]. split; [done|]. split; [lia|].
    split; [discriminate|]. intros _. left. split; [done|lia]. }
  destruct (Z.ltb_spec (tr_AcmlVol r) (tc_acml c)).
  { rewrite Ec. cbv beta iota zeta. split; [done|]. split; [done|]. split; [lia|].
    split; [discriminate|]. intros _. left. split; [done|lia]. }
  unfold no_overlap. rewrite Z.gtb_ltb. destruct (Z.ltb_spec (tc_acml c) (tr_AcmlVol r - tr_Qty r)).
  - rewrite wrap64_small by in64. cbv beta iota zeta. split; [split; [done|split; [done|cbn; lia]]|]. split; [done|].
    split; [cbn; lia|]. split; [intros _; cbn; lia|discriminate].
  - cbv beta iota zeta. split; [split; [done|split; [done|cbn; lia]]|]. split; [done|].
    split; [cbn; lia|]. split; [intros _; cbn; lia|discriminate].
Qed.

Definition sym_running (t : tracker) (sym : string) : Prop :=
  exists c, tk_trades t !! sym = Some c /\ running c.

(** One trade, whatever its symbol. *)
Lemma track_trade_step t r sym :
  trade_ok r -> sym_running t sym ->
  let '(t', v) := track_trade t r in
  sym_running t' sym /\ acml_of t sym <= acml_of t' sym /\
  acml_of t' sym - acml_of t sym <= (if decide (tr_Symbol r = sym) then accounted r v else 0) /\
  ((tr_Symbol r = sym -> no_overlap (acml_of t sym) r) ->
   acml_of t' sym - acml_of t sym = (if decide (tr_Symbol r = sym) then accounted r v else 0)).
Proof.
  intros Hr (c & Hc & Hrun). unfold track_trade.
  destruct (decide (tr_Symbol r = sym)) as [E|E].
  - rewrite E, Hc. pose proof (trade_cursor_running r c Hr Hrun) as Hstep.
    destruct (trade_cursor r c) as [c' [[class resync] missing]].
    destruct Hstep as (Hrun' & _ & Hle & Happ & Hno).
    assert (Eacml : acml_of (mkTracker (tk_books t) (<[sym := c']> (tk_trades t)) (tk_day t)) sym = tc_acml c')
      by (unfold acml_of; cbn; by rewrite lookup_insert_eq).
    rewrite Eacml. unfold acml_of. rewrite Hc. cbn [from_option].
    split; [exists c'; cbn; by rewrite lookup_insert_eq|]. split; [done|].
    unfold accounted. cbn [vd_Class vd_MissingVol]. destruct (Applied class).
    + destruct (Happ eq_refl) as (_ & _ & H1 & H2 & _). split; [done|]. intros H3. apply H2. by apply H3.
    + destruct (Hno eq_refl) as [[-> _]|[_ ->]]; lia.
  - assert (Hother : forall c' , acml_of (mkTracker (tk_books t) (<[tr_Symbol r := c']> (tk_trades t)) (tk_day t)) sym
        = acml_of t sym /\ sym_running (mkTracker (tk_books t) (<[tr_Symbol r := c']> (tk_trades t)) (tk_day t)) sym).
    { intros c'. unfold acml_of, sym_running. cbn. rewrite lookup_insert_ne by done. split; [done|]. by exists c. }
    destruct (tk_trades t !! tr_Symbol r) as [c0|].
    + destruct (trade_cursor r c0) as [c' [[class resync] missing]].
      destruct (Hother c') as [-> ?]. split; [done|]. lia.
    + destruct (Hother (mkTradeCursor (tr_AcmlVol r) (tr_text r) false false)) as [-> ?]. split; [done|]. lia.
Qed.

(** Volume accounting. Between reconnects and new days, over any
    interleaving of trades of any symbols, the volume the tape of a symbol
    accounts for, applied trades plus reported gaps, is at least the advance of
    its cumulative volume, so no share goes missing unreported; it is exactly the
    advance when no trade overlaps what was applied. The cumulative volume never
    goes back. *)
Theorem tape_accounts_for_volume sym rs : forall t,
  Forall trade_ok rs -> sym_running t sym ->
  let '(t', vs) := track_all track_trade t rs in
  acml_of t sym <= acml_of t' sym /\
  acml_of t' sym - acml_of t sym <= accounted_all sym rs vs /\
  (no_overlaps t sym rs -> acml_of t' sym - acml_of t sym = accounted_all sym rs vs).
Proof.
  induction rs as [|r rs IH]; intros t Hrs Hrun; cbn [track_all].
  { cbn. split; [lia|]. split; [lia|]. intros _. lia. }
  apply Forall_cons in Hrs as [Hr Hrs]. pose proof (track_trade_step t r sym Hr Hrun) as Hs.
  destruct (track_trade t r) as [t1 v] eqn:Et. destruct Hs as (Hrun1 & H1 & H2 & H3).
  pose proof (IH t1 Hrs Hrun1) as Hs. destruct (track_all track_trade t1 rs) as [t2 vs].
  destruct Hs as (H4 & H5 & H6). cbn [accounted_all]. split; [lia|]. split; [lia|].
  cbn [no_overlaps]. rewrite Et. cbn [fst]. intros [Hn Hns]. rewrite <- (H6 Hns), <- (H3 Hn). lia.
Qed.

(** An outage of 40 shares between two trades, then the second trade resent. *)
Definition sample_tracker : tracker := fst (track_trade newTracker sample_trade).
Definition sample_trade2 : TradeRecord := mkTradeRecord "005930" "093001" 70000 10 550 "buy" "t2".

Lemma tape_accounts_for_volume_witness :
  let '(t', vs) := track_all track_trade sample_tracker [sample_trade2; sample_trade2] in
  acml_of t' "005930" - acml_of sample_tracker "005930" = 50 /\
  accounted_all "005930" [sample_trade2; sample_trade2] vs = 50.
Proof.
  pose proof (tape_accounts_for_volume "005930" [sample_trade2; sample_trade2] sample_tracker) as Hx.
  assert (Hok : trade_ok sample_trade2) by (repeat split; cbn; try done; try (unfold max_int64; lia); by left).
  specialize (Hx (Forall_cons_2 _ _ _ Hok (Forall_cons_2 _ _ _ Hok (Forall_nil_2 _)))).
  assert (Hrun : sym_running sample_tracker "005930").
  { exists (mkTradeCursor 500 (tr_text sample_trade) false false). split; [vm_compute; reflexivity|].
    repeat split; cbn; unfold max_int64; lia. }
  specialize (Hx Hrun).
  destruct (track_all track_trade sample_tracker [sample_trade2; sample_trade2]) as [t' vs] eqn:E.
  destruct Hx as (_ & _ & Hx). rewrite <- Hx.
  - revert E. vm_compute. intros [= <- <-]. split; reflexivity.
  - split; [intros _; vm_compute; right; discriminate|]. split; [|exact I].
    intros _. vm_compute. left. discriminate.
Defined.

(** A trade that overlaps the applied volume is applied as if it continued
    the tape: the documented test for continuity (cumulative volume less the
    trade's own equals the last cumulative volume) fails, and no gap is
    reported. *)
Theorem overlap_is_classed_ok :
  exists t r v, trade_ok r /\ track_trade t r = (fst (track_trade t r), v) /\ vd_Class v = ClassOK /\
    tr_AcmlVol r - tr_Qty r < acml_of t "005930" < tr_AcmlVol r.
Proof.
  exists sample_tracker, (mkTradeRecord "005930" "093001" 70000 10 505 "buy" "t2"),
    (mkVerdict "005930" ClassOK false 0).
  split; [repeat split; cbn; try done; try (unfold max_int64; lia); by left|].
  split; [vm_compute; reflexivity|]. split; [reflexivity|]. vm_compute. split; reflexivity.
Qed.
