(* ===== verification/Intent.v ===== *)
(** [src/internal/exec/intent.go]: the E1 execution intent, its validation,
    and the three derived quantities the state machine starts from: the worst
    price [Cap], the working quantity [TargetQty] and the side-relative price
    order [worse].

    [ParseIntent] is [jsonx.DecodeStrict] followed by [Validate]; the JSON
    reader is the argument [decode_intent]. *)

From Stdlib Require Import Ascii.
From S2P Require Import Prelude Tick.
Local Open Scope Z_scope.

(** [Inventory]. *)
Record Inventory := mkInventory {
  PositionAtAuthorization : Z;
  MinPositionAfter : Z;
  MaxPositionAfter : Z
}.

(** [Intent].  [ExpiresAt] is the instant in nanoseconds since the Unix
    epoch, unbounded: [UnixNano] truncates it to 64 bits. *)
Record Intent := mkIntent {
  SchemaVersion : Z;
  IntentID : string;
  Strategy : string;
  Account : string;
  Venue : string;
  Symbol : string;
  in_Side : string;
  MaxQuantity : Z;
  MaxNotionalKRW : Z;
  LimitPriceKRW : Z;
  MaxSlippageBps : Z;
  ExpiresAt : Z;
  in_Inventory : Inventory;
  PolicyVersion : string;
  ModelVersion : option string;
  AuthorizationRef : string;
  InstrumentType : string
}.

#[export] Instance Inventory_eq_dec : EqDecision Inventory.
Proof. solve_decision. Defined.
#[export] Instance Intent_eq_dec : EqDecision Intent.
Proof. solve_decision. Defined.

(** The zero [Intent], which an executor without a start record holds. *)
Definition zero_intent : Intent :=
  {| SchemaVersion := 0; IntentID := ""; Strategy := ""; Account := ""; Venue := "";
     Symbol := ""; in_Side := ""; MaxQuantity := 0; MaxNotionalKRW := 0;
     LimitPriceKRW := 0; MaxSlippageBps := 0; ExpiresAt := 0;
     in_Inventory := mkInventory 0 0 0; PolicyVersion := ""; ModelVersion := None;
     AuthorizationRef := ""; InstrumentType := "" |}.

Definition InstrumentKRXEquity : string := "krx_equity".

Definition maxIntentNotionalKRW : Z := 5000000.
Definition maxIntentQuantity : Z := 1000000.
Definition maxLimitPriceKRW : Z := 10000000.
Definition maxSlippageBps : Z := 500.
Definition maxPosition : Z := 1000000000.

(** [time.Time{}], January 1 of year 1 UTC, which [IsZero] recognises. *)
Definition zero_time : Z := -62135596800 * 1000000000.
Definition IsZero (t : Z) : bool := t =? zero_time.
Definition UnixNano (t : Z) : Z := wrap64 t.

(** ** The three patterns, as predicates on bytes *)

Definition in_range (lo hi c : ascii) : bool :=
  (nat_of_ascii lo <=? nat_of_ascii c)%nat && (nat_of_ascii c <=? nat_of_ascii hi)%nat.
Definition is_digit (c : ascii) : bool := in_range "0" "9" c.
Definition is_upper (c : ascii) : bool := in_range "A" "Z" c.
Definition is_lower (c : ascii) : bool := in_range "a" "z" c.
Definition is_hex (c : ascii) : bool := is_digit c || in_range "a" "f" c.

(** One character class per position, anchored at both ends. *)
Fixpoint match_classes (cs : list (ascii -> bool)) (s : string) : bool :=
  match cs, s with
  | [], EmptyString => true
  | f :: cs, String c s => f c && match_classes cs s
  | _, _ => false
  end.

Fixpoint all_chars (f : ascii -> bool) (s : string) : bool :=
  match s with
  | EmptyString => true
  | String c s => f c && all_chars f s
  end.

Definition dash (c : ascii) : bool := Ascii.eqb c "-".

Definition uuidRe : string -> bool :=
  match_classes (replicate 8 is_hex ++ [dash] ++ replicate 4 is_hex ++ [dash] ++
    replicate 4 is_hex ++ [dash] ++ replicate 4 is_hex ++ [dash] ++ replicate 12 is_hex).

Definition krxSymbolRe : string -> bool :=
  match_classes (is_digit :: replicate 5 (fun c => is_digit c || is_upper c)).

Definition ref_char (c : ascii) : bool :=
  is_upper c || is_lower c || is_digit c ||
  Ascii.eqb c "." || Ascii.eqb c "_" || Ascii.eqb c ":" || Ascii.eqb c "/" || Ascii.eqb c "-".

Definition referenceRe (s : string) : bool :=
  match s with
  | EmptyString => false
  | String c rest =>
      (is_upper c || is_lower c || is_digit c) &&
      (String.length rest <=? 127)%nat && all_chars ref_char rest
  end.

(** ** Derived quantities *)

Definition Cap (i : Intent) : Z :=
  if in_Side i =s Buy then FloorTick (LimitPriceKRW i) else CeilTick (LimitPriceKRW i).

(** [TargetQty].  The division is guarded by [c > 0], so it cannot panic. *)
Definition TargetQty (i : Intent) : Z :=
  let q := MaxQuantity i in
  let c := Cap i in
  let q := if c >? 0 then Z.min q (wrap64 (Z.quot (MaxNotionalKRW i) c)) else q in
  let inv := in_Inventory i in
  let q :=
    if in_Side i =s Buy
    then Z.min q (MaxPositionAfter inv -w PositionAtAuthorization inv)
    else Z.min q (PositionAtAuthorization inv -w MinPositionAfter inv) in
  Z.max q 0.

Definition worse (i : Intent) (a b : Z) : bool :=
  if in_Side i =s Buy then a >? b else a <? b.

(** ** Validation: one constructor per refusal of [Validate], in its order *)

Inductive intent_error :=
| BadSchemaVersion | BadIntentID | BadStrategy | BadAccount | BadVenue | BadSymbol
| BadSide | BadMaxQuantity | BadMaxNotional | BadLimitPrice | BadSlippage
| MissingExpiry | BadPolicyVersion | BadModelVersion | BadAuthorizationRef
| BadInstrumentType | BadInventoryValue | InventoryInverted | NoTickPrice | NoQuantity.

Definition bad_inventory_value (v : Z) : bool := (v <? 0) || (v >? maxPosition).

(** [Validate] returns the first error, or [None] for a [nil] error. *)
Definition Validate (i : Intent) : option intent_error :=
  let inv := in_Inventory i in
  if negb (SchemaVersion i =? 1) then Some BadSchemaVersion
  else if negb (uuidRe (IntentID i)) then Some BadIntentID
  else if (Strategy i =s "") || (128 <? Z.of_nat (String.length (Strategy i))) then Some BadStrategy
  else if Account i <>s "kis_mock" then Some BadAccount
  else if Venue i <>s "krx" then Some BadVenue
  else if negb (krxSymbolRe (Symbol i)) then Some BadSymbol
  else if (in_Side i <>s Buy) && (in_Side i <>s Sell) then Some BadSide
  else if (MaxQuantity i <? 1) || (MaxQuantity i >? maxIntentQuantity) then Some BadMaxQuantity
  else if (MaxNotionalKRW i <? 1) || (MaxNotionalKRW i >? maxIntentNotionalKRW) then Some BadMaxNotional
  else if (LimitPriceKRW i <? 1) || (LimitPriceKRW i >? maxLimitPriceKRW) then Some BadLimitPrice
  else if (MaxSlippageBps i <? 0) || (MaxSlippageBps i >? maxSlippageBps) then Some BadSlippage
  else if IsZero (ExpiresAt i) then Some MissingExpiry
  else if negb (referenceRe (PolicyVersion i)) then Some BadPolicyVersion
  else if match ModelVersion i with Some v => negb (referenceRe v) | None => false end then Some BadModelVersion
  else if negb (referenceRe (AuthorizationRef i)) then Some BadAuthorizationRef
  else if (InstrumentType i <>s "") && (InstrumentType i <>s InstrumentKRXEquity) then Some BadInstrumentType
  else if existsb bad_inventory_value
            [PositionAtAuthorization inv; MinPositionAfter inv; MaxPositionAfter inv] then Some BadInventoryValue
  else if MinPositionAfter inv >? MaxPositionAfter inv then Some InventoryInverted
  else if Cap i <? 1 then Some NoTickPrice
  else if TargetQty i <? 1 then Some NoQuantity
  else None.

Inductive parse_error := DecodeError | Invalid (e : intent_error).

(** [ParseIntent]: both failures are an [ErrIntent]; the intent is returned
    beside the validation error, as the source does. *)
Definition ParseIntent (decode_intent : string -> option Intent) (data : string)
  : Intent * option parse_error :=
  match decode_intent data with
  | None => (zero_intent, Some DecodeError)
  | Some i => (i, Invalid <$> Validate i)
  end.

(** A valid buy and a valid sell, used by the witnesses of the development. *)
Definition sample_buy : Intent :=
  {| SchemaVersion := 1; IntentID := "0123abcd-0000-1111-2222-0123456789ab";
     Strategy := "s"; Account := "kis_mock"; Venue := "krx"; Symbol := "005930";
     in_Side := Buy; MaxQuantity := 10; MaxNotionalKRW := 1000000;
     LimitPriceKRW := 70050; MaxSlippageBps := 10; ExpiresAt := 1000000000000;
     in_Inventory := mkInventory 0 0 100; PolicyVersion := "v1"; ModelVersion := None;
     AuthorizationRef := "a"; InstrumentType := "" |}.

Definition sample_sell : Intent :=
  {| SchemaVersion := 1; IntentID := "0123abcd-0000-1111-2222-0123456789ac";
     Strategy := "s"; Account := "kis_mock"; Venue := "krx"; Symbol := "005930";
     in_Side := Sell; MaxQuantity := 10; MaxNotionalKRW := 1000000;
     LimitPriceKRW := 70050; MaxSlippageBps := 10; ExpiresAt := 1000000000000;
     in_Inventory := mkInventory 50 0 100; PolicyVersion := "v1"; ModelVersion := None;
     AuthorizationRef := "a"; InstrumentType := InstrumentKRXEquity |}.

(** What the whole intent may do at most: quantity, notional at the worst
    price, and the position it leaves. *)
Definition within_limits (i : Intent) (q : Z) : Prop :=
  q <= MaxQuantity i /\
  q * Cap i <= MaxNotionalKRW i /\
  (in_Side i = Buy -> PositionAtAuthorization (in_Inventory i) + q <= MaxPositionAfter (in_Inventory i)) /\
  (in_Side i = Sell -> MinPositionAfter (in_Inventory i) <= PositionAtAuthorization (in_Inventory i) - q).

(** What validation establishes about the numbers of an intent. *)
Record valid_facts (i : Intent) : Prop := {
  vf_side : in_Side i = Buy \/ in_Side i = Sell;
  vf_qty : 1 <= MaxQuantity i <= 1000000;
  vf_notional : 1 <= MaxNotionalKRW i <= 5000000;
  vf_limit : 1 <= LimitPriceKRW i <= 10000000;
  vf_pos : 0 <= PositionAtAuthorization (in_Inventory i) <= 1000000000;
  vf_min : 0 <= MinPositionAfter (in_Inventory i) <= 1000000000;
  vf_max : 0 <= MaxPositionAfter (in_Inventory i) <= 1000000000;
  vf_range : MinPositionAfter (in_Inventory i) <= MaxPositionAfter (in_Inventory i);
  vf_cap : 1 <= Cap i;
  vf_target : 1 <= TargetQty i;
  vf_id : IntentID i <> ""
}.

(** A ladder of refusals that returns [None] took no refusal. *)
Ltac ladder H :=
  repeat match type of H with
  | (if ?b then Some _ else _) = None =>
      let E := fresh "Eg" in destruct b eqn:E; [discriminate H|]
  end.

Lemma Validate_ok i : Validate i = None -> valid_facts i.
Proof.
  unfold Validate. intros H. ladder H. clear H.
  unfold maxIntentQuantity, maxIntentNotionalKRW, maxLimitPriceKRW, bad_inventory_value,
    maxPosition in *. cbn [existsb] in *.
  assert (IntentID i <> "") by (intros E; rewrite E in *; discriminate).
  bool_simpl.
  constructor; try assumption; try lia.
  destruct (decide (in_Side i = Buy)) as [|Hb]; [by left|right].
  apply String.eqb_neq in Hb. rewrite Hb in *. simpl in *. bool_simpl. done.
Qed.

Lemma Cap_bounds i : valid_facts i -> 1 <= Cap i <= 10001000.
Proof.
  intros V. pose proof (vf_cap i V). pose proof (vf_limit i V). split; [done|].
  unfold Cap. destruct (in_Side i =s Buy).
  - pose proof (FloorTick_bounds (LimitPriceKRW i)). unfold in_int64, min_int64, max_int64 in *. lia.
  - pose proof (CeilTick_bounds (LimitPriceKRW i)). pose proof (TickAt_range (LimitPriceKRW i)).
    unfold max_int64 in *. lia.
Qed.

Lemma Cap_on_grid i : valid_facts i -> on_grid (Cap i).
Proof.
  intros V. pose proof (vf_limit i V).
  unfold Cap. destruct (in_Side i =s Buy).
  - apply FloorTick_on_grid; in64.
  - apply CeilTick_on_grid; in64.
Qed.

(** The working quantity in exact arithmetic. *)
Lemma TargetQty_eq i : valid_facts i ->
  TargetQty i =
    Z.max 0 (Z.min (Z.min (MaxQuantity i) (MaxNotionalKRW i / Cap i))
      (if in_Side i =s Buy
       then MaxPositionAfter (in_Inventory i) - PositionAtAuthorization (in_Inventory i)
       else PositionAtAuthorization (in_Inventory i) - MinPositionAfter (in_Inventory i))).
Proof.
  intros V. pose proof (Cap_bounds i V). destruct V. unfold TargetQty.
  rewrite (proj2 (Z.gtb_lt _ _)) by lia.
  rewrite Z.quot_div_nonneg by lia.
  assert (0 <= MaxNotionalKRW i / Cap i <= MaxNotionalKRW i).
  { split; [apply Z.div_pos; lia|apply Z.div_le_upper_bound; nia]. }
  rewrite wrap64_small by in64.
  destruct (in_Side i =s Buy); rewrite wrap64_small by in64; lia.
Qed.

Lemma valid_target i : valid_facts i ->
  1 <= TargetQty i <= 1000000 /\ TargetQty i <= MaxQuantity i /\
  TargetQty i * Cap i <= MaxNotionalKRW i.
Proof.
  intros V. pose proof (TargetQty_eq i V) as E. pose proof (Cap_bounds i V).
  pose proof (vf_target i V). pose proof (vf_qty i V).
  assert (TargetQty i <= MaxNotionalKRW i / Cap i) by lia.
  pose proof (Z.mul_div_le (MaxNotionalKRW i) (Cap i)).
  repeat split; try lia; nia.
Qed.

(** Working quantity. For an intent that validates, [TargetQty] is
    positive, stays within every limit of the intent at the worst price, and
    is the largest quantity that does; and the worst price is a grid price on
    the intent's side of the limit price. *)
Theorem TargetQty_largest i :
  Validate i = None ->
  1 <= TargetQty i /\ within_limits i (TargetQty i) /\
  (forall q, within_limits i q -> q <= TargetQty i) /\
  on_grid (Cap i) /\
  (in_Side i = Buy -> Cap i <= LimitPriceKRW i) /\
  (in_Side i = Sell -> LimitPriceKRW i <= Cap i).
Proof.
  intros V%Validate_ok. pose proof (valid_target i V) as (? & ? & ?).
  pose proof (TargetQty_eq i V) as E. pose proof (Cap_bounds i V).
  assert (Hcap : (in_Side i = Buy -> Cap i <= LimitPriceKRW i) /\
                 (in_Side i = Sell -> LimitPriceKRW i <= Cap i)).
  { pose proof (vf_limit i V). unfold Cap. split; intros ->.
    - apply FloorTick_bounds; in64.
    - apply CeilTick_bounds; in64. }
  split; [lia|]. split; [|split; [|split; [by apply Cap_on_grid|done]]].
  - unfold within_limits. split; [done|split; [done|]].
    split; intros Hs; rewrite Hs in E; simpl in E; lia.
  - intros q (Hq & Hn & Hb & Hsell). rewrite E.
    assert (q <= MaxNotionalKRW i / Cap i) by (apply Z.div_le_lower_bound; lia).
    destruct (vf_side i V) as [Hs|Hs]; rewrite Hs in *; simpl;
      [specialize (Hb eq_refl)|specialize (Hsell eq_refl)]; lia.
Qed.

Lemma TargetQty_largest_witness :
  Validate sample_buy = None /\ TargetQty sample_buy = 10 /\ within_limits sample_buy 10.
Proof.
  assert (H : Validate sample_buy = None) by (vm_compute; reflexivity).
  destruct (TargetQty_largest sample_buy H) as (_ & Hw & _).
  split; [exact H|split; [vm_compute; reflexivity|]].
  replace 10 with (TargetQty sample_buy) by (vm_compute; reflexivity). exact Hw.
Defined.
