(* ===== verification/Machine.v ===== *)
(** [src/internal/exec/machine.go]: the executor's state and the one function
    that changes it, [Apply].

    [State] and [Record] keep the Go structs' fields; a nil pointer is [None].
    [Apply] never writes through a pointer it was given (the source clones the
    state first), so values stand for the pointed-to structs. *)

From S2P Require Import Prelude Tick Intent.
Local Open Scope Z_scope.

Definition ActSubmit : string := "submit".
Definition ActAmend : string := "amend".
Definition ActCancel : string := "cancel".

Definition StatusAccepted : string := "accepted".
Definition StatusUncertain : string := "uncertain".
Definition StatusSending : string := "sending".
Definition StatusRefused : string := "refused".
Definition StatusConflict : string := "conflict".

Definition DoneFilled : string := "filled".
Definition DoneCap : string := "cap".
Definition DoneDeadline : string := "deadline".
Definition DoneKilled : string := "killed".
Definition DoneRefused : string := "refused".
Definition DoneStaleBook : string := "stale_book".
Definition DoneE1Caps : string := "e1_caps".

(** [Child]: one child request. *)
Record Child := mkChild {
  c_Action : string;
  c_IntentID : string;
  c_Key : string;
  c_TargetKey : string;
  c_Qty : Z;
  c_Price : Z
}.

(** [Outcome]: the gateway's answer to one child. *)
Record Outcome := mkOutcome {
  oc_Key : string;
  oc_Status : string;
  oc_Reason : string;
  oc_BrokerOrderID : string
}.

(** [Order]: the executor's view of its one working order. *)
Record Order := mkOrder { o_Key : string; o_Price : Z; o_Qty : Z }.

(** [View]: the answer of a reconciling query. *)
Record View := mkView { v_Order : option Order; v_FilledQty : Z }.

(** [Fill]: one execution from ledger evidence. *)
Record Fill := mkFill {
  f_FillID : string;
  f_Key : string;
  f_Qty : Z;
  f_Price : Z;
  f_AtNS : Z
}.

#[export] Instance Child_eq_dec : EqDecision Child. Proof. solve_decision. Defined.
#[export] Instance Outcome_eq_dec : EqDecision Outcome. Proof. solve_decision. Defined.
#[export] Instance Order_eq_dec : EqDecision Order. Proof. solve_decision. Defined.
#[export] Instance View_eq_dec : EqDecision View. Proof. solve_decision. Defined.
#[export] Instance Fill_eq_dec : EqDecision Fill. Proof. solve_decision. Defined.

Definition RecStart : string := "start".
Definition RecSend : string := "send".
Definition RecOutcome : string := "outcome".
Definition RecReconcile : string := "reconcile".
Definition RecFill : string := "fill".
Definition RecFinish : string := "finish".

(** [Record]: one journaled transition. *)
Record Rec := mkRec {
  r_Kind : string;
  r_DeferFinish : bool;
  r_AtNS : Z;
  r_Intent : option Intent;
  r_Child : option Child;
  r_Reason : string;
  r_Outcome : option Outcome;
  r_View : option View;
  r_Fill : option Fill
}.
#[export] Instance Rec_eq_dec : EqDecision Rec. Proof. solve_decision. Defined.

(** The six record literals of the source. *)
Definition start_rec (at_ns : Z) (i : Intent) : Rec :=
  mkRec RecStart false at_ns (Some i) None "" None None None.
Definition send_rec (at_ns : Z) (c : Child) (reason : string) : Rec :=
  mkRec RecSend false at_ns None (Some c) reason None None None.
Definition outcome_rec (at_ns : Z) (o : Outcome) (defer : bool) : Rec :=
  mkRec RecOutcome defer at_ns None None "" (Some o) None None.
Definition reconcile_rec (at_ns : Z) (v : View) (defer : bool) : Rec :=
  mkRec RecReconcile defer at_ns None None "" None (Some v) None.
Definition fill_rec (f : Fill) : Rec :=
  mkRec RecFill false (f_AtNS f) None None "" None None (Some f).
Definition finish_rec (at_ns : Z) (reason : string) : Rec :=
  mkRec RecFinish false at_ns None None reason None None None.

(** [State]. *)
Record State := mkState {
  s_Intent : Intent;
  s_Cap : Z;
  s_Target : Z;
  s_Filled : Z;
  s_FillNotional : Z;
  s_Fills : gmap string Fill;
  s_BrokerFilled : Z;
  s_Sent : list Child;
  s_Order : option Order;
  s_InFlight : option Child;
  s_InFlightStatus : string;
  s_InFlightReason : string;
  s_LastMoveNS : Z;
  s_Halt : string;
  s_Done : string
}.
#[export] Instance State_eq_dec : EqDecision State. Proof. solve_decision. Defined.

Definition zero_state : State :=
  mkState zero_intent 0 0 0 0 ∅ 0 [] None None "" "" 0 "" "".

(** ** Field assignments *)

Definition set_Order (o : option Order) (s : State) : State :=
  mkState (s_Intent s) (s_Cap s) (s_Target s) (s_Filled s) (s_FillNotional s) (s_Fills s)
    (s_BrokerFilled s) (s_Sent s) o (s_InFlight s) (s_InFlightStatus s)
    (s_InFlightReason s) (s_LastMoveNS s) (s_Halt s) (s_Done s).
Definition set_InFlight (c : option Child) (status reason : string) (s : State) : State :=
  mkState (s_Intent s) (s_Cap s) (s_Target s) (s_Filled s) (s_FillNotional s) (s_Fills s)
    (s_BrokerFilled s) (s_Sent s) (s_Order s) c status reason (s_LastMoveNS s) (s_Halt s) (s_Done s).
Definition set_Sent (l : list Child) (s : State) : State :=
  mkState (s_Intent s) (s_Cap s) (s_Target s) (s_Filled s) (s_FillNotional s) (s_Fills s)
    (s_BrokerFilled s) l (s_Order s) (s_InFlight s) (s_InFlightStatus s)
    (s_InFlightReason s) (s_LastMoveNS s) (s_Halt s) (s_Done s).
Definition set_LastMoveNS (t : Z) (s : State) : State :=
  mkState (s_Intent s) (s_Cap s) (s_Target s) (s_Filled s) (s_FillNotional s) (s_Fills s)
    (s_BrokerFilled s) (s_Sent s) (s_Order s) (s_InFlight s) (s_InFlightStatus s)
    (s_InFlightReason s) t (s_Halt s) (s_Done s).
Definition set_Halt (h : string) (s : State) : State :=
  mkState (s_Intent s) (s_Cap s) (s_Target s) (s_Filled s) (s_FillNotional s) (s_Fills s)
    (s_BrokerFilled s) (s_Sent s) (s_Order s) (s_InFlight s) (s_InFlightStatus s)
    (s_InFlightReason s) (s_LastMoveNS s) h (s_Done s).
Definition set_Done (d : string) (s : State) : State :=
  mkState (s_Intent s) (s_Cap s) (s_Target s) (s_Filled s) (s_FillNotional s) (s_Fills s)
    (s_BrokerFilled s) (s_Sent s) (s_Order s) (s_InFlight s) (s_InFlightStatus s)
    (s_InFlightReason s) (s_LastMoveNS s) (s_Halt s) d.
Definition set_BrokerFilled (b : Z) (s : State) : State :=
  mkState (s_Intent s) (s_Cap s) (s_Target s) (s_Filled s) (s_FillNotional s) (s_Fills s)
    b (s_Sent s) (s_Order s) (s_InFlight s) (s_InFlightStatus s)
    (s_InFlightReason s) (s_LastMoveNS s) (s_Halt s) (s_Done s).
Definition add_fill (f : Fill) (s : State) : State :=
  mkState (s_Intent s) (s_Cap s) (s_Target s) (s_Filled s +w f_Qty f)
    (s_FillNotional s +w (f_Qty f *w f_Price f)) (<[f_FillID f := f]> (s_Fills s))
    (s_BrokerFilled s) (s_Sent s) (s_Order s) (s_InFlight s) (s_InFlightStatus s)
    (s_InFlightReason s) (s_LastMoveNS s) (s_Halt s) (s_Done s).

(** ** Readers of the state *)

Definition Started (s : State) : bool := IntentID (s_Intent s) <>s "".

Definition Remaining (s : State) : Z :=
  s_Target s -w Z.max (s_Filled s) (s_BrokerFilled s).

Definition Overfill (s : State) : Z := Z.max (s_Filled s -w s_Target s) 0.

Fixpoint find_key (key : string) (l : list Child) : option Child :=
  match l with
  | [] => None
  | c :: l => if c_Key c =s key then Some c else find_key key l
  end.
Definition sentKey (s : State) (key : string) : option Child := find_key key (s_Sent s).

(** [resolveCancel]: the intent ends with the cancel's reason, or halts with
    it when finishing is deferred. *)
Definition resolveCancel (reason : string) (defer : bool) (n : State) : State :=
  if defer then set_Halt reason n else set_Done reason n.

(** ** Apply *)

Inductive transition_error :=
| BeforeStart | BadStart | StartInvalid (e : intent_error)
| NoChild | SendUnresolved | WrongIntent | EmptyKey | KeyReused | AfterHalt
| OutsideBounds | OrderMismatch | BadAction | WrongTarget
| OutcomeMismatch | NoView | ViewUnsent | ViewBeyondCap
| EmptyFill | FillRepeated | FillUnsent | BadFinish | FinishWorking | UnknownKind.

Definition is_send_action (a : string) : bool := (a =s ActSubmit) || (a =s ActAmend).

(** The new intent: everything but the intent's own values is zero. *)
Definition started_state (i : Intent) : State :=
  mkState i (Cap i) (TargetQty i) 0 0 ∅ 0 [] None None "" "" 0 "" "".

Definition apply_start (s : State) (r : Rec) : result State transition_error :=
  match r_Intent r with
  | None => Err BadStart
  | Some i =>
      if Started s then Err BadStart
      else match Validate i with
           | Some e => Err (StartInvalid e)
           | None => Ok (started_state i)
           end
  end.

(** The target test every amend and cancel passes. *)
Definition target_ok (s : State) (c : Child) : bool :=
  (c_Action c =s ActSubmit) ||
  match s_Order s with None => false | Some o => c_TargetKey c =s o_Key o end.

Definition apply_send (s : State) (r : Rec) : result State transition_error :=
  match r_Child r with
  | None => Err NoChild
  | Some c =>
      let finish n :=
        if target_ok s c
        then Ok (set_InFlight (Some c) StatusSending (r_Reason r) (set_Sent (s_Sent s ++ [c]) n))
        else Err WrongTarget in
      if (s_Done s <>s "") || is_some (s_InFlight s) then Err SendUnresolved
      else if c_IntentID c <>s IntentID (s_Intent s) then Err WrongIntent
      else if c_Key c =s "" then Err EmptyKey
      else if is_some (sentKey s (c_Key c)) then Err KeyReused
      else if is_send_action (c_Action c) then
        if s_Halt s <>s "" then Err AfterHalt
        else if (c_Qty c <? 1) || (c_Qty c >? Remaining s) || (c_Price c <? 1)
                || worse (s_Intent s) (c_Price c) (s_Cap s) then Err OutsideBounds
        else if negb (Bool.eqb (c_Action c =s ActSubmit) (is_none (s_Order s))) then Err OrderMismatch
        else finish (set_LastMoveNS (r_AtNS r) s)
      else if c_Action c =s ActCancel then finish s
      else Err BadAction
  end.

Definition apply_outcome (s : State) (r : Rec) : result State transition_error :=
  match r_Outcome r, s_InFlight s with
  | Some o, Some c =>
      if oc_Key o <>s c_Key c then Err OutcomeMismatch
      else
        let clear := set_InFlight None "" "" in
        if (oc_Status o =s StatusAccepted) && (c_Action c =s ActCancel) then
          Ok (clear (resolveCancel (s_InFlightReason s) (r_DeferFinish r) (set_Order None s)))
        else if oc_Status o =s StatusAccepted then
          Ok (clear (set_Order (Some (mkOrder (c_Key c) (c_Price c) (c_Qty c))) s))
        else if (oc_Status o =s StatusRefused) && (c_Action c <>s ActCancel) then
          Ok (clear (set_Halt DoneRefused s))
        else Ok (set_InFlight (s_InFlight s) StatusUncertain (s_InFlightReason s) s)
  | _, _ => Err OutcomeMismatch
  end.

Definition apply_reconcile (s : State) (r : Rec) : result State transition_error :=
  match r_View r with
  | None => Err NoView
  | Some v =>
      let finish n :=
        let n := set_BrokerFilled (Z.max (s_BrokerFilled s) (v_FilledQty v)) n in
        let n :=
          match s_InFlight s with
          | Some c => if (c_Action c =s ActCancel) && is_none (s_Order n)
                      then resolveCancel (s_InFlightReason s) (r_DeferFinish r) n else n
          | None => n
          end in
        Ok (set_InFlight None "" "" n) in
      match v_Order v with
      | Some o =>
          if is_none (sentKey s (o_Key o)) then Err ViewUnsent
          else if worse (s_Intent s) (o_Price o) (s_Cap s) then Err ViewBeyondCap
          else finish (set_Order (Some o) s)
      | None => finish (set_Order None s)
      end
  end.

Definition apply_fill (s : State) (r : Rec) : result State transition_error :=
  match r_Fill r with
  | None => Err EmptyFill
  | Some f =>
      if (f_FillID f =s "") || (f_Qty f <? 1) || (f_Price f <? 1) then Err EmptyFill
      else if is_some (s_Fills s !! f_FillID f) then Err FillRepeated
      else if is_none (sentKey s (f_Key f)) then Err FillUnsent
      else Ok (add_fill f s)
  end.

Definition apply_finish (s : State) (r : Rec) : result State transition_error :=
  if (s_Done s <>s "") || is_some (s_InFlight s) || (r_Reason r =s "") then Err BadFinish
  else if is_some (s_Order s) then Err FinishWorking
  else Ok (set_Done (r_Reason r) s).

Definition Apply (s : State) (r : Rec) : result State transition_error :=
  if (r_Kind r <>s RecStart) && negb (Started s) then Err BeforeStart
  else if r_Kind r =s RecStart then apply_start s r
  else if r_Kind r =s RecSend then apply_send s r
  else if r_Kind r =s RecOutcome then apply_outcome s r
  else if r_Kind r =s RecReconcile then apply_reconcile s r
  else if r_Kind r =s RecFill then apply_fill s r
  else if r_Kind r =s RecFinish then apply_finish s r
  else Err UnknownKind.

(** Replaying a list of records, as a journal does. *)
Fixpoint run (s : State) (rs : list Rec) : result State transition_error :=
  match rs with
  | [] => Ok s
  | r :: rs => match Apply s r with Ok s' => run s' rs | Err e => Err e end
  end.

(** ** Specification *)

(** A submit or amend that was sent within the bounds of the intent. *)
Definition sent_ok (s : State) (c : Child) : Prop :=
  c_IntentID c = IntentID (s_Intent s) /\ c_Key c <> "" /\
  (c_Action c = ActCancel \/
   (is_send_action (c_Action c) = true /\ 1 <= c_Qty c <= s_Target s /\
    1 <= c_Price c /\ worse (s_Intent s) (c_Price c) (s_Cap s) = false)).

Definition fill_ok (s : State) (id : string) (f : Fill) : Prop :=
  f_FillID f = id /\ id <> "" /\ 1 <= f_Qty f /\ 1 <= f_Price f /\
  f_Key f ∈ map c_Key (s_Sent s).

Definition fill_qty (f : Fill) : Z := f_Qty f.
Definition fill_notional (f : Fill) : Z := f_Qty f *w f_Price f.

(** The invariant of a started executor. *)
Record wf (s : State) : Prop := {
  wf_valid : Validate (s_Intent s) = None;
  wf_cap : s_Cap s = Cap (s_Intent s);
  wf_target : s_Target s = TargetQty (s_Intent s);
  wf_sent : Forall (sent_ok s) (s_Sent s);
  wf_keys : NoDup (map c_Key (s_Sent s));
  wf_order : forall o, s_Order s = Some o ->
    o_Key o ∈ map c_Key (s_Sent s) /\ worse (s_Intent s) (o_Price o) (s_Cap s) = false;
  wf_inflight : forall c, s_InFlight s = Some c -> c ∈ s_Sent s;
  wf_fills : map_Forall (fill_ok s) (s_Fills s);
  wf_filled : s_Filled s = map_sum64 fill_qty (s_Fills s);
  wf_notional : s_FillNotional s = map_sum64 fill_notional (s_Fills s);
  wf_broker : 0 <= s_BrokerFilled s <= max_int64;
  wf_done : s_Done s <> "" -> s_InFlight s = None
}.

(** The integer fields of a record hold Go [int64] values. *)
Definition int64_child (c : Child) : Prop := in_int64 (c_Qty c) /\ in_int64 (c_Price c).
Definition int64_fill (f : Fill) : Prop :=
  in_int64 (f_Qty f) /\ in_int64 (f_Price f) /\ in_int64 (f_AtNS f).
Definition int64_order (o : Order) : Prop := in_int64 (o_Qty o) /\ in_int64 (o_Price o).
Definition int64_view (v : View) : Prop :=
  in_int64 (v_FilledQty v) /\ (forall o, v_Order v = Some o -> int64_order o).
Record int64_rec (r : Rec) : Prop := {
  ir_at : in_int64 (r_AtNS r);
  ir_child : forall c, r_Child r = Some c -> int64_child c;
  ir_view : forall v, r_View r = Some v -> int64_view v;
  ir_fill : forall f, r_Fill r = Some f -> int64_fill f
}.

(** States a journal can lead to. *)
Inductive reachable : State -> Prop :=
| reach_init : reachable zero_state
| reach_step s r s' : reachable s -> int64_rec r -> Apply s r = Ok s' -> reachable s'.

(** A record that settles the fate of an unresolved child. *)
Definition resolves (r : Rec) : bool :=
  (r_Kind r =s RecReconcile) ||
  ((r_Kind r =s RecOutcome) &&
   match r_Outcome r with
   | Some o => (oc_Status o =s StatusAccepted) || (oc_Status o =s StatusRefused)
   | None => false
   end).

(** A concrete journal: start, submit, acceptance, then an amend left
    unresolved. *)
Definition sample_id : string := IntentID sample_buy.
Definition sample_submit : Child := mkChild ActSubmit sample_id (sample_id +:+ ":1") "" 10 70000.
Definition sample_amend : Child :=
  mkChild ActAmend sample_id (sample_id +:+ ":2") (sample_id +:+ ":1") 10 70000.
Definition sample_recs : list Rec :=
  [start_rec 1 sample_buy; send_rec 2 sample_submit "open";
   outcome_rec 3 (mkOutcome (sample_id +:+ ":1") StatusAccepted "" "77") false;
   send_rec 4 sample_amend "step"].
Definition sample_fill1 : Fill := mkFill "x1" (sample_id +:+ ":1") 3 70000 5.
Definition sample_fill2 : Fill := mkFill "x2" (sample_id +:+ ":1") 2 69900 6.
Definition state_of (rs : list Rec) : State :=
  match run zero_state rs with Ok s => s | Err _ => zero_state end.
Definition sample_state : State := state_of sample_recs.

(** ** Lemmas *)

Lemma find_key_Some k l c : find_key k l = Some c -> c ∈ l /\ c_Key c = k.
Proof.
  induction l as [|d l IH]; simpl; [done|]. destruct (c_Key d =s k) eqn:E; intros H.
  - bool_simpl. simplify_eq. split; [left|done].
  - destruct (IH H). split; [by right|done].
Qed.

Lemma find_key_None k l : find_key k l = None <-> k ∉ map c_Key l.
Proof.
  induction l as [|d l IH]; simpl; [split; [intros _; apply not_elem_of_nil|done]|].
  rewrite not_elem_of_cons. destruct (c_Key d =s k) eqn:E; bool_simpl.
  - split; [done|]. intros [? _]. congruence.
  - rewrite IH. split; [intros; split; [congruence|done]|by intros [_ ?]].
Qed.

Lemma sent_none s k : is_none (sentKey s k) = true <-> k ∉ map c_Key (s_Sent s).
Proof. unfold sentKey. rewrite <- find_key_None. destruct (find_key k _); naive_solver. Qed.

Lemma is_some_none {A} (o : option A) : is_some o = negb (is_none o).
Proof. done. Qed.

Lemma is_none_true {A} (o : option A) : is_none o = true <-> o = None.
Proof. destruct o; naive_solver. Qed.
Lemma is_none_false {A} (o : option A) : is_none o = false <-> is_Some o.
Proof. destruct o; [|split; [done|by intros [? ?]]]. split; eauto. Qed.
Lemma is_some_false {A} (o : option A) : is_some o = false <-> o = None.
Proof. destruct o; naive_solver. Qed.

(** [Apply] by kind: one equation per record kind, used to invert a step. *)
Inductive apply_case (s : State) (r : Rec) (s' : State) : Prop :=
| case_start (_ : r_Kind r = RecStart) (_ : apply_start s r = Ok s')
| case_send (_ : r_Kind r = RecSend) (_ : Started s = true) (_ : apply_send s r = Ok s')
| case_outcome (_ : r_Kind r = RecOutcome) (_ : Started s = true) (_ : apply_outcome s r = Ok s')
| case_reconcile (_ : r_Kind r = RecReconcile) (_ : Started s = true) (_ : apply_reconcile s r = Ok s')
| case_fill (_ : r_Kind r = RecFill) (_ : Started s = true) (_ : apply_fill s r = Ok s')
| case_finish (_ : r_Kind r = RecFinish) (_ : Started s = true) (_ : apply_finish s r = Ok s').

Lemma Apply_cases s r s' : Apply s r = Ok s' -> apply_case s r s'.
Proof.
  unfold Apply. intros H.
  destruct ((r_Kind r <>s RecStart) && negb (Started s)) eqn:E; [done|].
  destruct (r_Kind r =s RecStart) eqn:E1; bool_simpl; [by apply case_start|].
  assert (Started s = true).
  { rewrite andb_false_iff in E. destruct E; bool_simpl; [|done].
    by apply negb_false_iff in H0. }
  destruct (r_Kind r =s RecSend) eqn:E2; bool_simpl; [by apply case_send|].
  destruct (r_Kind r =s RecOutcome) eqn:E3; bool_simpl; [by apply case_outcome|].
  destruct (r_Kind r =s RecReconcile) eqn:E4; bool_simpl; [by apply case_reconcile|].
  destruct (r_Kind r =s RecFill) eqn:E5; bool_simpl; [by apply case_fill|].
  destruct (r_Kind r =s RecFinish) eqn:E6; bool_simpl; [by apply case_finish|done].
Qed.

(** ** The invariant is preserved: one lemma per field assignment *)

Create HintDb wf.

Lemma wf_set_Order o s :
  wf s ->
  (forall o', o = Some o' -> o_Key o' ∈ map c_Key (s_Sent s) /\
                             worse (s_Intent s) (o_Price o') (s_Cap s) = false) ->
  wf (set_Order o s).
Proof. intros [] Ho. by constructor. Qed.

Lemma wf_set_Order_none s : wf s -> wf (set_Order None s).
Proof. intros W. by apply wf_set_Order. Qed.

Lemma wf_clear s : wf s -> wf (set_InFlight None "" "" s).
Proof. intros []. by constructor. Qed.

Lemma wf_set_status st re s : wf s -> wf (set_InFlight (s_InFlight s) st re s).
Proof. intros []. by constructor. Qed.

Lemma wf_set_LastMoveNS t s : wf s -> wf (set_LastMoveNS t s).
Proof. intros []. by constructor. Qed.

Lemma wf_set_Halt h s : wf s -> wf (set_Halt h s).
Proof. intros []. by constructor. Qed.

Lemma wf_set_BrokerFilled b s : wf s -> 0 <= b <= max_int64 -> wf (set_BrokerFilled b s).
Proof. intros [] ?. by constructor. Qed.

Lemma wf_set_Done d s : wf s -> s_InFlight s = None -> wf (set_Done d s).
Proof. intros [] ?. by constructor. Qed.

(** A cancel resolves: the child is cleared in the same record. *)
Lemma wf_resolve_clear reason defer s :
  wf s -> wf (set_InFlight None "" "" (resolveCancel reason defer s)).
Proof. intros []. unfold resolveCancel. by destruct defer; constructor. Qed.

Lemma wf_push_sent c s :
  wf s -> sent_ok s c -> c_Key c ∉ map c_Key (s_Sent s) -> wf (set_Sent (s_Sent s ++ [c]) s).
Proof.
  intros [] Hc Hk. constructor; cbn; try done.
  - apply Forall_app. split; [done|]. by apply Forall_singleton.
  - rewrite map_app. apply NoDup_app. repeat split; [done| |apply NoDup_singleton].
    intros k Hin. cbn. rewrite list_elem_of_singleton. intros ->. done.
  - intros o Ho. destruct (wf_order0 o Ho). split; [|done].
    rewrite map_app. apply elem_of_app. by left.
  - intros d Hd. apply elem_of_app. left. by apply wf_inflight0.
  - intros id f Hf. destruct (wf_fills0 id f Hf) as (? & ? & ? & ? & ?).
    repeat split; try done. cbn. rewrite map_app. apply elem_of_app. by left.
Qed.

Lemma wf_add_fill f s :
  wf s -> fill_ok s (f_FillID f) f -> s_Fills s !! f_FillID f = None -> wf (add_fill f s).
Proof.
  intros [] Hf Hn. constructor; cbn; try done.
  - by apply map_Forall_insert.
  - rewrite wf_filled0, !map_sum64_eq, map_sum_insert by done.
    rewrite wrap64_add_l. f_equal. unfold fill_qty at 2. lia.
  - rewrite wf_notional0, !map_sum64_eq, map_sum_insert by done.
    rewrite wrap64_add_l. f_equal. unfold fill_notional at 2. lia.
Qed.

#[export] Hint Resolve wf_set_Order_none wf_clear wf_set_status wf_set_LastMoveNS wf_set_Halt
  wf_set_Done wf_resolve_clear : wf.

Lemma wf_started i : Validate i = None -> wf (started_state i).
Proof.
  intros V. constructor; cbn; try done; try lia; constructor.
Qed.

Lemma Started_wf s : wf s -> Started s = true.
Proof.
  intros W. unfold Started. apply negb_true_iff, String.eqb_neq.
  apply vf_id, Validate_ok, W.
Qed.

(** [Remaining] is exact and at most the target. *)
Lemma Remaining_le s : wf s ->
  Remaining s = s_Target s - Z.max (s_Filled s) (s_BrokerFilled s) /\
  Remaining s <= s_Target s.
Proof.
  intros W. pose proof (wf_broker s W). unfold Remaining.
  assert (in_int64 (s_Filled s)).
  { rewrite (wf_filled s W), map_sum64_eq. apply wrap64_range. }
  rewrite (wf_target s W).
  pose proof (valid_target _ (Validate_ok _ (wf_valid s W))) as [? _].
  rewrite wrap64_small; in64.
Qed.

(** ** Every record kind preserves the invariant *)

Lemma apply_send_inv s r s' : wf s -> apply_send s r = Ok s' ->
  exists c, r_Child r = Some c /\ sent_ok s c /\
    (c_Key c ∉ map c_Key (s_Sent s)) /\ s_Done s = "" /\ s_InFlight s = None /\
    target_ok s c = true /\
    (is_send_action (c_Action c) = true -> s_Halt s = "" /\ c_Qty c <= Remaining s /\
       (c_Action c =s ActSubmit) = is_none (s_Order s)) /\
    s' = set_InFlight (Some c) StatusSending (r_Reason r) (set_Sent (s_Sent s ++ [c])
           (if is_send_action (c_Action c) then set_LastMoveNS (r_AtNS r) s else s)).
Proof.
  intros W. unfold apply_send. destruct (r_Child r) as [c|]; [|done].
  destruct (_ || is_some (s_InFlight s)) eqn:E1; bool_simpl; [done|].
  destruct (c_IntentID c <>s _) eqn:E2; bool_simpl; [done|].
  destruct (c_Key c =s "") eqn:E3; bool_simpl; [done|].
  destruct (is_some (sentKey s (c_Key c))) eqn:E4; [done|].
  apply is_some_false, is_none_true, sent_none in E4.
  apply is_some_false in H0.
  destruct (is_send_action (c_Action c)) eqn:Ea.
  - destruct (s_Halt s <>s "") eqn:E5; bool_simpl; [done|].
    destruct (_ || worse _ _ _) eqn:E6; bool_simpl; [done|].
    destruct (negb (Bool.eqb _ _)) eqn:E7; bool_simpl; [done|].
    apply Bool.eqb_prop in E7.
    destruct (target_ok s c) eqn:E8; [|done]. intros [= <-].
    pose proof (Remaining_le s W). rewrite Z.gtb_ltb in *. bool_simpl.
    exists c. rewrite Ea. repeat split; try done. right. repeat split; try done; lia.
  - destruct (c_Action c =s ActCancel) eqn:E5; bool_simpl; [|done].
    destruct (target_ok s c) eqn:E8; [|done]. intros [= <-].
    exists c. rewrite Ea. repeat split; try done. by left.
Qed.

Lemma wf_apply_send s r s' : wf s -> apply_send s r = Ok s' -> wf s'.
Proof.
  intros W H. destruct (apply_send_inv s r s' W H) as
    (c & _ & Hc & Hk & Hd & _ & _ & _ & ->).
  assert (W' : wf (set_Sent (s_Sent s ++ [c]) s)) by (by apply wf_push_sent).
  assert (W2 : wf (set_Sent (s_Sent s ++ [c])
            (if is_send_action (c_Action c) then set_LastMoveNS (r_AtNS r) s else s))).
  { destruct (is_send_action (c_Action c)); [|done].
    by apply (wf_set_LastMoveNS (r_AtNS r)) in W'. }
  assert (Hd' : s_Done (if is_send_action (c_Action c) then set_LastMoveNS (r_AtNS r) s else s) = "")
    by (by destruct (is_send_action (c_Action c))).
  destruct W2. constructor; cbn in *; try done.
  intros d [= <-]. apply elem_of_app. right. by left.
Qed.

Lemma wf_apply_outcome s r s' : wf s -> apply_outcome s r = Ok s' -> wf s'.
Proof.
  intros W. unfold apply_outcome.
  destruct (r_Outcome r) as [o|]; [|done].
  destruct (s_InFlight s) as [c|] eqn:Ec; [|done].
  destruct (oc_Key o <>s c_Key c); [done|].
  destruct (_ && _) eqn:E1; [intros [= <-]; auto with wf|].
  destruct (oc_Status o =s StatusAccepted) eqn:E2.
  - intros [= <-]. apply wf_clear, wf_set_Order; [done|].
    intros o' [= <-]. cbn. pose proof (wf_inflight s W c Ec) as Hin.
    split; [apply list_elem_of_fmap; eauto|].
    pose proof (proj1 (Forall_forall _ _) (wf_sent s W) c Hin) as (_ & _ & [Ha|(_ & _ & _ & ?)]);
      [|done].
    rewrite Ha in E1. discriminate.
  - clear E1. destruct (_ && _).
    + intros [= <-]. auto with wf.
    + intros [= <-]. rewrite <- Ec. auto with wf.
Qed.

Lemma wf_apply_reconcile s r s' :
  wf s -> int64_rec r -> apply_reconcile s r = Ok s' -> wf s'.
Proof.
  intros W Hr. unfold apply_reconcile. destruct (r_View r) as [v|] eqn:Ev; [|done].
  assert (Hfin : forall n, wf n -> s_BrokerFilled n = s_BrokerFilled s ->
    forall s', Ok (A := State) (E := transition_error) (set_InFlight None "" ""
      (match s_InFlight s with
       | Some c => if (c_Action c =s ActCancel) &&
             is_none (s_Order (set_BrokerFilled (Z.max (s_BrokerFilled s) (v_FilledQty v)) n))
           then resolveCancel (s_InFlightReason s) (r_DeferFinish r)
                  (set_BrokerFilled (Z.max (s_BrokerFilled s) (v_FilledQty v)) n)
           else set_BrokerFilled (Z.max (s_BrokerFilled s) (v_FilledQty v)) n
       | None => set_BrokerFilled (Z.max (s_BrokerFilled s) (v_FilledQty v)) n
       end)) = Ok s' -> wf s').
  { intros n Wn Hb s1 [= <-].
    assert (W1 : wf (set_BrokerFilled (Z.max (s_BrokerFilled s) (v_FilledQty v)) n)).
    { apply wf_set_BrokerFilled; [done|]. pose proof (wf_broker s W).
      destruct (ir_view r Hr v Ev). in64. }
    destruct (s_InFlight s); [destruct (_ && _)|]; auto with wf. }
  destruct (v_Order v) as [o|] eqn:Eo.
  - destruct (is_none (sentKey s (o_Key o))) eqn:E1; [done|].
    destruct (worse _ _ _) eqn:E2; [done|].
    intros H. apply (Hfin (set_Order (Some o) s)); [|done|exact H].
    apply wf_set_Order; [done|]. intros o' [= <-]. split; [|done].
    destruct (decide (o_Key o ∈ map c_Key (s_Sent s))) as [|Hn]; [done|].
    apply sent_none in Hn. congruence.
  - intros H. apply (Hfin (set_Order None s)); [auto with wf|done|exact H].
Qed.

Lemma wf_apply_fill s r s' : wf s -> apply_fill s r = Ok s' -> wf s'.
Proof.
  intros W. unfold apply_fill. destruct (r_Fill r) as [f|]; [|done].
  destruct (_ || (f_Price f <? 1)) eqn:E1; bool_simpl; [done|].
  destruct (is_some _) eqn:E2; [done|]. apply is_some_false in E2.
  destruct (is_none _) eqn:E3; [done|]. intros [= <-].
  apply wf_add_fill; try done. repeat split; try done.
  destruct (decide (f_Key f ∈ map c_Key (s_Sent s))) as [|Hn]; [done|].
  apply sent_none in Hn. congruence.
Qed.

Lemma wf_apply_finish s r s' : wf s -> apply_finish s r = Ok s' -> wf s'.
Proof.
  intros W. unfold apply_finish. destruct (_ || _) eqn:E1; bool_simpl; [done|].
  destruct (is_some (s_Order s)); [done|]. intros [= <-].
  apply wf_set_Done; [done|]. by apply is_some_false.
Qed.

Lemma wf_Apply s r s' : wf s -> int64_rec r -> Apply s r = Ok s' -> wf s'.
Proof.
  intros W Hr H. destruct (Apply_cases s r s' H) as [? Hs|? ? Hs|? ? Hs|? ? Hs|? ? Hs|? ? Hs].
  - unfold apply_start in Hs. rewrite (Started_wf s W) in Hs. by destruct (r_Intent r).
  - by apply (wf_apply_send s r).
  - by apply (wf_apply_outcome s r).
  - by apply (wf_apply_reconcile s r).
  - by apply (wf_apply_fill s r).
  - by apply (wf_apply_finish s r).
Qed.

Lemma Apply_zero r s' : Apply zero_state r = Ok s' -> wf s'.
Proof.
  intros H. destruct (Apply_cases _ r s' H) as [? Hs|? ? Hs|? ? Hs|? ? Hs|? ? Hs|? ? Hs]; try done.
  unfold apply_start in Hs. destruct (r_Intent r) as [i|]; [|done]. simpl in Hs.
  destruct (Validate i) eqn:V; [done|]. simplify_eq. by apply wf_started.
Qed.

Lemma reachable_wf s : reachable s -> s = zero_state \/ wf s.
Proof.
  induction 1 as [|s r s' _ IH Hr Hs]; [by left|right].
  destruct IH as [->|W]; [by apply (Apply_zero r)|by apply (wf_Apply s r)].
Qed.

(** State invariant. Whatever sequence of well-typed records [Apply]
    accepts, the state is the initial one or well formed: a valid intent with
    its own cap and target, every submit and amend sent within them under a
    fresh key, a working order and an in-flight child that were sent, and fill
    counters equal to the sums of the recorded fills. *)
Theorem Apply_invariant s : reachable s -> s = zero_state \/ wf s.
Proof. apply reachable_wf. Qed.

Lemma run_reachable rs : forall s s',
  reachable s -> Forall int64_rec rs -> run s rs = Ok s' -> reachable s'.
Proof.
  induction rs as [|r rs IH]; simpl; intros s s' Hs Hr H; [by simplify_eq|].
  apply Forall_cons in Hr as [? ?]. destruct (Apply s r) as [s1|] eqn:E; [|done].
  apply (IH s1); try done. by apply (reach_step s r).
Qed.

Lemma int64_samples : Forall int64_rec sample_recs.
Proof.
  repeat (apply Forall_cons; split; [constructor; simpl; try (unfold in_int64, min_int64, max_int64; lia);
    try done; intros ? [= <-]; split; simpl; unfold in_int64, min_int64, max_int64; lia|]).
  constructor.
Defined.

Lemma Apply_invariant_witness : sample_state = zero_state \/ wf sample_state.
Proof.
  apply (Apply_invariant sample_state), (run_reachable sample_recs zero_state).
  - apply reach_init.
  - apply int64_samples.
  - vm_compute. reflexivity.
Defined.

Lemma wf_sample : wf sample_state.
Proof.
  destruct (reachable_wf sample_state) as [H|]; [|discriminate H|done].
  apply (run_reachable sample_recs zero_state);
    [apply reach_init|apply int64_samples|vm_compute; reflexivity].
Qed.

Lemma Apply_unresolved s r s' c :
  s_InFlight s = Some c -> resolves r = false -> Apply s r = Ok s' -> wf s ->
  s_InFlight s' = Some c /\ s_Sent s' = s_Sent s.
Proof.
  intros Hc Hr H W. destruct (Apply_cases s r s' H) as [? Hs|? ? Hs|? ? Hs|Hk ? Hs|? ? Hs|? ? Hs].
  - unfold apply_start in Hs. rewrite (Started_wf s W) in Hs. by destruct (r_Intent r).
  - destruct (apply_send_inv s r s' W Hs) as (? & _ & _ & _ & _ & Hn & _). congruence.
  - unfold apply_outcome in Hs. unfold resolves in Hr. rewrite H0 in Hr. simpl in Hr.
    destruct (r_Outcome r) as [o|]; [|done]. apply orb_false_iff in Hr as [H2 H3].
    rewrite Hc, H2, H3 in Hs. simpl in Hs. destruct (oc_Key o <>s c_Key c); [done|]. by simplify_eq.
  - unfold resolves in Hr. by rewrite Hk in Hr.
  - unfold apply_fill in Hs. destruct (r_Fill r); [|done].
    repeat (split_if in Hs; [done|]). by simplify_eq.
  - unfold apply_finish in Hs. rewrite Hc in Hs. simpl in Hs. by rewrite orb_true_r in Hs.
Qed.

(** C18: resolve before resending. While a child's outcome is unknown, no
    sequence of records that lacks a reconcile and a definite outcome changes
    the set of sent children or clears the child. *)
Theorem unresolved_blocks_sends rs : forall s s' c,
  wf s -> s_InFlight s = Some c -> Forall int64_rec rs ->
  Forall (fun r => resolves r = false) rs -> run s rs = Ok s' ->
  s_InFlight s' = Some c /\ s_Sent s' = s_Sent s.
Proof.
  induction rs as [|r rs IH]; simpl; intros s s' c W Hc Hi Hr H; [by simplify_eq|].
  apply Forall_cons in Hr as [Hr0 Hr], Hi as [Hi0 Hi].
  destruct (Apply s r) as [s1|] eqn:E; [|done].
  destruct (Apply_unresolved s r s1 c Hc Hr0 E W) as [Hc1 Hs1].
  destruct (IH s1 s' c) as [? ?]; try done; [by apply (wf_Apply s r)|].
  split; congruence.
Qed.

Lemma int64_fill_rec f : int64_fill f -> int64_rec (fill_rec f).
Proof. intros (? & ? & ?). constructor; try done. by intros ? [= <-]. Qed.

Lemma unresolved_blocks_sends_witness :
  exists s', run sample_state [fill_rec sample_fill1] = Ok s' /\ s_Filled s' = 3 /\
    s_InFlight s' = Some sample_amend /\ s_Sent s' = [sample_submit; sample_amend].
Proof.
  eexists. split; [vm_compute; reflexivity|]. split; [reflexivity|].
  apply (unresolved_blocks_sends [fill_rec sample_fill1] sample_state _ sample_amend wf_sample).
  - reflexivity.
  - constructor; [|constructor]. apply int64_fill_rec. repeat split; vm_compute; discriminate.
  - constructor; [reflexivity|constructor].
  - vm_compute; reflexivity.
Defined.

Lemma Apply_done s r s' :
  wf s -> s_Done s <> "" -> Apply s r = Ok s' ->
  s_Done s' = s_Done s /\ s_Sent s' = s_Sent s /\ s_InFlight s' = None.
Proof.
  intros W Hd H. pose proof (wf_done s W Hd) as Hn.
  apply String.eqb_neq in Hd as Hb.
  destruct (Apply_cases s r s' H) as [? Hs|? ? Hs|? ? Hs|? ? Hs|? ? Hs|? ? Hs].
  - unfold apply_start in Hs. rewrite (Started_wf s W) in Hs. by destruct (r_Intent r).
  - destruct (apply_send_inv s r s' W Hs) as (? & _ & _ & _ & ? & _). congruence.
  - unfold apply_outcome in Hs. rewrite Hn in Hs. by destruct (r_Outcome r).
  - unfold apply_reconcile in Hs. rewrite Hn in Hs. destruct (r_View r) as [v|]; [|done].
    destruct (v_Order v); [repeat (split_if in Hs; [done|])|]; by simplify_eq.
  - unfold apply_fill in Hs. destruct (r_Fill r); [|done].
    repeat (split_if in Hs; [done|]). by simplify_eq.
  - unfold apply_finish in Hs. by rewrite Hb in Hs.
Qed.

(** A finished intent is final. Once the state is done, every further
    accepted record keeps the finish reason, sends nothing and leaves nothing
    in flight. *)
Theorem done_is_final rs : forall s s',
  wf s -> s_Done s <> "" -> Forall int64_rec rs -> run s rs = Ok s' ->
  s_Done s' = s_Done s /\ s_Sent s' = s_Sent s /\ s_InFlight s' = None.
Proof.
  induction rs as [|r rs IH]; simpl; intros s s' W Hd Hi H.
  { simplify_eq. repeat split. by apply wf_done. }
  apply Forall_cons in Hi as [Hi0 Hi].
  destruct (Apply s r) as [s1|] eqn:E; [|done].
  destruct (Apply_done s r s1 W Hd E) as (H1 & H2 & _).
  destruct (IH s1 s') as (? & ? & ?); try done; [by apply (wf_Apply s r)|congruence|].
  repeat split; congruence.
Qed.

Lemma done_is_final_witness :
  exists s', run (set_Done "cap" (set_InFlight None "" "" sample_state)) [fill_rec sample_fill1] = Ok s' /\
    s_Done s' = "cap" /\ s_Filled s' = 3.
Proof.
  eexists. split; [vm_compute; reflexivity|]. split; [|reflexivity].
  apply (done_is_final [fill_rec sample_fill1] (set_Done "cap" (set_InFlight None "" "" sample_state))).
  - apply wf_set_Done; [apply wf_clear, wf_sample|reflexivity].
  - discriminate.
  - constructor; [|constructor]. apply int64_fill_rec. repeat split; vm_compute; discriminate.
  - vm_compute. reflexivity.
Defined.

(** ** Fills commute *)

Lemma Apply_fill_rec s f : Started s = true -> Apply s (fill_rec f) = apply_fill s (fill_rec f).
Proof. intros H. unfold Apply. by rewrite H. Qed.

Lemma apply_fill_iff s f s' :
  apply_fill s (fill_rec f) = Ok s' <->
  (f_FillID f <> "" /\ 1 <= f_Qty f /\ 1 <= f_Price f /\ s_Fills s !! f_FillID f = None /\
   is_none (sentKey s (f_Key f)) = false /\ s' = add_fill f s).
Proof.
  unfold apply_fill. cbn. destruct (f_FillID f =s "") eqn:E1; bool_simpl; cbn [orb].
  { split; [done|naive_solver]. }
  destruct (Z.ltb_spec (f_Qty f) 1); cbn [orb]; [split; [done|lia]|].
  destruct (Z.ltb_spec (f_Price f) 1); cbn [orb]; [split; [done|lia]|].
  destruct (s_Fills s !! f_FillID f); simpl; [split; [done|naive_solver]|].
  destruct (is_none _); split; try naive_solver; intros (? & ? & ? & ? & ? & ?); simplify_eq; done.
Qed.

Lemma add_fill_comm f g s : f_FillID f <> f_FillID g ->
  add_fill f (add_fill g s) = add_fill g (add_fill f s).
Proof.
  intros Hne. unfold add_fill. cbn. f_equal.
  - autorewrite with wrap64. f_equal. lia.
  - autorewrite with wrap64. f_equal. lia.
  - by rewrite insert_insert_ne.
Qed.

Lemma run_fill_swap s f g s' : Started s = true ->
  run s [fill_rec f; fill_rec g] = Ok s' -> run s [fill_rec g; fill_rec f] = Ok s'.
Proof.
  intros Hs. cbn [run]. rewrite !Apply_fill_rec by done.
  destruct (apply_fill s (fill_rec f)) as [s1|] eqn:E1; [|done].
  apply apply_fill_iff in E1 as (? & ? & ? & ? & Hk & ->).
  rewrite Apply_fill_rec by done.
  destruct (apply_fill (add_fill f s) (fill_rec g)) as [s2|] eqn:E2; [|done].
  apply apply_fill_iff in E2 as (? & ? & ? & Hl & Hk2 & ->). intros [= <-].
  cbn in Hl. apply lookup_insert_None in Hl as [Hl Hne].
  assert (apply_fill s (fill_rec g) = Ok (add_fill g s)) as -> by (by apply apply_fill_iff).
  rewrite Apply_fill_rec by done.
  assert (apply_fill (add_fill g s) (fill_rec f) = Ok (add_fill f (add_fill g s))) as ->.
  { apply apply_fill_iff. repeat split; try done. cbn. rewrite lookup_insert_ne by done. done. }
  by rewrite add_fill_comm.
Qed.

Lemma run_app rs1 : forall s rs2,
  run s (rs1 ++ rs2) = match run s rs1 with Ok s1 => run s1 rs2 | Err e => Err e end.
Proof.
  induction rs1 as [|r rs1 IH]; simpl; [done|]. intros s rs2. by destruct (Apply s r).
Qed.

(** fills are order independent. Ledger fills that are accepted in one
    order are accepted in every order and lead to the same state. *)
Theorem fills_commute fs gs s s' :
  Permutation fs gs -> Started s = true ->
  run s (map fill_rec fs) = Ok s' -> run s (map fill_rec gs) = Ok s'.
Proof.
  intros Hp. revert s. induction Hp as [|f fs gs _ IH|f g fs|fs gs hs _ IH1 _ IH2]; intros s Hs H.
  - done.
  - cbn [map run] in *. rewrite Apply_fill_rec in * by done.
    destruct (apply_fill s (fill_rec f)) as [s1|] eqn:E; [|done].
    apply IH; [|done]. by apply apply_fill_iff in E as (_ & _ & _ & _ & _ & ->).
  - change (run s ([fill_rec f; fill_rec g] ++ map fill_rec fs) = Ok s').
    change (run s ([fill_rec g; fill_rec f] ++ map fill_rec fs) = Ok s') in H.
    rewrite run_app in *. destruct (run s [fill_rec g; fill_rec f]) as [s1|] eqn:E; [|done].
    by rewrite (run_fill_swap s g f s1).
  - by apply IH2, IH1.
Qed.

Lemma fills_commute_witness :
  exists s', run sample_state (map fill_rec [sample_fill1; sample_fill2]) = Ok s' /\
    run sample_state (map fill_rec [sample_fill2; sample_fill1]) = Ok s' /\ s_Filled s' = 5.
Proof.
  eexists. split; [vm_compute; reflexivity|]. split; [|reflexivity].
  apply (fills_commute [sample_fill1; sample_fill2]); [constructor|reflexivity|vm_compute; reflexivity].
Defined.
