(* ===== verification/Exposure.v ===== *)
(** [src/internal/exec/exposure.go]: the executor's mirror of E1's caps.

    An order lineage is a submit and the amends that chain from it by target
    key; each lineage counts at its high-water quantity and notional, and the
    sums over lineages must stay within the caps of the intent. *)

From S2P Require Import Prelude Tick Intent Machine.
Local Open Scope Z_scope.

Definition refusalQuantityCap : string := "quantity_cap_exceeded".
Definition refusalNotionalCap : string := "notional_cap_exceeded".
Definition refusalInventoryCap : string := "inventory_constraint_exceeded".

Record exposure := mkExposure { e_qty : Z; e_notional : Z }.
#[export] Instance exposure_eq_dec : EqDecision exposure. Proof. solve_decision. Defined.
Definition zero_exposure : exposure := mkExposure 0 0.

(** [rootOf]: the loop with its [seen] set; [None] is fuel exhaustion, which
    [rootOf_terminates] excludes. *)
Fixpoint root_loop (fuel : nat) (l : list Child) (seen : gset string) (key : string)
  : option string :=
  match fuel with
  | O => None
  | S fuel =>
      if decide (key ∈ seen) then Some key
      else match find_key key l with
           | None => Some key
           | Some c =>
               if c_TargetKey c =s "" then Some key
               else root_loop fuel l ({[key]} ∪ seen) (c_TargetKey c)
           end
  end.

Definition rootOf (s : State) (key : string) : string :=
  default key (root_loop (S (S (length (s_Sent s)))) (s_Sent s) ∅ key).

(** [out[r] = exposure{max(e.qty, c.Qty), max(e.notional, c.Qty*c.Price)}]. *)
Definition raise (out : gmap string exposure) (r : string) (c : Child) : gmap string exposure :=
  let e := default zero_exposure (out !! r) in
  <[r := mkExposure (Z.max (e_qty e) (c_Qty c)) (Z.max (e_notional e) (c_Qty c *w c_Price c))]> out.

Definition e1Exposure (s : State) : gmap string exposure :=
  fold_left (fun out c =>
    if is_send_action (c_Action c) then raise out (rootOf s (c_Key c)) c else out)
    (s_Sent s) ∅.

(** [e1Room]: what a child in the lineage rooted at [root] may still carry. *)
Definition e1Room (s : State) (root : string) : Z * Z :=
  let others := map_fold (fun r e acc =>
    if r <>s root
    then mkExposure (e_qty acc +w e_qty e) (e_notional acc +w e_notional e)
    else acc) zero_exposure (e1Exposure s) in
  let i := s_Intent s in
  let inv := in_Inventory i in
  let limit :=
    if in_Side i =s Buy
    then Z.min (MaxQuantity i) (MaxPositionAfter inv -w PositionAtAuthorization inv)
    else Z.min (MaxQuantity i) (PositionAtAuthorization inv -w MinPositionAfter inv) in
  (Z.max (limit -w e_qty others) 0, Z.max (MaxNotionalKRW i -w e_notional others) 0).

Definition E1CapsRefusal (s : State) (c : Child) : string :=
  let root := if c_Action c =s ActAmend then rootOf s (c_TargetKey c) else c_Key c in
  let exp := raise (e1Exposure s) root c in
  let total := map_fold (fun _ e acc =>
    mkExposure (e_qty acc +w e_qty e) (e_notional acc +w e_notional e)) zero_exposure exp in
  let i := s_Intent s in
  let inv := in_Inventory i in
  let pos :=
    if in_Side i =s Sell then PositionAtAuthorization inv -w e_qty total
    else PositionAtAuthorization inv +w e_qty total in
  if e_qty total >? MaxQuantity i then refusalQuantityCap
  else if e_notional total >? MaxNotionalKRW i then refusalNotionalCap
  else if (pos <? MinPositionAfter inv) || (pos >? MaxPositionAfter inv) then refusalInventoryCap
  else "".

(** ** Specification *)

(** The root of a key, as a relation: follow target keys to a submit. *)
Inductive lineage_root (l : list Child) : string -> string -> Prop :=
| root_unsent k : find_key k l = None -> lineage_root l k k
| root_submit k c : find_key k l = Some c -> c_TargetKey c = "" -> lineage_root l k k
| root_chain k c r : find_key k l = Some c -> c_TargetKey c <> "" ->
    lineage_root l (c_TargetKey c) r -> lineage_root l k r.

(** Children as the executor sends them: fresh keys, submits without a
    target, amends and cancels that target an earlier child. *)
Inductive lineages : list Child -> Prop :=
| lin_nil : lineages []
| lin_snoc l c : lineages l -> (c_Key c ∉ map c_Key l) ->
    (c_TargetKey c = "" \/ c_TargetKey c ∈ map c_Key l) ->
    (c_Action c = ActSubmit -> c_TargetKey c = "") ->
    (c_Action c <> ActSubmit -> c_TargetKey c <> "") ->
    lineages (l ++ [c]).

(** The submits and amends of one lineage. *)
Definition lineage_of (s : State) (r : string) : list Child :=
  filter (fun c => is_send_action (c_Action c) = true /\ rootOf s (c_Key c) = r) (s_Sent s).

Definition child_notional (c : Child) : Z := c_Qty c *w c_Price c.
Definition high_water (f : Child -> Z) (l : list Child) : Z := foldl Z.max 0 (map f l).

Definition total_qty (s : State) : Z := map_sum e_qty (e1Exposure s).
Definition total_notional (s : State) : Z := map_sum e_notional (e1Exposure s).

(** The position the intent would leave if every lineage filled whole. *)
Definition projected (s : State) : Z :=
  let inv := in_Inventory (s_Intent s) in
  if in_Side (s_Intent s) =s Sell then PositionAtAuthorization inv - total_qty s
  else PositionAtAuthorization inv + total_qty s.

(** No product of a submit or amend overflows. *)
Definition sane_child (c : Child) : Prop :=
  is_send_action (c_Action c) = true ->
  1 <= c_Qty c /\ 1 <= c_Price c /\ c_Qty c * c_Price c <= 9000000000000000000.

(** Everything sent so far is within E1's caps, in exact arithmetic. *)
Record caps_ok (s : State) : Prop := {
  co_lineages : lineages (s_Sent s);
  co_sane : Forall sane_child (s_Sent s);
  co_qty : total_qty s <= MaxQuantity (s_Intent s);
  co_notional : total_notional s <= MaxNotionalKRW (s_Intent s);
  co_position : 0 < total_qty s ->
    MinPositionAfter (in_Inventory (s_Intent s)) <= projected s
      <= MaxPositionAfter (in_Inventory (s_Intent s))
}.

(** ** The root loop terminates *)

Lemma find_key_key k l c : find_key k l = Some c -> k ∈ map c_Key l.
Proof.
  intros H. destruct (decide (k ∈ map c_Key l)) as [|Hn]; [done|].
  apply find_key_None in Hn. congruence.
Qed.

Lemma size_keys_le (l : list string) : (size (list_to_set l : gset string) <= length l)%nat.
Proof.
  induction l as [|k l IH]; cbn; [by rewrite size_empty|].
  rewrite size_union_alt, size_singleton.
  assert (size ((list_to_set l : gset string) ∖ {[k]}) <= size (list_to_set l : gset string))%nat;
    [|lia].
  apply subseteq_size. set_solver.
Qed.

Lemma root_loop_total l fuel : forall seen key,
  seen ⊆ list_to_set (map c_Key l) -> (length l < fuel + size seen - 1)%nat ->
  exists r, forall extra, root_loop (extra + fuel) l seen key = Some r.
Proof.
  induction fuel as [|fuel IH]; intros seen key Hs Hf.
  { apply subseteq_size in Hs.
    pose proof (size_keys_le (map c_Key l)). rewrite length_map in *. lia. }
  destruct (decide (key ∈ seen)) as [Hk|Hk].
  { exists key. intros extra. rewrite Nat.add_succ_r. cbn [root_loop].
    by rewrite decide_True. }
  destruct (find_key key l) as [c|] eqn:E.
  2: { exists key. intros extra. rewrite Nat.add_succ_r. cbn [root_loop].
       rewrite decide_False by done. by rewrite E. }
  destruct (c_TargetKey c =s "") eqn:Et.
  { exists key. intros extra. rewrite Nat.add_succ_r. cbn [root_loop].
    rewrite decide_False by done. by rewrite E, Et. }
  destruct (IH ({[key]} ∪ seen) (c_TargetKey c)) as [r Hr].
  - apply find_key_key in E. set_solver.
  - rewrite size_union by set_solver. rewrite size_singleton. lia.
  - exists r. intros extra. rewrite Nat.add_succ_r. cbn [root_loop].
    rewrite decide_False by done. rewrite E, Et. apply Hr.
Qed.

Lemma rootOf_loop s key extra :
  root_loop (extra + S (S (length (s_Sent s)))) (s_Sent s) ∅ key = Some (rootOf s key).
Proof.
  destruct (root_loop_total (s_Sent s) (S (S (length (s_Sent s)))) ∅ key) as [r Hr].
  - set_solver.
  - rewrite size_empty. lia.
  - unfold rootOf. pose proof (Hr 0%nat) as H0. cbn [Nat.add] in H0. rewrite H0. apply Hr.
Qed.

(** [rootOf] terminates. On every state, target cycles included, the loop
    returns within two iterations more than there are sent children, and more
    iterations do not change its answer. *)
Theorem rootOf_terminates s key :
  exists r : string, rootOf s key = r /\
    forall extra, root_loop (extra + S (S (length (s_Sent s)))) (s_Sent s) ∅ key = Some r.
Proof. exists (rootOf s key). split; [done|]. intros extra. apply rootOf_loop. Qed.

(** ** Roots under append *)

Lemma find_key_app_l k l l2 : k ∈ map c_Key l -> find_key k (l ++ l2) = find_key k l.
Proof.
  induction l as [|c l IH]; simpl; [by intros ?%elem_of_nil|].
  rewrite elem_of_cons. destruct (c_Key c =s k) eqn:E; [done|]. bool_simpl.
  intros [->|]; [done|by apply IH].
Qed.

Lemma find_key_snoc c l : (c_Key c ∉ map c_Key l) -> find_key (c_Key c) (l ++ [c]) = Some c.
Proof.
  induction l as [|d l IH]; simpl; [by rewrite string_eqb_refl|].
  rewrite not_elem_of_cons. intros [? ?]. rewrite string_eqb_ne by congruence. by apply IH.
Qed.

Lemma lineages_target l : lineages l -> forall k c, find_key k l = Some c ->
  c_TargetKey c = "" \/ c_TargetKey c ∈ map c_Key l.
Proof.
  induction 1 as [|l c H IH Hk Ht _ _]; intros k d Hd; [done|].
  rewrite map_app, elem_of_app. apply find_key_Some in Hd as Hd2. destruct Hd2 as [Hin Hdk].
  apply elem_of_app in Hin as [Hin| ->%list_elem_of_singleton]; [|tauto].
  rewrite find_key_app_l in Hd; [|subst k; apply list_elem_of_fmap; eauto].
  destruct (IH k d Hd); tauto.
Qed.

Lemma root_loop_app l l2 : lineages l -> forall fuel seen k,
  k ∈ map c_Key l -> root_loop fuel (l ++ l2) seen k = root_loop fuel l seen k.
Proof.
  intros Hl fuel. induction fuel as [|fuel IH]; intros seen k Hk; [done|]. cbn [root_loop].
  rewrite find_key_app_l by done. destruct (decide _); [done|].
  destruct (find_key k l) as [c|] eqn:E; [|done].
  destruct (c_TargetKey c =s "") eqn:Et; [done|]. bool_simpl.
  apply IH. by destruct (lineages_target l Hl k c E).
Qed.

Lemma root_loop_unsent fuel l seen k :
  (k ∉ map c_Key l) -> root_loop (S fuel) l seen k = Some k.
Proof.
  intros Hk%find_key_None. cbn [root_loop]. rewrite Hk. by destruct (decide _).
Qed.

Lemma root_loop_submit fuel l seen k c :
  find_key k l = Some c -> c_TargetKey c = "" -> root_loop (S fuel) l seen k = Some k.
Proof.
  intros Hc Ht. cbn [root_loop]. rewrite Hc, Ht. by destruct (decide _).
Qed.

Lemma lineage_root_app l l2 k r :
  lineages l -> k ∈ map c_Key l -> lineage_root l k r -> lineage_root (l ++ l2) k r.
Proof.
  intros Hl Hk H. induction H as [k H|k c Hc Ht|k c r Hc Ht H IH].
  - apply find_key_None in H. done.
  - apply root_submit with c; [|done]. by rewrite find_key_app_l.
  - apply root_chain with c; [by rewrite find_key_app_l|done|].
    apply IH. by destruct (lineages_target l Hl k c Hc).
Qed.

Lemma root_loop_lineage l : lineages l -> forall fuel seen k,
  (forall k', k' ∈ map c_Key l -> k' ∉ seen) -> (length l < fuel)%nat ->
  k ∈ map c_Key l ->
  exists r, root_loop fuel l seen k = Some r /\ lineage_root l k r.
Proof.
  induction 1 as [|l c H IH Hk Ht _ _]; intros fuel seen k Hs Hf Hin; [by apply elem_of_nil in Hin|].
  rewrite length_app in Hf. simpl in Hf.
  rewrite map_app, elem_of_app in Hin. destruct Hin as [Hin| ->%list_elem_of_singleton].
  - rewrite root_loop_app by done. destruct (IH fuel seen k) as (r & ? & ?); [|lia|done|].
    { intros k' ?. apply Hs. rewrite map_app. set_solver. }
    exists r. split; [done|]. by apply lineage_root_app.
  - destruct fuel as [|fuel]; [lia|]. cbn [root_loop].
    rewrite decide_False by (apply Hs; rewrite map_app; set_solver).
    rewrite find_key_snoc by done. destruct (c_TargetKey c =s "") eqn:E; bool_simpl.
    { exists (c_Key c). split; [done|]. apply root_submit with c; [by apply find_key_snoc|done]. }
    destruct Ht as [|Ht]; [done|].
    destruct (IH fuel ({[c_Key c]} ∪ seen) (c_TargetKey c)) as (r & Hr & ?); [|lia|done|].
    { intros k' Hk'. rewrite not_elem_of_union, not_elem_of_singleton.
      split; [by intros ->|]. apply Hs. rewrite map_app. set_solver. }
    exists r. split; [by rewrite root_loop_app|].
    apply root_chain with c; [by apply find_key_snoc|done|]. by apply lineage_root_app.
Qed.

Lemma rootOf_root s key : lineages (s_Sent s) -> lineage_root (s_Sent s) key (rootOf s key).
Proof.
  intros Hl. destruct (decide (key ∈ map c_Key (s_Sent s))) as [Hk|Hk].
  - destruct (root_loop_lineage _ Hl (S (S (length (s_Sent s)))) ∅ key) as (r & Hr & Hroot);
      [set_solver|lia|done|].
    unfold rootOf. by rewrite Hr.
  - unfold rootOf. rewrite root_loop_unsent by done. by apply root_unsent, find_key_None.
Qed.

(** [rootOf] finds the submit that started a lineage. On children as the
    executor sends them, the loop's answer is the end of the target chain; the
    cycle guard never cuts it short. *)
Theorem rootOf_correct s key :
  lineages (s_Sent s) -> lineage_root (s_Sent s) key (rootOf s key).
Proof. apply rootOf_root. Qed.

Lemma lineages_sample : lineages [sample_submit; sample_amend].
Proof.
  apply (lin_snoc [sample_submit]); [apply (lin_snoc []); [constructor|..]|..]; cbn;
    try done; try (by left); try (by intros ?%elem_of_nil).
  - by intros ?%list_elem_of_singleton.
  - right. by left.
Defined.

Lemma rootOf_correct_witness :
  rootOf sample_state (sample_id +:+ ":2") = sample_id +:+ ":1" /\
  lineage_root (s_Sent sample_state) (sample_id +:+ ":2") (sample_id +:+ ":1").
Proof.
  assert (E : rootOf sample_state (sample_id +:+ ":2") = sample_id +:+ ":1") by (vm_compute; reflexivity).
  split; [exact E|]. pose proof (rootOf_correct sample_state (sample_id +:+ ":2")) as H.
  rewrite E in H. apply H.
  assert (s_Sent sample_state = [sample_submit; sample_amend]) as -> by (vm_compute; reflexivity).
  exact lineages_sample.
Defined.

(** ** What the exposure map holds *)

Definition step_exposure (s : State) (out : gmap string exposure) (c : Child) :=
  if is_send_action (c_Action c) then raise out (rootOf s (c_Key c)) c else out.

Lemma e1Exposure_fold s : e1Exposure s = fold_left (step_exposure s) (s_Sent s) ∅.
Proof. done. Qed.

Definition high_water_exposure (l : list Child) : option exposure :=
  match l with
  | [] => None
  | _ => Some (mkExposure (high_water c_Qty l) (high_water child_notional l))
  end.

Lemma high_water_snoc f l c : high_water f (l ++ [c]) = Z.max (high_water f l) (f c).
Proof. unfold high_water. by rewrite map_app, foldl_app. Qed.

Lemma high_water_exposure_snoc l c :
  high_water_exposure (l ++ [c]) =
  Some (mkExposure (Z.max (e_qty (default zero_exposure (high_water_exposure l))) (c_Qty c))
     (Z.max (e_notional (default zero_exposure (high_water_exposure l))) (child_notional c))).
Proof.
  destruct l as [|d l]; [done|]. cbn [app high_water_exposure].
  change (d :: l ++ [c]) with ((d :: l) ++ [c]). by rewrite !high_water_snoc.
Qed.

Lemma fold_exposure s l r :
  fold_left (step_exposure s) l ∅ !! r =
  high_water_exposure
    (filter (fun c => is_send_action (c_Action c) = true /\ rootOf s (c_Key c) = r) l).
Proof.
  induction l as [|c l IH] using rev_ind; [done|].
  rewrite fold_left_app, filter_app. cbn [fold_left]. unfold step_exposure at 1.
  destruct (is_send_action (c_Action c)) eqn:E.
  - destruct (decide (rootOf s (c_Key c) = r)) as [Hr|Hr].
    + rewrite filter_cons_True, filter_nil by done. rewrite high_water_exposure_snoc.
      unfold raise. rewrite Hr, lookup_insert_eq, IH. done.
    + rewrite filter_cons_False, filter_nil, app_nil_r by tauto.
      unfold raise. by rewrite lookup_insert_ne.
  - rewrite filter_cons_False, filter_nil, app_nil_r by (rewrite E; naive_solver). done.
Qed.

(** Exposure is the high-water mark of each lineage. The map holds, for
    every root with at least one submit or amend, the largest quantity and the
    largest notional over the lineage's submits and amends, whatever their
    order and outcome, and nothing else. *)
Theorem e1Exposure_high_water s r :
  e1Exposure s !! r = high_water_exposure (lineage_of s r).
Proof. apply fold_exposure. Qed.

(** ** Sums *)

Lemma total_fold (m : gmap string exposure) :
  map_fold (fun _ e acc => mkExposure (e_qty acc +w e_qty e) (e_notional acc +w e_notional e))
    zero_exposure m =
  mkExposure (wrap64 (map_sum e_qty m)) (wrap64 (map_sum e_notional m)).
Proof.
  induction m as [|k e m Hk IH] using map_ind; [by rewrite !map_sum_empty|].
  rewrite map_fold_insert_L; [|intros; cbn; f_equal; autorewrite with wrap64; f_equal; lia|done].
  rewrite IH, !map_sum_insert by done. cbn. autorewrite with wrap64. f_equal; f_equal; lia.
Qed.

Lemma others_fold (m : gmap string exposure) root :
  map_fold (fun r e acc =>
    if r <>s root
    then mkExposure (e_qty acc +w e_qty e) (e_notional acc +w e_notional e)
    else acc) zero_exposure m =
  mkExposure (wrap64 (map_sum e_qty (delete root m))) (wrap64 (map_sum e_notional (delete root m))).
Proof.
  induction m as [|k e m Hk IH] using map_ind; [by rewrite !delete_empty, !map_sum_empty|].
  rewrite map_fold_insert_L; [| |done].
  2: { intros j1 j2 z1 z2 y ? ? ?. destruct (j1 =s root), (j2 =s root); cbn; try done.
       f_equal; autorewrite with wrap64; f_equal; lia. }
  rewrite IH. destruct (k =s root) eqn:E; bool_simpl; cbn [negb].
  - subst k. by rewrite delete_insert_eq.
  - rewrite delete_insert_ne by congruence.
    rewrite !map_sum_insert by (rewrite lookup_delete_ne; [done|congruence]).
    cbn. autorewrite with wrap64. f_equal; f_equal; lia.
Qed.

(** ** Exposure after one more child *)

Lemma lineage_root_fun l k r1 r2 : lineage_root l k r1 -> lineage_root l k r2 -> r1 = r2.
Proof.
  intros H1. revert r2.
  induction H1 as [k H|k c Hc Ht|k c r Hc Ht H IH]; intros r2 H2; inversion H2; subst; try congruence.
  apply IH. congruence.
Qed.

(** The root the caps check uses for [c]. *)
Definition child_root (s : State) (c : Child) : string :=
  if c_Action c =s ActAmend then rootOf s (c_TargetKey c) else c_Key c.

Section snoc.
Context (s s' : State) (c : Child).
Hypothesis Hs' : s_Sent s' = s_Sent s ++ [c].
Hypothesis Hl : lineages (s_Sent s).
Hypothesis Hl' : lineages (s_Sent s').

Lemma rootOf_snoc_old k : k ∈ map c_Key (s_Sent s) -> rootOf s' k = rootOf s k.
Proof using Hs' Hl Hl'.
  intros Hk. apply (lineage_root_fun (s_Sent s') k); [by apply rootOf_root|].
  rewrite Hs'. apply lineage_root_app; [done|done|]. by apply rootOf_root.
Qed.

Lemma rootOf_snoc_new : is_send_action (c_Action c) = true ->
  rootOf s' (c_Key c) = child_root s c.
Proof using Hs' Hl Hl'.
  intros Ha. pose proof Hl' as H. rewrite Hs' in H.
  inversion H as [E|l d H0 Hk Ht Hsub Hnon E]; [by destruct (s_Sent s)|].
  apply app_inj_tail in E as [-> ->].
  apply (lineage_root_fun (s_Sent s') (c_Key c)); [by apply rootOf_root|].
  rewrite Hs'. unfold child_root. pose proof (find_key_snoc c (s_Sent s) Hk) as Hf.
  unfold is_send_action in Ha. destruct (c_Action c =s ActAmend) eqn:Ea; bool_simpl.
  - destruct Ht as [Ht|Ht]; [exfalso; revert Ht; apply Hnon; rewrite Ea; discriminate|].
    apply root_chain with c; [done|apply Hnon; rewrite Ea; discriminate|].
    apply lineage_root_app; [done|done|]. by apply rootOf_root.
  - apply root_submit with c; [done|]. apply Hsub.
    rewrite orb_true_iff in Ha. destruct Ha; bool_simpl; congruence.
Qed.

Lemma e1Exposure_snoc :
  e1Exposure s' =
  if is_send_action (c_Action c) then raise (e1Exposure s) (child_root s c) c else e1Exposure s.
Proof using Hs' Hl Hl'.
  rewrite !e1Exposure_fold, Hs', fold_left_app. cbn [fold_left].
  assert (E : forall l out, (forall d, d ∈ l -> d ∈ s_Sent s) ->
    fold_left (step_exposure s') l out = fold_left (step_exposure s) l out).
  { induction l as [|d l IH]; intros out Hd; [done|]. cbn [fold_left].
    assert (step_exposure s' out d = step_exposure s out d) as ->.
    { unfold step_exposure. rewrite rootOf_snoc_old; [done|].
      apply list_elem_of_fmap. exists d. split; [done|]. apply Hd. by left. }
    apply IH. intros e He. apply Hd. by right. }
  rewrite E by done. unfold step_exposure at 1.
  destruct (is_send_action (c_Action c)) eqn:Ha; [|done]. by rewrite rootOf_snoc_new.
Qed.
End snoc.

Lemma high_water_nonneg f l : 0 <= high_water f l.
Proof.
  induction l as [|c l IH] using rev_ind; [done|]. rewrite high_water_snoc. lia.
Qed.

Lemma exposure_nonneg s r e : e1Exposure s !! r = Some e -> 0 <= e_qty e /\ 0 <= e_notional e.
Proof.
  rewrite e1Exposure_fold, fold_exposure. unfold high_water_exposure.
  destruct (filter _ _) as [|c l]; [done|]. intros [= <-]. cbn [e_qty e_notional].
  split; apply high_water_nonneg.
Qed.

Lemma total_nonneg s : 0 <= total_qty s /\ 0 <= total_notional s.
Proof. split; apply map_sum_nonneg; intros r e He; apply exposure_nonneg in He; tauto. Qed.

(** The totals once a child raises its lineage. *)
Lemma raise_totals s root c :
  let e := default zero_exposure (e1Exposure s !! root) in
  let m := raise (e1Exposure s) root c in
  map_sum e_qty m = total_qty s - e_qty e + Z.max (e_qty e) (c_Qty c) /\
  map_sum e_notional m = total_notional s - e_notional e + Z.max (e_notional e) (child_notional c) /\
  0 <= e_qty e <= total_qty s /\ 0 <= e_notional e <= total_notional s.
Proof.
  intros e m. subst m. unfold raise. fold e. rewrite !map_sum_update. cbn [e_qty e_notional].
  unfold child_notional, total_qty, total_notional. subst e.
  destruct (e1Exposure s !! root) as [e|] eqn:E; cbn [from_option default].
  - pose proof (exposure_nonneg s root e E). unfold id.
    assert (e_qty e <= map_sum e_qty (e1Exposure s)).
    { apply (map_sum_ge e_qty _ root); [|done]. intros ?? H'%exposure_nonneg. tauto. }
    assert (e_notional e <= map_sum e_notional (e1Exposure s)).
    { apply (map_sum_ge e_notional _ root); [|done]. intros ?? H'%exposure_nonneg. tauto. }
    lia.
  - pose proof (total_nonneg s). unfold total_qty, total_notional in *. cbn. lia.
Qed.

(** ** The caps check is exact, and keeps the caps *)

Lemma caps_ok_ext s s' :
  s_Intent s' = s_Intent s -> s_Sent s' = s_Sent s -> caps_ok s -> caps_ok s'.
Proof.
  intros Hi Hs [].
  assert (E : e1Exposure s' = e1Exposure s).
  { rewrite !e1Exposure_fold, Hs. unfold step_exposure, rootOf. by rewrite Hs. }
  constructor; unfold projected, total_qty, total_notional in *; rewrite ?Hi, ?Hs, ?E; done.
Qed.

Lemma caps_ok_started i : valid_facts i -> caps_ok (started_state i).
Proof.
  intros V. destruct V.
  assert (Eq : total_qty (started_state i) = 0) by apply map_sum_empty.
  assert (En : total_notional (started_state i) = 0) by apply map_sum_empty.
  constructor; rewrite ?Eq, ?En; cbn; try lia; constructor.
Qed.

(** The totals after [c], as the check computes them: no addition wraps. *)
Lemma check_totals s c :
  wf s -> caps_ok s -> is_send_action (c_Action c) = true -> c_Qty c <= 1000000 -> sane_child c ->
  let m := raise (e1Exposure s) (child_root s c) c in
  0 < map_sum e_qty m <= 2000000 /\ 0 < map_sum e_notional m <= 9000000000005000000 /\
  child_notional c = c_Qty c * c_Price c.
Proof.
  intros W [] Ha Hq Hc m. destruct (Hc Ha) as (? & ? & ?).
  pose proof (Validate_ok _ (wf_valid s W)) as V.
  pose proof (vf_qty _ V). pose proof (vf_notional _ V).
  assert (En : child_notional c = c_Qty c * c_Price c)
    by (unfold child_notional; apply wrap64_small; in64).
  destruct (raise_totals s (child_root s c) c) as (E1 & E2 & ? & ?). fold m in E1, E2.
  rewrite E1, E2, En. repeat split; nia.
Qed.

Definition refusal_spec (i : Intent) (q n : Z) : string :=
  let inv := in_Inventory i in
  let pos := if in_Side i =s Sell then PositionAtAuthorization inv - q
             else PositionAtAuthorization inv + q in
  if q >? MaxQuantity i then refusalQuantityCap
  else if n >? MaxNotionalKRW i then refusalNotionalCap
  else if (pos <? MinPositionAfter inv) || (pos >? MaxPositionAfter inv) then refusalInventoryCap
  else "".

Lemma refusal_eq s c :
  wf s -> caps_ok s -> is_send_action (c_Action c) = true -> c_Qty c <= 1000000 -> sane_child c ->
  let m := raise (e1Exposure s) (child_root s c) c in
  E1CapsRefusal s c = refusal_spec (s_Intent s) (map_sum e_qty m) (map_sum e_notional m).
Proof.
  intros W Co Ha Hq Hc m. destruct (check_totals s c W Co Ha Hq Hc) as (? & ? & _). fold m in H, H0.
  pose proof (Validate_ok _ (wf_valid s W)) as V. pose proof (vf_pos _ V).
  unfold E1CapsRefusal. fold (child_root s c). fold m. rewrite total_fold. cbn [e_qty e_notional].
  rewrite !(wrap64_small (map_sum _ m)) by in64.
  unfold refusal_spec. destruct (in_Side (s_Intent s) =s Sell); rewrite wrap64_small by in64; done.
Qed.

Lemma refusal_spec_none i q n : refusal_spec i q n = "" ->
  q <= MaxQuantity i /\ n <= MaxNotionalKRW i /\
  MinPositionAfter (in_Inventory i) <=
    (if in_Side i =s Sell then PositionAtAuthorization (in_Inventory i) - q
     else PositionAtAuthorization (in_Inventory i) + q) <= MaxPositionAfter (in_Inventory i).
Proof.
  unfold refusal_spec. rewrite !Z.gtb_ltb. repeat (split_if_goal; [done|]). intros _.
  lia.
Qed.

Lemma lineages_send s c :
  wf s -> caps_ok s -> sent_ok s c -> (c_Key c ∉ map c_Key (s_Sent s)) -> target_ok s c = true ->
  (c_Action c = ActSubmit -> c_TargetKey c = "") -> lineages (s_Sent s ++ [c]).
Proof.
  intros W [] Hok Hk Ht Hsub.
  assert (Hcase : (c_Action c = ActSubmit /\ c_TargetKey c = "") \/
    (c_Action c <> ActSubmit /\ c_TargetKey c ∈ map c_Key (s_Sent s))).
  { unfold target_ok in Ht. destruct (c_Action c =s ActSubmit) eqn:E; bool_simpl; [by left; auto|right].
    cbn [orb] in Ht. destruct (s_Order s) as [o|] eqn:Eo; [|done]. bool_simpl.
    rewrite Ht. split; [done|]. by apply (wf_order s W). }
  constructor; try done.
  - destruct Hcase as [[_ ?]|[_ ?]]; [by left|by right].
  - intros Hn. destruct Hcase as [[? _]|[_ Hin]]; [done|].
    apply list_elem_of_fmap in Hin as (d & -> & Hd).
    by pose proof (proj1 (Forall_forall _ _) (wf_sent s W) d Hd) as (_ & ? & _).
Qed.

(** The step every accepted send takes. *)
Lemma caps_ok_send s r s' c :
  wf s -> caps_ok s -> apply_send s r = Ok s' -> r_Child r = Some c -> sane_child c ->
  (c_Action c = ActSubmit -> c_TargetKey c = "") ->
  (is_send_action (c_Action c) = true -> E1CapsRefusal s c = "") ->
  caps_ok s'.
Proof.
  intros W Co H Hc Hsane Hsub Hr.
  destruct (apply_send_inv s r s' W H) as (c' & Hc' & Hok & Hk & _ & _ & Ht & _ & Es).
  assert (c' = c) as -> by congruence.
  assert (Hl' : lineages (s_Sent s ++ [c])) by (by apply lineages_send).
  assert (Hsent : s_Sent s' = s_Sent s ++ [c])
    by (rewrite Es; by destruct (is_send_action (c_Action c))).
  assert (Hint : s_Intent s' = s_Intent s)
    by (rewrite Es; by destruct (is_send_action (c_Action c))).
  assert (E : e1Exposure s' = if is_send_action (c_Action c)
    then raise (e1Exposure s) (child_root s c) c else e1Exposure s).
  { apply e1Exposure_snoc; [done|apply Co|by rewrite Hsent]. }
  destruct (is_send_action (c_Action c)) eqn:Ha.
  - assert (Hq : c_Qty c <= 1000000).
    { destruct Hok as (_ & _ & [Hx|(_ & ? & _)]); [rewrite Hx in Ha; discriminate|].
      pose proof (valid_target _ (Validate_ok _ (wf_valid s W))). rewrite (wf_target s W) in *. lia. }
    specialize (Hr eq_refl). rewrite refusal_eq in Hr by done.
    apply refusal_spec_none in Hr as (? & ? & ?).
    constructor; unfold projected, total_qty, total_notional; rewrite ?Hsent, ?Hint, ?E; try done.
    + apply Forall_app. split; [apply Co|by apply Forall_singleton].
  - destruct Co. constructor; unfold projected, total_qty, total_notional in *;
      rewrite ?Hsent, ?Hint, ?E; try done.
    + apply Forall_app. split; [done|by apply Forall_singleton].
Qed.

(** The state with one more child sent. *)
Definition with_child (s : State) (c : Child) : State := set_Sent (s_Sent s ++ [c]) s.

(** The caps check is E1's rule. For a submit or amend the executor can
    send, [E1CapsRefusal] is the first of E1's three limits that the high-water
    totals break once the child is sent, and empty when none is broken, with
    every sum exact. *)
Theorem E1CapsRefusal_exact s c :
  wf s -> caps_ok s -> is_send_action (c_Action c) = true -> c_Qty c <= 1000000 -> sane_child c ->
  lineages (s_Sent s ++ [c]) ->
  E1CapsRefusal s c =
    refusal_spec (s_Intent s) (total_qty (with_child s c)) (total_notional (with_child s c)).
Proof.
  intros W Co Ha Hq Hc Hl. rewrite refusal_eq by done. unfold total_qty, total_notional.
  rewrite (e1Exposure_snoc s (with_child s c) c); [|done|apply Co|done]. by rewrite Ha.
Qed.

Definition sample_started : State := started_state sample_buy.

Lemma E1CapsRefusal_exact_witness :
  E1CapsRefusal sample_started sample_submit = "" /\
  E1CapsRefusal sample_started (mkChild ActSubmit sample_id (sample_id +:+ ":1") "" 11 70000)
    = refusal_spec sample_buy 11 770000 /\
  refusal_spec sample_buy 11 770000 = refusalQuantityCap.
Proof.
  assert (W : wf sample_started) by (apply wf_started; vm_compute; reflexivity).
  assert (V : valid_facts sample_buy) by (apply Validate_ok; vm_compute; reflexivity).
  pose proof (caps_ok_started _ V) as Co.
  split; [vm_compute; reflexivity|]. split; [|vm_compute; reflexivity].
  rewrite (E1CapsRefusal_exact sample_started); [vm_compute; reflexivity|done|exact Co|reflexivity|..].
  - cbn. lia.
  - intros _. cbn. lia.
  - apply (lin_snoc []); try done; [constructor|by intros ?%elem_of_nil|by left].
Defined.
