(* ===== verification/Decide.v ===== *)
(** [src/internal/exec/machine.go], second half: [decide], the executor's only
    decision point, with [bookSilentSince] and [fitNewOrder]; and the [Config]
    of [executor.go] that it reads. *)

From S2P Require Import Prelude Tick Intent Machine Exposure.
Local Open Scope Z_scope.

(** [Config]; durations are nanoseconds. *)
Record Config := mkConfig {
  SendEnabled : bool;
  RequireLedgerComplete : bool;
  StepEvery : Z;
  StaleAfter : Z
}.
Definition DefaultConfig : Config := mkConfig false false 5000000000 2000000000.

(** [Top]: the touch of the latest book snapshot. *)
Record Top := mkTop { t_Bid : Z; t_Ask : Z; t_AtNS : Z; t_Synced : bool }.

(** [inputs]: everything outside [State] that a decision reads. *)
Record inputs := mkInputs { now : Z; top : option Top; cfg : Config; killed : bool }.

(** [decision]: nothing, a reconcile query, or a record. *)
Inductive decision := DNone | DQuery | DRec (r : Rec).

Definition second : Z := 1000000000.

Definition bookSilentSince (s : State) (i : inputs) : Z :=
  match top i with
  | Some t =>
      if t_Synced t && (t_AtNS t >? 0) && (t_AtNS t <=? now i) then t_AtNS t else s_LastMoveNS s
  | None => s_LastMoveNS s
  end.

(** [fitNewOrder]; [None] is a division by zero. *)
Definition fitNewOrder (s : State) (rem p : Z) : option (Z * Z) :=
  let '(qRoom, nRoom) := e1Room s "" in
  let q := Z.min rem qRoom in
  if q <? 1 then Some (0, p)
  else if in_Side (s_Intent s) =s Buy then
    d ← quot64 nRoom p; Some (Z.min q d, p)
  else
    q ← (if q *w s_Cap s >? nRoom then quot64 nRoom (s_Cap s) else Some q);
    if q <? 1 then Some (0, p)
    else d ← quot64 nRoom q; Some (q, Z.min p (FloorTick d)).

(** The key of the next child: [fmt.Sprintf("%s:%d", IntentID, len(Sent)+1)]. *)
Definition child_key (id : string) (n : nat) : string := id +:+ ":" +:+ pretty n.

(** The [send] closure: it fills in the identity of the child and, for all but
    a submit, the target, which dereferences the working order. *)
Definition send_decision (s : State) (i : inputs) (action : string) (qty price : Z) (reason : string)
  : option decision :=
  target ← (if action =s ActSubmit then Some "" else o_Key <$> s_Order s);
  Some (DRec (send_rec (now i)
    (mkChild action (IntentID (s_Intent s)) (child_key (IntentID (s_Intent s)) (length (s_Sent s) + 1))
       target qty price) reason)).

Definition finish_decision (i : inputs) (reason : string) : decision :=
  DRec (finish_rec (now i) reason).

(** The [switch] that overrides [s.Halt]. *)
Definition closing_reason (s : State) (i : inputs) : string :=
  if s_Filled s >=? s_Target s then DoneFilled
  else if killed i then DoneKilled
  else if now i >=? UnixNano (ExpiresAt (s_Intent s)) then DoneDeadline
  else if is_some (s_Order s) && (bookSilentSince s i <? now i -w 30 * second) then DoneStaleBook
  else s_Halt s.

(** A book no new send may be priced from. *)
Definition stale_top (i : inputs) (t : Top) : bool :=
  negb (t_Synced t) || (t_AtNS t >? now i) || (now i -w t_AtNS t >? StaleAfter (cfg i))
  || (t_Bid t <? 1) || (t_Ask t <? 1).

(** The quantity and worst price of an amend of working order [o]. *)
Definition amend_bounds (s : State) (o : Order) : option (Z * Z) :=
  let rem := Remaining s in
  let q := if o_Qty o >? 0 then Z.min rem (o_Qty o) else rem in
  let '(qRoom, nRoom) := e1Room s (rootOf s (o_Key o)) in
  let q := Z.min q qRoom in
  if (in_Side (s_Intent s) =s Buy) && (q >? 0) then
    d ← quot64 nRoom q; Some (q, Z.min (s_Cap s) (FloorTick d))
  else Some (q, s_Cap s).

Definition decide_order (s : State) (i : inputs) (o : Order) : option decision :=
  if now i -w s_LastMoveNS s <? StepEvery (cfg i) then Some DNone
  else
    '(q, cp) ← amend_bounds s o;
    if (q <? 1) || negb (worse (s_Intent s) cp (o_Price o)) then
      send_decision s i ActCancel 0 0 DoneCap
    else
      let step := mkChild ActAmend "" "" (o_Key o) q
                    (stepToward (in_Side (s_Intent s)) (o_Price o) cp) in
      if E1CapsRefusal s step <>s "" then send_decision s i ActCancel 0 0 DoneE1Caps
      else match top i with
           | None => Some DNone
           | Some t =>
               if stale_top i t then Some DNone
               else send_decision s i ActAmend (c_Qty step) (c_Price step) "step"
           end.

Definition decide_open (s : State) (i : inputs) : option decision :=
  match top i with
  | None => Some DNone
  | Some t =>
      if stale_top i t then Some DNone
      else
        let p := if in_Side (s_Intent s) =s Sell then t_Ask t else t_Bid t in
        let p := if worse (s_Intent s) p (s_Cap s) then s_Cap s else p in
        '(q, p) ← fitNewOrder s (Remaining s) p;
        if q <? 1 then Some (finish_decision i DoneE1Caps)
        else send_decision s i ActSubmit q p "open"
  end.

(** [decide]; [None] is a run-time panic, which [Decide_total] excludes. *)
Definition Decide (s : State) (i : inputs) : option decision :=
  if negb (Started s) || (s_Done s <>s "") then Some DNone
  else if is_some (s_InFlight s) then Some DQuery
  else if (s_Filled s >=? s_Target s) && is_none (s_Order s) then Some (finish_decision i DoneFilled)
  else if negb (SendEnabled (cfg i)) then Some DNone
  else
    let closing := closing_reason s i in
    if closing <>s "" then
      match s_Order s with
      | Some _ => send_decision s i ActCancel 0 0 closing
      | None => Some (finish_decision i closing)
      end
    else if Remaining s <? 1 then Some DNone
    else match s_Order s with
         | Some o => decide_order s i o
         | None => decide_open s i
         end.

(** ** Specification *)

(** A state the executor itself can be in: well formed, within E1's caps, its
    children keyed by their position, and its working order priced sanely. *)
Definition keyed (s : State) : Prop :=
  forall n c, s_Sent s !! n = Some c -> c_Key c = child_key (IntentID (s_Intent s)) (n + 1).

(** No KRX price comes near this bound; it keeps products within 64 bits. *)
Definition max_price : Z := 9000000000000.
Definition order_sane (o : Order) : Prop := 1 <= o_Price o <= max_price.

Record exec_ok (s : State) : Prop := {
  eo_wf : wf s;
  eo_caps : caps_ok s;
  eo_keyed : keyed s;
  eo_order : forall o, s_Order s = Some o -> order_sane o;
  eo_prices : Forall (fun c => is_send_action (c_Action c) = true -> 1 <= c_Price c <= max_price) (s_Sent s)
}.

(** The current position is inside the range on the side the intent moves away
    from; [Validate] checks only the other side. *)
Definition range_ok (i : Intent) : Prop :=
  let inv := in_Inventory i in
  (in_Side i = Buy -> MinPositionAfter inv <= PositionAtAuthorization inv) /\
  (in_Side i = Sell -> PositionAtAuthorization inv <= MaxPositionAfter inv).

(** What a child carries that may leave the executor. *)
Definition sends (r : Rec) (c : Child) : Prop := r_Kind r = RecSend /\ r_Child r = Some c.

Definition fresh_book (i : inputs) : Prop :=
  exists t, top i = Some t /\ t_Synced t = true /\ t_AtNS t <= now i /\
    now i -w t_AtNS t <= StaleAfter (cfg i) /\ 1 <= t_Bid t /\ 1 <= t_Ask t.

(** ** Room *)

(** The largest total quantity the caps and the far side of the range allow. *)
Definition side_limit (i : Intent) : Z :=
  let inv := in_Inventory i in
  if in_Side i =s Buy then Z.min (MaxQuantity i) (MaxPositionAfter inv - PositionAtAuthorization inv)
  else Z.min (MaxQuantity i) (PositionAtAuthorization inv - MinPositionAfter inv).

Definition other_qty (s : State) (root : string) : Z := map_sum e_qty (delete root (e1Exposure s)).
Definition other_notional (s : State) (root : string) : Z :=
  map_sum e_notional (delete root (e1Exposure s)).

Lemma other_bounds s root : caps_ok s ->
  0 <= other_qty s root <= total_qty s /\ 0 <= other_notional s root <= total_notional s.
Proof.
  intros _. unfold other_qty, other_notional, total_qty, total_notional.
  assert (Hn : forall r e, delete root (e1Exposure s) !! r = Some e -> 0 <= e_qty e /\ 0 <= e_notional e).
  { intros r e [_ He]%lookup_delete_Some. by apply exposure_nonneg in He. }
  assert (0 <= map_sum e_qty (delete root (e1Exposure s)))
    by (apply map_sum_nonneg; intros ?? H%Hn; tauto).
  assert (0 <= map_sum e_notional (delete root (e1Exposure s)))
    by (apply map_sum_nonneg; intros ?? H1%Hn; tauto).
  destruct (e1Exposure s !! root) as [e|] eqn:E.
  - pose proof (exposure_nonneg s root e E).
    rewrite (map_sum_delete e_qty _ root e E), (map_sum_delete e_notional _ root e E). lia.
  - by rewrite (delete_id _ _ E) in *.
Qed.

Lemma e1Room_eq s root : wf s -> caps_ok s ->
  e1Room s root = (Z.max (side_limit (s_Intent s) - other_qty s root) 0,
                   Z.max (MaxNotionalKRW (s_Intent s) - other_notional s root) 0).
Proof.
  intros W Co. destruct (other_bounds s root Co) as [? ?].
  pose proof (Validate_ok _ (wf_valid s W)) as V. destruct V. destruct Co.
  unfold e1Room. rewrite others_fold. cbn [e_qty e_notional].
  fold (other_qty s root) (other_notional s root).
  rewrite (wrap64_small (other_qty s root)), (wrap64_small (other_notional s root)) by in64.
  unfold side_limit. destruct (in_Side (s_Intent s) =s Buy);
    rewrite (wrap64_small (_ - _ (in_Inventory _))) by in64; rewrite !wrap64_small by in64; done.
Qed.

(** Roots are keys of sent children, so a key not sent has no exposure. *)
Lemma lineage_root_in l k r :
  lineages l -> k ∈ map c_Key l -> lineage_root l k r -> r ∈ map c_Key l.
Proof.
  intros Hl Hk H. induction H as [k H|k c Hc Ht|k c r Hc Ht H IH]; try done.
  apply IH. by destruct (lineages_target l Hl k c Hc).
Qed.

Lemma exposure_fresh s k : lineages (s_Sent s) -> (k ∉ map c_Key (s_Sent s)) -> e1Exposure s !! k = None.
Proof.
  intros Hl Hk. rewrite e1Exposure_fold, fold_exposure.
  destruct (filter _ _) as [|c l] eqn:E; [done|exfalso].
  assert (Hc : c ∈ c :: l) by left. rewrite <- E in Hc.
  apply list_elem_of_filter in Hc as [[_ Hr] Hin]. apply Hk. rewrite <- Hr.
  assert (c_Key c ∈ map c_Key (s_Sent s)) by (apply list_elem_of_fmap; eauto).
  apply (lineage_root_in _ (c_Key c)); [done|done|]. by apply rootOf_root.
Qed.

Lemma empty_not_sent s : wf s -> "" ∉ map c_Key (s_Sent s).
Proof.
  intros W (c & Hc & Hin)%list_elem_of_fmap.
  by pose proof (proj1 (Forall_forall _ _) (wf_sent s W) c Hin) as (_ & ? & _).
Qed.

Lemma e1Room_new s : wf s -> caps_ok s ->
  e1Room s "" = (Z.max (side_limit (s_Intent s) - total_qty s) 0,
                 Z.max (MaxNotionalKRW (s_Intent s) - total_notional s) 0).
Proof.
  intros W Co. rewrite e1Room_eq by done. unfold other_qty, other_notional.
  rewrite delete_id by (apply exposure_fresh; [apply Co|by apply empty_not_sent]). done.
Qed.

Lemma child_key_inj id m n : child_key id m = child_key id n -> m = n.
Proof.
  unfold child_key. intros H. apply (inj (String.append id)) in H.
  apply (inj (String.append ":")) in H. by apply (inj pretty) in H.
Qed.

Lemma child_key_fresh s : keyed s ->
  child_key (IntentID (s_Intent s)) (length (s_Sent s) + 1) ∉ map c_Key (s_Sent s).
Proof.
  intros Hk (c & Hc & Hin)%list_elem_of_fmap.
  apply list_elem_of_lookup in Hin as [n Hn]. rewrite (Hk n c Hn) in Hc.
  apply child_key_inj in Hc. apply lookup_lt_Some in Hn. lia.
Qed.

Lemma child_key_nonempty id n : child_key id n <> "".
Proof. unfold child_key. by destruct id. Qed.

(** ** Sizing *)

Lemma worse_false i a b :
  valid_facts i -> worse i a b = false <->
  ((in_Side i = Buy -> a <= b) /\ (in_Side i = Sell -> b <= a)).
Proof.
  intros V. unfold worse. destruct (vf_side i V) as [-> | ->].
  - cbn. rewrite Z.gtb_ltb, Z.ltb_ge. split; [intros; split; [done|discriminate]|naive_solver].
  - cbn. rewrite Z.ltb_ge. split; [intros; split; [discriminate|done]|naive_solver].
Qed.

(** What [fitNewOrder] returns: nothing, or a quantity and price that keep
    every total within the caps. *)
Definition fits (s : State) (rem q p : Z) : Prop :=
  1 <= q <= rem /\ 1 <= p <= max_price /\ worse (s_Intent s) p (s_Cap s) = false /\
  total_qty s + q <= side_limit (s_Intent s) /\
  total_notional s + q * p <= MaxNotionalKRW (s_Intent s).

Lemma div_le_mul a b q : 0 < b -> q <= a / b -> q * b <= a.
Proof. intros. pose proof (Z.mul_div_le a b). nia. Qed.

Lemma quot64_bounds a b : 0 <= a <= 9000000000000000000 -> 0 < b ->
  quot64 a b = Some (a / b) /\ 0 <= a / b <= a.
Proof.
  intros. split; [apply quot64_pos; in64|].
  split; [apply Z.div_pos; lia|apply Z.div_le_upper_bound; nia].
Qed.

(** The price a sell of [q] may ask within the notional room: at least the cap,
    and a multiple that fits. *)
Lemma sell_room_price s nR q :
  wf s -> 1 <= q -> 0 <= nR <= 5000000 -> 1 <= s_Cap s -> q * s_Cap s <= nR ->
  s_Cap s <= FloorTick (nR / q) <= 5000000 /\ FloorTick (nR / q) * q <= nR.
Proof.
  intros W Hq HnR HC Hn. pose proof (Validate_ok _ (wf_valid s W)) as V.
  destruct (quot64_bounds nR q ltac:(lia) ltac:(lia)) as [_ ?].
  assert (Hc : s_Cap s <= nR / q) by (apply Z.div_le_lower_bound; lia).
  assert (in_int64 (nR / q)) by in64.
  pose proof (FloorTick_bounds (nR / q) ltac:(lia) ltac:(done)).
  assert (s_Cap s <= FloorTick (nR / q)).
  { apply FloorTick_greatest; [lia|done| |done]. rewrite (wf_cap s W). by apply Cap_on_grid. }
  pose proof (div_le_mul nR q (FloorTick (nR / q)) ltac:(lia) ltac:(lia)). lia.
Qed.

Lemma fitNewOrder_fits s rem p :
  wf s -> caps_ok s -> rem <= 1000000 -> 1 <= p -> in_int64 p ->
  worse (s_Intent s) p (s_Cap s) = false ->
  exists q p', fitNewOrder s rem p = Some (q, p') /\
    (q < 1 \/ fits s rem q p') /\ (in_Side (s_Intent s) = Buy -> p' = p).
Proof.
  intros W Co Hrem Hp Hi Hw.
  pose proof (Validate_ok _ (wf_valid s W)) as V. pose proof (Cap_bounds _ V) as HC.
  rewrite <- (wf_cap s W) in HC. pose proof (proj1 (worse_false _ _ _ V) Hw) as [Hwb Hws].
  pose proof (total_nonneg s) as [_ Htn].
  unfold fitNewOrder. rewrite e1Room_new by done.
  set (qR := side_limit (s_Intent s) - total_qty s).
  set (nR := MaxNotionalKRW (s_Intent s) - total_notional s).
  assert (HnR : 0 <= nR <= 5000000).
  { pose proof (vf_notional _ V). pose proof (co_notional s Co). lia. }
  rewrite (Z.max_l nR) by lia.
  destruct (Z.ltb_spec (Z.min rem (Z.max qR 0)) 1).
  { exists 0, p. split; [done|]. split; [left; lia|done]. }
  assert (Hq : Z.min rem (Z.max qR 0) = Z.min rem qR) by lia. rewrite Hq in *. clear Hq.
  set (q := Z.min rem qR) in *. unfold fits.
  destruct (vf_side _ V) as [Hs|Hs]; rewrite Hs in *.
  - specialize (Hwb eq_refl). cbn [String.eqb Ascii.eqb Bool.eqb].
    replace (Buy =s Buy) with true by done.
    destruct (quot64_bounds nR p ltac:(lia) ltac:(lia)) as [-> ?]. cbn [mbind option_bind].
    exists (Z.min q (nR / p)), p. split; [done|]. split; [|done].
    destruct (Z.lt_ge_cases (Z.min q (nR / p)) 1); [by left|right].
    pose proof (div_le_mul nR p (Z.min q (nR / p)) ltac:(lia) ltac:(lia)).
    unfold max_price. repeat split; try lia. done.
  - specialize (Hws eq_refl). replace (Sell =s Buy) with false by done.
    rewrite wrap64_small by in64. rewrite Z.gtb_ltb.
    destruct (quot64_bounds nR (s_Cap s) ltac:(lia) ltac:(lia)) as [Ed ?].
    assert (exists q', (if nR <? q * s_Cap s then quot64 nR (s_Cap s) else Some q) = Some q' /\
              q' <= q /\ q' * s_Cap s <= nR) as (q' & -> & Hq' & Hn').
    { destruct (Z.ltb_spec nR (q * s_Cap s)); [|exists q; repeat split; try done; lia].
      exists (nR / s_Cap s). split; [done|].
      assert (nR / s_Cap s < q) by (apply Z.div_lt_upper_bound; lia).
      split; [lia|]. apply div_le_mul; lia. }
    cbn [mbind option_bind]. destruct (Z.ltb_spec q' 1).
    { exists 0, p. split; [done|]. split; [left; lia|done]. }
    destruct (quot64_bounds nR q' ltac:(lia) ltac:(lia)) as [-> ?]. cbn [mbind option_bind].
    exists q', (Z.min p (FloorTick (nR / q'))). split; [done|]. split; [|done]. right.
    destruct (sell_room_price s nR q' W ltac:(lia) HnR ltac:(lia) Hn') as [Hf1 Hf2].
    unfold max_price. split; [lia|]. split; [lia|]. split.
    { apply worse_false; [done|]. rewrite Hs. split; [discriminate|lia]. }
    split; [lia|]. nia.
Qed.

(** ** What a decision is, branch by branch *)

(** The conditions under which quantity may leave the executor. *)
Record opened (s : State) (i : inputs) : Prop := {
  op_done : s_Done s = "";
  op_inflight : s_InFlight s = None;
  op_enabled : SendEnabled (cfg i) = true;
  op_halt : s_Halt s = "";
  op_killed : killed i = false;
  op_deadline : now i < UnixNano (ExpiresAt (s_Intent s));
  op_filled : s_Filled s < s_Target s;
  op_fresh : fresh_book i
}.

Definition next_child (s : State) (action target : string) (q p : Z) : Child :=
  mkChild action (IntentID (s_Intent s)) (child_key (IntentID (s_Intent s)) (length (s_Sent s) + 1))
    target q p.

Inductive decision_ok (s : State) (i : inputs) : decision -> Prop :=
| ok_none : decision_ok s i DNone
| ok_query : is_some (s_InFlight s) = true -> decision_ok s i DQuery
| ok_finish reason : s_Done s = "" -> s_InFlight s = None -> s_Order s = None -> reason <> "" ->
    decision_ok s i (DRec (finish_rec (now i) reason))
| ok_cancel o reason : s_Done s = "" -> s_InFlight s = None -> SendEnabled (cfg i) = true ->
    s_Order s = Some o ->
    decision_ok s i (DRec (send_rec (now i) (next_child s ActCancel (o_Key o) 0 0) reason))
| ok_amend o q p : opened s i -> s_Order s = Some o -> 1 <= q <= Remaining s ->
    (0 < o_Qty o -> q <= o_Qty o) -> 1 <= p <= max_price ->
    worse (s_Intent s) p (s_Cap s) = false -> worse (s_Intent s) p (o_Price o) = true ->
    StepEvery (cfg i) <= now i -w s_LastMoveNS s ->
    E1CapsRefusal s (next_child s ActAmend (o_Key o) q p) = "" ->
    decision_ok s i (DRec (send_rec (now i) (next_child s ActAmend (o_Key o) q p) "step"))
| ok_open q p : opened s i -> s_Order s = None -> fits s (Remaining s) q p ->
    decision_ok s i (DRec (send_rec (now i) (next_child s ActSubmit "" q p) "open")).

Definition int64_inputs (i : inputs) : Prop :=
  in_int64 (now i) /\ in_int64 (StepEvery (cfg i)) /\ in_int64 (StaleAfter (cfg i)) /\
  forall t, top i = Some t -> in_int64 (t_Bid t) /\ in_int64 (t_Ask t) /\ in_int64 (t_AtNS t).

Lemma stale_top_false i t : top i = Some t -> stale_top i t = false -> fresh_book i.
Proof.
  unfold stale_top. intros Ht H. rewrite !Z.gtb_ltb in H. bool_simpl. exists t. done.
Qed.

Lemma Remaining_bound s : wf s -> Remaining s <= 1000000.
Proof.
  intros W. pose proof (Remaining_le s W). rewrite (wf_target s W) in *.
  pose proof (valid_target _ (Validate_ok _ (wf_valid s W))). lia.
Qed.

Lemma amend_bounds_ok s o :
  wf s -> caps_ok s ->
  exists q cp, amend_bounds s o = Some (q, cp) /\ q <= Remaining s /\
    (0 < o_Qty o -> q <= o_Qty o) /\
    (in_Side (s_Intent s) = Buy -> cp <= s_Cap s) /\
    (in_Side (s_Intent s) = Sell -> cp = s_Cap s).
Proof.
  intros W Co. unfold amend_bounds. rewrite e1Room_eq by done.
  pose proof (Validate_ok _ (wf_valid s W)) as V.
  destruct (other_bounds s (rootOf s (o_Key o)) Co) as [_ ?].
  pose proof (co_notional s Co). pose proof (vf_notional _ V).
  set (q0 := if o_Qty o >? 0 then Z.min (Remaining s) (o_Qty o) else Remaining s).
  assert (Hq0 : q0 <= Remaining s /\ (0 < o_Qty o -> q0 <= o_Qty o)).
  { subst q0. rewrite Z.gtb_ltb. destruct (Z.ltb_spec 0 (o_Qty o)); lia. }
  clearbody q0. set (q := Z.min q0 _). assert (q <= q0) by lia. clearbody q.
  destruct (vf_side _ V) as [Hs|Hs]; rewrite Hs.
  - replace (Buy =s Buy) with true by done. rewrite Z.gtb_ltb. cbn [andb].
    destruct (Z.ltb_spec 0 q).
    + destruct (quot64_bounds (Z.max (MaxNotionalKRW (s_Intent s)
        - other_notional s (rootOf s (o_Key o))) 0) q) as [-> _]; [lia|lia|].
      cbn [mbind option_bind]. eexists _, _. split; [done|]. repeat split; try lia.
      intros E. discriminate E.
    + eexists _, _. split; [done|]. repeat split; try lia.
  - replace (Sell =s Buy) with false by done. cbn [andb].
    eexists _, _. split; [done|]. repeat split; lia.
Qed.

Lemma step_ok s p cp :
  wf s -> 1 <= p <= max_price -> (in_Side (s_Intent s) = Buy -> cp <= s_Cap s) ->
  (in_Side (s_Intent s) = Sell -> cp = s_Cap s) -> worse (s_Intent s) cp p = true ->
  let n := stepToward (in_Side (s_Intent s)) p cp in
  1 <= n <= max_price /\ worse (s_Intent s) n (s_Cap s) = false /\ worse (s_Intent s) n p = true.
Proof.
  intros W Hp Hb Hsl Hw n. subst n. unfold max_price in *.
  pose proof (Validate_ok _ (wf_valid s W)) as V. pose proof (Cap_bounds _ V).
  rewrite <- (wf_cap s W) in *. rewrite (worse_false _ _ _ V). unfold worse, stepToward in *.
  destruct (vf_side _ V) as [Hs|Hs]; rewrite Hs in *.
  - replace (Buy =s Buy) with true in * by done. rewrite Z.gtb_ltb in *. bool_simpl.
    specialize (Hb eq_refl). pose proof (TickAt_range p).
    rewrite wrap64_small by in64. split; [lia|]. split; [split; [lia|discriminate]|].
    apply Z.ltb_lt. lia.
  - replace (Sell =s Buy) with false in * by done. bool_simpl. specialize (Hsl eq_refl).
    rewrite (wrap64_small (p - 1)) by in64. pose proof (TickAt_range (p - 1)).
    rewrite wrap64_small by in64. split; [lia|]. split; [split; [discriminate|lia]|].
    apply Z.ltb_lt. lia.
Qed.

Lemma send_decision_order s i o action q p reason :
  s_Order s = Some o -> action <> ActSubmit ->
  send_decision s i action q p reason =
  Some (DRec (send_rec (now i) (next_child s action (o_Key o) q p) reason)).
Proof.
  intros Ho Ha. unfold send_decision. by rewrite (string_eqb_ne _ _ Ha), Ho.
Qed.

Lemma decide_order_ok s i o :
  exec_ok s -> s_Order s = Some o -> (fresh_book i -> opened s i) ->
  s_Done s = "" -> s_InFlight s = None -> SendEnabled (cfg i) = true ->
  exists d, decide_order s i o = Some d /\ decision_ok s i d.
Proof.
  intros [W Co _ Ho _] Eo Hop Hd Hf He. unfold decide_order.
  destruct (Z.ltb_spec (now i -w s_LastMoveNS s) (StepEvery (cfg i)));
    [exists DNone; split; [done|constructor]|].
  destruct (amend_bounds_ok s o W Co) as (q & cp & -> & Hq & Hq2 & Hb & Hsl).
  cbn [mbind option_bind].
  assert (Hcancel : forall reason, exists d, send_decision s i ActCancel 0 0 reason = Some d
            /\ decision_ok s i d).
  { intros reason. rewrite (send_decision_order s i o) by done.
    eexists. split; [done|]. by apply ok_cancel. }
  destruct (_ || _) eqn:E1; [apply Hcancel|]. bool_simpl.
  destruct (step_ok s (o_Price o) cp W (Ho o Eo) Hb Hsl H1) as (? & ? & ?).
  destruct (E1CapsRefusal _ _ <>s "") eqn:E2; [apply Hcancel|]. bool_simpl.
  destruct (top i) as [t|] eqn:Et; [|exists DNone; split; [done|constructor]].
  destruct (stale_top i t) eqn:Es; [exists DNone; split; [done|constructor]|].
  rewrite (send_decision_order s i o) by done. eexists. split; [done|].
  apply ok_amend; try done. by apply Hop, (stale_top_false i t).
Qed.

Lemma decide_open_ok s i :
  exec_ok s -> s_Order s = None -> (fresh_book i -> opened s i) -> int64_inputs i ->
  s_Done s = "" -> s_InFlight s = None ->
  exists d, decide_open s i = Some d /\ decision_ok s i d.
Proof.
  intros [W Co _ _ _] Eo Hop (_ & _ & _ & Hi) Hd Hf. unfold decide_open.
  destruct (top i) as [t|] eqn:Et; [|exists DNone; split; [done|constructor]].
  destruct (stale_top i t) eqn:Es; [exists DNone; split; [done|constructor]|].
  pose proof (stale_top_false i t Et Es) as Hfresh.
  specialize (Hi t eq_refl) as (? & ? & _).
  pose proof (Validate_ok _ (wf_valid s W)) as V. pose proof (Cap_bounds _ V) as HC.
  rewrite <- (wf_cap s W) in HC.
  set (p0 := if in_Side (s_Intent s) =s Sell then t_Ask t else t_Bid t).
  set (p := if worse (s_Intent s) p0 (s_Cap s) then s_Cap s else p0).
  assert (Hp : 1 <= p /\ in_int64 p /\ worse (s_Intent s) p (s_Cap s) = false).
  { destruct Hfresh as (t' & Ht' & _ & _ & _ & ? & ?).
    assert (t' = t) as -> by congruence. subst p p0.
    destruct (worse _ _ _) eqn:Ew.
    - split; [lia|]. split; [in64|]. apply worse_false; [done|]. lia.
    - split; [|split; [|done]]; by destruct (_ =s _). }
  destruct (fitNewOrder_fits s (Remaining s) p W Co (Remaining_bound s W))
    as (q & p' & -> & Hfit & _); [lia|tauto|tauto|]. cbn [mbind option_bind].
  destruct (Z.ltb_spec q 1).
  - eexists. split; [done|]. by apply ok_finish.
  - destruct Hfit as [|Hfit]; [lia|]. unfold send_decision. cbn.
    eexists. split; [done|]. apply ok_open; [by apply Hop|done|done].
Qed.

Lemma closing_none s i : closing_reason s i = "" ->
  s_Filled s < s_Target s /\ killed i = false /\ now i < UnixNano (ExpiresAt (s_Intent s)) /\
  s_Halt s = "".
Proof.
  unfold closing_reason. rewrite !Z.geb_leb. repeat (split_if_goal; [done|]). done.
Qed.

Lemma Decide_ok s i :
  exec_ok s -> int64_inputs i -> exists d, Decide s i = Some d /\ decision_ok s i d.
Proof.
  intros Hok Hi. unfold Decide.
  destruct (_ || _) eqn:E1; bool_simpl; [exists DNone; split; [done|constructor]|].
  destruct (is_some (s_InFlight s)) eqn:Ef.
  { exists DQuery. split; [done|]. by apply ok_query. }
  apply is_some_false in Ef.
  destruct (_ && _) eqn:E2; bool_simpl.
  { eexists. split; [done|]. apply is_none_true in H2. by apply ok_finish. }
  destruct (SendEnabled (cfg i)) eqn:Ee; cbn [negb];
    [|exists DNone; split; [done|constructor]].
  destruct (closing_reason s i <>s "") eqn:Ec; bool_simpl.
  { destruct (s_Order s) as [o|] eqn:Eo.
    - rewrite (send_decision_order s i o) by done. eexists. split; [done|]. by apply ok_cancel.
    - eexists. split; [done|]. by apply ok_finish. }
  destruct (Remaining s <? 1); [exists DNone; split; [done|constructor]|].
  apply closing_none in Ec as (? & ? & ? & ?).
  assert (Hop : fresh_book i -> opened s i) by (intros; by constructor).
  destruct (s_Order s) as [o|] eqn:Eo; [by apply decide_order_ok|by apply decide_open_ok].
Qed.

(** A submit that fits leaves nothing for the caps check to refuse, as long as
    the position starts inside the range on its other side. *)
Lemma fits_not_refused s c :
  wf s -> caps_ok s -> range_ok (s_Intent s) -> c_Action c = ActSubmit ->
  (c_Key c ∉ map c_Key (s_Sent s)) -> fits s (Remaining s) (c_Qty c) (c_Price c) ->
  E1CapsRefusal s c = "".
Proof.
  intros W Co [Hrb Hrs] Ha Hk (Hq & Hp & _ & Hl & Hn).
  pose proof (Validate_ok _ (wf_valid s W)) as V.
  assert (Ha' : is_send_action (c_Action c) = true) by (by rewrite Ha).
  pose proof (Remaining_bound s W). pose proof (total_nonneg s). pose proof (vf_notional _ V).
  assert (Hs : sane_child c) by (intros _; unfold max_price in *; nia).
  rewrite refusal_eq by (done || lia).
  assert (Er : child_root s c = c_Key c) by (unfold child_root; by rewrite Ha).
  destruct (raise_totals s (child_root s c) c) as (E1 & E2 & _). rewrite E1, E2, Er.
  assert (En : child_notional c = c_Qty c * c_Price c) by (unfold child_notional; apply wrap64_small; in64).
  rewrite exposure_fresh by (apply Co || done). cbn [default e_qty e_notional zero_exposure].
  rewrite En. unfold refusal_spec, side_limit in *. destruct V.
  destruct vf_side as [Es|Es]; rewrite Es in *.
  - specialize (Hrb eq_refl). replace (Buy =s Buy) with true in * by done.
    replace (Buy =s Sell) with false by done.
    rewrite !Z.gtb_ltb. repeat (split_if_goal; [bool_simpl; try nia|]); try done.
  - specialize (Hrs eq_refl). replace (Sell =s Buy) with false in * by done.
    replace (Sell =s Sell) with true by done.
    rewrite !Z.gtb_ltb. repeat (split_if_goal; [bool_simpl; try nia|]); try done.
Qed.

(** ** The claims *)

(** [decide] does not panic. In every state the executor can be in, on
    every input, the decision is defined: no division by zero and no nil
    working order is reached. *)
Theorem Decide_total s i : exec_ok s -> int64_inputs i -> exists d, Decide s i = Some d.
Proof. intros Hs Hi. destruct (Decide_ok s i Hs Hi) as (d & ? & _). by exists d. Qed.

Lemma decision_of s i d :
  exec_ok s -> int64_inputs i -> Decide s i = Some d -> decision_ok s i d.
Proof. intros Hs Hi H. destruct (Decide_ok s i Hs Hi) as (d' & ? & ?). by simplify_eq. Qed.

(** Quantity leaves the executor only under its gates. When [decide]
    proposes a submit or an amend, sending is enabled, nothing is unresolved,
    the intent is neither done, halted, killed, expired nor filled, and the
    book is fresh; the child stays within the remaining quantity and the cap
    price; an amend does not grow the order, moves its price strictly toward
    the cap, and comes only after the order rested a full step. *)
Theorem decide_send_gates s i r c :
  exec_ok s -> int64_inputs i -> Decide s i = Some (DRec r) -> sends r c ->
  c_Action c <> ActCancel ->
  opened s i /\ 1 <= c_Qty c <= Remaining s /\ 1 <= c_Price c /\
  worse (s_Intent s) (c_Price c) (s_Cap s) = false /\
  (c_Action c = ActAmend -> exists o, s_Order s = Some o /\ c_TargetKey c = o_Key o /\
     (0 < o_Qty o -> c_Qty c <= o_Qty o) /\ worse (s_Intent s) (c_Price c) (o_Price o) = true /\
     StepEvery (cfg i) <= now i -w s_LastMoveNS s) /\
  (c_Action c = ActSubmit -> s_Order s = None).
Proof.
  intros Hs Hi H [Hk Hc] Ha. apply decision_of in H; [|done|done].
  inversion H as [| |reason ? ? ? ? E|o reason ? ? ? ? E|o q p Hop Ho Hq Hq2 Hp Hw Hw2 Hst Hr E
                 |q p Hop Ho Hfit E]; subst r; cbn in Hk, Hc; try discriminate; simplify_eq; try done.
  - split; [done|]. cbn. repeat split; try lia; try done. intros _. by exists o.
  - destruct Hfit as (? & ? & ? & _). split; [done|]. cbn. repeat split; try lia; try done.
Qed.

(** While an outcome is unknown, the only decision is to query. *)
Theorem decide_queries_first s i c :
  Started s = true -> s_Done s = "" -> s_InFlight s = Some c -> Decide s i = Some DQuery.
Proof. intros H1 H2 H3. unfold Decide. by rewrite H1, H2, H3. Qed.

(** A cancel passes every test of [Apply]. *)
Lemma accept_send s at_ns c reason :
  exec_ok s -> s_Done s = "" -> s_InFlight s = None ->
  c_IntentID c = IntentID (s_Intent s) ->
  c_Key c = child_key (IntentID (s_Intent s)) (length (s_Sent s) + 1) ->
  target_ok s c = true ->
  (c_Action c = ActCancel \/
   (is_send_action (c_Action c) = true /\ s_Halt s = "" /\ 1 <= c_Qty c <= Remaining s /\
    1 <= c_Price c /\ worse (s_Intent s) (c_Price c) (s_Cap s) = false /\
    (c_Action c =s ActSubmit) = is_none (s_Order s))) ->
  exists s', Apply s (send_rec at_ns c reason) = Ok s'.
Proof.
  intros [W _ Hkey _ _] Hd Hf Hid Hk Ht Ha. unfold Apply, send_rec.
  cbn [r_Kind]. rewrite (Started_wf s W). cbn. unfold apply_send. cbn.
  rewrite Hd, Hf, Hid, !string_eqb_refl, Ht. cbn.
  rewrite Hk, (string_eqb_ne _ _ (child_key_nonempty _ _)).
  pose proof (proj2 (sent_none _ _) (child_key_fresh s Hkey)) as Hfresh.
  unfold is_some. rewrite Hfresh, ?string_eqb_refl. cbn.
  destruct Ha as [->|(Ha & Hh & ? & ? & Hw & Hsub)]; [cbn; eauto|].
  rewrite Ha, Hh, Hw, Hsub, Z.gtb_ltb. cbn.
  rewrite (proj2 (Z.ltb_ge (c_Qty c) 1)), (proj2 (Z.ltb_ge (Remaining s) (c_Qty c))),
    (proj2 (Z.ltb_ge (c_Price c) 1)) by lia. cbn.
  destruct (is_none (s_Order s)); cbn; eauto.
Qed.

(** Every record [decide] proposes is one [Apply] accepts, so the
    executor's own decisions never fail at the journal's gate. *)
Theorem decide_accepted s i r :
  exec_ok s -> int64_inputs i -> Decide s i = Some (DRec r) -> exists s', Apply s r = Ok s'.
Proof.
  intros Hs Hi H. apply decision_of in H; [|done|done]. pose proof (eo_wf s Hs) as W.
  inversion H as [| |reason Hd Hf Ho Hre E|o reason Hd Hf He Ho E
                 |o q p Hop Ho Hq Hq2 Hp Hw Hw2 Hst Hr E|q p Hop Ho Hfit E]; subst r.
  - unfold Apply, finish_rec. cbn [r_Kind]. rewrite (Started_wf s W). cbn.
    unfold apply_finish. cbn. rewrite Hd, Hf, Ho, (string_eqb_ne _ _ Hre). cbn. eauto.
  - apply accept_send; try done; [unfold target_ok; cbn; by rewrite Ho, string_eqb_refl|by left].
  - destruct Hop. apply accept_send; try done; [unfold target_ok; cbn; by rewrite Ho, string_eqb_refl|].
    right. rewrite Ho. cbn. repeat split; try done; lia.
  - destruct Hop, Hfit as (? & ? & ? & _). apply accept_send; try done.
    right. rewrite Ho. cbn. repeat split; try done; lia.
Qed.

(** C15: [decide] sizes every send to E1's room. Every submit and amend it
    proposes passes the caps check that [commit] repeats, provided the position
    at authorization is inside the range on the side the intent moves away
    from. *)
Theorem decide_within_room s i r c :
  exec_ok s -> int64_inputs i -> range_ok (s_Intent s) ->
  Decide s i = Some (DRec r) -> sends r c -> c_Action c <> ActCancel -> E1CapsRefusal s c = "".
Proof.
  intros Hs Hi Hrange H [Hk Hc] Ha. apply decision_of in H; [|done|done]. pose proof (eo_wf s Hs) as W.
  inversion H as [| |reason ? ? ? ? E|o reason ? ? ? ? E|o q p Hop Ho Hq Hq2 Hp Hw Hw2 Hst Hr E
                 |q p Hop Ho Hfit E]; subst r; cbn in Hk, Hc; try discriminate; simplify_eq; try done.
  apply fits_not_refused; try done; [apply Hs|]. apply child_key_fresh, Hs.
Qed.

(** ** The executor's invariant under [Apply] *)

(** What the executor adds to [Apply]'s own checks: sends as [decide] builds
    them and [commit] lets through, and views with a sane working price. *)
Record rec_ok (s : State) (r : Rec) : Prop := {
  ro_int64 : int64_rec r;
  ro_send : forall c, sends r c ->
    c_Key c = child_key (IntentID (s_Intent s)) (length (s_Sent s) + 1) /\
    (c_Action c = ActSubmit -> c_TargetKey c = "") /\
    (is_send_action (c_Action c) = true -> c_Price c <= max_price /\ E1CapsRefusal s c = "");
  ro_view : forall v o, r_Kind r = RecReconcile -> r_View r = Some v -> v_Order v = Some o -> order_sane o
}.

(** Records other than a send keep the intent and the children. *)
Lemma Apply_keeps s r s' :
  wf s -> Apply s r = Ok s' -> r_Kind r <> RecSend ->
  s_Intent s' = s_Intent s /\ s_Sent s' = s_Sent s.
Proof.
  intros W H Hn. destruct (Apply_cases s r s' H) as [? Hs|? ? Hs|? ? Hs|? ? Hs|? ? Hs|? ? Hs].
  - unfold apply_start in Hs. rewrite (Started_wf s W) in Hs. by destruct (r_Intent r).
  - done.
  - unfold apply_outcome, resolveCancel in Hs.
    destruct (r_Outcome r), (s_InFlight s); try done.
    repeat (split_if in Hs; try done); by simplify_eq.
  - unfold apply_reconcile, resolveCancel in Hs. destruct (r_View r) as [v|]; [|done].
    destruct (v_Order v), (s_InFlight s); repeat (split_if in Hs; try done); by simplify_eq.
  - unfold apply_fill in Hs. destruct (r_Fill r); [|done].
    repeat (split_if in Hs; [done|]). by simplify_eq.
  - unfold apply_finish in Hs. repeat (split_if in Hs; [done|]). by simplify_eq.
Qed.

(** Where a new working order comes from: an accepted child or a view. *)
Lemma Apply_order s r s' o :
  wf s -> Apply s r = Ok s' -> s_Order s' = Some o ->
  s_Order s = Some o \/
  (exists c, s_InFlight s = Some c /\ is_send_action (c_Action c) = true /\ o_Price o = c_Price c) \/
  (exists v, r_Kind r = RecReconcile /\ r_View r = Some v /\ v_Order v = Some o).
Proof.
  intros W H Ho. destruct (Apply_cases s r s' H) as [? Hs|? ? Hs|? ? Hs|Hk ? Hs|? ? Hs|? ? Hs].
  - unfold apply_start in Hs. rewrite (Started_wf s W) in Hs. by destruct (r_Intent r).
  - destruct (apply_send_inv s r s' W Hs) as (c & _ & _ & _ & _ & _ & _ & _ & ->). left.
    revert Ho. cbn. by destruct (is_send_action (c_Action c)).
  - unfold apply_outcome, resolveCancel in Hs.
    destruct (r_Outcome r) as [oc|]; [|done]. destruct (s_InFlight s) as [c|] eqn:Ec; [|done].
    split_if in Hs; [done|]. destruct (oc_Status oc =s StatusAccepted) eqn:Ea; cbn [andb] in Hs.
    + destruct (c_Action c =s ActCancel) eqn:Ecan.
      { destruct (r_DeferFinish r); simplify_eq; discriminate. }
      simplify_eq. cbn in Ho. simplify_eq. right. left. exists c. split; [done|]. split; [|done].
      pose proof (proj1 (Forall_forall _ _) (wf_sent s W) c (wf_inflight s W c Ec)) as (_ & _ & [Hx|[? _]]);
        [|done]. bool_simpl. done.
    + left. split_if in Hs; simplify_eq; done.
  - unfold apply_reconcile, resolveCancel in Hs. destruct (r_View r) as [v|]; [|done].
    right. right. exists v. split; [done|]. split; [done|].
    destruct (v_Order v), (s_InFlight s); repeat (split_if in Hs; try done); simplify_eq; cbn in Ho;
      try (by rewrite <- Ho); discriminate.
  - unfold apply_fill in Hs. destruct (r_Fill r); [|done].
    repeat (split_if in Hs; [done|]). simplify_eq. by left.
  - unfold apply_finish in Hs. repeat (split_if in Hs; [done|]). simplify_eq. by left.
Qed.

Lemma exec_ok_started i : Validate i = None -> exec_ok (started_state i).
Proof.
  intros V. constructor; [by apply wf_started|by apply caps_ok_started, Validate_ok| | |constructor].
  - intros n c H. cbn in H. by rewrite lookup_nil in H.
  - done.
Qed.

Lemma exec_ok_Apply s r s' : exec_ok s -> rec_ok s r -> Apply s r = Ok s' -> exec_ok s'.
Proof.
  intros Hs [Hr Hsend Hview] H. pose proof (eo_wf s Hs) as W.
  assert (W' : wf s') by (by apply (wf_Apply s r)).
  assert (Ho : forall o, s_Order s' = Some o -> order_sane o).
  { intros o Ho. destruct (Apply_order s r s' o W H Ho) as [?|[(c & Hc & Ha & Hp)|(v & ? & ? & ?)]].
    - by apply (eo_order s Hs).
    - unfold order_sane. rewrite Hp. pose proof (wf_inflight s W c Hc) as Hin.
      by apply (proj1 (Forall_forall _ _) (eo_prices s Hs) c Hin).
    - by apply (Hview v). }
  destruct (decide (r_Kind r = RecSend)) as [Hk|Hk].
  - assert (Hap : apply_send s r = Ok s').
    { destruct (Apply_cases s r s' H) as [Hx|? ? Hx|Hx|Hx|Hx|Hx]; [..|]; try done;
        rewrite Hk in Hx; discriminate Hx. }
    destruct (apply_send_inv s r s' W Hap) as (c & Hc & Hok & Hfresh & _ & _ & Ht & Hgate & Es).
    destruct (Hsend c (conj Hk Hc)) as (Hkey & Hsub & Hcap).
    assert (Hpr : is_send_action (c_Action c) = true -> 1 <= c_Price c <= max_price).
    { intros Ha. destruct (Hcap Ha). destruct Hok as (_ & _ & [Hx|(_ & _ & ? & _)]);
        [rewrite Hx in Ha; discriminate|lia]. }
    assert (Hsane : sane_child c).
    { intros Ha. specialize (Hpr Ha). destruct (Hgate Ha) as (_ & Hq & _).
      pose proof (Remaining_bound s W). unfold max_price in *.
      destruct Hok as (_ & _ & [Hx|(_ & ? & ? & _)]); [rewrite Hx in Ha; discriminate|nia]. }
    assert (Co' : caps_ok s').
    { apply (caps_ok_send s r s' c); try done; [apply Hs|]. intros Ha. by apply Hcap. }
    assert (E : s_Sent s' = s_Sent s ++ [c] /\ s_Intent s' = s_Intent s).
    { rewrite Es. by destruct (is_send_action (c_Action c)). }
    destruct E as [E1 E2]. constructor; try done.
    + intros n d Hn. rewrite E1 in Hn. rewrite E2. apply lookup_snoc_Some in Hn as [[? Hn]|[-> ->]].
      * by apply (eo_keyed s Hs).
      * done.
    + rewrite E1. apply Forall_app. split; [apply Hs|by apply Forall_singleton].
  - destruct (Apply_keeps s r s' W H Hk) as [E1 E2]. destruct Hs. constructor; try done.
    + by apply (caps_ok_ext s).
    + intros n c Hn. rewrite E1. apply eo_keyed0. by rewrite <- E2.
    + by rewrite E2.
Qed.

(** ** Concrete runs *)

Definition sample_top : Top := mkTop 69900 70000 900 true.
Definition sample_cfg : Config := mkConfig true false 5000000000 2000000000.
Definition sample_inputs : inputs := mkInputs 1000 (Some sample_top) sample_cfg false.
Definition sample_open : Child := mkChild ActSubmit sample_id (sample_id +:+ ":1") "" 10 69900.

Lemma sample_started_ok : exec_ok sample_started.
Proof. apply exec_ok_started. vm_compute. reflexivity. Qed.

Lemma sample_inputs_ok : int64_inputs sample_inputs.
Proof.
  unfold int64_inputs, in_int64, min_int64, max_int64. cbn.
  split; [lia|]. split; [lia|]. split; [lia|]. intros t [= <-]. cbn. lia.
Qed.

Lemma sample_decides : Decide sample_started sample_inputs = Some (DRec (send_rec 1000 sample_open "open")).
Proof. vm_compute. reflexivity. Qed.

Lemma Decide_total_witness : exists d, Decide sample_started sample_inputs = Some d.
Proof. apply (Decide_total sample_started sample_inputs sample_started_ok sample_inputs_ok). Defined.

Lemma decide_send_gates_witness : opened sample_started sample_inputs /\ 1 <= 10 <= Remaining sample_started.
Proof.
  destruct (decide_send_gates sample_started sample_inputs _ sample_open sample_started_ok
    sample_inputs_ok sample_decides (conj eq_refl eq_refl) ltac:(discriminate)) as (H1 & H2 & _).
  split; [exact H1|exact H2].
Defined.

Lemma decide_queries_first_witness : Decide sample_state sample_inputs = Some DQuery.
Proof.
  apply (decide_queries_first sample_state sample_inputs sample_amend); vm_compute; reflexivity.
Defined.

Lemma decide_accepted_witness :
  exists s', Apply sample_started (send_rec 1000 sample_open "open") = Ok s'.
Proof.
  apply (decide_accepted sample_started sample_inputs _ sample_started_ok sample_inputs_ok sample_decides).
Defined.

Lemma range_ok_sample : range_ok sample_buy.
Proof. split; intros H; cbn; try lia; discriminate H. Qed.

Lemma decide_within_room_witness : E1CapsRefusal sample_started sample_open = "".
Proof.
  apply (decide_within_room sample_started sample_inputs _ sample_open sample_started_ok
    sample_inputs_ok range_ok_sample sample_decides (conj eq_refl eq_refl)). discriminate.
Defined.

(** A valid buy whose position starts below the range, further than it may
    buy. *)
Definition narrow_buy : Intent :=
  {| SchemaVersion := 1; IntentID := "0123abcd-0000-1111-2222-0123456789ab";
     Strategy := "s"; Account := "kis_mock"; Venue := "krx"; Symbol := "005930";
     in_Side := Buy; MaxQuantity := 10; MaxNotionalKRW := 1000000;
     LimitPriceKRW := 70050; MaxSlippageBps := 10; ExpiresAt := 1000000000000;
     in_Inventory := mkInventory 0 20 100; PolicyVersion := "v1"; ModelVersion := None;
     AuthorizationRef := "a"; InstrumentType := "" |}.

