(* ===== verification/Journal.v ===== *)
(** [src/internal/exec/journal.go]: the executor's write-ahead log.

    The file is its bytes, a [string].  What the source leaves to [encoding/json]
    and [crypto/sha256] is an interface: a [LineCodec] with the laws the journal
    relies on, and the argument [Digest].  The operating system's failures
    are inputs of the operations that can meet them. *)

From Stdlib Require Import Ascii.
From S2P Require Import Prelude GoStr Intent Machine.
#[local] Arguments String.append !_ _ / : simpl nomatch.
Local Open Scope Z_scope.

Definition JournalVersion : Z := 1.

Record journalLine := mkLine { jl_V : Z; jl_Seq : Z; jl_Rec : Rec; jl_State : string }.

Definition newline : ascii := "010"%char.

Fixpoint no_newline (s : string) : bool :=
  match s with
  | EmptyString => true
  | String c s => negb (Ascii.eqb c newline) && no_newline s
  end.

(** [json.Marshal] and [jsonx.DecodeStrict] on a line.  [marshal] fails on
    values JSON cannot hold (a time outside years 0 to 9999); a [faithful]
    line is one whose text is valid UTF-8, which decodes to itself. *)
Class LineCodec := {
  marshal : journalLine -> option string;
  decode_strict : string -> option journalLine;
  faithful : journalLine -> Prop;
  marshal_one_line l b : marshal l = Some b -> no_newline b = true;
  marshal_decode l b : faithful l -> marshal l = Some b -> decode_strict b = Some l
}.

(** [bytes.IndexByte(data, '\n')], with what precedes and follows it. *)
Fixpoint split_line (s : string) : option (string * string) :=
  match s with
  | EmptyString => None
  | String c s =>
      if Ascii.eqb c newline then Some (EmptyString, s)
      else match split_line s with
           | Some (l, rest) => Some (String c l, rest)
           | None => None
           end
  end.

(** Why a line is refused; [E] is what the callback reports. *)
Inductive line_error (E : Type) := Undecodable | BadHeader | Refused (e : E).
#[global] Arguments Undecodable {E}.
#[global] Arguments BadHeader {E}.
#[global] Arguments Refused {E} e.

Inductive replay_error := ApplyFailed (e : transition_error) | DigestDiffers.

Section Journal.
Context `{LineCodec}.
Context (Digest : State -> string).

Section each_line.
Context {A E : Type} (fn : Z -> journalLine -> A -> result A E).

(** The loop of [eachLine] over the bytes that remain; the callback's
    captured variables are the accumulator. *)
Fixpoint line_loop (fuel : nat) (rest : string) (n : Z) (end_ : nat) (acc : A)
  : option (A * Z * nat * option (line_error E)) :=
  match fuel with
  | O => None
  | S fuel =>
      match rest with
      | EmptyString => Some (acc, n, end_, None)
      | _ =>
          match split_line rest with
          | None => Some (acc, n, end_, None)
          | Some (line, rest') =>
              match decode_strict line with
              | None => Some (acc, n, end_, Some Undecodable)
              | Some l =>
                  if negb (jl_V l =? JournalVersion) || negb (jl_Seq l =? n + 1)
                  then Some (acc, n, end_, Some BadHeader)
                  else match fn (n + 1) l acc with
                       | Err e => Some (acc, n, end_, Some (Refused e))
                       | Ok acc' => line_loop fuel rest' (n + 1)
                                      (end_ + String.length line + 1)%nat acc'
                       end
              end
          end
      end
  end.

(** [eachLine]; the fuel is never spent ([eachLine_total]). *)
Definition eachLine (data : string) (acc : A) : A * Z * nat * option (line_error E) :=
  default (acc, 0, O, None) (line_loop (S (String.length data)) data 0 O acc).
End each_line.

Definition replay_line (seq : Z) (l : journalLine) (st : State) : result State replay_error :=
  match Apply st (jl_Rec l) with
  | Err e => Err (ApplyFailed e)
  | Ok next => if Digest next <>s jl_State l then Err DigestDiffers else Ok next
  end.

Definition replay (data : string) : State * Z * nat * option (line_error replay_error) :=
  eachLine replay_line data zero_state.

(** [Journal]: the open file, written at its end, and the last sequence
    number. *)
Record Journal := mkJournal { j_file : string; j_seq : Z }.

Inductive open_error :=
| JournalLocked | LockFailed | ReadFailed | SyncDirFailed
| Corrupt (e : line_error replay_error) | TruncateFailed | SeekFailed.

Inductive flock_result := Flocked | WouldBlock | FlockFailed.
Record open_env := mkOpenEnv {
  flock : flock_result; read_ok : bool; dir_ok : bool; truncate_ok : bool; seek_ok : bool
}.

(** [openJournal]: the bytes left in the file, and the handle with the
    replayed state or the error. *)
Definition openJournal (env : open_env) (file : string)
  : string * result (Journal * State) open_error :=
  match flock env with
  | WouldBlock => (file, Err JournalLocked)
  | FlockFailed => (file, Err LockFailed)
  | Flocked =>
      if negb (read_ok env) then (file, Err ReadFailed)
      else if (file =s "") && negb (dir_ok env) then (file, Err SyncDirFailed)
      else
        let '(st, n, end_, err) := replay file in
        match err with
        | Some e => (file, Err (Corrupt e))
        | None =>
            if (end_ <? String.length file)%nat && negb (truncate_ok env)
            then (file, Err TruncateFailed)
            else
              let file := if (end_ <? String.length file)%nat then take_bytes end_ file else file in
              if negb (seek_ok env) then (file, Err SeekFailed)
              else (file, Ok (mkJournal file n, st))
        end
  end.

(** [ReplayJournal]: the same reader without a handle. *)
Definition ReplayJournal (file : option string) : State * option (line_error replay_error + unit) :=
  match file with
  | None => (zero_state, Some (inr tt))
  | Some data => let '(st, _, _, err) := replay data in (st, inl <$> err)
  end.

(** How a write of [b] bytes can go: whole and synced, cut short with an
    error, or written with a failed sync. *)
Inductive disk_fault := DiskOk | WriteFails (written : nat) | SyncFails.
Inductive append_error := MarshalError | WriteError | SyncError.

Definition line_of (seq : Z) (r : Rec) (after : State) : journalLine :=
  mkLine JournalVersion seq r (Digest after).

Definition append (fault : disk_fault) (j : Journal) (r : Rec) (after : State)
  : Journal * option append_error :=
  match marshal (line_of (j_seq j + 1) r after) with
  | None => (j, Some MarshalError)
  | Some b =>
      let b := b +:+ String newline "" in
      match fault with
      | WriteFails k => (mkJournal (j_file j +:+ take_bytes k b) (j_seq j), Some WriteError)
      | SyncFails => (mkJournal (j_file j +:+ b) (j_seq j), Some SyncError)
      | DiskOk => (mkJournal (j_file j +:+ b) (j_seq j + 1), None)
      end
  end.

(** ** Lines consumed one by one *)

Section consumed.
Context {A E : Type} (fn : Z -> journalLine -> A -> result A E).

(** [consumed body n acc n' acc']: the body is complete lines only, each
    accepted, taking the count from [n] to [n']. *)
Inductive consumed : string -> Z -> A -> Z -> A -> Prop :=
| con_nil n acc : consumed "" n acc n acc
| con_line line l rest n acc acc1 n' acc' :
    no_newline line = true -> decode_strict line = Some l ->
    jl_V l = JournalVersion -> jl_Seq l = n + 1 -> fn (n + 1) l acc = Ok acc1 ->
    consumed rest (n + 1) acc1 n' acc' ->
    consumed (line +:+ String newline rest) n acc n' acc'.

Lemma split_line_app line rest :
  no_newline line = true -> split_line (line +:+ String newline rest) = Some (line, rest).
Proof.
  induction line as [|c line IH]; simpl; [done|].
  destruct (Ascii.eqb c newline); [done|]. simpl. intros H1. by rewrite IH.
Qed.

Lemma split_line_none s : split_line s = None <-> no_newline s = true.
Proof.
  induction s as [|c s IH]; simpl; [done|].
  destruct (Ascii.eqb c newline); simpl; [done|].
  destruct (split_line s) as [[]|]; naive_solver.
Qed.

Lemma split_line_some s line rest :
  split_line s = Some (line, rest) ->
  s = line +:+ String newline rest /\ no_newline line = true.
Proof.
  revert line. induction s as [|c s IH]; simpl; intros line Hs; [done|].
  destruct (Ascii.eqb_spec c newline) as [->|Hc]; [by simplify_eq|].
  destruct (split_line s) as [[l r]|]; [|done]. simplify_eq.
  destruct (IH l eq_refl) as [-> Hl]. split; [done|]. simpl.
  rewrite Hl. by destruct (Ascii.eqb_spec c newline).
Qed.

Lemma split_line_shorter s line rest :
  split_line s = Some (line, rest) -> (String.length rest < String.length s)%nat.
Proof.
  intros [-> _]%split_line_some. rewrite strlen_app. simpl. lia.
Qed.

Lemma line_loop_fuel f1 : forall f2 rest n e acc,
  (String.length rest < f1)%nat -> (String.length rest < f2)%nat ->
  line_loop fn f1 rest n e acc = line_loop fn f2 rest n e acc.
Proof.
  induction f1 as [|f1 IH]; intros [|f2] rest n e acc H1 H2; try lia.
  cbn [line_loop]. destruct rest as [|c rest]; [done|].
  destruct (split_line (String c rest)) as [[line rest']|] eqn:Es; [|done].
  apply split_line_shorter in Es. destruct (decode_strict line) as [l|]; [|done].
  destruct (negb _ || _); [done|]. destruct (fn (n + 1) l acc); [|done].
  apply IH; lia.
Qed.

(** The length of the data is fuel enough. *)
Lemma line_loop_some fuel rest n e acc : (String.length rest < fuel)%nat ->
  is_Some (line_loop fn fuel rest n e acc).
Proof.
  revert rest n e acc. induction fuel as [|fuel IH]; intros rest n e acc Hf; [lia|]. cbn [line_loop].
  destruct rest as [|c rest]; [by eexists|].
  destruct (split_line (String c rest)) as [[line rest']|] eqn:Es; [|by eexists].
  apply split_line_shorter in Es. destruct (decode_strict line) as [l|]; [|by eexists].
  destruct (negb _ || _); [by eexists|]. destruct (fn (n + 1) l acc); [|by eexists].
  apply IH. lia.
Qed.

Lemma eachLine_total data acc :
  line_loop fn (S (String.length data)) data 0 O acc = Some (eachLine fn data acc).
Proof.
  unfold eachLine. destruct (line_loop_some (S (String.length data)) data 0 O acc ltac:(lia)) as [x Hx].
  by rewrite Hx.
Qed.

(** One complete, accepted line advances the loop. *)
Lemma line_loop_line fuel line l rest n e acc acc1 :
  (String.length (line +:+ String newline rest) < fuel)%nat ->
  no_newline line = true -> decode_strict line = Some l ->
  jl_V l = JournalVersion -> jl_Seq l = n + 1 -> fn (n + 1) l acc = Ok acc1 ->
  line_loop fn fuel (line +:+ String newline rest) n e acc =
  line_loop fn fuel rest (n + 1) (e + String.length line + 1)%nat acc1.
Proof.
  intros Hf Hn Hd Hv Hq Hfn. destruct fuel as [|fuel]; [lia|].
  rewrite strlen_app in Hf. simpl in Hf.
  rewrite (line_loop_fuel (S fuel) fuel rest) by lia. cbn [line_loop].
  rewrite split_line_app, Hd, Hv, Hq, Hfn, !Z.eqb_refl by done. cbn [negb orb].
  by destruct line.
Qed.

Lemma line_loop_consumed fuel body n acc n' acc' tail e :
  consumed body n acc n' acc' -> (String.length (body +:+ tail) < fuel)%nat ->
  line_loop fn fuel (body +:+ tail) n e acc =
  line_loop fn fuel tail n' (e + String.length body)%nat acc'.
Proof.
  intros Hc. revert e. induction Hc as [|line l rest n acc acc1 n' acc' Hn Hd Hv Hq Hfn _ IH];
    intros e Hf.
  - cbn. by rewrite Nat.add_0_r.
  - rewrite <- str_app_assoc in *. simpl in *.
    rewrite (line_loop_line _ _ l _ _ _ _ acc1) by done.
    rewrite IH by (rewrite !strlen_app in *; simpl in *; rewrite strlen_app in *; lia).
    f_equal. rewrite strlen_app. simpl. lia.
Qed.

Lemma line_loop_tail fuel tail n e acc :
  (String.length tail < fuel)%nat -> no_newline tail = true ->
  line_loop fn fuel tail n e acc = Some (acc, n, e, None).
Proof.
  intros Hf Hn. destruct fuel; [lia|]. cbn [line_loop].
  apply split_line_none in Hn. rewrite Hn. by destruct tail.
Qed.

Lemma line_loop_sound fuel : forall rest n e acc n' e' acc',
  line_loop fn fuel rest n e acc = Some (acc', n', e', None) ->
  exists body tail, rest = body +:+ tail /\ no_newline tail = true /\
    consumed body n acc n' acc' /\ e' = (e + String.length body)%nat.
Proof.
  induction fuel as [|fuel IH]; intros rest n e acc n' e' acc' Hl; [done|]. cbn [line_loop] in Hl.
  assert (Hstop : no_newline rest = true -> acc' = acc -> n' = n -> e' = e ->
    exists body tail, rest = body +:+ tail /\ no_newline tail = true /\
      consumed body n acc n' acc' /\ e' = (e + String.length body)%nat).
  { intros ? -> -> ->. exists "", rest. split; [done|]. split; [done|].
    split; [constructor|]. simpl. lia. }
  destruct rest as [|c rest]; [simplify_eq; by apply Hstop|].
  destruct (split_line (String c rest)) as [[line rest']|] eqn:Es.
  2: { apply split_line_none in Es. simplify_eq. by apply Hstop. }
  apply split_line_some in Es as [-> Hline].
  destruct (decode_strict line) as [l|] eqn:Ed; [|done].
  destruct (negb _ || _) eqn:Eh; [done|]. bool_simpl.
  destruct (fn (n + 1) l acc) as [acc1|] eqn:Ef; [|done].
  destruct (IH _ _ _ _ _ _ _ Hl) as (body & tail & -> & Ht & Hc & ->).
  exists (line +:+ String newline body), tail. split; [by rewrite <- str_app_assoc|].
  split; [done|]. split; [by apply con_line with l acc1|].
  rewrite strlen_app. simpl. lia.
Qed.

Lemma eachLine_consumed body tail acc n' acc' :
  consumed body 0 acc n' acc' -> no_newline tail = true ->
  eachLine fn (body +:+ tail) acc = (acc', n', String.length body, None).
Proof.
  intros Hc Ht. unfold eachLine. rewrite (line_loop_consumed _ _ _ _ n' acc') by (done || lia).
  rewrite line_loop_tail; [done| |done]. rewrite strlen_app. lia.
Qed.

Lemma line_loop_total fuel : forall rest n e acc,
  (String.length rest < fuel)%nat -> exists r, line_loop fn fuel rest n e acc = Some r.
Proof.
  induction fuel as [|fuel IH]; intros rest n e acc Hf; [lia|]. cbn [line_loop].
  destruct rest as [|c rest]; [eauto|].
  destruct (split_line (String c rest)) as [[line rest']|] eqn:Es; [|eauto].
  apply split_line_shorter in Es. destruct (decode_strict line) as [l|]; [|eauto].
  destruct (negb _ || _); [eauto|]. destruct (fn (n + 1) l acc); [|eauto].
  apply IH. lia.
Qed.

Lemma eachLine_sound data acc acc' n' e' :
  eachLine fn data acc = (acc', n', e', None) ->
  exists body tail, data = body +:+ tail /\ no_newline tail = true /\
    consumed body 0 acc n' acc' /\ e' = String.length body.
Proof.
  unfold eachLine.
  destruct (line_loop_total (S (String.length data)) data 0 0%nat acc ltac:(lia)) as [r Hr].
  rewrite Hr. cbn. intros ->. by apply line_loop_sound in Hr.
Qed.

Lemma consumed_snoc body line l n acc n' acc' acc1 :
  consumed body n acc n' acc' -> no_newline line = true -> decode_strict line = Some l ->
  jl_V l = JournalVersion -> jl_Seq l = n' + 1 -> fn (n' + 1) l acc' = Ok acc1 ->
  consumed (body +:+ line +:+ String newline "") n acc (n' + 1) acc1.
Proof.
  induction 1 as [|line0 l0 rest n acc acc0 n' acc' Hn Hd Hv Hq Hfn _ IH]; intros.
  - cbn. apply con_line with l acc1; try done. constructor.
  - rewrite <- str_app_assoc. simpl. apply con_line with l0 acc0; try done. by apply IH.
Qed.
End consumed.

(** ** The journal and the state it describes *)

(** A journal whose records were each accepted and durably appended. *)
Inductive written : Journal -> State -> list Rec -> Prop :=
| written_nil : written (mkJournal "" 0) zero_state []
| written_snoc j st rs r st' j' :
    written j st rs -> Apply st r = Ok st' -> faithful (line_of (j_seq j + 1) r st') ->
    append DiskOk j r st' = (j', None) -> written j' st' (rs ++ [r]).

Lemma append_inv fault j r after j' e :
  append fault j r after = (j', e) -> e <> Some MarshalError ->
  exists b, marshal (line_of (j_seq j + 1) r after) = Some b /\ no_newline b = true.
Proof.
  unfold append. destruct (marshal _) as [b|] eqn:E; [|by intros [= <- <-]].
  intros _ _. exists b. split; [done|]. by apply marshal_one_line in E.
Qed.

Lemma replay_line_of seq r st st' :
  Apply st r = Ok st' -> replay_line seq (line_of seq r st') st = Ok st'.
Proof. intros H1. unfold replay_line. cbn. rewrite H1. cbn. by rewrite string_eqb_refl. Qed.

Lemma written_consumed j st rs :
  written j st rs ->
  consumed replay_line (j_file j) 0 zero_state (j_seq j) st /\
  run zero_state rs = Ok st /\ j_seq j = Z.of_nat (length rs).
Proof.
  induction 1 as [|j st rs r st' j' _ (IHc & IHr & IHs) Ha Hf Happ].
  { split; [constructor|done]. }
  unfold append in Happ. destruct (marshal _) as [b|] eqn:Em; [|done]. simplify_eq. cbn.
  split; [|split].
  - apply (consumed_snoc _ _ b (line_of (j_seq j + 1) r st') _ _ _ st); try done.
    + by apply marshal_one_line in Em.
    + by apply marshal_decode.
    + by apply replay_line_of.
  - rewrite run_app, IHr. cbn. by rewrite Ha.
  - rewrite length_app. cbn. lia.
Qed.

Lemma replay_consumed body tail n st :
  consumed replay_line body 0 zero_state n st -> no_newline tail = true ->
  replay (body +:+ tail) = (st, n, String.length body, None).
Proof. intros. by apply eachLine_consumed. Qed.

(** An environment in which every system call succeeds. *)
Definition env_ok : open_env := mkOpenEnv Flocked true true true true.

Lemma open_consumed body tail n st :
  consumed replay_line body 0 zero_state n st -> no_newline tail = true ->
  openJournal env_ok (body +:+ tail) = (body, Ok (mkJournal body n, st)).
Proof.
  intros Hc Ht. unfold openJournal. rewrite (replay_consumed body tail n st) by done.
  cbn [flock read_ok dir_ok truncate_ok seek_ok env_ok negb]. rewrite !andb_false_r, strlen_app.
  destruct (Nat.ltb_spec (String.length body) (String.length body + String.length tail)).
  - by rewrite take_bytes_app.
  - destruct tail; [|cbn in *; lia]. by rewrite str_app_nil_r.
Qed.

Lemma written_replay j st rs :
  written j st rs ->
  replay (j_file j) = (st, Z.of_nat (length rs), String.length (j_file j), None).
Proof.
  intros (Hc & _ & Hs)%written_consumed.
  pose proof (replay_consumed _ "" _ _ Hc eq_refl) as Hrep.
  by rewrite str_app_nil_r, Hs in Hrep.
Qed.

(** C25: write-ahead round trip. Replaying, or reopening, the bytes the
    executor appended gives back exactly the state it reached, the number of
    records and the end of the file; nothing is cut off. *)
Theorem journal_roundtrip j st rs :
  written j st rs ->
  run zero_state rs = Ok st /\
  replay (j_file j) = (st, Z.of_nat (length rs), String.length (j_file j), None) /\
  openJournal env_ok (j_file j) = (j_file j, Ok (j, st)).
Proof.
  intros Hw. split; [by destruct (written_consumed _ _ _ Hw) as (_ & ? & _)|]. split; [by apply written_replay|].
  apply written_consumed in Hw as (Hc & _ & _).
  pose proof (open_consumed _ "" _ _ Hc eq_refl) as Hopen.
  rewrite str_app_nil_r in Hopen. by destruct j.
Qed.

Lemma append_crash j st rs r st' b k :
  written j st rs -> Apply st r = Ok st' -> faithful (line_of (j_seq j + 1) r st') ->
  marshal (line_of (j_seq j + 1) r st') = Some b ->
  let line := b +:+ String newline "" in
  openJournal env_ok (j_file j +:+ take_bytes k line) =
    if (k <? String.length line)%nat
    then (j_file j, Ok (j, st))
    else (j_file j +:+ line, Ok (mkJournal (j_file j +:+ line) (j_seq j + 1), st')).
Proof.
  intros (Hc & _ & _)%written_consumed Ha Hf Hm line.
  pose proof (marshal_one_line _ _ Hm) as Hn.
  destruct (Nat.ltb_spec k (String.length line)) as [Hk|Hk].
  - rewrite (open_consumed (j_file j) _ (j_seq j) st Hc); [by destruct j|].
    subst line. rewrite strlen_app in Hk. cbn in Hk.
    rewrite take_bytes_app_le by lia. clear -Hn. unfold take_bytes. revert k Hn.
    induction b as [|c b IH]; intros [|k] Hn; cbn in *; try done.
    apply andb_true_iff in Hn as [-> Hn]. by apply IH.
  - rewrite take_bytes_all by done.
    rewrite <- (str_app_nil_r (j_file j +:+ line)) at 1.
    apply open_consumed; [|done]. subst line.
    apply (consumed_snoc _ _ b (line_of (j_seq j + 1) r st') _ _ _ st); try done.
    + by apply marshal_decode.
    + by apply replay_line_of.
Qed.

(** C12: a crash during an append is atomic. Whatever prefix of the new line
    reached the disk, reopening recovers either the state before the record,
    with the torn bytes cut off, or, when the line is whole, the state after
    it; never an error and never a third state. *)
Theorem append_crash_atomic j st rs r st' b k :
  written j st rs -> Apply st r = Ok st' -> faithful (line_of (j_seq j + 1) r st') ->
  marshal (line_of (j_seq j + 1) r st') = Some b ->
  let line := b +:+ String newline "" in
  openJournal env_ok (j_file j +:+ take_bytes k line) =
    if (k <? String.length line)%nat
    then (j_file j, Ok (j, st))
    else (j_file j +:+ line, Ok (mkJournal (j_file j +:+ line) (j_seq j + 1), st')).
Proof. apply append_crash. Qed.

Lemma consumed_run body n st n' st' :
  consumed replay_line body n st n' st' ->
  exists rs, run st rs = Ok st' /\ n' = n + Z.of_nat (length rs).
Proof.
  induction 1 as [|line l rest n acc acc1 n' acc' Hn Hd Hv Hq Hfn _ (rs & Hr & ->)].
  { exists []. split; [done|]. simpl. lia. }
  unfold replay_line in Hfn. destruct (Apply acc (jl_Rec l)) as [nx|] eqn:E; [|done].
  split_if in Hfn; [done|]. simplify_eq. exists (jl_Rec l :: rs). cbn [run length].
  rewrite E. split; [done|]. lia.
Qed.

(** Replay trusts nothing it did not check. A journal that replays
    without error describes a state the records of its complete lines really
    reach, one record per line, and what follows the last complete line holds
    no newline. *)
Theorem replay_sound data st n end_ :
  replay data = (st, n, end_, None) ->
  exists rs body tail, data = body +:+ tail /\ end_ = String.length body /\
    no_newline tail = true /\ run zero_state rs = Ok st /\ n = Z.of_nat (length rs).
Proof.
  intros (body & tail & -> & Ht & Hc & ->)%eachLine_sound.
  apply consumed_run in Hc as (rs & Hr & ->). exists rs, body, tail. repeat split; try done.
Qed.

(** A complete line that must not follow a journal in state [st]. *)
Definition bad_line (j : Journal) (st : State) (b : string) : Prop :=
  decode_strict b = None \/
  exists l, decode_strict b = Some l /\
    (jl_V l <> JournalVersion \/ jl_Seq l <> j_seq j + 1 \/
     (exists e, Apply st (jl_Rec l) = Err e) \/
     (exists next, Apply st (jl_Rec l) = Ok next /\ Digest next <> jl_State l)).

Lemma line_loop_bad j st b rest fuel e :
  bad_line j st b -> no_newline b = true -> (0 < fuel)%nat ->
  exists err, line_loop replay_line fuel (b +:+ String newline rest) (j_seq j) e st =
    Some (st, j_seq j, e, Some err).
Proof.
  intros Hb Hn Hf. destruct fuel as [|fuel]; [lia|]. cbn [line_loop].
  rewrite split_line_app by done.
  assert (Hcase : exists err, match decode_strict b with
    | None => Some (st, j_seq j, e, Some Undecodable)
    | Some l => if negb (jl_V l =? JournalVersion) || negb (jl_Seq l =? j_seq j + 1)
        then Some (st, j_seq j, e, Some BadHeader)
        else match replay_line (j_seq j + 1) l st with
             | Err er => Some (st, j_seq j, e, Some (Refused er))
             | Ok acc' => line_loop replay_line fuel rest (j_seq j + 1)
                            (e + String.length b + 1)%nat acc'
             end
    end = Some (st, j_seq j, e, Some err)).
  { destruct Hb as [->|(l & -> & Hl)]; [eauto|].
    destruct (negb _ || _) eqn:E; [eauto|]. bool_simpl. unfold replay_line.
    destruct Hl as [?|[?|[(er & ->)|(nx & -> & Hd)]]]; [done|done|eauto|].
    rewrite (string_eqb_ne _ _ Hd). cbn. eauto. }
  by destruct b.
Qed.

(** corruption is detected. After any well-written journal, one complete
    line that does not decode, has the wrong version or sequence number, is
    refused by [Apply] or carries another digest makes [openJournal] fail as
    corrupt and leaves the file as it was, whatever follows the line. *)
Theorem corruption_detected j st rs b rest :
  written j st rs -> bad_line j st b -> no_newline b = true ->
  exists e, openJournal env_ok (j_file j +:+ b +:+ String newline rest) =
    (j_file j +:+ b +:+ String newline rest, Err (Corrupt e)).
Proof.
  intros (Hc & _ & _)%written_consumed Hb Hn.
  set (file := j_file j +:+ b +:+ String newline rest).
  assert (exists e m, replay file = (st, j_seq j, m, Some e)) as (e & m & He).
  { unfold replay, eachLine. subst file.
    rewrite (line_loop_consumed _ _ _ _ _ (j_seq j) st) by (done || lia).
    destruct (line_loop_bad j st b rest
      (S (String.length (j_file j +:+ b +:+ String newline rest))) (0 + String.length (j_file j))%nat
      Hb Hn ltac:(lia)) as [err ->]. eauto. }
  exists e. unfold openJournal. rewrite He.
  cbn [flock read_ok dir_ok env_ok negb]. by rewrite andb_false_r.
Qed.
End Journal.

(** ** A concrete codec

    The witnesses use lines written as the bits of stdpp's [encode]; every
    line is faithful. *)

#[export] Instance Inventory_countable : Countable Inventory.
Proof.
  refine (inj_countable' (fun i => (PositionAtAuthorization i, MinPositionAfter i, MaxPositionAfter i))
    (fun '(a, b, c) => mkInventory a b c) _). by intros [].
Defined.
#[export] Instance Intent_countable : Countable Intent.
Proof.
  refine (inj_countable' (fun i => ((IntentID i, ((AuthorizationRef i, Strategy i), (SchemaVersion i, Account i))),
      (((Venue i, Symbol i), (in_Side i, MaxQuantity i)), (((MaxNotionalKRW i, LimitPriceKRW i),
      (MaxSlippageBps i, ExpiresAt i)), ((in_Inventory i, PolicyVersion i), (ModelVersion i, InstrumentType i))))))
    (fun '((b, ((q, c), (a, d))), (((e, f), (g, h)), (((j, k), (l, m)), ((n, o), (p, r))))) =>
       mkIntent a b c d e f g h j k l m n o p q r) _). by intros [].
Defined.
#[export] Instance Child_countable : Countable Child.
Proof.
  refine (inj_countable' (fun c => (((c_Action c, c_IntentID c), (c_Key c, c_TargetKey c)), (c_Qty c, c_Price c)))
    (fun '(((a, b), (c, d)), (e, f)) => mkChild a b c d e f) _). by intros [].
Defined.
#[export] Instance Outcome_countable : Countable Outcome.
Proof.
  refine (inj_countable' (fun o => (oc_Key o, oc_Status o, oc_Reason o, oc_BrokerOrderID o))
    (fun '(a, b, c, d) => mkOutcome a b c d) _). by intros [].
Defined.
#[export] Instance Order_countable : Countable Order.
Proof.
  refine (inj_countable' (fun o => (o_Key o, o_Price o, o_Qty o)) (fun '(a, b, c) => mkOrder a b c) _).
  by intros [].
Defined.
#[export] Instance View_countable : Countable View.
Proof.
  refine (inj_countable' (fun v => (v_Order v, v_FilledQty v)) (fun '(a, b) => mkView a b) _).
  by intros [].
Defined.
#[export] Instance Fill_countable : Countable Fill.
Proof.
  refine (inj_countable' (fun f => (f_FillID f, f_Key f, f_Qty f, f_Price f, f_AtNS f))
    (fun '(a, b, c, d, e) => mkFill a b c d e) _). by intros [].
Defined.
#[export] Instance Rec_countable : Countable Rec.
Proof.
  refine (inj_countable' (fun r => ((r_Intent r, r_Child r), ((r_Kind r, r_DeferFinish r, r_AtNS r),
      ((r_Reason r, r_Outcome r), (r_View r, r_Fill r)))))
    (fun '((d, e), ((a, b, c), ((f, g), (h, i)))) => mkRec a b c d e f g h i) _). by intros [].
Defined.
#[export] Instance journalLine_eq_dec : EqDecision journalLine. Proof. solve_decision. Defined.
#[export] Instance journalLine_countable : Countable journalLine.
Proof.
  refine (inj_countable' (fun l => (jl_Rec l, (jl_State l, (jl_V l, jl_Seq l))))
    (fun '(c, (d, (a, b))) => mkLine a b c d) _). by intros [].
Defined.

Fixpoint bits (p : positive) : string :=
  match p with xH => "" | xO p => String "0" (bits p) | xI p => String "1" (bits p) end.
Fixpoint of_bits (s : string) : option positive :=
  match s with
  | EmptyString => Some xH
  | String c s => p ← of_bits s;
      if Ascii.eqb c "0" then Some (xO p) else if Ascii.eqb c "1" then Some (xI p) else None
  end.

Lemma of_bits_bits p : of_bits (bits p) = Some p.
Proof. induction p as [p IH|p IH|]; cbn; rewrite ?IH; done. Qed.

Lemma bits_no_newline p : no_newline (bits p) = true.
Proof. induction p as [p IH|p IH|]; cbn; [exact IH|exact IH|done]. Qed.

#[export, refine] Instance bits_codec : LineCodec := {
  marshal l := Some (bits (encode l));
  decode_strict s := p ← of_bits s; decode p;
  faithful _ := True
}.
Proof.
  - intros l b [= <-]. apply bits_no_newline.
  - intros l b _ [= <-]. rewrite of_bits_bits. cbn. apply decode_encode.
Defined.

(** A digest that distinguishes states is not needed by any law; the witnesses
    use the intent id. *)
Definition sample_digest (s : State) : string := IntentID (s_Intent s).

Definition appended (j : Journal) (r : Rec) (after : State) : Journal :=
  fst (append sample_digest DiskOk j r after).

Lemma marshal_bits l : marshal l = Some (bits (encode l)).
Proof. done. Qed.

Lemma appended_eq j r after : append sample_digest DiskOk j r after = (appended j r after, None).
Proof. done. Qed.

Definition journal1 : Journal := appended (mkJournal "" 0) (start_rec 1 sample_buy) (started_state sample_buy).
Definition sample_state2 : State := state_of (firstn 2 sample_recs).
Definition journal2 : Journal := appended journal1 (send_rec 2 sample_submit "open") sample_state2.

Lemma written_appended j st rs r st' :
  written sample_digest j st rs -> Apply st r = Ok st' ->
  written sample_digest (appended j r st') st' (rs ++ [r]).
Proof. intros Hw Ha. by apply (written_snoc _ j st rs r st'). Qed.

Lemma written_journal1 : written sample_digest journal1 (started_state sample_buy) [start_rec 1 sample_buy].
Proof.
  refine (written_appended _ _ [] _ _ (written_nil _) _). vm_compute. reflexivity.
Qed.

Lemma written_journal2 :
  written sample_digest journal2 sample_state2 [start_rec 1 sample_buy; send_rec 2 sample_submit "open"].
Proof.
  refine (written_appended _ _ [_] _ _ written_journal1 _). vm_compute. reflexivity.
Qed.

Lemma journal_roundtrip_witness :
  openJournal sample_digest env_ok (j_file journal2) = (j_file journal2, Ok (journal2, sample_state2)).
Proof. apply (journal_roundtrip sample_digest _ _ _ written_journal2). Defined.

(** Everything but the newline reached the disk. *)
Lemma append_crash_atomic_witness :
  exists b, marshal (line_of sample_digest (j_seq journal1 + 1) (send_rec 2 sample_submit "open") sample_state2) = Some b /\
  openJournal sample_digest env_ok (j_file journal1 +:+ take_bytes (String.length b) (b +:+ String newline "")) =
    (j_file journal1, Ok (journal1, started_state sample_buy)).
Proof.
  eexists. split; [apply marshal_bits|].
  rewrite (append_crash_atomic sample_digest journal1 (started_state sample_buy) _
    (send_rec 2 sample_submit "open") sample_state2 _ _ written_journal1);
    [|vm_compute; reflexivity|done|apply marshal_bits].
  rewrite strlen_app, Nat.add_1_r.
  by rewrite (proj2 (Nat.ltb_lt _ _) (Nat.lt_succ_diag_r _)).
Defined.

Lemma replay_sound_witness :
  exists rs, run zero_state rs = Ok sample_state2 /\ length rs = 2%nat.
Proof.
  destruct (replay_sound sample_digest _ _ _ _ (written_replay _ _ _ _ written_journal2))
    as (rs & _ & _ & _ & _ & _ & Hr & Hn). exists rs. split; [exact Hr|]. cbn in Hn. lia.
Defined.

Lemma bad_x j st : bad_line sample_digest j st "x".
Proof. left. reflexivity. Qed.

Lemma corruption_detected_witness :
  exists e, openJournal sample_digest env_ok (j_file journal1 +:+ "x" +:+ String newline "") =
    (j_file journal1 +:+ "x" +:+ String newline "", Err (Corrupt e)).
Proof.
  exact (corruption_detected sample_digest journal1 _ _ "x" "" written_journal1 (bad_x _ _) eq_refl).
Defined.
