(* ===== verification/Executor.v ===== *)
(** [src/internal/exec/executor.go]: the executor, which drives the state
    machine, the journal and the gateway.

    What the executor does not control is the class [World]: the gateway's
    answers, the kill switch that another goroutine may flip between two
    steps, and how each disk write goes. [handed] is a ghost record of
    the children given to the gateway. *)

From S2P Require Import Prelude GoStr Tick Intent Machine Exposure Decide Journal.
Local Open Scope Z_scope.

(** ** The kill switch: [None] is a nil pointer *)

Definition KillSwitch : Type := option bool.
Definition Engage (k : KillSwitch) : option KillSwitch := (fun _ => Some true) <$> k.
Definition Release (k : KillSwitch) : option KillSwitch := (fun _ => Some false) <$> k.
Definition Engaged (k : KillSwitch) : bool := match k with None => true | Some b => b end.

(** ** The outside *)

(** [Gateway], the kill switch and the disk. *)
Class World (W : Type) := {
  Send : W -> Child -> W * result Outcome string;
  Query : W -> string -> W * result View string;
  kill_switch : W -> KillSwitch;
  disk : W -> W * disk_fault;
  handed : W -> list Child;
  handed_Send w c : handed (fst (Send w c)) = handed w ++ [c];
  handed_Query w id : handed (fst (Query w id)) = handed w;
  handed_disk w : handed (fst (disk w)) = handed w
}.

(** The errors the executor returns or latches. *)
Inductive exec_error :=
| EHalted (e : append_error)
| EIncomplete
| EAttribution (why : string)
| ETransition (e : transition_error)
| ENotSent (why : string)
| EReconcile (e : string)
| EOverfill (filled target : Z) (id : string).

(** [Executor]; the gateway and the kill switch are in the [World]. *)
Record Executor := mkExecutor {
  x_cfg : Config;
  x_j : Journal;
  x_state : State;
  x_top : option Top;
  x_err : option exec_error;
  x_ledgerComplete : bool
}.

Definition set_err (err : exec_error) (e : Executor) : Executor :=
  mkExecutor (x_cfg e) (x_j e) (x_state e) (x_top e) (Some err) (x_ledgerComplete e).
Definition set_journal (j : Journal) (e : Executor) : Executor :=
  mkExecutor (x_cfg e) j (x_state e) (x_top e) (x_err e) (x_ledgerComplete e).
Definition set_state (s : State) (e : Executor) : Executor :=
  mkExecutor (x_cfg e) (x_j e) s (x_top e) (x_err e) (x_ledgerComplete e).
Definition SetLedgerComplete (complete : bool) (e : Executor) : Executor :=
  mkExecutor (x_cfg e) (x_j e) (x_state e) (x_top e) (x_err e) complete.
Definition OnBook (t : Top) (e : Executor) : Executor :=
  mkExecutor (x_cfg e) (x_j e) (x_state e) (Some t) (x_err e) (x_ledgerComplete e).

Definition New (cfg : Config) (j : Journal) (s : State) : Executor :=
  mkExecutor cfg j s None None false.

Definition maxStepsPerTick : nat := 8.

(** ** What the executor journals *)

Definition state_ok (s : State) : Prop := s = zero_state \/ exec_ok s.

Definition halted (e : Executor) : bool :=
  match x_err e with Some (EHalted _) => true | _ => false end.

Definition int64_top (t : Top) : Prop :=
  in_int64 (t_Bid t) /\ in_int64 (t_Ask t) /\ in_int64 (t_AtNS t).

Lemma Apply_zero_exec r s' : Apply zero_state r = Ok s' -> exec_ok s'.
Proof.
  intros Ha. destruct (Apply_cases _ r s' Ha) as [? Hs|? ? Hs|? ? Hs|? ? Hs|? ? Hs|? ? Hs]; try done.
  unfold apply_start in Hs. destruct (r_Intent r) as [i|]; [|done]. cbn in Hs.
  destruct (Validate i) eqn:V; [done|]. simplify_eq. by apply exec_ok_started.
Qed.

(** The part of [rec_ok] that [commit] does not check itself. *)
Record pre_ok (s : State) (r : Rec) : Prop := {
  po_int64 : int64_rec r;
  po_send : forall c, sends r c ->
    c_Key c = child_key (IntentID (s_Intent s)) (length (s_Sent s) + 1) /\
    (c_Action c = ActSubmit -> c_TargetKey c = "") /\
    (is_send_action (c_Action c) = true -> c_Price c <= max_price);
  po_view : forall v o, r_Kind r = RecReconcile -> r_View r = Some v -> v_Order v = Some o -> order_sane o
}.

Definition caps_pass (s : State) (r : Rec) : Prop :=
  forall c, sends r c -> is_send_action (c_Action c) = true -> E1CapsRefusal s c = "".

Lemma state_ok_Apply s r s' :
  state_ok s -> pre_ok s r -> caps_pass s r -> Apply s r = Ok s' -> exec_ok s'.
Proof.
  intros [->|Hs] [Hi Hsend Hv] Hcaps Ha; [by apply (Apply_zero_exec r)|].
  apply (exec_ok_Apply s r s' Hs); [|done]. constructor; try done.
  intros c Hc. destruct (Hsend c Hc) as (? & ? & ?). repeat split; auto.
Qed.

(** What [Apply] keeps of the children already sent. *)
Lemma Apply_sent_mono s r s' c :
  state_ok s -> Apply s r = Ok s' -> c ∈ s_Sent s -> c ∈ s_Sent s'.
Proof.
  intros [->|Hs] Ha Hin; [by apply elem_of_nil in Hin|]. pose proof (eo_wf s Hs) as Wf.
  destruct (decide (r_Kind r = RecSend)) as [Hk|Hk].
  - destruct (Apply_cases s r s' Ha) as [Hx|? ? Hx|Hx|Hx|Hx|Hx];
      [rewrite Hk in Hx; discriminate Hx| |rewrite Hk in Hx; discriminate Hx..].
    destruct (apply_send_inv s r s' Wf Hx) as (d & _ & _ & _ & _ & _ & _ & _ & ->).
    cbn. destruct (is_send_action (c_Action d)); apply elem_of_app; by left.
  - destruct (Apply_keeps s r s' Wf Ha Hk) as [_ ->]. done.
Qed.

(** Records other than sends need only their 64-bit fields. *)
Lemma pre_ok_simple s r :
  int64_rec r -> r_Kind r <> RecSend -> r_Kind r <> RecReconcile -> pre_ok s r.
Proof. intros Hi H1 H2. constructor; [done| |]; intros ? [] ; done. Qed.

Lemma decision_pre_ok s i r :
  wf s -> in_int64 (now i) -> decision_ok s i (DRec r) -> pre_ok s r.
Proof.
  intros Wf Hn Hd. pose proof (Remaining_bound s Wf) as Hrem.
  inversion Hd as [| |reason ? ? ? ? E|o reason ? ? ? ? E|o q p Hop Ho Hq Hq2 Hp ? ? ? ? E
    |q p Hop Ho Hfit E]; subst r.
  - by apply pre_ok_simple.
  - constructor; [|intros c [_ [= <-]]; by cbn|done].
    constructor; cbn; try done. intros ? [= <-]. split; cbn; in64.
  - constructor; [|intros c [_ [= <-]]; cbn; repeat split; try done; tauto|done].
    constructor; cbn; try done. intros ? [= <-]. split; cbn; unfold max_price in *; in64.
  - destruct Hfit as (? & ? & _). constructor; [|intros c [_ [= <-]]; cbn; repeat split; try done; tauto|done].
    constructor; cbn; try done. intros ? [= <-]. split; cbn; unfold max_price in *; in64.
Qed.
Section Executor.
Context `{LineCodec} (Digest : State -> string).
(** [fmt]'s [%q]. *)
Context (quote : string -> string).
Context {W : Type} `{World W}.

(** [commit]: the world after the disk write, the executor, the error. *)
Definition commit (w : W) (e : Executor) (r : Rec) : W * Executor * option exec_error :=
  match x_err e with
  | Some err => (w, e, Some err)
  | None =>
      let why :=
        match r_Child r with
        | Some c => if (r_Kind r =s RecSend) && is_send_action (c_Action c)
                    then E1CapsRefusal (x_state e) c else ""
        | None => ""
        end in
      if why <>s "" then (w, e, Some (ENotSent why))
      else match Apply (x_state e) r with
           | Err te => (w, e, Some (ETransition te))
           | Ok next =>
               let '(w, fault) := disk w in
               let '(j, res) := append Digest fault (x_j e) r next in
               match res with
               | Some ae => (w, set_err (EHalted ae) (set_journal j e), Some (EHalted ae))
               | None => (w, set_state next (set_journal j e), None)
               end
           end
  end.

Definition Start (w : W) (e : Executor) (i : Intent) (now : Z) : W * Executor * option exec_error :=
  commit w e (start_rec now i).

Definition OnFill (w : W) (e : Executor) (f : Fill) : W * Executor * option exec_error :=
  if negb (Started (x_state e)) then (w, e, None)
  else if is_some (s_Fills (x_state e) !! f_FillID f) then (w, e, None)
  else if is_none (sentKey (x_state e) (f_Key f)) then (w, e, None)
  else
    let '(w, e, res) := commit w e (fill_rec f) in
    match res with
    | Some err => (w, e, Some err)
    | None =>
        if Overfill (x_state e) >? 0
        then (w, e, Some (EOverfill (s_Filled (x_state e)) (s_Target (x_state e)) (f_FillID f)))
        else (w, e, None)
    end.

(** The outcome [send] journals for the gateway's answer to [c]. *)
Definition answer (c : Child) (out : result Outcome string) : Outcome :=
  let out := match out with
             | Ok o => o
             | Err err => mkOutcome (c_Key c) StatusUncertain ("transport: " +:+ err) ""
             end in
  if oc_Key out <>s c_Key c
  then mkOutcome (c_Key c) StatusUncertain ("answer for key " +:+ quote (oc_Key out)) ""
  else out.

Definition send (w : W) (e : Executor) (c : Child) (now : Z) : W * Executor * option exec_error :=
  let '(w, out) := Send w c in
  commit w e (outcome_rec now (answer c out) (RequireLedgerComplete (x_cfg e))).

(** One iteration of [Tick]'s loop: continue, or return an error or nil. *)
Inductive control := Continue | Return (err : option exec_error).

Definition tick_step (w : W) (e : Executor) (t : Z) : option (W * Executor * control) :=
  match x_err e with
  | Some err => Some (w, e, Return (Some err))
  | None =>
      d ← Decide (x_state e) (mkInputs t (x_top e) (x_cfg e) (Engaged (kill_switch w)));
      match d with
      | DQuery =>
          let '(w, ans) := Query w (IntentID (s_Intent (x_state e))) in
          match ans with
          | Err err => Some (w, e, Return (Some (EReconcile err)))
          | Ok v =>
              let '(w, e, res) := commit w e (reconcile_rec t v (RequireLedgerComplete (x_cfg e))) in
              match res with
              | Some err => Some (w, e, Return (Some err))
              | None => Some (w, e, Continue)
              end
          end
      | DRec r =>
          if (r_Kind r =s RecFinish) && RequireLedgerComplete (x_cfg e) && negb (x_ledgerComplete e)
          then Some (w, set_err EIncomplete e, Return (Some EIncomplete))
          else
            let '(w, e, res) := commit w e r in
            match res, r_Child r with
            | Some err, _ => Some (w, e, Return (Some err))
            | None, Some c =>
                if r_Kind r =s RecSend then
                  let '(w, e, res) := send w e c t in
                  match res with
                  | Some err => Some (w, e, Return (Some err))
                  | None =>
                      if RequireLedgerComplete (x_cfg e)
                      then Some (w, SetLedgerComplete false e, Return None)
                      else Some (w, e, Continue)
                  end
                else Some (w, e, Continue)
            | None, None => Some (w, e, Continue)
            end
      | DNone => Some (w, e, Return None)
      end
  end.

Fixpoint tick_loop (steps : nat) (w : W) (e : Executor) (t : Z)
  : option (W * Executor * option exec_error) :=
  match steps with
  | O => Some (w, e, None)
  | S steps =>
      '(w, e, ctl) ← tick_step w e t;
      match ctl with Return err => Some (w, e, err) | Continue => tick_loop steps w e t end
  end.

(** [Tick]; [None] is a run-time panic. *)
Definition Tick (w : W) (e : Executor) (t : Z) : option (W * Executor * option exec_error) :=
  tick_loop maxStepsPerTick w e t.

(** ** The invariant of a running executor *)

(** The bytes on disk reopen, to the state in memory or one record past it. *)
Definition recovers (file : string) (s : State) : Prop :=
  exists j s' rs, openJournal Digest env_ok file = (j_file j, Ok (j, s')) /\
    written Digest j s' rs /\ state_ok s' /\
    (s' = s \/ exists r, Apply s r = Ok s').

Record inv (w : W) (e : Executor) : Prop := {
  i_state : state_ok (x_state e);
  i_handed : forall c, c ∈ handed w -> c ∈ s_Sent (x_state e);
  i_once : NoDup (map c_Key (handed w));
  i_journal : halted e = false -> exists rs, written Digest (x_j e) (x_state e) rs;
  i_disk : recovers (j_file (x_j e)) (x_state e);
  i_top : forall t, x_top e = Some t -> int64_top t;
  i_cfg : in_int64 (StepEvery (x_cfg e)) /\ in_int64 (StaleAfter (x_cfg e))
}.

(** The texts the executor journals are valid UTF-8. *)
Hypothesis Hfaithful : forall l b, marshal l = Some b -> faithful l.
(** The broker reports whole, positive prices and 64-bit numbers. *)
Hypothesis Hsane : forall w id w' v, Query w id = (w', Ok v) ->
  int64_view v /\ forall o, v_Order v = Some o -> order_sane o.

Lemma written_recovers j s rs : written Digest j s rs -> state_ok s -> recovers (j_file j) s.
Proof.
  intros Hw Hs. exists j, s, rs. split; [|split; [done|split; [done|by left]]].
  pose proof (written_consumed _ _ _ _ Hw) as (Hc & _ & _).
  pose proof (open_consumed _ _ "" _ _ Hc eq_refl) as Hopen.
  rewrite str_app_nil_r in Hopen. by destruct j.
Qed.

(** How an append leaves the journal: whole, or recoverable. *)
Lemma append_outcome fault j s rs r s' j' res :
  written Digest j s rs -> state_ok s -> state_ok s' -> Apply s r = Ok s' ->
  append Digest fault j r s' = (j', res) ->
  (res = None /\ written Digest j' s' (rs ++ [r])) \/
  (exists ae, res = Some ae /\ recovers (j_file j') s).
Proof using Hfaithful.
  intros Hw Hs Hs' Ha Happ. unfold append in Happ.
  destruct (marshal (line_of Digest (j_seq j + 1) r s')) as [b|] eqn:Em.
  2: { simplify_eq. right. eexists. split; [done|]. by apply (written_recovers _ _ rs). }
  assert (Hok : append Digest DiskOk j r s' =
    (mkJournal (j_file j +:+ b +:+ String newline "") (j_seq j + 1), None))
    by (unfold append; by rewrite Em).
  pose proof (written_snoc _ j s rs r s' _ Hw Ha (Hfaithful _ _ Em) Hok) as Hw'.
  destruct fault as [|k|]; simplify_eq; [by left| |].
  - right. eexists. split; [done|]. cbn [j_file].
    pose proof (append_crash _ j s rs r s' b k Hw Ha (Hfaithful _ _ Em) Em) as Hc. cbn zeta in Hc.
    destruct (k <? _)%nat.
    + exists j, s, rs. split; [done|]. split; [done|]. split; [done|by left].
    + exists (mkJournal (j_file j +:+ b +:+ String newline "") (j_seq j + 1)), s', (rs ++ [r]).
      split; [exact Hc|]. split; [exact Hw'|]. split; [done|]. right. by exists r.
  - right. eexists. split; [done|]. cbn [j_file].
    destruct (written_recovers _ _ _ Hw' Hs') as (j2 & s2 & rs2 & ? & ? & ? & Hcase).
    exists j2, s2, rs2. split; [done|]. split; [done|]. split; [done|].
    destruct Hcase as [->|[r2 Hr2]]; [right; by exists r|].
    pose proof (written_consumed _ _ _ _ Hw') as (Hc' & _ & _).
    pose proof (open_consumed _ _ "" _ _ Hc' eq_refl) as Hopen.
    rewrite str_app_nil_r in Hopen. cbn in *. right. exists r. congruence.
Qed.

(** Only the parts of [e] that the invariant reads matter. *)
Lemma inv_ext w e w' e' :
  inv w e -> handed w' = handed w -> x_state e' = x_state e -> x_j e' = x_j e ->
  x_cfg e' = x_cfg e -> x_top e' = x_top e -> (halted e' = false -> halted e = false) -> inv w' e'.
Proof.
  intros [] Hh Hs Hj Hc Ht Hhalt. constructor; rewrite ?Hh, ?Hs, ?Hj, ?Hc, ?Ht; auto.
Qed.

Record commit_post (w : W) (e : Executor) (r : Rec) (w' : W) (e' : Executor) (res : option exec_error) : Prop := {
  cp_inv : inv w' e';
  cp_handed : handed w' = handed w;
  cp_cfg : x_cfg e' = x_cfg e;
  cp_fail : forall err, res = Some err -> x_state e' = x_state e;
  cp_ok : res = None -> x_err e' = None /\ Apply (x_state e) r = Ok (x_state e') /\
            exec_ok (x_state e') /\ caps_pass (x_state e) r
}.

Lemma commit_fail w e r err : inv w e -> commit_post w e r w e (Some err).
Proof. intros Hi. by constructor. Qed.

Lemma commit_spec w e r w' e' res :
  inv w e -> pre_ok (x_state e) r -> commit w e r = (w', e', res) -> commit_post w e r w' e' res.
Proof using Hfaithful.
  intros Hi Hpre Hcom. unfold commit in Hcom.
  destruct (x_err e) as [err|] eqn:Eerr; [simplify_eq; by apply commit_fail|].
  set (why := match r_Child r with Some c => _ | None => _ end) in Hcom.
  destruct (why <>s "") eqn:Ew; [simplify_eq; by apply commit_fail|]. bool_simpl.
  assert (Hcaps : caps_pass (x_state e) r).
  { intros c [Hk Hc] Ha. subst why. rewrite Hc, Hk, Ha in Ew. exact Ew. }
  destruct (Apply (x_state e) r) as [next|te] eqn:Ea; [|simplify_eq; by apply commit_fail].
  assert (Hnext : exec_ok next) by (apply (state_ok_Apply (x_state e) r); try done; apply Hi).
  assert (Hh : halted e = false) by (unfold halted; by rewrite Eerr).
  destruct (i_journal w e Hi Hh) as [rs Hw].
  pose proof (handed_disk w) as Hd. destruct (disk w) as [w1 fault]. cbn [fst] in Hd.
  destruct (append Digest fault (x_j e) r next) as [j ares] eqn:Eapp.
  destruct (append_outcome fault (x_j e) (x_state e) rs r next j ares Hw (i_state w e Hi)
    (or_intror Hnext) Ea Eapp) as [[-> Hw']|(ae & -> & Hrec)]; simplify_eq.
  - constructor; cbn; try done. destruct Hi. constructor; cbn; rewrite ?Hd; try done.
    + by right.
    + intros c Hc. apply (Apply_sent_mono (x_state e) r); auto.
    + intros _. by eexists.
    + apply (written_recovers _ _ _ Hw'). by right.
  - constructor; cbn; try done. destruct Hi. constructor; cbn; rewrite ?Hd; try done.
Qed.

Lemma pre_ok_reconcile s t v d w id w' :
  in_int64 t -> Query w id = (w', Ok v) -> pre_ok s (reconcile_rec t v d).
Proof using Hsane.
  intros Ht Hq. destruct (Hsane _ _ _ _ Hq) as [Hv Ho]. constructor.
  - constructor; cbn; try done. by intros ? [= <-].
  - intros c [Hk _]. discriminate Hk.
  - cbn. intros v' o _ [= <-]. apply Ho.
Qed.


(** What one iteration of [Tick] decides from. *)
Definition step_inputs (w : W) (e : Executor) (t : Z) : inputs :=
  mkInputs t (x_top e) (x_cfg e) (Engaged (kill_switch w)).

(** What one iteration may hand to the gateway: nothing, a cancel, or one
    submit or amend under all its gates. *)
Definition justified (w : W) (e : Executor) (t : Z) (l : list Child) : Prop :=
  l = [] \/ exists c, l = [c] /\ SendEnabled (x_cfg e) = true /\
    (c_Action c = ActCancel \/ opened (x_state e) (step_inputs w e t)).

Lemma send_spec w e c t w' e' res :
  inv w e -> exec_ok (x_state e) -> in_int64 t -> c ∈ s_Sent (x_state e) ->
  (c_Key c ∉ map c_Key (handed w)) -> send w e c t = (w', e', res) ->
  inv w' e' /\ handed w' = handed w ++ [c] /\ x_cfg e' = x_cfg e.
Proof using Hfaithful.
  intros Hi Hs Ht Hc Hk Hsend. unfold send in Hsend.
  pose proof (handed_Send w c) as Hh. destruct (Send w c) as [w1 out]. cbn [fst] in Hh.
  assert (Hi1 : inv w1 e).
  { destruct Hi. constructor; rewrite ?Hh; try done.
    - intros d [Hd| ->%list_elem_of_singleton]%elem_of_app; [by apply i_handed0|done].
    - rewrite map_app. apply NoDup_app. repeat split; [done| |apply NoDup_singleton].
      intros k Hin ->%list_elem_of_singleton. done. }
  destruct (commit_spec w1 e _ w' e' res Hi1 (pre_ok_simple (x_state e) (outcome_rec t (answer c out)
    (RequireLedgerComplete (x_cfg e))) ltac:(by constructor) ltac:(done) ltac:(done)) Hsend).
  split; [done|]. split; [congruence|done].
Qed.

Lemma step_inputs_int64 w e t : inv w e -> in_int64 t -> int64_inputs (step_inputs w e t).
Proof. intros Hi Ht. split; [done|]. destruct (i_cfg w e Hi). split; [done|].
  split; [done|]. intros x Hx. by apply (i_top w e Hi). Qed.

Lemma Decide_step w e t :
  inv w e -> in_int64 t ->
  exists d, Decide (x_state e) (step_inputs w e t) = Some d /\
    (d = DNone \/ (exec_ok (x_state e) /\ decision_ok (x_state e) (step_inputs w e t) d)).
Proof.
  intros Hi Ht. destruct (i_state w e Hi) as [Hz|Hs].
  - exists DNone. rewrite Hz. split; [done|by left].
  - destruct (Decide_ok _ (step_inputs w e t) Hs (step_inputs_int64 w e t Hi Ht)) as (d & ? & ?).
    exists d. split; [done|by right].
Qed.

(** The children a record hands over, and why it may. *)
Lemma decision_child s i r :
  decision_ok s i (DRec r) ->
  (r_Child r = None /\ r_Kind r = RecFinish) \/
  exists c, sends r c /\ SendEnabled (cfg i) = true /\ (c_Action c = ActCancel \/ opened s i).
Proof.
  intros Hd. inversion Hd as [| | | |o q p Hop|q p Hop]; subst r;
    [by left|right; eexists; split; [done|]; split..];
    [done|by left|apply Hop|by right|apply Hop|by right].
Qed.

Lemma sent_last s r s' c :
  exec_ok s -> Apply s r = Ok s' -> sends r c -> c ∈ s_Sent s' /\ (c_Key c ∉ map c_Key (s_Sent s)).
Proof.
  intros Hs Ha [Hk Hc]. pose proof (eo_wf s Hs) as Wf.
  destruct (Apply_cases s r s' Ha) as [Hx|? ? Hx|Hx|Hx|Hx|Hx];
    [rewrite Hk in Hx; discriminate Hx| |rewrite Hk in Hx; discriminate Hx..].
  destruct (apply_send_inv s r s' Wf Hx) as (d & Hd & _ & Hfresh & _ & _ & _ & _ & ->).
  assert (d = c) as -> by congruence. split; [|done].
  cbn. destruct (is_send_action (c_Action c)); apply elem_of_app; right; by left.
Qed.

Record step_post (w : W) (e : Executor) (t : Z) (w' : W) (e' : Executor) (ctl : control) : Prop := {
  sp_inv : inv w' e';
  sp_cfg : x_cfg e' = x_cfg e;
  sp_sends : exists l, handed w' = handed w ++ l /\ justified w e t l /\
    (RequireLedgerComplete (x_cfg e) = true -> ctl = Continue -> l = [])
}.

Lemma step_post_quiet w e t w' e' ctl :
  inv w' e' -> x_cfg e' = x_cfg e -> handed w' = handed w -> step_post w e t w' e' ctl.
Proof.
  intros. constructor; try done. exists []. split; [by rewrite app_nil_r|]. split; [by left|done].
Qed.

Lemma tick_step_query w e t :
  inv w e -> in_int64 t -> exec_ok (x_state e) ->
  let '(w1, ans) := Query w (IntentID (s_Intent (x_state e))) in
  forall v w' e' res, ans = Ok v ->
    commit w1 e (reconcile_rec t v (RequireLedgerComplete (x_cfg e))) = (w', e', res) ->
    forall ctl, step_post w e t w' e' ctl.
Proof using Hfaithful Hsane.
  intros Hi Ht Hs. pose proof (handed_Query w (IntentID (s_Intent (x_state e)))) as Hh.
  destruct (Query w _) as [w1 ans] eqn:Eq. cbn [fst] in Hh. intros v w' e' res -> Hcom ctl.
  assert (Hi1 : inv w1 e) by (by apply (inv_ext w e)).
  destruct (commit_spec _ _ _ _ _ _ Hi1 (pre_ok_reconcile (x_state e) t v
    (RequireLedgerComplete (x_cfg e)) w _ w1 Ht Eq) Hcom).
  apply step_post_quiet; [done|done|congruence].
Qed.

(** A committed send goes out once, under the gates. *)
Lemma tick_step_send w e t r c w1 e1 w2 e2 res :
  inv w e -> in_int64 t -> exec_ok (x_state e) -> pre_ok (x_state e) r -> sends r c ->
  SendEnabled (cfg (step_inputs w e t)) = true /\ (c_Action c = ActCancel \/ opened (x_state e) (step_inputs w e t)) ->
  commit w e r = (w1, e1, None) -> send w1 e1 c t = (w2, e2, res) ->
  x_cfg e2 = x_cfg e /\
  forall ctl, (RequireLedgerComplete (x_cfg e) = true -> ctl <> Continue) -> step_post w e t w2 e2 ctl.
Proof using Hfaithful Hsane.
  intros Hi Ht Hs Hpre Hc Hwhy Ec Es. pose proof (commit_spec w e r w1 e1 None Hi Hpre Ec) as [Hi1 Hh1 Hc1 _ Hok1].
  destruct (Hok1 eq_refl) as (He1 & Ha1 & Hs1 & _).
  destruct (sent_last _ r _ c Hs Ha1 Hc) as [Hin Hfresh].
  destruct (send_spec w1 e1 c t w2 e2 res Hi1 Hs1 Ht Hin) as (Hi2 & Hh2 & Hc2); [|done|].
  { rewrite Hh1. intros (d & Hkd & Hd')%list_elem_of_fmap. apply Hfresh. rewrite Hkd.
    apply list_elem_of_fmap. exists d. split; [done|]. by apply (i_handed w e Hi). }
  split; [congruence|]. intros ctl Hctl. constructor; [done|congruence|]. exists [c]. split; [congruence|].
  split; [right; by exists c|]. intros Hr Hx. by destruct (Hctl Hr).
Qed.

Lemma tick_step_ok w e t :
  inv w e -> in_int64 t ->
  exists w' e' ctl, tick_step w e t = Some (w', e', ctl) /\ step_post w e t w' e' ctl.
Proof using Hfaithful Hsane.
  intros Hi Ht. unfold tick_step. destruct (x_err e) as [err|] eqn:Eerr.
  { eexists _, _, _. split; [done|]. by apply step_post_quiet. }
  destruct (Decide_step w e t Hi Ht) as (d & Hd & Hok). unfold step_inputs in Hd. rewrite Hd.
  cbn [mbind option_bind]. destruct Hok as [->|[Hs Hok]].
  { eexists _, _, _. split; [done|]. by apply step_post_quiet. }
  destruct d as [| |r].
  { eexists _, _, _. split; [done|]. by apply step_post_quiet. }
  - pose proof (tick_step_query w e t Hi Ht Hs) as Hq.
    pose proof (handed_Query w (IntentID (s_Intent (x_state e)))) as Hh.
    destruct (Query w _) as [w1 [v|err]]; cbn [fst] in Hh.
    + destruct (commit w1 e _) as [[w2 e2] res] eqn:Ec.
      specialize (Hq v w2 e2 res eq_refl Ec). destruct res; eexists _, _, _; (split; [done|apply Hq]).
    + eexists _, _, _. split; [done|]. apply step_post_quiet; [by apply (inv_ext w e)|done|done].
  - destruct (_ && _) eqn:Efin.
    { eexists _, _, _. split; [done|].
      apply step_post_quiet; [|done|done]. apply (inv_ext w e); try done.
      unfold halted. by rewrite Eerr. }
    pose proof (decision_pre_ok _ (step_inputs w e t) r (eo_wf _ Hs) Ht Hok) as Hpre.
    destruct (commit w e r) as [[w1 e1] res] eqn:Ec.
    pose proof (commit_spec w e r w1 e1 res Hi Hpre Ec) as [Hi1 Hh1 Hc1 _ _].
    assert (Hquiet : forall ctl, step_post w e t w1 e1 ctl) by (intros; by apply step_post_quiet).
    destruct res as [err|]; [eexists _, _, _; split; [done|apply Hquiet]|].
    destruct (decision_child _ _ r Hok) as [[-> _]|(c & Hc & Hwhy)];
      [eexists _, _, _; split; [done|apply Hquiet]|].
    pose proof Hc as [Hk Hch]. rewrite Hch, Hk, string_eqb_refl.
    destruct (send w1 e1 c t) as [[w2 e2] res] eqn:Es.
    destruct (tick_step_send w e t r c w1 e1 w2 e2 res Hi Ht Hs Hpre Hc Hwhy Ec Es) as [Hc2 Hpost].
    destruct res as [err|]; [eexists _, _, _; split; [done|by apply Hpost]|].
    rewrite Hc2. destruct (RequireLedgerComplete (x_cfg e)) eqn:Er.
    + eexists _, _, _. split; [done|]. destruct (Hpost (Return None) ltac:(done)) as [Hp1 Hp2 Hp3].
      rewrite Er in Hp3. constructor; [by apply (inv_ext w2 e2)|done|by rewrite Er].
    + eexists _, _, _; split; [done|by apply Hpost].
Qed.

(** ** The whole of [Tick] *)

(** What a tick hands over: all of it under the gates, one child at most
    when the ledger must be complete. *)
Record tick_post (w : W) (e : Executor) (steps : nat) (w' : W) (e' : Executor) : Prop := {
  tp_inv : inv w' e';
  tp_cfg : x_cfg e' = x_cfg e;
  tp_sends : exists l, handed w' = handed w ++ l /\ (length l <= steps)%nat /\
    (SendEnabled (x_cfg e) = false -> l = []) /\
    ((forall v, Engaged (kill_switch v) = true) -> Forall (fun c => c_Action c = ActCancel) l) /\
    (RequireLedgerComplete (x_cfg e) = true -> (length l <= 1)%nat)
}.

Lemma justified_gates w e t l : justified w e t l ->
  (length l <= 1)%nat /\ (SendEnabled (x_cfg e) = false -> l = []) /\
  ((forall v, Engaged (kill_switch v) = true) -> Forall (fun c => c_Action c = ActCancel) l).
Proof.
  intros [->|(c & -> & He & Hc)]; [split; [cbn; lia|done]|].
  split; [cbn; lia|]. split; [intros; congruence|].
  intros Hk. apply Forall_singleton. destruct Hc as [|Hop]; [done|].
  pose proof (op_killed _ _ Hop) as Hx. cbn in Hx. rewrite Hk in Hx. discriminate Hx.
Qed.

Lemma tick_loop_ok steps : forall w e t,
  inv w e -> in_int64 t ->
  exists w' e' res, tick_loop steps w e t = Some (w', e', res) /\ tick_post w e steps w' e'.
Proof using Hfaithful Hsane.
  induction steps as [|steps IH]; intros w e t Hi Ht; cbn [tick_loop].
  { eexists _, _, _. split; [done|]. constructor; try done. exists [].
    split; [by rewrite app_nil_r|]. cbn. split; [lia|]. repeat split; try done; lia. }
  destruct (tick_step_ok w e t Hi Ht) as (w1 & e1 & ctl & -> & [Hi1 Hc1 (l1 & Hh1 & Hj & Hr1)]).
  cbn [mbind option_bind]. destruct (justified_gates _ _ _ _ Hj) as (Hl1 & Hoff & Hkill).
  destruct ctl as [|res].
  - destruct (IH w1 e1 t Hi1 Ht) as (w2 & e2 & res & -> & [Hi2 Hc2 (l2 & Hh2 & Hl & Ho2 & Hk2 & Hr2)]).
    eexists _, _, _. split; [done|]. constructor; [done|congruence|]. exists (l1 ++ l2).
    rewrite Hh2, Hh1, app_assoc, length_app, Hc1 in *. split; [done|]. split; [lia|].
    split; [|split].
    + intros E. by rewrite (Hoff E), (Ho2 E).
    + intros E. apply Forall_app. split; auto.
    + intros E. rewrite (Hr1 E eq_refl). cbn. by apply Hr2.
  - eexists _, _, _. split; [done|]. constructor; [done|done|]. exists l1.
    split; [done|]. split; [lia|]. done.
Qed.

(** C26: one tick. From every reachable executor, at every time, [Tick] returns
    without a panic and keeps the invariant (memory state, journal and gateway
    log agree); it hands over at most one child per step, nothing at all while
    sending is disabled, only cancels while the kill switch is engaged, and a
    single child when the ledger must be complete. *)
Theorem Tick_safe w e t :
  inv w e -> in_int64 t ->
  exists w' e' res, Tick w e t = Some (w', e', res) /\ tick_post w e maxStepsPerTick w' e'.
Proof using Hfaithful Hsane. apply tick_loop_ok. Qed.

(** A latched error is final. Once an error is latched, whatever it is,
    every operation returns it and changes neither the world nor the
    executor. *)
Theorem latched_error w e err i f t :
  x_err e = Some err ->
  Tick w e t = Some (w, e, Some err) /\ Start w e i t = (w, e, Some err) /\
  (OnFill w e f = (w, e, Some err) \/ OnFill w e f = (w, e, None)).
Proof.
  intros He. split; [|split].
  - unfold Tick. cbn [maxStepsPerTick tick_loop]. unfold tick_step. by rewrite He.
  - unfold Start, commit. by rewrite He.
  - unfold OnFill, commit. rewrite He.
    destruct (negb _); [by right|]. destruct (is_some _); [by right|].
    destruct (is_none _); [by right|by left].
Qed.

(** ** The executor over its life, restarts included *)

Inductive op :=
| OpStart (i : Intent) (t : Z)
| OpBook (t : Top)
| OpFill (f : Fill)
| OpTick (t : Z)
| OpLedger (complete : bool)
| OpReopen (cfg : Config).

Definition int64_op (o : op) : Prop :=
  match o with
  | OpStart _ t => in_int64 t
  | OpBook t => int64_top t
  | OpFill f => int64_fill f
  | OpTick t => in_int64 t
  | OpLedger _ => True
  | OpReopen cfg => in_int64 (StepEvery cfg) /\ in_int64 (StaleAfter cfg)
  end.

(** One operation. [OpReopen] is a crash or a restart: only the bytes of the
    journal survive. *)
Definition sys_step (w : W) (e : Executor) (o : op) : option (W * Executor) :=
  match o with
  | OpStart i t => let '(w, e, _) := Start w e i t in Some (w, e)
  | OpBook t => Some (w, OnBook t e)
  | OpFill f => let '(w, e, _) := OnFill w e f in Some (w, e)
  | OpTick t => '(w, e, _) ← Tick w e t; Some (w, e)
  | OpLedger b => Some (w, SetLedgerComplete b e)
  | OpReopen cfg =>
      match openJournal Digest env_ok (j_file (x_j e)) with
      | (_, Ok (j, s)) => Some (w, New cfg j s)
      | (_, Err _) => None
      end
  end.

Fixpoint sys_run (w : W) (e : Executor) (os : list op) : option (W * Executor) :=
  match os with
  | [] => Some (w, e)
  | o :: os => '(w, e) ← sys_step w e o; sys_run w e os
  end.

Lemma OnFill_inv w e f w' e' res :
  inv w e -> int64_fill f -> OnFill w e f = (w', e', res) -> inv w' e' /\ handed w' = handed w.
Proof using Hfaithful.
  intros Hi Hf Hon. unfold OnFill in Hon.
  destruct (negb _); [by simplify_eq|]. destruct (is_some _); [by simplify_eq|].
  destruct (is_none _); [by simplify_eq|].
  destruct (commit w e (fill_rec f)) as [[w1 e1] r] eqn:Ec.
  destruct (commit_spec w e _ w1 e1 r Hi (pre_ok_simple (x_state e) (fill_rec f)
    (int64_fill_rec f Hf) ltac:(done) ltac:(done)) Ec).
  destruct r; [by simplify_eq|]. destruct (Overfill _ >? 0); by simplify_eq.
Qed.

Lemma reopen_inv w e cfg :
  inv w e -> int64_op (OpReopen cfg) ->
  exists j s, openJournal Digest env_ok (j_file (x_j e)) = (j_file j, Ok (j, s)) /\
    inv w (New cfg j s).
Proof.
  intros [Hs Hh Ho _ (j & s' & rs & Hopen & Hw & Hok & Hcase) _ _] Hcfg.
  exists j, s'. split; [done|]. constructor; cbn; try done.
  - intros c Hc. destruct Hcase as [->|[r Hr]]; [by apply Hh|].
    apply (Apply_sent_mono (x_state e) r); auto.
  - intros _. by exists rs.
  - by apply (written_recovers _ _ rs).
Qed.

Lemma sys_step_inv w e o :
  inv w e -> int64_op o ->
  exists w' e', sys_step w e o = Some (w', e') /\ inv w' e' /\
    exists l, handed w' = handed w ++ l.
Proof using Hfaithful Hsane.
  intros Hi Ho.
  assert (Hnil : forall w', handed w' = handed w -> exists l, handed w' = handed w ++ l)
    by (intros; exists []; by rewrite app_nil_r).
  destruct o as [i t|t|f|t|b|cfg]; cbn [sys_step int64_op] in *.
  - destruct (Start w e i t) as [[w1 e1] res] eqn:Es.
    destruct (commit_spec w e _ w1 e1 res Hi (pre_ok_simple (x_state e) (start_rec t i)
      ltac:(by constructor) ltac:(done) ltac:(done)) Es).
    eexists _, _. split; [done|]. auto.
  - eexists _, _. split; [done|]. split; [|by apply Hnil]. destruct Hi. constructor; try done.
    by intros ? [= <-].
  - destruct (OnFill w e f) as [[w1 e1] res] eqn:Ef.
    destruct (OnFill_inv w e f w1 e1 res Hi Ho Ef). eexists _, _. split; [done|]. auto.
  - destruct (tick_loop_ok maxStepsPerTick w e t Hi Ho) as (w1 & e1 & res & Et & [Hi1 _ (l & Hl & _)]).
    unfold Tick. rewrite Et. eexists _, _. split; [done|]. split; [done|]. by exists l.
  - eexists _, _. split; [done|]. split; [|by apply Hnil]. by apply (inv_ext w e).
  - destruct (reopen_inv w e cfg Hi Ho) as (j & s & -> & Hn).
    eexists _, _. split; [done|]. split; [done|by apply Hnil].
Qed.

Lemma sys_run_inv os : forall w e,
  inv w e -> Forall int64_op os -> exists w' e', sys_run w e os = Some (w', e') /\ inv w' e'.
Proof using Hfaithful Hsane.
  induction os as [|o os IH]; intros w e Hi Hos; cbn [sys_run]; [by eexists _, _|].
  apply Forall_cons in Hos as [Ho Hos].
  destruct (sys_step_inv w e o Hi Ho) as (w1 & e1 & -> & Hi1 & _). cbn [mbind option_bind].
  by apply IH.
Qed.

(** An executor on a new, empty journal. *)
Definition fresh (cfg : Config) : Executor := New cfg (mkJournal "" 0) zero_state.

Lemma inv_fresh w cfg : handed w = [] -> int64_op (OpReopen cfg) -> inv w (fresh cfg).
Proof.
  intros Hh Hcfg. constructor; cbn; rewrite ?Hh; try done.
  - by left.
  - constructor.
  - intros _. exists []. constructor.
  - apply (written_recovers (mkJournal "" 0) _ []); [constructor|by left].
Qed.


(** C4: caps are never exceeded. Over any sequence of operations and
    restarts, what was handed to the gateway stays within E1's caps: the sums
    of the lineages' high-water quantities and notionals are at most the
    intent's, the projected position is inside its range, and every child
    handed over is of a price no worse than the cap. *)
Theorem caps_never_exceeded w cfg os :
  handed w = [] -> int64_op (OpReopen cfg) -> Forall int64_op os ->
  exists w' e', sys_run w (fresh cfg) os = Some (w', e') /\
    (x_state e' = zero_state \/
     (Validate (s_Intent (x_state e')) = None /\
      total_qty (x_state e') <= MaxQuantity (s_Intent (x_state e')) /\
      total_notional (x_state e') <= MaxNotionalKRW (s_Intent (x_state e')) /\
      (0 < total_qty (x_state e') ->
       MinPositionAfter (in_Inventory (s_Intent (x_state e'))) <= projected (x_state e')
         <= MaxPositionAfter (in_Inventory (s_Intent (x_state e')))))) /\
    forall c, c ∈ handed w' -> sent_ok (x_state e') c.
Proof using Hfaithful Hsane.
  intros Hh Hcfg Hos. destruct (sys_run_inv os w (fresh cfg) (inv_fresh w cfg Hh Hcfg) Hos)
    as (w' & e' & Hrun & Hi). exists w', e'. split; [done|].
  destruct (i_state w' e' Hi) as [Hz|Hs].
  - split; [by left|]. intros c Hc%(i_handed w' e' Hi). rewrite Hz in Hc. by apply elem_of_nil in Hc.
  - split.
    + right. destruct (eo_caps _ Hs). split; [apply Hs|]. done.
    + intros c Hc%(i_handed w' e' Hi).
      by apply (proj1 (Forall_forall _ _) (wf_sent _ (eo_wf _ Hs))).
Qed.
End Executor.

(** ** A concrete world *)

(** A gateway that accepts every child and reports no working order; disk
    faults come from a list. *)
Record SimpleWorld := mkSimple { sw_log : list Child; sw_kill : bool; sw_faults : list disk_fault }.

#[export, refine] Instance simple_world : World SimpleWorld := {
  Send w c := (mkSimple (sw_log w ++ [c]) (sw_kill w) (sw_faults w),
               Ok (mkOutcome (c_Key c) StatusAccepted "" "77"));
  Query w _ := (w, Ok (mkView None 0));
  kill_switch w := Some (sw_kill w);
  disk w := match sw_faults w with
            | [] => (w, DiskOk)
            | f :: fs => (mkSimple (sw_log w) (sw_kill w) fs, f)
            end;
  handed := sw_log
}.
Proof. all: try done. intros []. by destruct sw_faults0. Defined.

Definition sample_quote (s : string) : string := s.

Lemma simple_faithful : forall l b, marshal l = Some b -> faithful l.
Proof. done. Qed.

Lemma simple_sane : forall (w : SimpleWorld) id w' v, Query w id = (w', Ok v) ->
  int64_view v /\ forall o, v_Order v = Some o -> order_sane o.
Proof. intros w id w' v [= <- <-]. split; [split; [cbn; in64|done]|done]. Qed.

(** Start, a book, a tick that opens the order, a restart, a torn write. *)
Definition sample_ops : list op :=
  [OpStart sample_buy 1; OpBook sample_top; OpTick 1000; OpReopen sample_cfg;
   OpFill (mkFill "x1" (sample_id +:+ ":1") 3 70000 5); OpTick 2000].
Definition sample_world : SimpleWorld := mkSimple [] false [DiskOk; DiskOk; WriteFails 7].

Lemma sample_cfg_ok : int64_op (OpReopen sample_cfg).
Proof. cbn. in64. Qed.

Lemma sample_ops_ok : Forall int64_op sample_ops.
Proof.
  repeat (apply Forall_cons; split); [..|constructor]; cbn; unfold int64_top, int64_fill; cbn; in64.
Qed.

Lemma Tick_safe_witness :
  exists w' e' res, Tick sample_digest sample_quote sample_world (fresh sample_cfg) 1000 = Some (w', e', res) /\
    tick_post sample_digest sample_world (fresh sample_cfg) maxStepsPerTick w' e'.
Proof.
  apply (Tick_safe sample_digest sample_quote simple_faithful simple_sane).
  - apply inv_fresh; [reflexivity|apply sample_cfg_ok].
  - in64.
Defined.

Lemma latched_error_witness :
  Tick sample_digest sample_quote sample_world (set_err EIncomplete (fresh sample_cfg)) 5 =
    Some (sample_world, set_err EIncomplete (fresh sample_cfg), Some EIncomplete).
Proof.
  apply (latched_error sample_digest sample_quote sample_world (set_err EIncomplete (fresh sample_cfg))
    EIncomplete sample_buy sample_fill1 5). reflexivity.
Defined.


Lemma caps_never_exceeded_witness :
  exists w' e', sys_run sample_digest sample_quote sample_world (fresh sample_cfg) sample_ops = Some (w', e') /\
    forall c, c ∈ sw_log w' -> sent_ok (x_state e') c.
Proof.
  destruct (caps_never_exceeded sample_digest sample_quote simple_faithful simple_sane sample_world
    sample_cfg sample_ops eq_refl sample_cfg_ok sample_ops_ok) as (w' & e' & Hrun & _ & Hs).
  exists w', e'. split; [exact Hrun|exact Hs].
Defined.
