(* ===== verification/Ledger.v ===== *)
(** [src/internal/exec/ledger.go]: binding ledger fills to the broker orders
    the journal recorded, and the broker orders an executor owns. *)

From Stdlib Require Import Ascii.
From stdpp Require Import sorting.
From S2P Require Import Prelude GoStr KST Tick Intent Machine Exposure Decide Journal Executor.
Local Open Scope Z_scope.

(** [orderDay]: a normalized order number and a trading day. *)
Record orderDay := mkOrderDay { od_number : string; od_day : string }.
#[export] Instance orderDay_eq_dec : EqDecision orderDay. Proof. solve_decision. Defined.
#[export] Instance orderDay_countable : Countable orderDay.
Proof.
  refine (inj_countable' (fun o => (od_number o, od_day o)) (fun '(a, b) => mkOrderDay a b) _).
  by intros [].
Defined.

Definition NormalizeOrderNumber (number : string) : string := TrimLeftByte "0" (TrimSpace number).

Definition orderIdentity (number : string) (atNS : Z) : orderDay :=
  mkOrderDay (NormalizeOrderNumber number) (format_date (kst_date atNS)).

(** ** [brokerKeys] *)

Inductive key_error := SendMissing | AllZeroNumber | MultipleKeys.

(** The two maps the callback of [brokerKeys] fills. *)
Definition key_maps : Type := gmap string Rec * gmap orderDay string.

(** The callback, on one record. *)
Definition keys_rec (r : Rec) (m : key_maps) : result key_maps key_error :=
  let '(sends, keys) := m in
  let sends :=
    match r_Child r with
    | Some c => if r_Kind r =s RecSend then <[c_Key c := r]> sends else sends
    | None => sends
    end in
  match r_Outcome r with
  | None => Ok (sends, keys)
  | Some o =>
      if (r_Kind r <>s RecOutcome) || (oc_Status o <>s StatusAccepted)
         || (TrimSpace (oc_BrokerOrderID o) =s "") then Ok (sends, keys)
      else match sends !! oc_Key o with
           | None => Err SendMissing
           | Some s =>
               if match r_Child s with Some c => c_Action c =s ActCancel | None => false end
               then Ok (sends, keys)
               else if NormalizeOrderNumber (oc_BrokerOrderID o) =s "" then Err AllZeroNumber
               else
                 let id := orderIdentity (oc_BrokerOrderID o) (r_AtNS s) in
                 match keys !! id with
                 | Some previous => if previous <>s oc_Key o then Err MultipleKeys
                                    else Ok (sends, <[id := oc_Key o]> keys)
                 | None => Ok (sends, <[id := oc_Key o]> keys)
                 end
           end
  end.

Inductive broker_error := BReadFailed | BLine (e : line_error key_error) | BUnknownKey.

(** [BrokerOrder]. *)
Record BrokerOrder := mkBrokerOrder {
  bo_BrokerOrderID : string; bo_Key : string; bo_TradingDay : string; bo_Qty : Z
}.
Definition key_le (a b : BrokerOrder) : Prop := String.leb (bo_Key a) (bo_Key b) = true.
#[export] Instance key_le_dec a b : Decision (key_le a b).
Proof. unfold key_le. apply _. Defined.

(** ** What a journal binds *)

(** The last send record of each key. *)
Definition add_send (sends : gmap string Rec) (r : Rec) : gmap string Rec :=
  match r_Child r with
  | Some c => if r_Kind r =s RecSend then <[c_Key c := r]> sends else sends
  | None => sends
  end.
Definition sends_of (rs : list Rec) : gmap string Rec := fold_left add_send rs ∅.

(** [r] is an accepted submit or amend of key [k] under order identity [id],
    after the records [before]. *)
Definition binds_at (before : list Rec) (r : Rec) (id : orderDay) (k : string) : Prop :=
  exists o s, r_Kind r = RecOutcome /\ r_Outcome r = Some o /\ oc_Status o = StatusAccepted /\
    TrimSpace (oc_BrokerOrderID o) <> "" /\ oc_Key o = k /\ sends_of before !! k = Some s /\
    (forall c, r_Child s = Some c -> c_Action c <> ActCancel) /\
    id = orderIdentity (oc_BrokerOrderID o) (r_AtNS s).

(** The records bind broker order [id] to child key [k]. *)
Definition binds (rs : list Rec) (id : orderDay) (k : string) : Prop :=
  exists before r after, rs = before ++ r :: after /\ binds_at before r id k.

Section Ledger.
Context `{LineCodec} (Digest : State -> string).
Context {W : Type} `{World W}.

(** [brokerKeys]; [read_ok] is whether the file could be read back. *)
Definition brokerKeys (read_ok : bool) (j : Journal) : result (gmap orderDay string) broker_error :=
  if negb read_ok then Err BReadFailed
  else match eachLine (fun _ l => keys_rec (jl_Rec l)) (j_file j) (∅, ∅) with
       | (_, keys, _, _, None) => Ok keys
       | (_, _, _, _, Some e) => Err (BLine e)
       end.

(** [OnLedgerFill]. *)
Definition OnLedgerFill (read_ok : bool) (w : W) (e : Executor) (brokerOrderID : string) (f : Fill)
  : W * Executor * option exec_error :=
  let fail why := (w, set_err (EAttribution why) e, Some (EAttribution why)) in
  match x_err e with
  | Some err => (w, e, Some err)
  | None =>
      if negb (Started (x_state e)) || (NormalizeOrderNumber brokerOrderID =s "")
         || (f_AtNS f <=? 0) || (f_FillID f =s "") || (f_Qty f <=? 0) || (f_Price f <=? 0)
      then fail "incomplete ledger evidence"
      else match brokerKeys read_ok (x_j e) with
           | Err _ => fail "journal"
           | Ok keys =>
               match keys !! orderIdentity brokerOrderID (f_AtNS f) with
               | None => fail "broker order is absent from the journal"
               | Some key =>
                   if (f_Key f <>s "") && (f_Key f <>s key)
                   then fail "ledger key disagrees with journal broker order"
                   else
                     let f := mkFill (f_FillID f) key (f_Qty f) (f_Price f) (f_AtNS f) in
                     match s_Fills (x_state e) !! f_FillID f with
                     | Some previous =>
                         if decide (previous = f) then OnFill Digest w e f
                         else fail "ledger fill id changed evidence"
                     | None => OnFill Digest w e f
                     end
               end
           end
  end.

Fixpoint broker_orders (s : State) (ids : list (orderDay * string)) : option (list BrokerOrder) :=
  match ids with
  | [] => Some []
  | (id, key) :: ids =>
      c ← sentKey s key; out ← broker_orders s ids;
      Some (mkBrokerOrder (od_number id) key (od_day id) (c_Qty c) :: out)
  end.

(** [BrokerOrders]. *)
Definition BrokerOrders (read_ok : bool) (e : Executor) : result (list BrokerOrder) broker_error :=
  match brokerKeys read_ok (x_j e) with
  | Err err => Err err
  | Ok keys =>
      match broker_orders (x_state e) (map_to_list keys) with
      | None => Err BUnknownKey
      | Some out => Ok (merge_sort key_le out)
      end
  end.

(** ** The journal's records, read back *)

(** Complete lines that decode to these records, numbered from [n]. *)
Inductive lines : string -> Z -> list Rec -> Prop :=
| lines_nil n : lines "" n []
| lines_cons line l rest n rs :
    no_newline line = true -> decode_strict line = Some l ->
    jl_V l = JournalVersion -> jl_Seq l = n + 1 -> lines rest (n + 1) rs ->
    lines (line +:+ String newline rest) n (jl_Rec l :: rs).

Lemma lines_snoc body n rs line l :
  lines body n rs -> no_newline line = true -> decode_strict line = Some l ->
  jl_V l = JournalVersion -> jl_Seq l = n + Z.of_nat (length rs) + 1 ->
  lines (body +:+ line +:+ String newline "") n (rs ++ [jl_Rec l]).
Proof.
  induction 1 as [|line0 l0 rest n rs Hn Hd Hv Hq _ IH]; intros Hl Hdl Hvl Hql.
  - cbn. apply lines_cons; try done; [cbn in Hql; lia|constructor].
  - rewrite <- str_app_assoc. change (String newline rest +:+ line +:+ String newline "")
      with (String newline (rest +:+ line +:+ String newline "")).
    apply lines_cons; try done. apply IH; try done. cbn [length] in Hql. lia.
Qed.

Lemma written_lines j st rs : written Digest j st rs -> lines (j_file j) 0 rs.
Proof.
  induction 1 as [|j st rs r st' j' Hw IH Ha Hf Happ]; [constructor|].
  pose proof (written_consumed _ _ _ _ Hw) as (_ & _ & Hseq).
  unfold append in Happ. destruct (marshal _) as [b|] eqn:Em; [|done]. simplify_eq. cbn.
  change r with (jl_Rec (line_of Digest (j_seq j + 1) r st')) at 1.
  apply lines_snoc; try done.
  - by apply marshal_one_line in Em.
  - by apply marshal_decode.
  - cbn. lia.
Qed.

Fixpoint fold_keys (rs : list Rec) (m : key_maps) : result key_maps key_error :=
  match rs with
  | [] => Ok m
  | r :: rs => match keys_rec r m with Ok m => fold_keys rs m | Err e => Err e end
  end.

Lemma lines_fold body n rs : lines body n rs -> forall fuel e m,
  (String.length body < fuel)%nat ->
  exists acc n' e',
    line_loop (fun _ l => keys_rec (jl_Rec l)) fuel body n e m =
      Some (acc, n', e', match fold_keys rs m with Ok _ => None | Err er => Some (Refused er) end) /\
    (forall m', fold_keys rs m = Ok m' -> acc = m').
Proof.
  induction 1 as [n|line l rest n rs Hn Hd Hv Hq _ IH]; intros fuel e m Hf; (destruct fuel; [lia|]).
  - exists m, n, e. split; [done|]. by intros m' [= ->].
  - rewrite strlen_app in Hf. cbn in Hf. cbn [line_loop fold_keys].
    rewrite split_line_app by done.
    destruct (line +:+ String newline rest) eqn:E; [by destruct line|]. clear E.
    rewrite Hd, Hv, Hq, !Z.eqb_refl. cbn [negb orb].
    destruct (keys_rec (jl_Rec l) m) as [m1|er].
    + apply IH. lia.
    + eexists _, _, _. split; [done|]. done.
Qed.

(** What [brokerKeys] computes on a well-written journal. *)
Lemma brokerKeys_fold j st rs :
  written Digest j st rs ->
  brokerKeys true j =
    match fold_keys rs (∅, ∅) with Ok m => Ok (snd m) | Err e => Err (BLine (Refused e)) end.
Proof.
  intros Hw%written_lines. unfold brokerKeys, eachLine. cbn [negb].
  destruct (lines_fold _ _ _ Hw (S (String.length (j_file j))) 0%nat (∅, ∅) ltac:(lia))
    as (acc & n' & e' & -> & Hacc). cbn [default]. unfold id.
  destruct (fold_keys rs (∅, ∅)) as [m|er].
  - rewrite (Hacc m eq_refl). by destruct m.
  - by destruct acc.
Qed.

(** ** What the keys are *)

Lemma fold_keys_snoc rs r m :
  fold_keys (rs ++ [r]) m =
    match fold_keys rs m with Ok m => keys_rec r m | Err e => Err e end.
Proof.
  revert m. induction rs as [|r0 rs IH]; intros m; cbn; [by destruct (keys_rec r m)|].
  destruct (keys_rec r0 m); [apply IH|done].
Qed.

Lemma sends_of_snoc rs r : sends_of (rs ++ [r]) = add_send (sends_of rs) r.
Proof. unfold sends_of. by rewrite fold_left_app. Qed.

Lemma binds_snoc rs r id k : binds (rs ++ [r]) id k <-> binds rs id k \/ binds_at rs r id k.
Proof.
  split.
  - intros (a & r' & b & E & Hb). destruct b as [|x b _] using rev_ind.
    + apply app_inj_tail in E as [-> ->]. by right.
    + rewrite app_comm_cons, app_assoc in E. apply app_inj_tail in E as [-> _].
      left. by exists a, r', b.
  - intros [(a & r' & b & -> & Hb)|Hb].
    + exists a, r', (b ++ [r]). by rewrite <- app_assoc.
    + by exists rs, r, [].
Qed.

(** One record: the sends, and exactly the binding it adds. *)
Lemma keys_rec_ok before r m m' :
  fst m = sends_of before -> keys_rec r m = Ok m' ->
  fst m' = sends_of (before ++ [r]) /\
  forall id k, snd m' !! id = Some k <-> snd m !! id = Some k \/ binds_at before r id k.
Proof.
  destruct m as [sends keys]. cbn. intros -> Hk. rewrite sends_of_snoc. unfold keys_rec in Hk.
  fold (add_send (sends_of before) r) in Hk.
  assert (Hno : (forall id k, ~ binds_at before r id k) -> Ok (E := key_error) (add_send (sends_of before) r, keys) = Ok m' ->
    fst m' = add_send (sends_of before) r /\
    forall id k, snd m' !! id = Some k <-> keys !! id = Some k \/ binds_at before r id k).
  { intros Hn [= <-]. split; [done|]. intros id k. specialize (Hn id k). tauto. }
  destruct (r_Outcome r) as [o|] eqn:Eo.
  2: { apply Hno; [|done]. intros id k (? & ? & ? & ? & ?). congruence. }
  destruct (_ || (TrimSpace _ =s "")) eqn:E1.
  { apply Hno; [|done]. intros id k (o' & s & H1 & H2 & H3 & H4 & _).
    assert (o' = o) as -> by congruence. rewrite H1, H3, !string_eqb_refl in E1. cbn in E1. bool_simpl. done. }
  bool_simpl.
  assert (Ea : add_send (sends_of before) r = sends_of before).
  { unfold add_send. rewrite H1. by destruct (r_Child r). }
  rewrite Ea in *. destruct (sends_of before !! oc_Key o) as [s|] eqn:Es; [|done].
  destruct (match r_Child s with Some c => c_Action c =s ActCancel | None => false end) eqn:Ec.
  { apply Hno; [|done]. intros id k (o' & s' & _ & H5 & _ & _ & H6 & H7 & H8 & _).
    assert (o' = o) as -> by congruence. assert (s' = s) as -> by congruence.
    destruct (r_Child s) as [c|]; [|done]. bool_simpl. by destruct (H8 c eq_refl). }
  destruct (NormalizeOrderNumber _ =s "") eqn:En; [done|].
  set (id0 := orderIdentity (oc_BrokerOrderID o) (r_AtNS s)) in *.
  assert (Hb : forall id k, binds_at before r id k <-> id = id0 /\ k = oc_Key o).
  { intros id k. split.
    - intros (o' & s' & _ & H5 & _ & _ & H6 & H7 & _ & H8).
      assert (o' = o) as -> by congruence. assert (s' = s) as -> by congruence. done.
    - intros [-> ->]. exists o, s. repeat split; try done.
      intros c Hc. rewrite Hc in Ec. by bool_simpl. }
  assert (Hins : Ok (E := key_error) (sends_of before, <[id0 := oc_Key o]> keys) = Ok m' ->
    (forall k, keys !! id0 = Some k -> k = oc_Key o) ->
    fst m' = sends_of before /\
    forall id k, snd m' !! id = Some k <-> keys !! id = Some k \/ binds_at before r id k).
  { intros [= <-] Hp. split; [done|]. intros id k. cbn. rewrite Hb.
    destruct (decide (id = id0)) as [->|Hne].
    - rewrite lookup_insert_eq. split; [intros [= <-]; by right|].
      intros [Hk'|[_ ->]]; [by rewrite (Hp k Hk')|done].
    - rewrite lookup_insert_ne by done. tauto. }
  destruct (keys !! id0) as [previous|] eqn:Ep.
  - destruct (previous =s oc_Key o) eqn:Epr; [|done]. bool_simpl. subst previous.
    apply Hins; [done|]. by intros k [= <-].
  - by apply Hins.
Qed.

Lemma fold_keys_ok rs m :
  fold_keys rs (∅, ∅) = Ok m ->
  fst m = sends_of rs /\ forall id k, snd m !! id = Some k <-> binds rs id k.
Proof.
  revert m. induction rs as [|r rs IH] using rev_ind; intros m Hm.
  - cbn in Hm. simplify_eq. split; [done|]. intros id k. cbn. rewrite lookup_empty.
    split; [done|]. intros (a & r & b & Hx & _). by destruct a.
  - rewrite fold_keys_snoc in Hm. destruct (fold_keys rs (∅, ∅)) as [m0|]; [|done].
    destruct (IH m0 eq_refl) as [H1 H2].
    destruct (keys_rec_ok rs r m0 m H1 Hm) as [H3 H4]. split; [done|].
    intros id k. by rewrite H4, H2, binds_snoc.
Qed.

Lemma brokerKeys_binds j st rs keys :
  written Digest j st rs -> brokerKeys true j = Ok keys ->
  forall id k, keys !! id = Some k <-> binds rs id k.
Proof.
  intros Hw. rewrite (brokerKeys_fold j st rs Hw).
  destruct (fold_keys rs (∅, ∅)) as [m|] eqn:E; [|done]. intros [= <-].
  by apply fold_keys_ok.
Qed.

(** order identities come from the journal alone. On a well-written
    journal, when [brokerKeys] succeeds it maps an order number and trading
    day to a child key exactly when a record of the journal accepted that
    key, a submit or amend sent that day, under that number; so an identity
    never names two keys. *)
Theorem brokerKeys_exact j st rs keys :
  written Digest j st rs -> brokerKeys true j = Ok keys ->
  (forall id k, keys !! id = Some k <-> binds rs id k) /\
  (forall id k1 k2, binds rs id k1 -> binds rs id k2 -> k1 = k2).
Proof.
  intros Hw Hk. pose proof (brokerKeys_binds j st rs keys Hw Hk) as Hb. split; [done|].
  intros id k1 k2 H1 H2. apply Hb in H1, H2. congruence.
Qed.

(** ** Attribution *)

Lemma commit_fill_state w e f w' e' res :
  commit Digest w e (fill_rec f) = (w', e', res) ->
  (res <> None /\ s_Fills (x_state e') = s_Fills (x_state e)) \/
  (res = None /\ s_Fills (x_state e') = <[f_FillID f := f]> (s_Fills (x_state e))).
Proof.
  unfold commit. destruct (x_err e); [intros; simplify_eq; by left|]. cbn [fill_rec r_Child].
  destruct ("" <>s "") eqn:E; [done|].
  destruct (Apply (x_state e) (fill_rec f)) as [s'|te] eqn:Ea; [|intros; simplify_eq; by left].
  destruct (disk w) as [w1 fault]. destruct (append _ _ _ _ _) as [j [ae|]]; intros; simplify_eq;
    [by left|right]. split; [done|]. cbn.
  destruct (Apply_cases _ _ _ Ea) as [Hx|Hx|Hx|Hx|_ _ Hx|Hx]; try discriminate Hx.
  by apply apply_fill_iff in Hx as (_ & _ & _ & _ & _ & ->).
Qed.

Lemma OnFill_fills w e f w' e' res :
  OnFill Digest w e f = (w', e', res) ->
  s_Fills (x_state e') = s_Fills (x_state e) \/
  s_Fills (x_state e') = <[f_FillID f := f]> (s_Fills (x_state e)).
Proof.
  unfold OnFill. destruct (negb _); [intros; simplify_eq; by left|].
  destruct (is_some _); [intros; simplify_eq; by left|].
  destruct (is_none _); [intros; simplify_eq; by left|].
  destruct (commit _ _ _ _) as [[w1 e1] r] eqn:Ec.
  apply commit_fill_state in Ec as [[Hr Hf]|[-> Hf]].
  - destruct r; [|done]. intros; simplify_eq. by left.
  - destruct (_ >? 0); intros; simplify_eq; by right.
Qed.

Lemma OnFill_no_attribution w e f w' e' why :
  x_err e = None -> OnFill Digest w e f <> (w', e', Some (EAttribution why)).
Proof.
  intros He. unfold OnFill, commit. rewrite He. destruct (negb _); [done|].
  destruct (is_some _); [done|]. destruct (is_none _); [done|]. cbn [fill_rec r_Child].
  destruct ("" <>s ""); [done|]. destruct (Apply _ _); [|done].
  destruct (disk w) as [w1 fault]. destruct (append _ _ _ _ _) as [j [ae|]]; [done|].
  by destruct (_ >? 0).
Qed.

(** ledger fills are attributed or the executor stops. A ledger row either
    changes no recorded fill, or is recorded under the one child key the
    journal binds to its broker order and day; and when it cannot be
    attributed, the error is latched and nothing else changes. *)
Theorem ledger_fill_attributed rs w e id f w' e' res :
  written Digest (x_j e) (x_state e) rs ->
  OnLedgerFill true w e id f = (w', e', res) ->
  (forall why, x_err e = None -> res = Some (EAttribution why) ->
     w' = w /\ e' = set_err (EAttribution why) e) /\
  (s_Fills (x_state e') = s_Fills (x_state e) \/
   exists k, binds rs (orderIdentity id (f_AtNS f)) k /\ (f_Key f = "" \/ f_Key f = k) /\
     s_Fills (x_state e') =
       <[f_FillID f := mkFill (f_FillID f) k (f_Qty f) (f_Price f) (f_AtNS f)]> (s_Fills (x_state e))).
Proof.
  intros Hw. unfold OnLedgerFill. destruct (x_err e) as [err|] eqn:Ee.
  { intros; simplify_eq. split; [done|by left]. }
  assert (Hfail : forall why, (w, set_err (EAttribution why) e, Some (EAttribution why)) = (w', e', res) ->
    (forall why, @None exec_error = None -> res = Some (EAttribution why) -> w' = w /\ e' = set_err (EAttribution why) e) /\
    s_Fills (x_state e') = s_Fills (x_state e)).
  { intros why [= <- <- <-]. split; [by intros ? _ [= ->]|done]. }
  destruct (_ || (f_Price f <=? 0)); [intros Hx; apply Hfail in Hx; tauto|].
  destruct (brokerKeys true (x_j e)) as [keys|] eqn:Ek; [|intros Hx; apply Hfail in Hx; tauto].
  pose proof (brokerKeys_binds _ _ _ _ Hw Ek) as Hb.
  destruct (keys !! _) as [key|] eqn:El; [|intros Hx; apply Hfail in Hx; tauto].
  destruct (_ && _) eqn:Ekey; [intros Hx; apply Hfail in Hx; tauto|].
  assert (Hk : f_Key f = "" \/ f_Key f = key).
  { apply andb_false_iff in Ekey as [Hx|Hx]; bool_simpl; auto. }
  apply Hb in El. cbn [f_FillID].
  assert (Hon : OnFill Digest w e (mkFill (f_FillID f) key (f_Qty f) (f_Price f) (f_AtNS f)) = (w', e', res) ->
    (forall why, @None exec_error = None -> res = Some (EAttribution why) -> w' = w /\ e' = set_err (EAttribution why) e) /\
    (s_Fills (x_state e') = s_Fills (x_state e) \/ exists k, binds rs (orderIdentity id (f_AtNS f)) k /\
      (f_Key f = "" \/ f_Key f = k) /\ s_Fills (x_state e') =
       <[f_FillID f := mkFill (f_FillID f) k (f_Qty f) (f_Price f) (f_AtNS f)]> (s_Fills (x_state e)))).
  { intros Hon. split.
    - intros why _ ->. exfalso. by apply (OnFill_no_attribution w e _ w' e' why Ee) in Hon.
    - destruct (OnFill_fills _ _ _ _ _ _ Hon) as [Hx|Hx]; [by left|right]. exists key. auto. }
  destruct (s_Fills (x_state e) !! f_FillID f) as [previous|]; [|exact Hon].
  destruct (decide _); [exact Hon|intros Hx; apply Hfail in Hx; tauto].
Qed.
End Ledger.

(** ** Order numbers *)

(** Order numbers compare by value. Two all-digit order numbers have the
    same normal form exactly when they are the same number, and the normal form
    is empty exactly for zero, which no caller accepts. *)
Theorem NormalizeOrderNumber_canonical a b :
  all_digits a = true -> all_digits b = true ->
  (NormalizeOrderNumber a = NormalizeOrderNumber b <-> decimal a = decimal b) /\
  (NormalizeOrderNumber a = "" <-> decimal a = 0).
Proof.
  intros Ha Hb. unfold NormalizeOrderNumber.
  rewrite !TrimSpace_plain by (by apply all_digits_plain).
  destruct (TrimLeftByte_zero a Ha) as (Da & Za & Ea), (TrimLeftByte_zero b Hb) as (Db & Zb & Eb).
  assert (Hiff : forall t, all_digits t = true -> no_lead_zero t = true ->
    TrimLeftByte "0" a = t <-> decimal a = decimal t).
  { intros t Dt Zt. rewrite <- Ea. split; [by intros ->|by apply decimal_inj]. }
  rewrite (Hiff _ Db Zb), Eb, (Hiff "" eq_refl eq_refl). done.
Qed.

Lemma NormalizeOrderNumber_canonical_witness :
  NormalizeOrderNumber "0000123" = NormalizeOrderNumber "123".
Proof.
  apply (NormalizeOrderNumber_canonical "0000123" "123"); vm_compute; reflexivity.
Defined.

(** ** A journal with one accepted order *)

Definition sample_accept : Rec :=
  outcome_rec 3 (mkOutcome (sample_id +:+ ":1") StatusAccepted "" "77") false.
Definition sample_state3 : State := state_of (firstn 3 sample_recs).
Definition journal3 : Journal := appended journal2 sample_accept sample_state3.
Definition recs3 : list Rec :=
  [start_rec 1 sample_buy; send_rec 2 sample_submit "open"] ++ [sample_accept].

Lemma written_journal3 : written sample_digest journal3 sample_state3 recs3.
Proof. apply (written_appended journal2 sample_state2); [apply written_journal2|]. vm_compute. reflexivity. Qed.

Lemma sample_keys : brokerKeys true journal3 =
  Ok (<[orderIdentity "77" 2 := sample_id +:+ ":1"]> ∅).
Proof. rewrite (brokerKeys_fold sample_digest _ _ _ written_journal3). vm_compute. reflexivity. Qed.

Lemma brokerKeys_exact_witness : binds recs3 (orderIdentity "77" 2) (sample_id +:+ ":1").
Proof.
  apply (brokerKeys_exact sample_digest _ _ _ _ written_journal3 sample_keys).
  vm_compute. reflexivity.
Defined.

Lemma ledger_fill_attributed_witness :
  exists w' e' res,
    OnLedgerFill sample_digest true sample_world (New sample_cfg journal3 sample_state3) "0077"
      (mkFill "x1" "" 3 70000 5) = (w', e', res) /\
    (s_Fills (x_state e') = ∅ \/
     exists k, binds recs3 (orderIdentity "0077" 5) k).
Proof.
  destruct (OnLedgerFill sample_digest true sample_world (New sample_cfg journal3 sample_state3) "0077"
      (mkFill "x1" "" 3 70000 5)) as [[w' e'] res] eqn:E.
  exists w', e', res. split; [reflexivity|].
  destruct (ledger_fill_attributed sample_digest recs3 sample_world (New sample_cfg journal3 sample_state3)
    "0077" (mkFill "x1" "" 3 70000 5) w' e' res written_journal3 E) as [_ [Hf|(k & Hk & _)]].
  - left. rewrite Hf. reflexivity.
  - right. exists k. exact Hk.
Defined.
