(* ===== verification/Recorder.v ===== *)
(** [src/internal/book/evidence.go] and [src/internal/book/recorder.go]: the
    evidence line format and the recorder that writes it.

    [encoding/json] is the interface [EvidenceCodec]; the writer's failures are
    a list the recorder consumes, one entry per write. *)

From Stdlib Require Import Ascii.
From stdpp Require Import sorting.
From S2P Require Import Prelude GoStr KST Frame Detect Journal.
Local Open Scope Z_scope.
#[local] Arguments String.append !_ _ / : simpl nomatch.

Definition FormatVersion : Z := 1.
Definition KindSession : string := "session".
Definition KindFrame : string := "frame".
Definition KindReconnect : string := "reconnect".
Definition KindStale : string := "stale".

(** [Line]; a nil [RawBytes] is [None]. *)
Record Line := mkEvidenceLine {
  ln_V : Z; ln_Seq : Z; ln_Kind : string; ln_AtNS : Z; ln_StaleAfterMS : Z; ln_Attempt : Z;
  ln_Symbol : string; ln_SinceNS : Z; ln_TR : string; ln_Raw : string; ln_RawBytes : option string;
  ln_Error : string; ln_Verdicts : list Verdict
}.

(** [Line.raw]. *)
Definition raw_of (l : Line) : string := default (ln_Raw l) (ln_RawBytes l).

(** [Recorder.write]'s [l.V, l.Seq = FormatVersion, r.seq]. *)
Definition number_line (seq : Z) (l : Line) : Line :=
  mkEvidenceLine FormatVersion seq (ln_Kind l) (ln_AtNS l) (ln_StaleAfterMS l) (ln_Attempt l)
    (ln_Symbol l) (ln_SinceNS l) (ln_TR l) (ln_Raw l) (ln_RawBytes l) (ln_Error l) (ln_Verdicts l).

Definition session_line (at_ns stale_ms : Z) : Line :=
  mkEvidenceLine 0 0 KindSession at_ns stale_ms 0 "" 0 "" "" None "" [].
Definition reconnect_line (at_ns attempt : Z) : Line :=
  mkEvidenceLine 0 0 KindReconnect at_ns 0 attempt "" 0 "" "" None "" [].
Definition stale_line (at_ns : Z) (tr symbol : string) (since : Z) : Line :=
  mkEvidenceLine 0 0 KindStale at_ns 0 0 symbol since tr "" None "" [].

(** [utf8.Valid] decides which field keeps the frame; both read back. *)
Definition frame_line (valid : bool) (at_ns : Z) (tr raw error : string) (vs : list Verdict) : Line :=
  mkEvidenceLine 0 0 KindFrame at_ns 0 0 "" 0 tr (if valid then raw else "")
    (if valid then None else Some raw) error vs.

(** [json.Marshal] on a line, and [json.Unmarshal] on the bytes of a line with
    its newline.  A faithful line has valid UTF-8 in its text fields. *)
Class EvidenceCodec := {
  ev_marshal : Line -> option string;
  ev_unmarshal : string -> option Line;
  ev_faithful : Line -> Prop;
  ev_one_line l b : ev_marshal l = Some b -> no_newline b = true;
  ev_text l b : ev_marshal l = Some b -> TrimSpace (b +:+ String newline "") <> "";
  ev_decode l b : ev_faithful l -> ev_marshal l = Some b ->
    ev_unmarshal b = Some l /\ ev_unmarshal (b +:+ String newline "") = Some l;
  ev_torn l b k : ev_marshal l = Some b -> (k < String.length b)%nat ->
    ev_unmarshal (take_bytes k b) = None /\ ev_unmarshal (take_bytes k b +:+ String newline "") = None
}.

Record streamKey := mkStreamKey { sk_tr : string; sk_symbol : string }.
#[export] Instance streamKey_eq_dec : EqDecision streamKey. Proof. solve_decision. Defined.
#[export] Instance streamKey_countable : Countable streamKey.
Proof.
  refine (inj_countable' (fun k => (sk_tr k, sk_symbol k)) (fun '(a, b) => mkStreamKey a b) _).
  by intros [].
Defined.
Record streamState := mkStream { st_lastNS : Z; st_stale : bool }.

Definition DefaultStaleAfter : Z := 2 * second_ns.

(** How one write goes: whole, or an error after some bytes. *)
Inductive recorder_error := MarshalFailed | WriteFailed.

(** [Recorder]: the file's bytes, the failures to come, and its fields. *)
Record Recorder := mkRecorder {
  rc_file : string; rc_faults : list (option nat); rc_staleAfter : Z; rc_seq : Z;
  rc_tracker : tracker; rc_streams : gmap streamKey streamState; rc_err : option recorder_error
}.

Definition set_streams (m : gmap streamKey streamState) (r : Recorder) : Recorder :=
  mkRecorder (rc_file r) (rc_faults r) (rc_staleAfter r) (rc_seq r) (rc_tracker r) m (rc_err r).
Definition set_tracker (t : tracker) (r : Recorder) : Recorder :=
  mkRecorder (rc_file r) (rc_faults r) (rc_staleAfter r) (rc_seq r) t (rc_streams r) (rc_err r).

Definition stream_le (a b : streamKey) : Prop :=
  (if sk_tr a =s sk_tr b then String.leb (sk_symbol a) (sk_symbol b)
   else String.leb (sk_tr a) (sk_tr b)) = true.
#[export] Instance stream_le_dec a b : Decision (stream_le a b).
Proof. unfold stream_le. apply _. Defined.

Section Recorder.
Context `{EvidenceCodec} (utf8_valid : string -> bool) (error_text : string -> frame_error -> string).

(** [Recorder.write] and [writeLine]. *)
Definition write (l : Line) (r : Recorder) : Recorder :=
  match rc_err r with
  | Some _ => r
  | None =>
      let seq := rc_seq r + 1 in
      let put file faults err :=
        mkRecorder file faults (rc_staleAfter r) seq (rc_tracker r) (rc_streams r) err in
      match ev_marshal (number_line seq l) with
      | None => put (rc_file r) (rc_faults r) (Some MarshalFailed)
      | Some b =>
          let b := b +:+ String newline "" in
          match rc_faults r with
          | Some k :: fs => put (rc_file r +:+ take_bytes k b) fs (Some WriteFailed)
          | None :: fs => put (rc_file r +:+ b) fs None
          | [] => put (rc_file r +:+ b) [] None
          end
      end
  end.

(** [NewRecorder] on a writer that already holds [file]. *)
Definition NewRecorder (file : string) (faults : list (option nat)) (staleAfter now : Z) : Recorder :=
  let staleAfter := if staleAfter <=? 0 then DefaultStaleAfter else staleAfter in
  write (session_line now (Z.quot staleAfter 1000000))
    (mkRecorder file faults staleAfter 0 newTracker ∅ None).

(** [arrive]. *)
Definition arrive (key : streamKey) (atNS : Z) (r : Recorder) : Recorder :=
  match rc_streams r !! key with
  | None => set_streams (<[key := mkStream atNS false]> (rc_streams r)) r
  | Some s =>
      let r := if negb (st_stale s) && (atNS -w st_lastNS s >? rc_staleAfter r)
               then write (stale_line atNS (sk_tr key) (sk_symbol key) (st_lastNS s)) r else r in
      set_streams (<[key := mkStream atNS false]> (rc_streams r)) r
  end.

(** [Recorder.Frame]. *)
Definition RecFrame (raw : string) (at_ns : Z) (r : Recorder) : Recorder * option recorder_error :=
  let '(tr, parsed) := ParseFrame raw in
  match parsed with
  | Err e =>
      if is_not_realtime e || is_unsupported e then (r, rc_err r)
      else match rc_err r with
           | Some err => (r, Some err)
           | None =>
               let r := write (frame_line (utf8_valid raw) at_ns tr raw (error_text raw e) []) r in
               (r, rc_err r)
           end
  | Ok frame =>
      match rc_err r with
      | Some err => (r, Some err)
      | None =>
          let '(t, vs, _) := track_frame (rc_tracker r) frame at_ns in
          let r := set_tracker t r in
          let r := fold_left (fun r v => arrive (mkStreamKey (fr_TR frame) (vd_Symbol v)) at_ns r) vs r in
          let r := write (frame_line (utf8_valid raw) at_ns tr raw "" vs) r in
          (r, rc_err r)
      end
  end.

(** [Recorder.Reconnect]. *)
Definition RecReconnect (at_ns attempt : Z) (r : Recorder) : Recorder * option recorder_error :=
  match rc_err r with
  | Some err => (r, Some err)
  | None =>
      let r := write (reconnect_line at_ns attempt) (set_tracker (reconnect (rc_tracker r)) r) in
      (r, rc_err r)
  end.

(** The streams silent for longer than the threshold, in order. *)
Definition silent (now : Z) (r : Recorder) : list streamKey :=
  merge_sort stream_le
    (fst <$> filter (fun '(_, s) => st_stale s = false /\ rc_staleAfter r < now -w st_lastNS s)
               (map_to_list (rc_streams r))).

Definition flag_stale (now : Z) (r : Recorder) (key : streamKey) : Recorder :=
  match rc_streams r !! key with
  | None => r
  | Some s =>
      write (stale_line now (sk_tr key) (sk_symbol key) (st_lastNS s))
        (set_streams (<[key := mkStream (st_lastNS s) true]> (rc_streams r)) r)
  end.

(** [Recorder.Tick]. *)
Definition RecTick (now : Z) (r : Recorder) : Recorder * option recorder_error :=
  match rc_err r with
  | Some err => (r, Some err)
  | None =>
      let r := fold_left (flag_stale now) (silent now r) r in (r, rc_err r)
  end.
End Recorder.

(** [terminateTornLine]: a newline after a torn last line; the reads and the
    write may fail. *)
Definition terminateTornLine (stat_ok read_ok write_ok : bool) (file : string) : string * bool :=
  if negb stat_ok then (file, false)
  else if file =s "" then (file, true)
  else if negb read_ok then (file, false)
  else match String.get (String.length file - 1) file with
       | Some c => if Ascii.eqb c newline then (file, true)
                   else if write_ok then (file +:+ String newline "", true) else (file, false)
       | None => (file, false)
       end.

(** [OpenEvidence]; opening is the operating system's. *)
Definition OpenEvidence (open_ok stat_ok read_ok write_ok : bool) (file : string) : string * bool :=
  if negb open_ok then (file, false) else terminateTornLine stat_ok read_ok write_ok file.

(** ** A stream is flagged once per silence *)

Section flags.
Context `{EvidenceCodec}.

Lemma write_streams l r : rc_streams (write l r) = rc_streams r /\ rc_staleAfter (write l r) = rc_staleAfter r.
Proof.
  unfold write. destruct (rc_err r); [done|]. destruct (ev_marshal _); [|done].
  destruct (rc_faults r) as [|[] ?]; done.
Qed.

Lemma flag_stale_streams now r k :
  rc_staleAfter (flag_stale now r k) = rc_staleAfter r /\
  forall j, rc_streams (flag_stale now r k) !! j =
    if decide (j = k) then (fun s => mkStream (st_lastNS s) true) <$> rc_streams r !! j
    else rc_streams r !! j.
Proof.
  unfold flag_stale. destruct (rc_streams r !! k) as [s|] eqn:E.
  - destruct (write_streams (stale_line now (sk_tr k) (sk_symbol k) (st_lastNS s))
      (set_streams (<[k := mkStream (st_lastNS s) true]> (rc_streams r)) r)) as [-> ->].
    split; [done|]. intros j. cbn. destruct (decide (j = k)) as [->|Hne].
    + by rewrite lookup_insert_eq, E.
    + by rewrite lookup_insert_ne.
  - split; [done|]. intros j. destruct (decide (j = k)) as [->|]; [by rewrite E|done].
Qed.

Lemma flag_all_streams now ks : forall r,
  rc_staleAfter (fold_left (flag_stale now) ks r) = rc_staleAfter r /\
  forall j, rc_streams (fold_left (flag_stale now) ks r) !! j =
    if decide (j ∈ ks) then (fun s => mkStream (st_lastNS s) true) <$> rc_streams r !! j
    else rc_streams r !! j.
Proof.
  induction ks as [|k ks IH]; intros r; cbn [fold_left].
  { split; [done|]. intros j. rewrite decide_False; [done|]. apply not_elem_of_nil. }
  destruct (flag_stale_streams now r k) as [H1 H2]. destruct (IH (flag_stale now r k)) as [H3 H4].
  split; [by rewrite H3|]. intros j. rewrite H4, H2. destruct (decide (j ∈ ks)) as [Hj|Hj].
  - rewrite (decide_True (P := j ∈ k :: ks)) by (by right). destruct (decide (j = k)); [|done].
    by destruct (rc_streams r !! j).
  - destruct (decide (j = k)) as [->|Hne].
    + rewrite decide_True; [done|by left].
    + rewrite decide_False; [done|]. by intros [?|?]%elem_of_cons.
Qed.

Lemma elem_of_silent now r k :
  k ∈ silent now r <->
  exists s, rc_streams r !! k = Some s /\ st_stale s = false /\ rc_staleAfter r < now -w st_lastNS s.
Proof.
  unfold silent. rewrite merge_sort_Permutation, list_elem_of_fmap. split.
  - intros ([k' s] & -> & [[H1 H2] Hin]%list_elem_of_filter). exists s.
    apply elem_of_map_to_list in Hin. done.
  - intros (s & Hs & H1 & H2). exists (k, s). split; [done|]. apply list_elem_of_filter.
    split; [done|]. by apply elem_of_map_to_list.
Qed.

(** A stream is flagged once per silence. [Tick] flags exactly the streams
    that are silent past the threshold and not flagged yet, leaves every other
    stream as it was, and a second [Tick] at the same time flags nothing and
    changes nothing. *)
Theorem tick_flags_once now r r1 :
  RecTick now r = (r1, None) ->
  (forall k, rc_streams r1 !! k =
     if decide (k ∈ silent now r) then (fun s => mkStream (st_lastNS s) true) <$> rc_streams r !! k
     else rc_streams r !! k) /\
  RecTick now r1 = (r1, None).
Proof.
  unfold RecTick. destruct (rc_err r) as [e|] eqn:Ee; [done|]. intros [= <- He].
  destruct (flag_all_streams now (silent now r) r) as [Hst Hall]. split; [exact Hall|].
  rewrite He. enough (E : silent now (fold_left (flag_stale now) (silent now r) r) = []) by (by rewrite E; cbn; rewrite He).
  destruct (silent now (fold_left _ _ _)) as [|k ks] eqn:E; [done|exfalso].
  assert (Hk : k ∈ silent now (fold_left (flag_stale now) (silent now r) r)) by (rewrite E; by left).
  apply elem_of_silent in Hk as (s & Hs & Hf & Hlt). rewrite Hst in Hlt. rewrite Hall in Hs.
  destruct (decide (k ∈ silent now r)) as [Hin|Hin].
  - destruct (rc_streams r !! k); [|done]. cbn in Hs. simplify_eq.
  - apply Hin, elem_of_silent. by exists s.
Qed.
End flags.

(** ** A concrete codec *)

#[export] Instance Verdict_countable : Countable Verdict.
Proof.
  refine (inj_countable' (fun v => (vd_Symbol v, vd_Class v, vd_Resync v, vd_MissingVol v))
    (fun '(a, b, c, d) => mkVerdict a b c d) _). by intros [].
Defined.
#[export] Instance Line_eq_dec : EqDecision Line. Proof. solve_decision. Defined.
#[export] Instance Line_countable : Countable Line.
Proof.
  refine (inj_countable' (fun l => ((ln_V l, ln_Seq l, ln_Kind l, ln_AtNS l, ln_StaleAfterMS l, ln_Attempt l),
      (ln_Symbol l, ln_SinceNS l, ln_TR l, ln_Raw l, ln_RawBytes l, ln_Error l, ln_Verdicts l)))
    (fun '((a, b, c, d, e, f), (g, h, i, j, k, l, m)) => mkEvidenceLine a b c d e f g h i j k l m) _).
  by intros [].
Defined.

(** The bits of [encode], closed by a period as JSON closes its brace. *)
Definition dot_bits (p : positive) : string := bits p +:+ ".".
Fixpoint of_dot_bits (s : string) : option positive :=
  match s with
  | EmptyString => None
  | String c s =>
      if Ascii.eqb c "." then
        match s with
        | EmptyString => Some xH
        | String d EmptyString => if Ascii.eqb d newline then Some xH else None
        | _ => None
        end
      else
        p ← of_dot_bits s;
        if Ascii.eqb c "0" then Some (xO p) else if Ascii.eqb c "1" then Some (xI p) else None
  end.

Lemma of_dot_bits_ok p : of_dot_bits (dot_bits p) = Some p /\
  of_dot_bits (dot_bits p +:+ String newline "") = Some p.
Proof.
  unfold dot_bits. induction p as [p [IH1 IH2]|p [IH1 IH2]|]; [| |done]; cbn in *; by rewrite IH1, IH2.
Qed.

Lemma of_dot_bits_torn p k : (k < String.length (dot_bits p))%nat ->
  of_dot_bits (take_bytes k (dot_bits p)) = None /\
  of_dot_bits (take_bytes k (dot_bits p) +:+ String newline "") = None.
Proof.
  unfold dot_bits, take_bytes. revert k.
  induction p as [p IH|p IH|]; intros [|k] Hk; cbn in *; try done; try (destruct (IH k) as [-> ->]; [lia|done]).
  lia.
Qed.

Lemma dot_bits_plain p : str_forall plain_byte (dot_bits p) = true /\ no_newline (dot_bits p) = true.
Proof. unfold dot_bits. induction p as [p [IH1 IH2]|p [IH1 IH2]|]; cbn in *; done. Qed.

Lemma trim_newline fuel t :
  trim_runes (S fuel) (str_rev <$> space_runes) (String newline t) =
  trim_runes fuel (str_rev <$> space_runes) t.
Proof. done. Qed.

Lemma TrimSpace_line b c :
  str_forall plain_byte (String c b) = true -> TrimSpace (String c b +:+ String newline "") <> "".
Proof.
  intros H. pose proof H as Hc. cbn [str_forall] in Hc. apply andb_true_iff in Hc as [Hc _].
  assert (El : TrimLeftSpace (String c b +:+ String newline "") = String c b +:+ String newline "")
    by (apply trim_runes_lead; by apply plain_not_space).
  assert (Hr : str_forall plain_byte (str_rev (String c b)) = true) by (by rewrite str_forall_rev).
  unfold TrimSpace. rewrite El. unfold TrimRightSpace. rewrite str_rev_app, strlen_app, Nat.add_1_r.
  change (str_rev (String newline "") +:+ str_rev (String c b)) with (String newline (str_rev (String c b))).
  rewrite trim_newline. intros E. apply (f_equal str_rev) in E. rewrite str_rev_involutive in E.
  destruct (str_rev (String c b)) as [|d r] eqn:Er.
  - apply (f_equal str_rev) in Er. rewrite str_rev_involutive in Er. done.
  - cbn [str_forall] in Hr. apply andb_true_iff in Hr as [Hd _].
    rewrite trim_runes_lead in E; [done|]. rewrite existsb_map. by apply plain_not_space.
Qed.

#[export, refine] Instance dot_codec : EvidenceCodec := {
  ev_marshal l := Some (dot_bits (encode l));
  ev_unmarshal s := p ← of_dot_bits s; decode p;
  ev_faithful _ := True
}.
Proof.
  - intros l b [= <-]. apply dot_bits_plain.
  - intros l b [= <-]. destruct (dot_bits_plain (encode l)) as [Hp _]. revert Hp.
    destruct (dot_bits (encode l)) as [|c b] eqn:E; [|apply TrimSpace_line].
    unfold dot_bits in E. by destruct (bits _).
  - intros l b _ [= <-]. destruct (of_dot_bits_ok (encode l)) as [-> ->]. cbn.
    by rewrite decode_encode.
  - intros l b k [= <-] Hk. by destruct (of_dot_bits_torn (encode l) k Hk) as [-> ->].
Defined.

Definition sample_recorder : Recorder :=
  mkRecorder "" [] 2000000000 1 newTracker {[ mkStreamKey TRTrade "005930" := mkStream 100 false ]} None.

Lemma tick_flags_once_witness :
  exists r1, RecTick 5000000000 sample_recorder = (r1, None) /\
    rc_streams r1 !! mkStreamKey TRTrade "005930" = Some (mkStream 100 true) /\
    RecTick 5000000000 r1 = (r1, None).
Proof.
  assert (E : RecTick 5000000000 sample_recorder = (fst (RecTick 5000000000 sample_recorder), None)).
  { unfold RecTick. cbn [sample_recorder rc_err fst].
    assert (silent 5000000000 sample_recorder = [mkStreamKey TRTrade "005930"]) as ->
      by (vm_compute; reflexivity). reflexivity. }
  exists (fst (RecTick 5000000000 sample_recorder)). split; [exact E|].
  destruct (tick_flags_once 5000000000 sample_recorder _ E) as [H1 H2]. split; [|exact H2].
  rewrite H1. vm_compute. reflexivity.
Defined.
