(* ===== verification/Replay.v ===== *)
(** [src/internal/book/replay.go]: rebuilding books and tape from evidence, and
    its agreement with the recorder. *)

From Stdlib Require Import Ascii.
From stdpp Require Import sorting.
From S2P Require Import Prelude GoStr KST Frame Detect Journal Recorder.
Local Open Scope Z_scope.
#[local] Arguments String.append !_ _ / : simpl nomatch.

Definition EventSession : string := "session".
Definition EventBook : string := "book".
Definition EventTrade : string := "trade".
Definition EventGap : string := "gap".
Definition EventStale : string := "stale".
Definition EventReconnect : string := "reconnect".

Record BookState := mkBookState {
  bs_Symbol : string; bs_Hour : string; bs_Asks : list Level; bs_Bids : list Level;
  bs_TotalAsk : Z; bs_TotalBid : Z; bs_AtNS : Z; bs_Synced : bool
}.
Record Trade := mkTrade {
  td_Symbol : string; td_Hour : string; td_Price : Z; td_Qty : Z; td_AcmlVol : Z; td_Side : string; td_AtNS : Z
}.

Record Event := mkEvent {
  ev_Type : string; ev_Session : Z; ev_Seq : Z; ev_AtNS : Z; ev_TR : string; ev_Symbol : string;
  ev_Book : option BookState; ev_Trade : option Trade; ev_MissingVol : Z; ev_SinceNS : Z
}.

Record Summary := mkSummary {
  su_Sessions : Z; su_Frames : Z; su_Records : Z; su_Applied : Z; su_Duplicates : Z; su_Regressed : Z;
  su_Gaps : Z; su_MissingVol : Z; su_Stale : Z; su_Reconnects : Z; su_BadFrames : Z; su_TornLines : Z;
  su_VerdictMismatches : Z
}.
Definition zero_summary : Summary := mkSummary 0 0 0 0 0 0 0 0 0 0 0 0 0.
Definition add_summary (a b : Summary) : Summary :=
  mkSummary (su_Sessions a + su_Sessions b) (su_Frames a + su_Frames b) (su_Records a + su_Records b)
    (su_Applied a + su_Applied b) (su_Duplicates a + su_Duplicates b) (su_Regressed a + su_Regressed b)
    (su_Gaps a + su_Gaps b) (su_MissingVol a +w su_MissingVol b) (su_Stale a + su_Stale b)
    (su_Reconnects a + su_Reconnects b) (su_BadFrames a + su_BadFrames b) (su_TornLines a + su_TornLines b)
    (su_VerdictMismatches a + su_VerdictMismatches b).

(** One more session, stale line, reconnect, torn line. *)
Definition one_session : Summary := mkSummary 1 0 0 0 0 0 0 0 0 0 0 0 0.
Definition one_stale : Summary := mkSummary 0 0 0 0 0 0 0 0 1 0 0 0 0.
Definition one_reconnect : Summary := mkSummary 0 0 0 0 0 0 0 0 0 1 0 0 0.
Definition one_torn : Summary := mkSummary 0 0 0 0 0 0 0 0 0 0 0 1 0.
(** One frame: read, bad, mismatching. *)
Definition one_frame : Summary := mkSummary 0 1 0 0 0 0 0 0 0 0 0 0 0.
Definition one_bad : Summary := mkSummary 0 0 0 0 0 0 0 0 0 0 1 0 0.
Definition one_mismatch : Summary := mkSummary 0 0 0 0 0 0 0 0 0 0 0 0 1.
(** One record, and its class: duplicate, regress, gap of [missing], applied. *)
Definition one_record : Summary := mkSummary 0 0 1 0 0 0 0 0 0 0 0 0 0.
Definition one_duplicate : Summary := mkSummary 0 0 0 0 1 0 0 0 0 0 0 0 0.
Definition one_regress : Summary := mkSummary 0 0 0 0 0 1 0 0 0 0 0 0 0.
Definition one_gap (missing : Z) : Summary := mkSummary 0 0 0 0 0 0 1 missing 0 0 0 0 0.
Definition one_applied : Summary := mkSummary 0 0 0 1 0 0 0 0 0 0 0 0 0.

(** [replayer] with its [State]; [rp_events] is what [emit] received. *)
Record replayer := mkReplayer {
  rp_tracker : tracker; rp_Books : gmap string BookState; rp_Tape : list Trade; rp_Summary : Summary;
  rp_session : Z; rp_torn : Z; rp_events : list Event
}.
Definition new_replayer : replayer := mkReplayer newTracker ∅ [] zero_summary 0 0 [].

Inductive replay_failure :=
| ErrFormatVersion | ErrFormatOrder | ErrFormatKind | ErrCorruptLines | ErrCorruptOrder | EmitFailed.

Definition count (s : Summary) (rp : replayer) : replayer :=
  mkReplayer (rp_tracker rp) (rp_Books rp) (rp_Tape rp) (add_summary (rp_Summary rp) s)
    (rp_session rp) (rp_torn rp) (rp_events rp).
Definition set_torn (n : Z) (rp : replayer) : replayer :=
  mkReplayer (rp_tracker rp) (rp_Books rp) (rp_Tape rp) (rp_Summary rp) (rp_session rp) n (rp_events rp).
Definition rp_set_tracker (t : tracker) (rp : replayer) : replayer :=
  mkReplayer t (rp_Books rp) (rp_Tape rp) (rp_Summary rp) (rp_session rp) (rp_torn rp) (rp_events rp).
Definition set_session (n : Z) (rp : replayer) : replayer :=
  mkReplayer (rp_tracker rp) (rp_Books rp) (rp_Tape rp) (rp_Summary rp) n (rp_torn rp) (rp_events rp).
Definition put_book (b : BookState) (rp : replayer) : replayer :=
  mkReplayer (rp_tracker rp) (<[bs_Symbol b := b]> (rp_Books rp)) (rp_Tape rp) (rp_Summary rp)
    (rp_session rp) (rp_torn rp) (rp_events rp).
Definition put_trade (t : Trade) (rp : replayer) : replayer :=
  mkReplayer (rp_tracker rp) (rp_Books rp) (rp_Tape rp ++ [t]) (rp_Summary rp)
    (rp_session rp) (rp_torn rp) (rp_events rp).

Definition unsync_book (b : BookState) : BookState :=
  mkBookState (bs_Symbol b) (bs_Hour b) (bs_Asks b) (bs_Bids b) (bs_TotalAsk b) (bs_TotalBid b) (bs_AtNS b) false.
Definition unsyncBooks (rp : replayer) : replayer :=
  mkReplayer (rp_tracker rp) (unsync_book <$> rp_Books rp) (rp_Tape rp) (rp_Summary rp)
    (rp_session rp) (rp_torn rp) (rp_events rp).

Section Replay.
Context `{EvidenceCodec}.
(** Whether [emit] accepts an event after those it received; a nil [emit]
    accepts all. *)
Context (emit_ok : list Event -> Event -> bool).

(** [replayer.send]; a result keeps the state the error is returned with. *)
Definition rp_send (e : Event) (rp : replayer) : result replayer (replayer * replay_failure) :=
  if emit_ok (rp_events rp) e
  then Ok (mkReplayer (rp_tracker rp) (rp_Books rp) (rp_Tape rp) (rp_Summary rp)
             (rp_session rp) (rp_torn rp) (rp_events rp ++ [e]))
  else Err (rp, EmitFailed).

Definition base_event (rp : replayer) (l : Line) (type tr symbol : string) : Event :=
  mkEvent type (rp_session rp) (ln_Seq l) (ln_AtNS l) tr symbol None None 0 0.

(** One applied record: the book or tape update and its event. *)
Definition apply_record (rp : replayer) (l : Line) (f : Frame) (i : nat) (v : Verdict)
  : result replayer (replayer * replay_failure) :=
  let rp := count one_applied rp in
  let event := base_event rp l "" (fr_TR f) (vd_Symbol v) in
  if fr_TR f =s TRBook then
    match fr_Books f !! i with
    | None => Ok rp
    | Some r =>
        let b := mkBookState (br_Symbol r) (br_Hour r) (br_Asks r) (br_Bids r) (br_TotalAsk r)
          (br_TotalBid r) (ln_AtNS l) true in
        rp_send (mkEvent EventBook (ev_Session event) (ev_Seq event) (ev_AtNS event) (ev_TR event)
          (ev_Symbol event) (Some b) None 0 0) (put_book b rp)
    end
  else
    match fr_Trades f !! i with
    | None => Ok rp
    | Some r =>
        let t := mkTrade (tr_Symbol r) (tr_Hour r) (tr_Price r) (tr_Qty r) (tr_AcmlVol r) (tr_Side r)
          (ln_AtNS l) in
        rp_send (mkEvent EventTrade (ev_Session event) (ev_Seq event) (ev_AtNS event) (ev_TR event)
          (ev_Symbol event) None (Some t) 0 0) (put_trade t rp)
    end.

(** The loop of [replayer.frame] over the verdicts from index [i]. *)
Fixpoint verdict_loop (l : Line) (f : Frame) (i : nat) (vs : list Verdict) (rp : replayer)
  : result replayer (replayer * replay_failure) :=
  match vs with
  | [] => Ok rp
  | v :: vs =>
      let rp := count one_record rp in
      if vd_Class v =s ClassDuplicate then verdict_loop l f (S i) vs (count one_duplicate rp)
      else if vd_Class v =s ClassRegress then verdict_loop l f (S i) vs (count one_regress rp)
      else if vd_Class v =s ClassGap then
        let gap := mkEvent EventGap (rp_session rp) (ln_Seq l) (ln_AtNS l) (fr_TR f) (vd_Symbol v)
          None None (vd_MissingVol v) 0 in
        match rp_send gap (count (one_gap (vd_MissingVol v)) rp) with
        | Err e => Err e
        | Ok rp => match apply_record rp l f i v with
                   | Err e => Err e
                   | Ok rp => verdict_loop l f (S i) vs rp
                   end
        end
      else match apply_record rp l f i v with
           | Err e => Err e
           | Ok rp => verdict_loop l f (S i) vs rp
           end
  end.

(** [replayer.frame]. *)
Definition rp_frame (l : Line) (rp : replayer) : result replayer (replayer * replay_failure) :=
  let rp := count one_frame rp in
  match ParseFrame (raw_of l) with
  | (_, Err _) => Ok (count one_bad rp)
  | (_, Ok f) =>
      let '(t, vs, newDay) := track_frame (rp_tracker rp) f (ln_AtNS l) in
      let rp := rp_set_tracker t rp in
      let rp := if newDay then unsyncBooks rp else rp in
      let rp := if decide (vs = ln_Verdicts l) then rp else count one_mismatch rp in
      verdict_loop l f 0 vs rp
  end.

(** [replayer.line] on a line that decoded, once [torn] is reset. *)
Definition rp_decoded (l : Line) (rp : replayer) : result replayer (replayer * replay_failure) :=
  if negb (ln_V l =? FormatVersion) then Err (rp, ErrFormatVersion)
  else if (ln_Kind l <>s KindSession) && (rp_session rp =? 0) then Err (rp, ErrFormatOrder)
  else if ln_Kind l =s KindSession then
    let rp := unsyncBooks (rp_set_tracker newTracker
                (count one_session (set_session (rp_session rp + 1) rp))) in
    rp_send (base_event rp l EventSession "" "") rp
  else if ln_Kind l =s KindReconnect then
    let rp := unsyncBooks (rp_set_tracker (reconnect (rp_tracker rp)) (count one_reconnect rp)) in
    rp_send (base_event rp l EventReconnect "" "") rp
  else if ln_Kind l =s KindStale then
    let rp := count one_stale rp in
    rp_send (mkEvent EventStale (rp_session rp) (ln_Seq l) (ln_AtNS l) (ln_TR l) (ln_Symbol l)
      None None 0 (ln_SinceNS l)) rp
  else if ln_Kind l =s KindFrame then rp_frame l rp
  else Err (rp, ErrFormatKind).

(** [replayer.line] on the bytes of a line. *)
Definition rp_line (raw : string) (lineNo : Z) (rp : replayer)
  : result replayer (replayer * replay_failure) :=
  match ev_unmarshal raw with
  | None =>
      if negb (rp_torn rp =? 0) then Err (rp, ErrCorruptLines)
      else Ok (count one_torn (set_torn lineNo rp))
  | Some l =>
      if negb (rp_torn rp =? 0) && (ln_Kind l <>s KindSession) then Err (rp, ErrCorruptOrder)
      else rp_decoded l (set_torn 0 rp)
  end.

(** [ReadBytes('\n')] until EOF: each chunk with its newline. *)
Fixpoint chunks (s : string) : list string :=
  match s with
  | EmptyString => []
  | String c s =>
      if Ascii.eqb c newline then String newline "" :: chunks s
      else match chunks s with
           | [] => [String c ""]
           | x :: xs => String c x :: xs
           end
  end.

(** The loop of [Replay]; a read error is not modelled. *)
Fixpoint replay_loop (cs : list string) (lineNo : Z) (rp : replayer)
  : result replayer (replayer * replay_failure) :=
  match cs with
  | [] => Ok rp
  | c :: cs =>
      if TrimSpace c =s "" then replay_loop cs (lineNo + 1) rp
      else match rp_line c lineNo rp with
           | Err e => Err e
           | Ok rp => replay_loop cs (lineNo + 1) rp
           end
  end.

Definition Replay (file : string) : result replayer (replayer * replay_failure) :=
  replay_loop (chunks file) 1 new_replayer.
End Replay.

(** [State.SortedBooks]. *)
Definition book_le (a b : BookState) : Prop := String.leb (bs_Symbol a) (bs_Symbol b) = true.
#[export] Instance book_le_dec a b : Decision (book_le a b).
Proof. unfold book_le. apply _. Defined.
Definition SortedBooks (rp : replayer) : list BookState :=
  merge_sort book_le (snd <$> map_to_list (rp_Books rp)).

(** ** What [emit] decides *)

Section emits.
Context `{EvidenceCodec} (emit emit' : list Event -> Event -> bool).

(** A step that ended well under [emit], and would under any [emit'] that
    accepts the events it added. *)
Definition accepts_from (evs evs1 : list Event) : Prop :=
  forall past e, evs `prefix_of` past -> (past ++ [e]) `prefix_of` evs1 -> emit' past e = true.
Definition replays_alike (rp : replayer) (r r' : result replayer (replayer * replay_failure)) : Prop :=
  forall rp1, r = Ok rp1 -> rp_events rp `prefix_of` rp_events rp1 /\ (accepts_from (rp_events rp) (rp_events rp1) -> r' = Ok rp1).

Lemma alike_ok rp rp1 : rp_events rp1 = rp_events rp -> replays_alike rp (Ok rp1) (Ok rp1).
Proof. intros E rp2 [= <-]. by rewrite E. Qed.
Lemma alike_err rp e r' : replays_alike rp (Err e) r'.
Proof. done. Qed.
Lemma alike_from rp rp1 r r' : rp_events rp1 = rp_events rp -> replays_alike rp1 r r' -> replays_alike rp r r'.
Proof. unfold replays_alike. by intros ->. Qed.
Lemma alike_then rp (r r' : result replayer (replayer * replay_failure)) (k k' : replayer -> result replayer (replayer * replay_failure)) :
  replays_alike rp r r' -> (forall rp1, replays_alike rp1 (k rp1) (k' rp1)) ->
  replays_alike rp (match r with Ok rp => k rp | Err e => Err e end) (match r' with Ok rp => k' rp | Err e => Err e end).
Proof.
  intros Hr Hk rp2 E. destruct r as [rp1|e]; [|done]. destruct (Hr rp1 eq_refl) as [Hp Hr1]. destruct (Hk rp1 rp2 E) as [Hp2 Hk2].
  split; [by etrans|]. intros Ha. rewrite Hr1; [apply Hk2|].
  - intros past e Hs. apply Ha. by etrans.
  - intros past e Hs Hs1. apply Ha; [done|]. by etrans.
Qed.

Lemma rp_send_alike e rp : replays_alike rp (rp_send emit e rp) (rp_send emit' e rp).
Proof.
  unfold rp_send. destruct (emit _ e); [|apply alike_err]. intros rp1 [= <-]. cbn [rp_events]. split; [by apply prefix_app_r|].
  intros Ha. by rewrite (Ha (rp_events rp) e).
Qed.
Lemma send_alike_from e rp rp1 : rp_events rp1 = rp_events rp -> replays_alike rp (rp_send emit e rp1) (rp_send emit' e rp1).
Proof. intros E. eapply alike_from; [exact E|apply rp_send_alike]. Qed.

Lemma apply_record_alike rp l f i v : replays_alike rp (apply_record emit rp l f i v) (apply_record emit' rp l f i v).
Proof.
  unfold apply_record. cbv zeta. destruct (fr_TR f =s TRBook).
  - destruct (fr_Books f !! i); [by apply send_alike_from|by apply alike_ok].
  - destruct (fr_Trades f !! i); [by apply send_alike_from|by apply alike_ok].
Qed.
Lemma verdict_loop_alike l f vs : forall i rp, replays_alike rp (verdict_loop emit l f i vs rp) (verdict_loop emit' l f i vs rp).
Proof.
  induction vs as [|v vs IH]; intros i rp; cbn [verdict_loop]; [by apply alike_ok|]. cbv zeta.
  assert (Hr : forall rp1, replays_alike rp1
    match apply_record emit rp1 l f i v with Ok rp => verdict_loop emit l f (S i) vs rp | Err e => Err e end
    match apply_record emit' rp1 l f i v with Ok rp => verdict_loop emit' l f (S i) vs rp | Err e => Err e end).
  { intros rp1. by apply alike_then; [apply apply_record_alike|]. }
  repeat (split_if_goal; [by eapply alike_from; [|apply IH]|]).
  split_if_goal; [|by eapply alike_from; [|apply Hr]]. apply alike_then; [by apply send_alike_from|exact Hr].
Qed.
Lemma rp_decoded_alike l rp : replays_alike rp (rp_decoded emit l rp) (rp_decoded emit' l rp).
Proof.
  unfold rp_decoded. cbv zeta. repeat (split_if_goal; [apply alike_err || by apply send_alike_from|]).
  split_if_goal; [|apply alike_err]. unfold rp_frame. destruct (ParseFrame (raw_of l)) as [tr [f|e]]; [|by apply alike_ok].
  destruct (track_frame _ _ _) as [[t vs] day]. eapply alike_from; [|apply verdict_loop_alike]. by destruct (decide _), day.
Qed.
Lemma replay_loop_alike cs : forall n rp, replays_alike rp (replay_loop emit cs n rp) (replay_loop emit' cs n rp).
Proof.
  induction cs as [|c cs IH]; intros n rp; cbn [replay_loop]; [by apply alike_ok|]. destruct (TrimSpace c =s ""); [apply IH|].
  apply alike_then; [|intros rp1; apply IH]. unfold rp_line. destruct (ev_unmarshal c) as [l|].
  - destruct (_ && _); [apply alike_err|]. by eapply alike_from; [|apply rp_decoded_alike].
  - destruct (negb _); [apply alike_err|by apply alike_ok].
Qed.

(** Another [emit] that accepts what was emitted changes nothing. *)
Lemma Replay_alike file rp : Replay emit file = Ok rp ->
  (forall past e, (past ++ [e]) `prefix_of` rp_events rp -> emit' past e = true) -> Replay emit' file = Ok rp.
Proof.
  intros Hr Ha. destruct (replay_loop_alike _ _ _ _ Hr) as [_ Hr']. apply Hr'. intros past e _. apply Ha.
Qed.
End emits.

(** ** Replay agrees with the recorder *)

(** A replayer that has met [T] torn lines and no mismatch: at the start of a
    session, and where the line before is whole. *)
Definition ready (T : Z) (rp : replayer) : Prop :=
  su_TornLines (rp_Summary rp) = T /\ su_VerdictMismatches (rp_Summary rp) = 0 /\ 0 <= rp_session rp.
Definition clean (T : Z) (rp : replayer) : Prop :=
  rp_torn rp = 0 /\ su_TornLines (rp_Summary rp) = T /\ su_VerdictMismatches (rp_Summary rp) = 0.

(** ... inside a session, with tracker [t]. *)
Definition follows (T : Z) (t : tracker) (rp : replayer) : Prop :=
  clean T rp /\ rp_tracker rp = t /\ 0 < rp_session rp.

(** The file [OpenEvidence] leaves: its last line is ended. *)
Definition terminated (file : string) : string := (terminateTornLine true true true file).1.

Lemma get_app a s n : String.get (String.length a + n) (a +:+ s) = String.get n s.
Proof. induction a as [|c a IH]; [done|exact IH]. Qed.
Lemma get_last_app a c b : String.get (String.length (a +:+ String c b) - 1) (a +:+ String c b) =
  String.get (String.length (String c b) - 1) (String c b).
Proof.
  assert (E : (String.length (a +:+ String c b) - 1 = String.length a + (String.length (String c b) - 1))%nat).
  { rewrite strlen_app. change (String.length (String c b)) with (S (String.length b)). lia. }
  rewrite E. apply get_app.
Qed.
Lemma get_last_plain b d : no_newline (String d b) = true ->
  exists c, String.get (String.length (String d b) - 1) (String d b) = Some c /\ Ascii.eqb c newline = false.
Proof.
  revert d. induction b as [|e b IH]; intros d Hn; cbn [no_newline] in Hn; apply andb_true_iff in Hn as [Hd Hn].
  - exists d. split; [done|]. by apply negb_true_iff in Hd.
  - destruct (IH e Hn) as (c & Hc & Hl). exists c. split; [|done]. rewrite <- Hc. cbn [String.length]. rewrite !Nat.sub_succ, !Nat.sub_0_r.
    reflexivity.
Qed.

(** Ending a line that is ended, or that is not. *)
Lemma terminated_line a : terminated (a +:+ String newline "") = a +:+ String newline "".
Proof.
  unfold terminated, terminateTornLine. cbn [negb]. destruct (_ =s ""); [done|].
  rewrite get_last_app. by cbn.
Qed.
Lemma terminated_torn a c b : no_newline (String c b) = true ->
  terminated (a +:+ String c b) = a +:+ String c b +:+ String newline "".
Proof.
  intros Hn. unfold terminated, terminateTornLine. cbn [negb].
  destruct (_ =s "") eqn:E; [apply String.eqb_eq in E; by destruct a|]. rewrite get_last_app.
  destruct (get_last_plain b c Hn) as (d & -> & ->). by rewrite <- str_app_assoc.
Qed.

Section agreement.
Context `{EvidenceCodec} (utf8_valid : string -> bool) (error_text : string -> frame_error -> string).

Context (T : Z).
Notation clean := (clean T).
Notation follows := (follows T).

Definition accept_all (_ : list Event) (_ : Event) : bool := true.
Notation loop := (replay_loop accept_all).

Lemma chunks_line b rest :
  no_newline b = true ->
  chunks (b +:+ String newline rest) = (b +:+ String newline "") :: chunks rest.
Proof.
  induction b as [|c b IH]; cbn; [done|]. intros [Hc Hb]%andb_true_iff.
  apply negb_true_iff in Hc. by rewrite Hc, IH.
Qed.

Lemma chunks_tail b : no_newline b = true -> chunks b = match b with EmptyString => [] | _ => [b] end.
Proof.
  induction b as [|c b IH]; cbn; [done|]. intros [Hc Hb]%andb_true_iff.
  apply negb_true_iff in Hc. rewrite Hc, IH by done. by destruct b.
Qed.

(** The bytes so far lead replay to [rp], whatever follows them. *)
Definition replays (file : string) (rp : replayer) : Prop :=
  exists k, forall tail, loop (chunks (file +:+ tail)) 1 new_replayer = loop (chunks tail) k rp.

Lemma replays_nil : replays "" new_replayer.
Proof. by exists 1. Qed.

Lemma set_torn_same rp : rp_torn rp = 0 -> set_torn 0 rp = rp.
Proof. unfold set_torn. destruct rp. cbn. congruence. Qed.

(** Where a line may stand. *)
Definition may_follow (l : Line) (rp : replayer) : Prop := rp_torn rp = 0 \/ ln_Kind l = KindSession.

Lemma rp_line_decoded b l n rp :
  ev_unmarshal b = Some l -> may_follow l rp -> rp_line accept_all b n rp = rp_decoded accept_all l (set_torn 0 rp).
Proof.
  intros Hb Ht. unfold rp_line. rewrite Hb.
  assert (negb (rp_torn rp =? 0) && (ln_Kind l <>s KindSession) = false) as ->; [|done].
  destruct Ht as [-> | ->]; [done|]. by rewrite andb_false_r.
Qed.

Lemma replays_line file rp b l rp' :
  replays file rp -> may_follow l rp -> ev_marshal l = Some b -> ev_faithful l ->
  rp_decoded accept_all l (set_torn 0 rp) = Ok rp' -> replays (file +:+ b +:+ String newline "") rp'.
Proof.
  intros [k Hk] Ht Hm Hf Hd. exists (k + 1). intros tail.
  rewrite <- !str_app_assoc, Hk. change (String newline "" +:+ tail) with (String newline tail).
  rewrite chunks_line by (by apply (ev_one_line l)). cbn [replay_loop].
  rewrite (string_eqb_ne _ _ (ev_text l b Hm)).
  rewrite (rp_line_decoded _ l) by (done || by apply ev_decode). by rewrite Hd.
Qed.

(** A cut line replays as it is, and can be resumed from. *)
Definition resumes (file : string) : Prop :=
  exists T' rp, T <= T' <= T + 1 /\ replays (terminated file) rp /\ ready T' rp.
Definition replays_cut (file : string) : Prop :=
  (exists rp, Replay accept_all file = Ok rp /\
    su_VerdictMismatches (rp_Summary rp) = 0 /\ su_TornLines (rp_Summary rp) <= T + 1) /\ resumes file.

Lemma replays_whole file rp : replays file rp -> ready T rp -> terminated file = file -> replays_cut file.
Proof.
  intros Hr Hd He. split.
  - destruct Hr as [k Hr]. specialize (Hr ""). rewrite str_app_nil_r in Hr. exists rp. split; [done|]. destruct Hd as (? & ? & _). lia.
  - exists T, rp. split; [lia|]. by rewrite He.
Qed.

Lemma no_newline_take k b : no_newline b = true -> no_newline (take_bytes k b) = true.
Proof.
  intros Hn. rewrite <- (take_drop_bytes k b) in Hn. revert Hn. generalize (drop_bytes k b).
  induction (take_bytes k b) as [|c x IH]; cbn; [done|]. intros y [-> Hy]%andb_true_iff. by apply (IH y).
Qed.

Lemma replays_torn file rp b l k rp' :
  replays file rp -> terminated file = file -> clean rp -> 0 <= rp_session rp -> ev_marshal l = Some b -> ev_faithful l ->
  rp_decoded accept_all l rp = Ok rp' -> ready T rp' ->
  replays_cut (file +:+ take_bytes k (b +:+ String newline "")).
Proof.
  intros Hr He (Ht & H0 & Hv) Hs Hm Hf Hd Hc. pose proof (ev_one_line l b Hm) as Hn.
  assert (Hd' : rp_decoded accept_all l (set_torn 0 rp) = Ok rp') by (by rewrite set_torn_same).
  assert (Hline : replays (file +:+ b +:+ String newline "") rp') by (eapply replays_line; [done|by left|done..]).
  destruct (Nat.le_gt_cases k (String.length b)) as [Hk|Hk].
  2: { rewrite take_bytes_all by (rewrite strlen_app; cbn; lia). apply (replays_whole _ rp' Hline Hc).
       rewrite str_app_assoc. apply terminated_line. }
  rewrite take_bytes_app_le by done. pose proof (no_newline_take k b Hn) as Hnt.
  destruct (take_bytes k b) as [|c x] eqn:Et; [rewrite str_app_nil_r; by apply (replays_whole _ rp)|].
  assert (Hcase : exists rp2, T <= su_TornLines (rp_Summary rp2) <= T + 1 /\ su_VerdictMismatches (rp_Summary rp2) = 0 /\
    0 <= rp_session rp2 /\ exists n, (forall tail, loop (chunks (file +:+ tail)) 1 new_replayer = loop (chunks tail) n rp) /\
    (forall nl, nl = "" \/ nl = String newline "" ->
      (TrimSpace (String c x +:+ nl) <> "" -> rp_line accept_all (String c x +:+ nl) n rp = Ok rp2))).
  { destruct Hr as [n Hr]. destruct (decide (k < String.length b)%nat) as [Hlt|Hge].
    - exists (count one_torn (set_torn n rp)). split; [cbn; lia|]. split; [cbn; lia|]. split; [done|]. exists n. split; [done|].
      intros nl Hnl _. unfold rp_line. destruct (ev_torn l b k Hm Hlt) as [H1 H2]. rewrite Et in H1, H2.
      destruct Hnl as [-> | ->]; [rewrite str_app_nil_r, H1|rewrite H2]; by rewrite Ht.
    - assert (String c x = b) as Eb by (rewrite <- Et; apply take_bytes_all; lia).
      exists rp'. destruct Hc as (? & ? & ?). split; [lia|]. split; [done|]. split; [done|]. exists n. split; [done|].
      intros nl Hnl _. rewrite Eb, (rp_line_decoded _ l); [done| |by left].
      destruct Hnl as [-> | ->]; [rewrite str_app_nil_r|]; by apply ev_decode. }
  destruct Hcase as (rp2 & HT & Hmm & Hse & n & Hn' & Hl). split.
  - unfold Replay. rewrite Hn', chunks_tail by done. cbn [replay_loop].
    destruct (TrimSpace (String c x) =s "") eqn:Ets; [exists rp; split; [done|]; lia|].
    specialize (Hl "" (or_introl eq_refl)). rewrite str_app_nil_r in Hl. rewrite Hl; [|by bool_simpl].
    exists rp2. split; [done|]. lia.
  - unfold resumes. rewrite terminated_torn by done.
    assert (Hx : exists rp3, replays (file +:+ String c x +:+ String newline "") rp3 /\ (rp3 = rp \/ rp3 = rp2)).
    { destruct (TrimSpace (String c x +:+ String newline "") =s "") eqn:Ets.
      - exists rp. split; [|by left]. exists (n + 1). intros tail. rewrite <- !str_app_assoc, Hn'.
        change (String newline "" +:+ tail) with (String newline tail). rewrite chunks_line by done. cbn [replay_loop]. by rewrite Ets.
      - exists rp2. split; [|by right]. exists (n + 1). intros tail. rewrite <- !str_app_assoc, Hn'.
        change (String newline "" +:+ tail) with (String newline tail). rewrite chunks_line by done. cbn [replay_loop]. rewrite Ets.
        by rewrite (Hl (String newline "") (or_intror eq_refl)) by (by bool_simpl). }
    destruct Hx as (rp3 & Hx & Hcases). exists (su_TornLines (rp_Summary rp3)), rp3.
    destruct Hcases as [-> | ->]; (split; [lia|]); (split; [done|]); done.
Qed.

(** ** The recorder's file *)

Hypothesis Hfaithful : forall l b, ev_marshal l = Some b -> ev_faithful l.

(** Either the file so far replays to a state that satisfies [P], or a write
    failed and the file still replays without a mismatch, and can be resumed. *)
Definition fine (P : replayer -> Prop) (r : Recorder) : Prop :=
  (rc_err r = None /\ terminated (rc_file r) = rc_file r /\ exists rp, replays (rc_file r) rp /\ P rp) \/
  (rc_err r <> None /\ replays_cut (rc_file r)).
(** The next write is not cut short. *)
Definition whole_next (faults : list (option nat)) : Prop := match faults with Some _ :: _ => False | _ => True end.

Lemma write_fine (P Q : replayer -> Prop) l r :
  fine P r -> (forall rp, P rp -> ready T rp /\ (rp_torn rp = 0 \/ ln_Kind l = KindSession /\ whole_next (rc_faults r))) ->
  (forall rp, Q rp -> ready T rp) ->
  (forall seq rp, P rp -> exists rp', rp_decoded accept_all (number_line seq l) (set_torn 0 rp) = Ok rp' /\ Q rp') ->
  fine Q (write l r).
Proof using Hfaithful.
  intros [(He & Hend & rp & Hr & HP)|(He & Hbad)] Hcl HclQ Hstep; unfold write.
  2: { destruct (rc_err r) eqn:E; [|done]. right. by rewrite E. }
  rewrite He. destruct (Hcl rp HP) as (Hready & Ht).
  destruct (Hstep (rc_seq r + 1) rp HP) as (rp' & Hd & HQ).
  destruct (ev_marshal (number_line (rc_seq r + 1) l)) as [b|] eqn:Em.
  2: { right. split; [done|]. by apply (replays_whole _ rp). }
  pose proof (Hfaithful _ _ Em) as Hf.
  assert (Hmay : may_follow (number_line (rc_seq r + 1) l) rp) by (destruct Ht as [Ht|[Ht _]]; [by left|by right]).
  assert (Hok : forall fs, fine Q (mkRecorder (rc_file r +:+ b +:+ String newline "") fs (rc_staleAfter r)
    (rc_seq r + 1) (rc_tracker r) (rc_streams r) None)).
  { intros fs. left. split; [done|]. split; [cbn; rewrite str_app_assoc; apply terminated_line|].
    exists rp'. split; [|done]. by apply (replays_line _ rp _ _ rp' Hr Hmay Em). }
  destruct (rc_faults r) as [|[k|] fs]; [apply Hok| |apply Hok].
  right. split; [done|]. cbn. destruct Ht as [Ht|[_ []]]. rewrite (set_torn_same rp Ht) in Hd.
  destruct Hready as (H1 & H2 & H3). by apply (replays_torn _ rp _ _ k rp' Hr Hend (conj Ht (conj H1 H2)) H3 Em Hf Hd (HclQ _ HQ)).
Qed.

Lemma follows_ready t rp : follows t rp -> ready T rp.
Proof. intros ((? & ? & ?) & _ & ?). repeat split; [done..|lia]. Qed.
Lemma write_follows t t' l r : fine (follows t) r ->
  (forall seq rp, follows t rp -> exists rp', rp_decoded accept_all (number_line seq l) rp = Ok rp' /\ follows t' rp') ->
  fine (follows t') (write l r).
Proof using Hfaithful.
  intros Hf Hstep. apply (write_fine (follows t)); [done| |apply follows_ready|].
  - intros rp Hrp. split; [by eapply follows_ready|]. left. apply Hrp.
  - intros seq rp Hrp. rewrite set_torn_same by apply Hrp. by apply Hstep.
Qed.

(** ** What each line does to a clean replay *)

Definition same (rp rp' : replayer) : Prop :=
  clean rp -> clean rp' /\ rp_tracker rp' = rp_tracker rp /\ rp_session rp' = rp_session rp.

Lemma same_trans a b c : same a b -> same b c -> same a c.
Proof. intros H1 H2 Ha. destruct (H1 Ha) as (Hb & <- & <-). by apply H2. Qed.

Lemma same_count s rp :
  su_TornLines s = 0 -> su_VerdictMismatches s = 0 -> same rp (count s rp).
Proof. intros H1 H2 (Ht & H0 & Hv). unfold clean. cbn. rewrite H1, H2. repeat split; lia. Qed.

Lemma send_ok e rp : exists rp', rp_send accept_all e rp = Ok rp' /\ same rp rp'.
Proof. eexists. split; [done|]. intros (? & ? & ?). done. Qed.

Lemma apply_record_ok rp l f i v : exists rp', apply_record accept_all rp l f i v = Ok rp' /\ same rp rp'.
Proof.
  unfold apply_record. pose proof (same_count one_applied rp eq_refl eq_refl) as Hc.
  destruct (fr_TR f =s TRBook).
  - destruct (fr_Books f !! i); [|by eexists]. eexists. split; [done|]. done.
  - destruct (fr_Trades f !! i); [|by eexists]. eexists. split; [done|]. done.
Qed.

Lemma verdict_loop_ok l f vs : forall i rp,
  exists rp', verdict_loop accept_all l f i vs rp = Ok rp' /\ same rp rp'.
Proof.
  induction vs as [|v vs IH]; intros i rp; cbn [verdict_loop]; [by exists rp|].
  pose proof (same_count one_record rp eq_refl eq_refl) as H1. set (rp1 := count one_record rp) in *.
  destruct (vd_Class v =s ClassDuplicate).
  { destruct (IH (S i) (count one_duplicate rp1)) as (rp' & Hl & Hs). exists rp'. split; [done|].
    apply (same_trans _ _ _ H1), (same_trans _ (count one_duplicate rp1)); [by apply same_count|done]. }
  destruct (vd_Class v =s ClassRegress).
  { destruct (IH (S i) (count one_regress rp1)) as (rp' & Hl & Hs). exists rp'. split; [done|].
    apply (same_trans _ _ _ H1), (same_trans _ (count one_regress rp1)); [by apply same_count|done]. }
  assert (Happ : forall rp0, same rp rp0 -> exists rp', match apply_record accept_all rp0 l f i v with
    | Ok rp2 => verdict_loop accept_all l f (S i) vs rp2 | Err e => Err e end = Ok rp' /\ same rp rp').
  { intros rp0 H0. destruct (apply_record_ok rp0 l f i v) as (rp2 & -> & H2).
    destruct (IH (S i) rp2) as (rp' & Hl & Hs). exists rp'. split; [done|].
    by apply (same_trans _ _ _ H0), (same_trans _ rp2). }
  destruct (vd_Class v =s ClassGap); [|by apply Happ].
  destruct (send_ok (mkEvent EventGap (rp_session rp1) (ln_Seq l) (ln_AtNS l) (fr_TR f) (vd_Symbol v)
    None None (vd_MissingVol v) 0) (count (one_gap (vd_MissingVol v)) rp1)) as (rp2 & -> & H2).
  apply Happ, (same_trans _ _ _ H1), (same_trans _ (count (one_gap (vd_MissingVol v)) rp1));
    [by apply same_count|done].
Qed.

Lemma follows_same t rp rp' : follows t rp -> same rp rp' -> follows t rp'.
Proof. intros (Hc & <- & Hs) H1. destruct (H1 Hc) as (? & E1 & E2). split; [done|]. by rewrite E2. Qed.

Lemma unsync_follows t rp : follows t rp -> follows t (unsyncBooks rp).
Proof. intros (? & ? & ?). done. Qed.

Lemma decoded_reconnect t seq a n rp :
  follows t rp -> exists rp', rp_decoded accept_all (number_line seq (reconnect_line a n)) rp = Ok rp' /\
    follows (reconnect t) rp'.
Proof.
  intros ((Ht & H0 & Hv) & <- & Hs). unfold rp_decoded. cbn.
  destruct (Z.eqb_spec (rp_session rp) 0); [lia|]. cbn.
  eexists. split; [done|]. unfold follows, clean. cbn. repeat split; lia.
Qed.

Lemma decoded_stale t seq a tr sym since rp :
  follows t rp -> exists rp', rp_decoded accept_all (number_line seq (stale_line a tr sym since)) rp = Ok rp' /\
    follows t rp'.
Proof.
  intros ((Ht & H0 & Hv) & <- & Hs). unfold rp_decoded. cbn.
  destruct (Z.eqb_spec (rp_session rp) 0); [lia|]. cbn.
  eexists. split; [done|]. unfold follows, clean. cbn. repeat split; lia.
Qed.

Lemma decoded_session seq a ms rp :
  ready T rp ->
  exists rp', rp_decoded accept_all (number_line seq (session_line a ms)) (set_torn 0 rp) = Ok rp' /\
    follows newTracker rp'.
Proof.
  intros (H0 & Hv & Hs). unfold rp_decoded. cbn. eexists. split; [done|].
  unfold follows, clean. cbn. repeat split; lia.
Qed.

Lemma raw_of_frame seq valid a tr raw e vs : raw_of (number_line seq (frame_line valid a tr raw e vs)) = raw.
Proof. by destruct valid. Qed.

Lemma decoded_frame t seq valid a tr tr0 raw f t' vs nd rp :
  ParseFrame raw = (tr0, Ok f) -> track_frame t f a = (t', vs, nd) -> follows t rp ->
  exists rp', rp_decoded accept_all (number_line seq (frame_line valid a tr raw "" vs)) rp = Ok rp' /\
    follows t' rp'.
Proof.
  intros Hp Htf Hfo. pose proof Hfo as ((Ht & H0 & Hv) & Etr & Hs). unfold rp_decoded.
  cbn [number_line frame_line ln_V ln_Kind]. rewrite Z.eqb_refl. cbn [negb].
  destruct (Z.eqb_spec (rp_session rp) 0); [lia|]. rewrite andb_false_r.
  change (KindFrame =s KindSession) with false. change (KindFrame =s KindReconnect) with false.
  change (KindFrame =s KindStale) with false. change (KindFrame =s KindFrame) with true. cbv iota.
  unfold rp_frame. rewrite raw_of_frame, Hp. cbn [count rp_tracker]. rewrite Etr.
  cbn [number_line frame_line ln_AtNS ln_Verdicts]. rewrite Htf. rewrite decide_True by done.
  set (rp1 := if nd then _ else _).
  assert (Hf1 : follows t' rp1).
  { subst rp1. destruct nd; unfold follows, clean; cbn; repeat split; lia. }
  destruct (verdict_loop_ok (number_line seq (frame_line valid a tr raw "" vs)) f vs 0 rp1) as (rp' & Hl & Hsame).
  exists rp'. split; [exact Hl|]. by apply (follows_same _ rp1).
Qed.

Lemma decoded_bad_frame t seq valid a tr tr0 raw e er rp :
  ParseFrame raw = (tr0, Err er) -> follows t rp ->
  exists rp', rp_decoded accept_all (number_line seq (frame_line valid a tr raw e [])) rp = Ok rp' /\
    follows t rp'.
Proof.
  intros Hp ((Ht & H0 & Hv) & <- & Hs). unfold rp_decoded.
  cbn [number_line frame_line ln_V ln_Kind]. rewrite Z.eqb_refl. cbn [negb].
  destruct (Z.eqb_spec (rp_session rp) 0); [lia|]. rewrite andb_false_r.
  change (KindFrame =s KindSession) with false. change (KindFrame =s KindReconnect) with false.
  change (KindFrame =s KindStale) with false. change (KindFrame =s KindFrame) with true. cbv iota.
  unfold rp_frame. rewrite raw_of_frame, Hp. eexists. split; [done|].
  unfold follows, clean. cbn. repeat split; lia.
Qed.

(** ** The recorder's operations *)

Inductive rec_op :=
| OFrame (raw : string) (at_ns : Z)
| OReconnect (at_ns attempt : Z)
| OTick (now : Z).

Definition rec_step (r : Recorder) (o : rec_op) : Recorder :=
  match o with
  | OFrame raw a => fst (RecFrame utf8_valid error_text raw a r)
  | OReconnect a n => fst (RecReconnect a n r)
  | OTick now => fst (RecTick now r)
  end.

Lemma write_tracker l r : rc_tracker (write l r) = rc_tracker r.
Proof.
  unfold write. destruct (rc_err r); [done|]. destruct (ev_marshal _); [|done].
  destruct (rc_faults r) as [|[] ?]; done.
Qed.

Lemma arrive_fine t key a r : fine (follows t) r -> fine (follows t) (arrive key a r).
Proof using Hfaithful.
  intros Hf. unfold arrive. destruct (rc_streams r !! key) as [st|]; [|done].
  destruct (_ && _); [|done].
  assert (Hw : fine (follows t) (write (stale_line a (sk_tr key) (sk_symbol key) (st_lastNS st)) r)).
  { apply (write_follows t); [done|]. intros. by apply decoded_stale. }
  done.
Qed.

Lemma arrive_tracker key a r : rc_tracker (arrive key a r) = rc_tracker r.
Proof.
  unfold arrive. destruct (rc_streams r !! key) as [st|]; [|done].
  destruct (_ && _); cbn; [apply write_tracker|done].
Qed.

Lemma arrive_all_fine t tr a vs : forall r,
  fine (follows t) r ->
  fine (follows t) (fold_left (fun r v => arrive (mkStreamKey tr (vd_Symbol v)) a r) vs r) /\
  rc_tracker (fold_left (fun r v => arrive (mkStreamKey tr (vd_Symbol v)) a r) vs r) = rc_tracker r.
Proof using Hfaithful.
  induction vs as [|v vs IH]; intros r Hr; [done|]. cbn [fold_left].
  destruct (IH (arrive (mkStreamKey tr (vd_Symbol v)) a r)) as [H1 H2]; [by apply arrive_fine|].
  split; [done|]. by rewrite H2, arrive_tracker.
Qed.

Lemma flag_all_fine t now ks : forall r,
  fine (follows t) r ->
  fine (follows t) (fold_left (flag_stale now) ks r) /\
  rc_tracker (fold_left (flag_stale now) ks r) = rc_tracker r.
Proof using Hfaithful.
  induction ks as [|k ks IH]; intros r Hr; [done|]. cbn [fold_left].
  assert (H1 : fine (follows t) (flag_stale now r k) /\ rc_tracker (flag_stale now r k) = rc_tracker r).
  { unfold flag_stale. destruct (rc_streams r !! k) as [st|]; [|done]. rewrite write_tracker. split; [|done].
    apply (write_follows t); [done|]. intros. by apply decoded_stale. }
  destruct H1 as [H1 H2]. destruct (IH _ H1) as [H3 H4]. split; [done|]. by rewrite H4.
Qed.

Lemma fine_bad (P Q : replayer -> Prop) r : fine P r -> rc_err r <> None -> fine Q r.
Proof. intros [[? _]|Hb] He; [done|by right]. Qed.

Lemma rec_step_fine r o :
  fine (follows (rc_tracker r)) r ->
  fine (follows (rc_tracker (rec_step r o))) (rec_step r o).
Proof using Hfaithful.
  intros Hf. destruct o as [raw a|a n|now]; cbn [rec_step].
  - unfold RecFrame. destruct (ParseFrame raw) as [tr [f|er]] eqn:Ep.
    + destruct (rc_err r) eqn:Ee; [done|].
      destruct (track_frame (rc_tracker r) f a) as [[t' vs] nd] eqn:Et. cbn [fst].
      destruct (arrive_all_fine (rc_tracker r) (fr_TR f) a vs (set_tracker t' r) Hf) as [H1 H2].
      rewrite write_tracker, H2. cbn [set_tracker rc_tracker].
      apply (write_follows (rc_tracker r)); [done|].
      intros seq rp. by apply (decoded_frame _ _ _ _ _ tr _ f _ _ nd).
    + destruct (_ || _); [done|]. destruct (rc_err r) eqn:Ee; [done|]. cbn [fst]. rewrite write_tracker.
      apply (write_follows (rc_tracker r)); [done|].
      intros seq rp. by apply (decoded_bad_frame _ _ _ _ _ tr _ _ er).
  - unfold RecReconnect. destruct (rc_err r) eqn:Ee; [done|]. cbn [fst]. rewrite write_tracker.
    cbn [set_tracker rc_tracker].
    apply (write_follows (rc_tracker r)); [done|].
    intros seq rp. by apply decoded_reconnect.
  - unfold RecTick. destruct (rc_err r) eqn:Ee; [done|]. cbn [fst].
    destruct (flag_all_fine (rc_tracker r) now (silent now r) r Hf) as [H1 H2]. by rewrite H2.
Qed.

Definition rec_run (os : list rec_op) (r : Recorder) : Recorder := fold_left rec_step os r.

Lemma rec_run_fine os : forall r,
  fine (follows (rc_tracker r)) r -> fine (follows (rc_tracker (rec_run os r))) (rec_run os r).
Proof using Hfaithful.
  induction os as [|o os IH]; intros r Hr; [done|]. cbn [rec_run fold_left].
  by apply IH, rec_step_fine.
Qed.

(** A session on a file that can be resumed. *)
Lemma NewRecorder_fine file rp faults stale now : replays file rp -> terminated file = file -> ready T rp ->
  rp_torn rp = 0 \/ whole_next faults ->
  fine (follows (rc_tracker (NewRecorder file faults stale now))) (NewRecorder file faults stale now).
Proof using Hfaithful.
  intros Hr Hend Hready Ht. unfold NewRecorder. rewrite write_tracker. cbn [rc_tracker].
  apply (write_fine (fun rp' => rp' = rp)).
  - left. split; [done|]. split; [done|]. by exists rp.
  - intros rp' ->. split; [done|]. destruct Ht as [Ht|Ht]; [by left|by right].
  - apply follows_ready.
  - intros seq rp' ->. by apply decoded_session.
Qed.

(** How a session leaves its file. *)
Lemma session_leaves os file rp faults stale now : replays file rp -> terminated file = file -> ready T rp ->
  rp_torn rp = 0 \/ whole_next faults ->
  let r := rec_run os (NewRecorder file faults stale now) in
  replays_cut (rc_file r) /\
  (rc_err r = None -> terminated (rc_file r) = rc_file r /\ exists rp, replays (rc_file r) rp /\ follows (rc_tracker r) rp).
Proof using Hfaithful.
  intros Hr Hend Hready Ht r.
  destruct (rec_run_fine os _ (NewRecorder_fine file rp faults stale now Hr Hend Hready Ht)) as [(He & Hend' & rp' & Hr' & Hf)|(He & Hc)].
  - split; [|intros _; split; [done|by exists rp']]. apply (replays_whole _ rp'); [done|by eapply follows_ready|done].
  - split; [done|]. by intros E.
Qed.
End agreement.

Section agrees.
Context `{EvidenceCodec} (utf8_valid : string -> bool) (error_text : string -> frame_error -> string).
Hypothesis Hfaithful : forall l b, ev_marshal l = Some b -> ev_faithful l.
Notation rec_run := (rec_run utf8_valid error_text).

End agrees.

Lemma dot_faithful : forall l b, ev_marshal l = Some b -> ev_faithful l.
Proof. done. Qed.

