(* ===== verification/Feed.v ===== *)
(** [src/internal/bookfeed]: the top-of-book snapshots that are published to a
    Redis stream from websocket frames or, in the mock mode, from REST.

    The RFC 3339 times of package [time] are the class [StampCodec]; Redis, the
    REST reader and the clock are the class [FeedWorld]. *)

From Stdlib Require Import Ascii.
From S2P Require Import Prelude GoStr KST Frame Decode Stream Limits.
Local Open Scope Z_scope.
#[local] Arguments String.append !_ _ / : simpl nomatch.

(** [Snapshot]; the five-element arrays are lists of length 5. *)
Record Snapshot := mkSnapshot {
  sn_Symbol : string; Exchange : Z; sn_Received : Z; sn_Bids : list Level; sn_Asks : list Level;
  sn_Source : string
}.
Definition no_level : Level := mkLevel 0 0.
Definition empty_snapshot : Snapshot :=
  mkSnapshot "" zero_time zero_time (replicate 5 no_level) (replicate 5 no_level) "".

Inductive feed_error : Type :=
| ErrIdentity
| ErrLevels
| ErrUnordered
| ErrClock
| ErrExchangeStamp
| ErrReceiveStamp
| ErrNumber
| ErrFeedSymbol
| ErrFeedRedis
| ErrMismatch
| ErrPollRead
| ErrFrame (e : frame_error).

Definition SymbolOK (s : string) : bool :=
  (String.length s =? 6)%nat && str_forall (fun c => digit_byte c || byte_in 65 90 c) s.

Definition level (l : list Level) (i : nat) : Level := nth i l no_level.

(** The loop of [Validate] from level [i] on, [n] levels left. *)
Fixpoint validate_levels (s : Snapshot) (i n : nat) : option feed_error :=
  match n with
  | O => None
  | S n =>
      let b := level (sn_Bids s) i in
      let a := level (sn_Asks s) i in
      if (lv_Price b <=? 0) || (lv_Price a <=? 0) || (lv_Qty b <? 0) || (lv_Qty a <? 0)
         || (lv_Price b >? lv_Price a) then Some ErrLevels
      else if (0 <? i)%nat && ((lv_Price b >? lv_Price (level (sn_Bids s) (i - 1)))
              || (lv_Price a <? lv_Price (level (sn_Asks s) (i - 1)))) then Some ErrUnordered
      else validate_levels s (S i) n
  end.

(** [Validate]. *)
Definition ValidateSnapshot (s : Snapshot) : option feed_error :=
  if negb (SymbolOK (sn_Symbol s)) || (Exchange s =? zero_time) || (sn_Received s =? zero_time)
     || ((sn_Source s <>s "ws") && (sn_Source s <>s "rest")) then Some ErrIdentity
  else validate_levels s 0 5.

(** [ExchangeTime]. *)
Definition ExchangeTime (hour : string) (received : Z) : option Z :=
  clock ← parse_clock hour;
  let at_ := kst_instant (kst_days received) (clock_ns clock) in
  let at_ := if time_sub at_ received >? 12 * hour_ns then at_ + -24 * hour_ns else at_ in
  Some (if time_sub received at_ >? 12 * hour_ns then at_ + 24 * hour_ns else at_).

(** [Snapshot.At]. *)
Definition SnapshotAt (s : Snapshot) : Z := if Exchange s <? sn_Received s then Exchange s else sn_Received s.

(** ** The stream entry *)

(** [time.Parse] and [Format] with [time.RFC3339Nano] on instants of the
    representable years. *)
Class StampCodec := {
  parse_stamp : string -> option Z;
  format_stamp : Z -> string;
  stamp_ok : Z -> Prop;
  parse_format t : stamp_ok t -> parse_stamp (format_stamp t) = Some t
}.

(** The four keys of level [i], in the order of [levelFields]. *)
Definition itoa (i : nat) : string := FormatUint (Z.of_nat i + 1).
Definition level_keys (i : nat) : list string :=
  (fun p => p +:+ itoa i) <$> ["bid_price_"; "bid_qty_"; "ask_price_"; "ask_qty_"].
Definition poll_keys (i : nat) : list string :=
  (fun p => p +:+ itoa i) <$> ["bidp"; "bidp_rsqn"; "askp"; "askp_rsqn"].

(** The four numbers [levelFields] points at, and storing one of them. *)
Definition level_numbers (s : Snapshot) (i : nat) : list Z :=
  [lv_Price (level (sn_Bids s) i); lv_Qty (level (sn_Bids s) i);
   lv_Price (level (sn_Asks s) i); lv_Qty (level (sn_Asks s) i)].
Definition store_number (s : Snapshot) (i field : nat) (z : Z) : Snapshot :=
  let bid := level (sn_Bids s) i in
  let ask := level (sn_Asks s) i in
  let '(bid, ask) :=
    match field with
    | 0%nat => (mkLevel z (lv_Qty bid), ask)
    | 1%nat => (mkLevel (lv_Price bid) z, ask)
    | 2%nat => (bid, mkLevel z (lv_Qty ask))
    | _ => (bid, mkLevel (lv_Price ask) z)
    end in
  mkSnapshot (sn_Symbol s) (Exchange s) (sn_Received s) (<[i := bid]> (sn_Bids s)) (<[i := ask]> (sn_Asks s))
    (sn_Source s).

(** The loop over levels and their fields, as [Decode] and [Poll] write it: it
    stops at the first number that does not parse, which is stored all the
    same. *)
Fixpoint read_fields (get : string -> string) (s : Snapshot) (i field : nat) (keys : list string)
  : Snapshot * bool :=
  match keys with
  | [] => (s, true)
  | key :: keys =>
      let '(z, ok) := ParseIntValue (get key) in
      let s := store_number s i field z in
      if ok then read_fields get s i (S field) keys else (s, false)
  end.
Fixpoint read_levels (get : string -> string) (keys : nat -> list string) (s : Snapshot) (i n : nat)
  : Snapshot * bool :=
  match n with
  | O => (s, true)
  | S n =>
      let '(s, ok) := read_fields get s i 0 (keys i) in
      if ok then read_levels get keys s (S i) n else (s, false)
  end.

Section Feed.
Context {codec : StampCodec}.

(** [Values], as the entries of the map. *)
Definition level_values (s : Snapshot) (i : nat) : list (string * string) :=
  zip (level_keys i) (FormatInt <$> level_numbers s i).
Definition Values (s : Snapshot) : gmap string string :=
  list_to_map ([("symbol", sn_Symbol s); ("ts_exchange", format_stamp (Exchange s));
    ("ts_received", format_stamp (sn_Received s)); ("source", sn_Source s)]
    ++ (seq 0 5 ≫= level_values s)).

(** [Decode]: the snapshot, filled as far as it was read, and the error. *)
Definition DecodeSnapshot (v : gmap string rvalue) : Snapshot * option feed_error :=
  let get k := match v !! k with Some (VString s) => s | _ => "" end in
  let with_times e r :=
    mkSnapshot (get "symbol") e r (replicate 5 no_level) (replicate 5 no_level) (get "source") in
  match parse_stamp (get "ts_exchange") with
  | None => (with_times zero_time zero_time, Some ErrExchangeStamp)
  | Some e =>
      match parse_stamp (get "ts_received") with
      | None => (with_times e zero_time, Some ErrReceiveStamp)
      | Some r =>
          match read_levels get level_keys (with_times e r) 0 5 with
          | (s, false) => (s, Some ErrNumber)
          | (s, true) => (s, ValidateSnapshot s)
          end
      end
  end.

(** ** Publishing and reading *)

(** Redis, the REST reader and [time.Now]; true is a publication that
    succeeded. *)
Class FeedWorld (W : Type) := {
  feed_add : W -> string -> Z -> gmap string string -> W * bool;
  feed_last : W -> string -> W * option (list (gmap string rvalue));
  rest_read : W -> string -> W * option (gmap string string);
  time_now : W -> W * Z
}.
Context {W : Type} {world : FeedWorld W}.

(** [Publish]: the error, if any. *)
Definition Publish (w : W) (s : Snapshot) : W * option feed_error :=
  match ValidateSnapshot s with
  | Some e => (w, Some e)
  | None =>
      let '(w, ok) := feed_add w ("book:kis:" +:+ sn_Symbol s) 10000 (Values s) in
      (w, if ok then None else Some ErrFeedRedis)
  end.

(** [Latest]: [Ok None] when there is no snapshot. *)
Definition Latest (w : W) (symbol : string) : W * result (option Snapshot) feed_error :=
  if negb (SymbolOK symbol) then (w, Err ErrFeedSymbol)
  else
    match feed_last w ("book:kis:" +:+ symbol) with
    | (w, None) => (w, Err ErrFeedRedis)
    | (w, Some []) => (w, Ok None)
    | (w, Some (row :: _)) =>
        match DecodeSnapshot row with
        | (_, Some e) => (w, Err e)
        | (s, None) => if sn_Symbol s <>s symbol then (w, Err ErrMismatch) else (w, Ok (Some s))
        end
    end.

(** ** The producer *)

(** [Poll]: the snapshot and the error. *)
Definition Poll (w : W) (symbol : string) : W * Snapshot * option feed_error :=
  match rest_read w symbol with
  | (w, None) => (w, empty_snapshot, Some ErrPollRead)
  | (w, Some output) =>
      let get k := default "" (output !! k) in
      let '(w, now) := time_now w in
      let s exchange :=
        mkSnapshot symbol exchange now (replicate 5 no_level) (replicate 5 no_level) "rest" in
      match ExchangeTime (get "aspr_acpt_hour") now with
      | None => (w, s zero_time, Some ErrClock)
      | Some exchange =>
          match read_levels get poll_keys (s exchange) 0 5 with
          | (s, false) => (w, s, Some ErrNumber)
          | (s, true) => (w, s, ValidateSnapshot s)
          end
      end
  end.

(** The loop of [FromEvent] over the book records of a frame. *)
Fixpoint from_books (received : Z) (books : list BookRecord) : result (list Snapshot) feed_error :=
  match books with
  | [] => Ok []
  | b :: books =>
      match ExchangeTime (br_Hour b) received with
      | None => Err ErrClock
      | Some exchange =>
          let s := mkSnapshot (br_Symbol b) exchange received (take 5 (br_Bids b)) (take 5 (br_Asks b)) "ws" in
          match ValidateSnapshot s with
          | Some e => Err e
          | None => match from_books received books with Ok out => Ok (s :: out) | Err e => Err e end
          end
      end
  end.
Definition FromEvent (raw : string) (received : Z) : result (list Snapshot) feed_error :=
  match (ParseFrame raw).2 with
  | Err e => Err (ErrFrame e)
  | Ok frame => from_books received (fr_Books frame)
  end.

(** One round of [Run]'s [select]. *)
Inductive feed_input : Type :=
| InEvent (raw : string) (received : Z)
| InTimer (now : Z).

(** The loop over the snapshots of one event; the log holds what was handed
    to [Publish], the latest first, and the warnings are counted. *)
Record feed_state := mkFeedState { fd_world : W; lastWS : Z; fd_log : list Snapshot; fd_warnings : Z }.

Fixpoint publish_all (symbol : string) (st : feed_state) (snapshots : list Snapshot) : feed_state :=
  match snapshots with
  | [] => st
  | s :: snapshots =>
      if sn_Symbol s <>s symbol then publish_all symbol st snapshots
      else
        match Publish (fd_world st) s with
        | (w, Some _) =>
            publish_all symbol (mkFeedState w (lastWS st) (s :: fd_log st) (fd_warnings st + 1)) snapshots
        | (w, None) => publish_all symbol (mkFeedState w (sn_Received s) (s :: fd_log st) (fd_warnings st)) snapshots
        end
  end.

Definition feed_step (symbol : string) (mock rest : bool) (st : feed_state) (i : feed_input) : feed_state :=
  match i with
  | InEvent raw received =>
      match FromEvent raw received with
      | Err _ => mkFeedState (fd_world st) (lastWS st) (fd_log st) (fd_warnings st + 1)
      | Ok snapshots => publish_all symbol st snapshots
      end
  | InTimer now =>
      if negb mock || negb rest || (time_sub now (lastWS st) <=? 4 * second_ns) then st
      else
        match Poll (fd_world st) symbol with
        | (w, _, Some _) => mkFeedState w (lastWS st) (fd_log st) (fd_warnings st + 1)
        | (w, s, None) =>
            match Publish w s with
            | (w, None) => mkFeedState w (lastWS st) (s :: fd_log st) (fd_warnings st)
            | (w, Some _) => mkFeedState w (lastWS st) (s :: fd_log st) (fd_warnings st + 1)
            end
        end
  end.

(** [Run] over its inputs; [None] is the refused symbol. *)
Definition RunFeed (symbol : string) (mock rest : bool) (w : W) (inputs : list feed_input) : option feed_state :=
  if negb (SymbolOK symbol) then None
  else Some (fold_left (feed_step symbol mock rest) inputs (mkFeedState w zero_time [] 0)).
End Feed.

(** ** The exchange clock *)

Lemma clock_days k t : 0 <= k < day_ns -> kst_clock t = k -> t = kst_instant (kst_days t) k.
Proof. intros Hk <-. exact (proj1 (kst_split t)). Qed.

Lemma instant_clock k d : 0 <= k < day_ns -> kst_clock (kst_instant d k) = k.
Proof.
  intros Hk. unfold kst_clock, kst_instant. replace (d * day_ns + k - Offset + Offset) with (k + d * day_ns) by lia.
  rewrite Z.mod_add, Z.mod_small by (done || lia). done.
Qed.

Lemma ExchangeTime_facts hour received clock t :
  parse_clock hour = Some clock -> ExchangeTime hour received = Some t ->
  kst_clock t = clock_ns clock /\ Z.abs (t - received) <= 12 * hour_ns /\
  forall t', kst_clock t' = clock_ns clock -> Z.abs (t - received) <= Z.abs (t' - received).
Proof.
  intros Hc. unfold ExchangeTime. rewrite Hc. cbn [mbind option_bind]. intros [= Ht].
  apply parse_clock_range in Hc. set (k := clock_ns clock) in *.
  destruct (kst_split received) as [Er Hr]. set (D := kst_days received) in *.
  assert (Hh : hour_ns = 3600000000000) by reflexivity. assert (Hdn : day_ns = 86400000000000) by reflexivity.
  assert (Hsub : forall a b, time_sub a b >? 12 * hour_ns = (a - b >? 12 * hour_ns)).
  { intros a b. unfold time_sub, min_int64, max_int64. rewrite Hh. lia. }
  rewrite !Hsub in Ht.
  assert (Hex : exists d, t = kst_instant d k /\ Z.abs (t - received) <= 12 * hour_ns).
  { unfold kst_instant in *. destruct (Z.gtb_spec (D * day_ns + k - Offset - received) (12 * hour_ns)).
    - exists (D - 1). rewrite <- Ht.
      destruct (Z.gtb_spec (received - (D * day_ns + k - Offset + -24 * hour_ns)) (12 * hour_ns)); lia.
    - destruct (Z.gtb_spec (received - (D * day_ns + k - Offset)) (12 * hour_ns));
        [exists (D + 1)|exists D]; rewrite <- Ht; lia. }
  destruct Hex as (d & -> & Habs). split; [by apply instant_clock|]. split; [done|].
  intros t' Hk'. rewrite (clock_days k t' Hc Hk'). unfold kst_instant in *.
  destruct (Z.eq_dec (kst_days t') d) as [->|Hne]; [lia|]. nia.
Qed.

(** The exchange clock is read on the nearest day: the instant shows the
    clock in Korea, is at most twelve hours from the receipt, and no other
    instant with that clock is nearer. *)
Theorem ExchangeTime_nearest hour received clock t :
  parse_clock hour = Some clock -> ExchangeTime hour received = Some t ->
  kst_clock t = clock_ns clock /\ Z.abs (t - received) <= 12 * hour_ns /\
  forall t', kst_clock t' = clock_ns clock -> Z.abs (t - received) <= Z.abs (t' - received).
Proof. apply ExchangeTime_facts. Qed.

(** Two seconds before midnight, read two seconds past it, and the reverse. *)
Lemma ExchangeTime_nearest_witness :
  ExchangeTime "000002" (kst_instant 19999 (86398 * second_ns)) = Some (kst_instant 20000 (2 * second_ns)) /\
  Z.abs (kst_instant 19999 (86398 * second_ns) - kst_instant 20000 (2 * second_ns)) <= 12 * hour_ns.
Proof.
  split; [vm_compute; reflexivity|].
  exact (proj1 (proj2 (ExchangeTime_nearest "235958" (kst_instant 20000 (2 * second_ns)) (23, 59, 58)
    (kst_instant 19999 (86398 * second_ns)) eq_refl eq_refl))).
Defined.

(** ** The stream entry round trip *)

Definition five (s : Snapshot) : Prop := length (sn_Bids s) = 5%nat /\ length (sn_Asks s) = 5%nat.
Definition int64_levels (s : Snapshot) : Prop :=
  forall i, Forall in_int64 (level_numbers s i).

Definition entry_keys : list string :=
  ["symbol"; "ts_exchange"; "ts_received"; "source"] ++ (seq 0 5 ≫= level_keys).

Lemma entry_keys_nodup : NoDup entry_keys.
Proof. apply (bool_decide_unpack (NoDup entry_keys)). vm_compute. exact I. Qed.

Section roundtrip.
Context {codec : StampCodec}.

Definition entry_list (s : Snapshot) : list (string * string) :=
  [("symbol", sn_Symbol s); ("ts_exchange", format_stamp (Exchange s));
    ("ts_received", format_stamp (sn_Received s)); ("source", sn_Source s)]
    ++ (seq 0 5 ≫= level_values s).

Lemma entry_list_keys s : (entry_list s).*1 = entry_keys.
Proof. reflexivity. Qed.

Lemma Values_lookup s k v : (k, v) ∈ entry_list s -> Values s !! k = Some v.
Proof.
  intros H. apply elem_of_list_to_map; [|exact H].
  change (NoDup (entry_list s).*1). rewrite entry_list_keys. apply entry_keys_nodup.
Qed.

Lemma Values_level s i : (i < 5)%nat ->
  Forall2 (fun k z => Values s !! k = Some (FormatInt z)) (level_keys i) (level_numbers s i).
Proof.
  intros Hi. assert (Hin : forall kv, kv ∈ level_values s i -> kv ∈ entry_list s).
  { intros kv Hkv. unfold entry_list. apply elem_of_app. right. apply list_elem_of_bind.
    exists i. split; [done|]. apply elem_of_seq. lia. }
  unfold level_values in Hin. cbn [level_keys fmap list_fmap level_numbers zip zip_with] in Hin |- *.
  repeat constructor; apply Values_lookup, Hin; [left|right; left|do 2 right; left|do 3 right; left].
Qed.

(** The four numbers of a level, all read. *)
Definition store_level (s : Snapshot) (i : nat) (bp bq ap aq : Z) : Snapshot :=
  store_number (store_number (store_number (store_number s i 0 bp) i 1 bq) i 2 ap) i 3 aq.

Lemma read_fields_ok get s i keys bp bq ap aq :
  Forall2 (fun k z => get k = FormatInt z) keys [bp; bq; ap; aq] -> Forall in_int64 [bp; bq; ap; aq] ->
  read_fields get s i 0 keys = (store_level s i bp bq ap aq, true).
Proof.
  intros Hk Hz. repeat (apply Forall_cons in Hz as [? Hz]).
  repeat (apply Forall2_cons_inv_r in Hk as (? & ? & Hg & Hk & ->); rename Hg into Hg'; pose proof Hg'; clear Hg').
  apply Forall2_nil_inv_r in Hk as ->. cbn [read_fields].
  repeat match goal with H : get _ = _ |- _ => rewrite H; clear H; rewrite ParseIntValue_FormatInt by done end.
  reflexivity.
Qed.

Lemma read_levels_ok s sym ex rc src : five s -> int64_levels s ->
  read_levels (fun k => match (VString <$> Values s) !! k with Some (VString x) => x | _ => "" end) level_keys
    (mkSnapshot sym ex rc (replicate 5 no_level) (replicate 5 no_level) src) 0 5
  = (mkSnapshot sym ex rc (sn_Bids s) (sn_Asks s) src, true).
Proof.
  intros [Hb Ha] Hi. set (get := fun k => _).
  assert (Hget : forall i, (i < 5)%nat ->
    Forall2 (fun k z => get k = FormatInt z) (level_keys i) (level_numbers s i)).
  { intros i Hlt. eapply Forall2_impl; [by apply Values_level|]. intros k z Hk. unfold get.
    by rewrite lookup_fmap, Hk. }
  destruct s as [sy e r bids asks so]. cbn [sn_Bids sn_Asks] in *.
  destruct bids as [|[] [|[] [|[] [|[] [|[] []]]]]]; try discriminate Hb.
  destruct asks as [|[] [|[] [|[] [|[] [|[] []]]]]]; try discriminate Ha.
  cbn [read_levels].
  do 5 (erewrite read_fields_ok by (apply Hget + apply Hi; lia)).
  reflexivity.
Qed.

(** A published snapshot is read back as it was: decoding the entry that
    [Values] writes for a valid snapshot gives the same snapshot and no
    error. *)
Theorem snapshot_roundtrip s :
  ValidateSnapshot s = None -> five s -> int64_levels s -> stamp_ok (Exchange s) -> stamp_ok (sn_Received s) ->
  DecodeSnapshot (VString <$> Values s) = (s, None).
Proof.
  intros Hv H5 Hi He Hr. unfold DecodeSnapshot.
  assert (Hl : forall k v, (k, v) ∈ entry_list s ->
    match (VString <$> Values s) !! k with Some (VString x) => x | _ => "" end = v).
  { intros k v Hin. by rewrite lookup_fmap, (Values_lookup s k v Hin). }
  rewrite (Hl "symbol" (sn_Symbol s)) by left.
  rewrite (Hl "ts_exchange" (format_stamp (Exchange s))) by (right; left).
  rewrite (Hl "ts_received" (format_stamp (sn_Received s))) by (do 2 right; left).
  rewrite (Hl "source" (sn_Source s)) by (do 3 right; left).
  rewrite !parse_format by done. rewrite read_levels_ok by done.
  destruct s; cbn [sn_Symbol Exchange sn_Received sn_Bids sn_Asks sn_Source] in *. by rewrite Hv.
Qed.
End roundtrip.

(** ** What the producer publishes *)

(** A snapshot as the producer hands it to [Publish]: valid, from a source it
    may use, its exchange time the one nearest to the receipt. *)
Definition produced (source : string) (s : Snapshot) : Prop :=
  ValidateSnapshot s = None /\ sn_Source s = source /\ five s /\
  Z.abs (Exchange s - sn_Received s) <= 12 * hour_ns.

Lemma ExchangeTime_near hour received t :
  ExchangeTime hour received = Some t -> Z.abs (t - received) <= 12 * hour_ns.
Proof.
  intros H. destruct (parse_clock hour) as [clock|] eqn:E.
  - by apply (ExchangeTime_facts hour received clock t E H).
  - unfold ExchangeTime in H. by rewrite E in H.
Qed.

Lemma from_books_produced received books out :
  Forall book_ok books -> from_books received books = Ok out -> Forall (produced "ws") out.
Proof.
  revert out. induction books as [|b books IH]; intros out Hb H; cbn [from_books] in H; [by injection H as <-|].
  apply Forall_cons in Hb as [Hok Hb]. destruct (ExchangeTime _ _) as [exchange|] eqn:Ee; [|done].
  cbv zeta in H. destruct (ValidateSnapshot _) eqn:Ev; [done|].
  destruct (from_books received books) as [out'|]; [|done]. injection H as <-.
  constructor; [|by apply IH]. split; [done|]. split; [done|].
  destruct Hok as (_ & Ha & Hbd & _). split; [|by apply ExchangeTime_near in Ee].
  unfold five. cbn. rewrite !length_take, Ha, Hbd. done.
Qed.

Lemma FromEvent_produced raw received out :
  FromEvent raw received = Ok out -> Forall (produced "ws") out.
Proof.
  unfold FromEvent. destruct (ParseFrame raw) as [tr [f|e]] eqn:E; cbn [snd]; [|done].
  intros H. apply (from_books_produced received (fr_Books f)); [|done].
  by apply ParseFrame_facts in E as [_ [Hf _ _]].
Qed.

(** Storing numbers leaves everything else, the five levels included. *)
Definition same_frame (s s' : Snapshot) : Prop :=
  sn_Symbol s' = sn_Symbol s /\ Exchange s' = Exchange s /\ sn_Received s' = sn_Received s /\
  sn_Source s' = sn_Source s /\ length (sn_Bids s') = length (sn_Bids s) /\
  length (sn_Asks s') = length (sn_Asks s).

Lemma store_same s i field z : same_frame s (store_number s i field z).
Proof.
  unfold store_number. destruct field as [|[|[|field]]]; cbv zeta; repeat split; cbn; by rewrite ?length_insert.
Qed.

Lemma same_frame_trans s1 s2 s3 : same_frame s1 s2 -> same_frame s2 s3 -> same_frame s1 s3.
Proof. intros (?&?&?&?&?&?) (?&?&?&?&?&?). repeat split; congruence. Qed.

Lemma read_fields_same get s i field keys : same_frame s (read_fields get s i field keys).1.
Proof.
  revert s field. induction keys as [|k keys IH]; intros s field; cbn [read_fields]; [done|].
  destruct (ParseIntValue (get k)) as [z ok]. pose proof (store_same s i field z) as Hs.
  destruct ok; [|done]. eapply same_frame_trans; [exact Hs|apply IH].
Qed.

Lemma read_levels_same get keys s i n : same_frame s (read_levels get keys s i n).1.
Proof.
  revert s i. induction n as [|n IH]; intros s i; cbn [read_levels]; [done|].
  pose proof (read_fields_same get s i 0 (keys i)) as Hs.
  destruct (read_fields get s i 0 (keys i)) as [s' ok]. cbn [fst] in Hs. destruct ok; [|done].
  eapply same_frame_trans; [exact Hs|apply IH].
Qed.

Section producer.
Context {codec : StampCodec} {W : Type} {world : FeedWorld W}.

Lemma Poll_produced w symbol w' s :
  Poll w symbol = (w', s, None) -> produced "rest" s /\ sn_Symbol s = symbol.
Proof.
  unfold Poll. destruct (rest_read w symbol) as [w1 [output|]]; [|done]. destruct (time_now w1) as [w2 now].
  destruct (ExchangeTime _ now) as [exchange|] eqn:Ee; [|done].
  match goal with |- context [read_levels ?g ?k ?s0 ?i ?n] =>
    pose proof (read_levels_same g k s0 i n) as Hs; destruct (read_levels g k s0 i n) as [s' ok] end.
  cbn [fst] in Hs. destruct ok; [|done]. intros [= _ <- Hv].
  destruct Hs as (H1 & H2 & H3 & H4 & H5 & H6). cbn in *. apply ExchangeTime_near in Ee.
  split; [|done]. split; [done|]. split; [done|]. split; [done|]. by rewrite H2, H3.
Qed.

(** What may be in the log of a run. *)
Definition publishable (symbol : string) (mock rest : bool) (s : Snapshot) : Prop :=
  sn_Symbol s = symbol /\ (produced "ws" s \/ (produced "rest" s /\ mock = true /\ rest = true)).

Lemma publish_all_log symbol mock rest st snapshots :
  Forall (publishable symbol mock rest) (fd_log st) -> Forall (produced "ws") snapshots ->
  Forall (publishable symbol mock rest) (fd_log (publish_all symbol st snapshots)).
Proof.
  revert st. induction snapshots as [|s snapshots IH]; intros st Hl Hs; cbn [publish_all]; [done|].
  apply Forall_cons in Hs as [Hp Hs]. destruct (String.eqb_spec (sn_Symbol s) symbol) as [Es|_]; cbn [negb].
  - assert (Hnew : Forall (publishable symbol mock rest) (s :: fd_log st)).
    { constructor; [|done]. split; [done|by left]. }
    destruct (Publish (fd_world st) s) as [w [e|]]; by apply IH.
  - by apply IH.
Qed.

Lemma feed_step_log symbol mock rest st i :
  Forall (publishable symbol mock rest) (fd_log st) ->
  Forall (publishable symbol mock rest) (fd_log (feed_step symbol mock rest st i)).
Proof.
  intros Hl. destruct i as [raw received|now]; cbn [feed_step].
  - destruct (FromEvent raw received) as [out|e] eqn:E; [|done].
    apply publish_all_log; [done|by apply (FromEvent_produced raw received)].
  - destruct (_ || _) eqn:Eb; [done|]. bool_simpl.
    destruct (Poll (fd_world st) symbol) as [[w s] [e|]] eqn:E; [done|].
    apply Poll_produced in E as [Hp Hs].
    assert (Hnew : Forall (publishable symbol mock rest) (s :: fd_log st))
      by (constructor; [split; [done|right; done]|done]).
    by destruct (Publish w s) as [w' [e|]].
Qed.

(** The feed publishes only sound snapshots.  Whatever arrives and whatever
    Redis and the broker answer, each snapshot a run hands to Redis is of its
    own symbol, has ordered levels that do not cross, and carries the exchange
    clock on the day nearest to its receipt; and REST snapshots appear only in
    the mock mode. *)
Theorem feed_publishes_sound symbol mock rest w inputs st :
  RunFeed symbol mock rest w inputs = Some st ->
  SymbolOK symbol = true /\ Forall (publishable symbol mock rest) (fd_log st).
Proof.
  unfold RunFeed. destruct (SymbolOK symbol); cbn [negb]; [|done]. intros [= <-]. split; [done|].
  assert (H0 : Forall (publishable symbol mock rest) (fd_log (mkFeedState w zero_time [] 0))) by constructor.
  revert H0. generalize (mkFeedState w zero_time [] 0).
  induction inputs as [|i inputs IH]; intros st Hl; cbn [fold_left]; [done|]. by apply IH, feed_step_log.
Qed.
End producer.

(** ** A concrete feed *)

Definition sample_levels (base step : Z) : list Level :=
  (fun i => mkLevel (base + i * step) 10) <$> seqZ 0 5.
Definition sample_snapshot : Snapshot :=
  mkSnapshot "005930" (kst_instant 20000 0) (kst_instant 20000 second_ns)
    (sample_levels 70000 (-100)) (sample_levels 70100 100) "ws".

(** A codec that knows the two times of the snapshot. *)
#[local] Instance sample_stamps : StampCodec.
Proof.
  refine {|
    parse_stamp s := if s =s "0" then Some (kst_instant 20000 0)
                     else if s =s "1" then Some (kst_instant 20000 second_ns) else None;
    format_stamp t := if t =? kst_instant 20000 0 then "0" else "1";
    stamp_ok t := t = kst_instant 20000 0 \/ t = kst_instant 20000 second_ns
  |}.
  intros t [-> | ->]; vm_compute; reflexivity.
Defined.

Lemma sample_int64 : int64_levels sample_snapshot.
Proof.
  intros i. destruct (Nat.lt_ge_cases i 5) as [Hi|Hi].
  - assert (H : forallb (fun i => forallb (fun z => (-100000 <=? z) && (z <=? 100000))
      (level_numbers sample_snapshot i)) (seq 0 5) = true) by (vm_compute; reflexivity).
    rewrite forallb_forall in H. specialize (H i (proj2 (in_seq _ _ _) (conj (Nat.le_0_l _) Hi))).
    rewrite forallb_forall in H. apply List.Forall_forall. intros z Hz%H. bool_simpl. in64.
  - unfold level_numbers, level.
    rewrite (nth_overflow (sn_Bids _)), (nth_overflow (sn_Asks _)) by exact Hi.
    repeat apply Forall_cons_2; [cbn; in64..|apply Forall_nil_2].
Qed.

Lemma snapshot_roundtrip_witness :
  DecodeSnapshot (VString <$> Values sample_snapshot) = (sample_snapshot, None).
Proof.
  apply (snapshot_roundtrip sample_snapshot).
  - vm_compute. reflexivity.
  - split; reflexivity.
  - apply sample_int64.
  - by left.
  - by right.
Defined.

(** A broker whose REST book is one level short of a number, then whole. *)
#[local] Instance sample_feed : FeedWorld nat := {|
  feed_add w _ _ _ := (w, true);
  feed_last w _ := (w, Some []);
  rest_read w _ :=
    (S w, Some (list_to_map (("aspr_acpt_hour", "090000") ::
      (seq 0 (4 + w) ≫= fun i => zip (poll_keys i) [FormatInt (70000 - 100 * Z.of_nat i); "10";
                                                      FormatInt (70100 + 100 * Z.of_nat i); "10"]))));
  time_now w := (w, kst_instant 20000 (9 * hour_ns))
|}.

Lemma feed_publishes_sound_witness :
  match RunFeed "005930" true true 0%nat [InTimer 0; InTimer 1] with
  | Some st => length (fd_log st) = 1%nat /\ fd_warnings st = 1 /\
      Forall (publishable "005930" true true) (fd_log st)
  | None => False
  end.
Proof.
  destruct (RunFeed "005930" true true 0%nat [InTimer 0; InTimer 1]) as [st|] eqn:E.
  - split; [|split].
    + assert (E' : (fun st => length (fd_log st)) <$> RunFeed "005930" true true 0%nat [InTimer 0; InTimer 1] = Some 1%nat)
        by (vm_compute; reflexivity).
      rewrite E in E'. by injection E'.
    + assert (E' : fd_warnings <$> RunFeed "005930" true true 0%nat [InTimer 0; InTimer 1] = Some 1)
        by (vm_compute; reflexivity).
      rewrite E in E'. by injection E'.
    + exact (proj2 (feed_publishes_sound "005930" true true 0%nat [InTimer 0; InTimer 1] st E)).
  - vm_compute in E. discriminate E.
Defined.
