(* ===== verification/Approval.v ===== *)
(** [src/internal/reader/approval.go]: the approval key shared through Redis.

    [ApprovalProvider]'s routines are programs over the calls they make: Redis
    commands and scripts, the clock, contexts, the REST issuer and the fields
    shared between goroutines.  [Prog] says what it is for a program to perform
    such a sequence of calls; [ApprovalLock] runs several programs over one
    Redis.  Log lines are left out. *)

From S2P Require Import Prelude GoStr KST Limits Prog.
Local Open Scope Z_scope.

Definition millisecond_ns : Z := 1000000.

(** ** Constants *)

Definition ApprovalModeCacheOnly : string := "cache-only".
Definition ApprovalCacheTTL : Z := 23 * hour_ns.
Definition ApprovalLockTTL : Z := 15 * second_ns.
Definition ApprovalWait : Z := 12 * second_ns.
Definition ApprovalPoll : Z := 250 * millisecond_ns.
Definition ApprovalIssueTimeout : Z := 10 * second_ns.
Definition DefaultRefreshMargin : Z := hour_ns.
Definition MaxRefreshMargin : Z := 2 * hour_ns.
Definition publishDeadline : Z := 14 * second_ns.
Definition refreshRetryMin : Z := second_ns.
Definition refreshRetryMax : Z := 30 * second_ns.
Definition approvalCacheKey : string := "kis:websocket:approval_key".

(** Errors: the package's own, those of a context, Redis's nil reply, and the
    errors of third parties, which may wrap [context.Canceled]. *)
Inductive approval_error : Type :=
| ErrCacheOnlyApprovalUnavailable
| ErrApprovalUnavailable
| ErrApprovalLockLost
| ErrApprovalConfig
| ErrCanceled
| ErrDeadlineExceeded
| ErrRedisNil
| ErrForeign (text : string) (canceled : bool).

Definition is_canceled (e : approval_error) : bool :=
  match e with ErrCanceled => true | ErrForeign _ c => c | _ => false end.
Definition is_lock_lost (e : approval_error) : bool :=
  match e with ErrApprovalLockLost => true | _ => false end.
Definition is_redis_nil (e : approval_error) : bool :=
  match e with ErrRedisNil => true | _ => false end.

Inductive metric : Type := IssueCalls | LockAcquired | LockContended | LockWaitSuccess | LockWaitFailed.

(** An element of a Redis reply. *)
Inductive reply : Type := RpNil | RpString (s : string) | RpInt (z : Z).

(** The contexts: the caller's, one with a deadline derived from it, and the
    background context of the release. *)
Inductive ctx : Type := Caller | Until (deadline : Z) | Background (deadline : Z).

(** ** The calls *)

Inductive op : Set -> Type :=
| ReadToken : op (result string approval_error)
| Now : op Z
| SetNX (c : ctx) (key token : string) (ttl : Z) : op (result bool approval_error)
| EvalCached (c : ctx) (key : string) : op (result (list reply) approval_error)
| EvalInvalidate (c : ctx) (lock cache token : string) : op (result Z approval_error)
| EvalPublish (c : ctx) (lock cache token key : string) (seconds : Z) : op (result reply approval_error)
| EvalRelease (c : ctx) (lock token : string) : op unit
| Issue (deadline : Z) : op (result string approval_error)
| CtxErr (c : ctx) : op (option approval_error)
| CtxDone : op unit
| OpWait (c : ctx) (d : Z) : op (option approval_error)
| Int64N (n : Z) : op Z
| Count (m : metric) : op unit
| GetLastKey : op string
| SetLastKey (key : string) : op unit
| GetKnownUntil : op Z
| SetKnownUntil (t : Z) : op unit
| MarkFailure (e : approval_error) : op unit
| OnTransient : op unit.

Notation program := (prog op).

(** ** The provider *)

Record provider := mkProvider { mode : string; accountMode : string; margin : Z }.

(** [NewApprovalProviderConfig]: [client] and [issuer] say whether they are
    not nil. *)
Definition NewApprovalProviderConfig (client issuer : bool) (mode accountMode : string) (margin : Z)
  : result provider approval_error :=
  if negb client || negb issuer || ((mode <>s "") && (mode <>s ApprovalModeCacheOnly))
     || ((accountMode <>s "live") && (accountMode <>s "mock")) || (margin <=? 0) || (margin >? MaxRefreshMargin)
  then Err ErrApprovalConfig
  else Ok (mkProvider mode accountMode margin).

(** [NewApprovalProviderWithMode]. *)
Definition NewApprovalProviderWithMode (client fallback : bool) (mode : string) : result provider approval_error :=
  if negb fallback then Err ErrApprovalConfig
  else NewApprovalProviderConfig client true mode "live" DefaultRefreshMargin.

Definition cacheKey (p : provider) : string :=
  if accountMode p =s "mock" then "kis_mock:websocket:approval_key" else approvalCacheKey.
Definition lockKey (p : provider) : string := cacheKey p +:+ ":lock".

(** [cached]. *)
Definition cached (p : provider) (c : ctx) : program (result (string * Z) approval_error) :=
  r ← call (EvalCached c (cacheKey p));
  mret match r with
  | Err e => Err e
  | Ok [value; RpInt ttlMS] =>
      Ok (match value with RpString key => key | _ => "" end, ttlMS *w millisecond_ns)
  | Ok _ => Err ErrApprovalUnavailable
  end.

Definition usable (key : string) (ttl margin : Z) : bool := (TrimSpace key <>s "") && (ttl >? margin).
Definition live (key : string) (ttl : Z) : bool := (TrimSpace key <>s "") && (ttl >? 0).

Definition present (key : string) : program unit := call (SetLastKey key).

(** [noteLive]. *)
Definition noteLive (ttl : Z) : program unit :=
  now ← call Now;
  call (SetKnownUntil (if ttl >? second_ns then now + (ttl -w second_ns) else now)).

(** [knownLive]. *)
Definition knownLive : program bool :=
  now ← call Now;
  known ← call GetKnownUntil;
  mret (now <? known).

Definition recoverableFailure : program unit := call OnTransient.

(** [fail]: what is left of an error. *)
Definition fail (e : approval_error) : approval_error :=
  if is_canceled e then ErrCanceled
  else if is_lock_lost e then ErrApprovalLockLost else ErrApprovalUnavailable.

(** [terminal]. *)
Definition terminal (e : approval_error) : program approval_error :=
  let safe := fail e in
  if is_canceled safe then mret safe
  else call (MarkFailure safe);; mret safe.

Definition terminal_key (e : approval_error) : program (result string approval_error) :=
  safe ← terminal e; mret (Err safe).

(** ** [singleFlight] *)

(** The key in the cache will do. *)
Definition acceptable (p : provider) (force : bool) (rejected key : string) (ttl : Z) : bool :=
  usable key ttl (margin p) && (negb force || ((rejected <>s "") && (key <>s rejected))).

Inductive wait_result : Type := WaitBroke | WaitReturned (r : result string approval_error).

(** An error inside the waiting loop leaves it when its context is over. *)
Definition wait_error (c : ctx) (e : approval_error) : program wait_result :=
  over ← call (CtxErr c);
  mret match over with Some _ => WaitBroke | None => WaitReturned (Err (fail e)) end.

(** The loop of a provider that did not get the lock. *)
Fixpoint wait_loop (rounds : nat) (p : provider) (c : ctx) (deadline : Z) (force : bool) (rejected : string)
  : program wait_result :=
  match rounds with
  | O => OutOfFuel
  | S rounds =>
      r ← cached p c;
      match r with
      | Err e => wait_error c e
      | Ok (key, ttl) =>
          if acceptable p force rejected key ttl then
            call (Count LockWaitSuccess);; noteLive ttl;; mret (WaitReturned (Ok key))
          else
            now ← call Now;
            let left := time_sub deadline now in
            if left <=? 0 then mret WaitBroke
            else
              jitter ← call (Int64N (ApprovalPoll + 1));
              let poll := ApprovalPoll +w jitter in
              let poll := if poll >? left then left else poll in
              e ← call (OpWait c poll);
              match e with
              | Some e => wait_error c e
              | None => wait_loop rounds p c deadline force rejected
              end
      end
  end.

(** Forty-nine looks, a quarter of a second apart, span the twelve seconds. *)
Definition wait_rounds : nat := 49.

Definition contended (p : provider) (force : bool) (rejected : string) : program (result string approval_error) :=
  call (Count LockContended);;
  start ← call Now;
  let waitCtx := Until (start + ApprovalWait) in
  now ← call Now;
  w ← wait_loop wait_rounds p waitCtx (now + ApprovalWait) force rejected;
  match w with
  | WaitReturned r => mret r
  | WaitBroke =>
      over ← call (CtxErr Caller);
      match over with
      | Some e => mret (Err e)
      | None => call (Count LockWaitFailed);; mret (Err (fail ErrApprovalUnavailable))
      end
  end.

(** The issuance proper, from the forced invalidation to the publication. *)
Definition publish (p : provider) (issueCtx : ctx) (token issued : string) : program (result string approval_error) :=
  r ← call (EvalPublish issueCtx (lockKey p) (cacheKey p) token issued (Z.quot ApprovalCacheTTL second_ns));
  match r with
  | Err e => mret (Err (fail (if is_redis_nil e then ErrApprovalLockLost else e)))
  | Ok RpNil => mret (Err (fail ErrApprovalLockLost))
  | Ok _ => noteLive ApprovalCacheTTL;; mret (Ok issued)
  end.

Definition issue (p : provider) (deadline : Z) (token : string) : program (result string approval_error) :=
  now ← call Now;
  call (Count IssueCalls);;
  r ← call (Issue (Z.min deadline (now + ApprovalIssueTimeout)));
  match r with
  | Err e => mret (Err (fail e))
  | Ok issued =>
      if TrimSpace issued =s "" then mret (Err (fail ErrApprovalUnavailable))
      else
        over ← call (CtxErr (Until deadline));
        match over with
        | Some e => mret (Err (fail e))
        | None => publish p (Until deadline) token issued
        end
  end.

(** What runs between the acquisition of the lock and its release. *)
Definition locked (p : provider) (deadline : Z) (token : string) (force : bool) (rejected : string)
  : program (result string approval_error) :=
  r ← cached p (Until deadline);
  match r with
  | Err e => mret (Err (fail e))
  | Ok (key, ttl) =>
      if acceptable p force rejected key ttl then noteLive ttl;; mret (Ok key)
      else if force then
        n ← call (EvalInvalidate (Until deadline) (lockKey p) (cacheKey p) token);
        match n with
        | Err e => mret (Err (fail (if is_redis_nil e then ErrApprovalLockLost else e)))
        | Ok n => if n =? 0 then mret (Err (fail ErrApprovalLockLost)) else issue p deadline token
        end
      else issue p deadline token
  end.

(** The deferred release, with a context of its own. *)
Definition release (p : provider) (token : string) : program unit :=
  now ← call Now;
  call (EvalRelease (Background (now + second_ns)) (lockKey p) token).

Definition singleFlight (p : provider) (force : bool) (rejected : string) : program (result string approval_error) :=
  t ← call ReadToken;
  match t with
  | Err e => mret (Err (fail e))
  | Ok token =>
      lockAttemptAt ← call Now;
      acquired ← call (SetNX Caller (lockKey p) token ApprovalLockTTL);
      match acquired with
      | Err e => mret (Err (fail e))
      | Ok false => contended p force rejected
      | Ok true =>
          call (Count LockAcquired);;
          r ← locked p (lockAttemptAt + publishDeadline) token force rejected;
          release p token;;
          mret r
      end
  end.

(** ** [ApprovalKey] and [Reissue] *)

(** The end of [ApprovalKey] when a refresh failed: the old key again, while
    it is alive. *)
Definition reuse_old (p : provider) (e : approval_error) : program (result string approval_error) :=
  over ← call (CtxErr Caller);
  match over with
  | Some e => mret (Err e)
  | None =>
      o ← cached p Caller;
      match o with
      | Ok (old, remaining) =>
          if live old remaining then
            noteLive remaining;; present old;; recoverableFailure;; mret (Ok old)
          else terminal_key e
      | Err _ => terminal_key e
      end
  end.

Definition ApprovalKey (p : provider) : program (result string approval_error) :=
  r ← cached p Caller;
  if mode p =s ApprovalModeCacheOnly then
    match r with
    | Err e => terminal_key e
    | Ok (key, ttl) =>
        if TrimSpace key =s "" then
          call (MarkFailure ErrCacheOnlyApprovalUnavailable);; mret (Err ErrCacheOnlyApprovalUnavailable)
        else noteLive ttl;; present key;; mret (Ok key)
    end
  else
    match r with
    | Err e => terminal_key e
    | Ok (key, ttl) =>
        if usable key ttl (margin p) then noteLive ttl;; present key;; mret (Ok key)
        else
          (if live key ttl then noteLive ttl else mret tt);;
          issued ← singleFlight p false "";
          match issued with
          | Ok issued => present issued;; mret (Ok issued)
          | Err e => reuse_old p e
          end
    end.

Definition Reissue (p : provider) : program (result string approval_error) :=
  if mode p =s ApprovalModeCacheOnly then
    call (MarkFailure ErrCacheOnlyApprovalUnavailable);; mret (Err ErrCacheOnlyApprovalUnavailable)
  else
    rejected ← call GetLastKey;
    r ← singleFlight p true rejected;
    match r with
    | Err e => terminal_key e
    | Ok key => present key;; mret (Ok key)
    end.

(** ** [RefreshLoop] *)

(** [refreshRetryDelay]. *)
Definition refreshRetryDelay (base : Z) : program Z :=
  let base := if base <? refreshRetryMin then refreshRetryMin else base in
  let base := if base >? refreshRetryMax then refreshRetryMax else base in
  jitter ← call (Int64N (Z.quot base 2 +w 1));
  let delay := base +w jitter in
  mret (if delay >? refreshRetryMax then refreshRetryMax else delay).

Definition increaseRefreshRetry (base : Z) : Z :=
  if base >=? Z.quot refreshRetryMax 2 then refreshRetryMax else base *w 2.

(** One turn of the loop: stop with an error or without one, or go on with
    the retry delay. *)
Inductive refresh_turn : Type := Stopped (e : option approval_error) | Again (retry : Z).

(** A wait of the loop that failed stops it, quietly when the context is over. *)
Definition refresh_wait (d retry : Z) : program refresh_turn :=
  e ← call (OpWait Caller d);
  match e with
  | None => mret (Again retry)
  | Some e =>
      over ← call (CtxErr Caller);
      match over with
      | Some _ => mret (Stopped None)
      | None => safe ← terminal e; mret (Stopped (Some safe))
      end
  end.

Definition refresh_backoff (retry : Z) : program refresh_turn :=
  recoverableFailure;;
  d ← refreshRetryDelay retry;
  refresh_wait d (increaseRefreshRetry retry).

(** The refresh of a key that is no longer usable failed with [e]. *)
Definition refresh_failed (p : provider) (e : approval_error) (retry : Z) : program refresh_turn :=
  over ← call (CtxErr Caller);
  match over with
  | Some _ => mret (Stopped None)
  | None =>
      o ← cached p Caller;
      match o with
      | Ok (old, remaining) =>
          if live old remaining then noteLive remaining;; refresh_backoff retry
          else safe ← terminal e; mret (Stopped (Some safe))
      | Err _ =>
          known ← knownLive;
          if known : bool then refresh_backoff retry
          else safe ← terminal e; mret (Stopped (Some safe))
      end
  end.

Definition refresh_turn_body (p : provider) (retry : Z) : program refresh_turn :=
  over ← call (CtxErr Caller);
  match over with
  | Some _ => mret (Stopped None)
  | None =>
      r ← cached p Caller;
      match r with
      | Err e =>
          over ← call (CtxErr Caller);
          match over with
          | Some _ => mret (Stopped None)
          | None =>
              known ← knownLive;
              if known : bool then refresh_backoff retry
              else safe ← terminal e; mret (Stopped (Some safe))
          end
      | Ok (key, ttl) =>
          (if live key ttl then noteLive ttl else mret tt);;
          if negb (usable key ttl (margin p)) then
            issued ← singleFlight p false "";
            match issued with
            | Err e => refresh_failed p e retry
            | Ok _ => mret (Again refreshRetryMin)
            end
          else
            let delay := ttl -w margin p in
            refresh_wait (if delay >? minute_ns then minute_ns else delay) refreshRetryMin
      end
  end.

(** [RefreshLoop], followed for a number of turns. *)
Fixpoint refresh_turns (n : nat) (p : provider) (retry : Z) : program refresh_turn :=
  match n with
  | O => mret (Again retry)
  | S n =>
      t ← refresh_turn_body p retry;
      match t with
      | Stopped e => mret (Stopped e)
      | Again retry => refresh_turns n p retry
      end
  end.
Definition RefreshLoop (n : nat) (p : provider) : program refresh_turn :=
  if mode p =s ApprovalModeCacheOnly then call CtxDone;; mret (Stopped None)
  else refresh_turns n p refreshRetryMin.

(** ** The waiting loop returns *)

(** The ghost state is a lower bound of the clock: readings do not go back, and
    a wait that ends without an error has taken its time. *)
Definition clock_spec : spec op Z := {|
  allowed _ _ _ := True;
  answers g _ o := match o in op R return R -> Prop with
    | Now => fun t => g <= t | Int64N n => fun r => 0 <= r < n | _ => fun _ => True end;
  update g e :=
    match e with
    | Event o r => (match o in op R return R -> Z with
        | Now => fun t => Z.max g t
        | OpWait _ d => fun e => match e with None => g + d | Some _ => g end
        | _ => fun _ => g
        end) r
    end;
  may_run_out := False
|}.

Notation clocked g p Q := (wp clock_spec g p Q).

Lemma wp_cached_clock p c g Q : (forall r, Q g r) -> clocked g (cached p c) Q.
Proof. intros HQ. unfold cached. repeat wp_step; [done|]. cbn. apply HQ. Qed.

Lemma wp_noteLive_clock ttl g (Q : Z -> unit -> Prop) : (forall g' u, g <= g' -> Q g' u) -> clocked g (noteLive ttl) Q.
Proof. intros HQ. unfold noteLive. repeat wp_step; try done. cbn. apply HQ. lia. Qed.

Lemma wp_wait_error_clock c e g (Q : Z -> wait_result -> Prop) : (forall r, Q g r) -> clocked g (wait_error c e) Q.
Proof. intros HQ. unfold wait_error. repeat wp_step; [done|]. apply HQ. Qed.

Lemma wait_loop_returns p c D force rej n : forall g,
  D - g <= Z.of_nat n * ApprovalPoll -> clocked g (wait_loop (S n) p c D force rej) (fun _ _ => True).
Proof.
  induction n as [|n IH]; intros g Hg; cbn [wait_loop].
  all: wp_step; apply wp_cached_clock; intros [[key ttl]|e]; [wp_step|by apply wp_wait_error_clock].
  1, 3: wp_step; [done|]; wp_step; by apply wp_noteLive_clock.
  all: wp_step; [done|]; match goal with H : answers _ _ Now ?t |- _ => cbn in H; rename t into now end.
  all: wp_step; [done|]; bool_simpl.
  all: assert (Hp : ApprovalPoll = 250000000) by reflexivity;
    assert (Hleft : 0 < D - now) by (unfold time_sub, min_int64, max_int64 in *; lia).
  - lia.
  - wp_step; [done|]. match goal with H : answers _ _ (Int64N _) ?j |- _ => cbn in H; rename j into jitter end.
    wp_step; [done|]. wp_step; [by apply wp_wait_error_clock|]. apply IH. cbn [update clock_spec].
    rewrite wrap64_small by in64. rewrite Z.gtb_ltb. split_if_goal; unfold time_sub, min_int64, max_int64 in *; lia.
Qed.

(** A routine whose loops all return, whatever the clock shows at its start. *)
Definition returns {A} (p : program A) : Prop := forall g, clocked g p (fun _ _ => True).

Lemma returns_ret {A} (a : A) : returns (mret a).
Proof. done. Qed.
Lemma returns_call {R : Set} (o : op R) : returns (call o).
Proof. done. Qed.
Lemma returns_bind {A B} (m : program A) (f : A -> program B) :
  returns m -> (forall a, returns (f a)) -> returns (m ≫= f).
Proof. intros Hm Hf g. apply wp_use with (P := fun _ _ => True); [apply Hm|]. intros g' a _. apply Hf. Qed.

Create HintDb returns.
#[export] Hint Resolve returns_ret returns_call : returns.
(** Follows the syntax of a routine down to its calls. *)
Ltac returns_auto :=
  repeat lazymatch goal with
  | |- returns (_ ≫= _) => apply returns_bind; [|intros ?]
  | |- returns (if ?b then _ else _) => destruct b
  | |- returns (match ?x with _ => _ end) => destruct x
  | |- returns _ => solve [auto with returns]
  end.

Lemma returns_contended p force rej : returns (contended p force rej).
Proof.
  unfold contended. apply returns_bind; [auto with returns|intros _].
  apply returns_bind; [auto with returns|intros start]. intros g. wp_step; [done|].
  match goal with H : answers _ _ Now ?t |- _ => cbn in H; rename t into now end.
  apply wp_use with (P := fun _ _ => True).
  - apply wait_loop_returns. cbn [update clock_spec]. unfold ApprovalWait, ApprovalPoll, millisecond_ns, second_ns. lia.
  - intros g' w _. revert g'. change (returns (match w with
      | WaitReturned r => mret r
      | WaitBroke => over ← call (CtxErr Caller);
          match over with
          | Some e => mret (Err e)
          | None => call (Count LockWaitFailed);; mret (Err (fail ErrApprovalUnavailable))
          end end)). returns_auto.
Qed.

Lemma returns_cached p c : returns (cached p c).
Proof. unfold cached. returns_auto. Qed.
Lemma returns_noteLive ttl : returns (noteLive ttl).
Proof. unfold noteLive. returns_auto. Qed.
#[export] Hint Resolve returns_contended returns_cached returns_noteLive : returns.

Lemma returns_singleFlight p force rej : returns (singleFlight p force rej).
Proof. unfold singleFlight, locked, issue, publish, release. returns_auto. Qed.
#[export] Hint Resolve returns_singleFlight : returns.

Lemma returns_ApprovalKey p : returns (ApprovalKey p).
Proof. unfold ApprovalKey, reuse_old, terminal_key, terminal, recoverableFailure, present. returns_auto. Qed.
Lemma returns_Reissue p : returns (Reissue p).
Proof. unfold Reissue, terminal_key, terminal, present. returns_auto. Qed.
Lemma returns_RefreshLoop n p : returns (RefreshLoop n p).
Proof.
  assert (H : forall retry, returns (refresh_turns n p retry)).
  { induction n as [|n IH]; intros retry; cbn [refresh_turns]; [auto with returns|].
    apply returns_bind; [|intros []; auto with returns].
    unfold refresh_turn_body, refresh_failed, refresh_backoff, refresh_wait, refreshRetryDelay, recoverableFailure,
      terminal, knownLive. returns_auto. }
  unfold RefreshLoop. destruct (mode p =s _); [returns_auto|apply H].
Qed.

(** The calls the program makes. *)
Inductive entry : Type := CallApprovalKey | CallReissue | CallRefreshLoop (turns : nat).
Inductive outcome : Type := KeyOf (r : result string approval_error) | TurnOf (t : refresh_turn).
Definition enter (p : provider) (e : entry) : program outcome :=
  match e with
  | CallApprovalKey => r ← ApprovalKey p; mret (KeyOf r)
  | CallReissue => r ← Reissue p; mret (KeyOf r)
  | CallRefreshLoop n => t ← RefreshLoop n p; mret (TurnOf t)
  end.

(** C34: With a clock that does not go back and waits that take their time, no
    call uses up the fuel of the waiting loop: [ApprovalKey], [Reissue] and any
    number of turns of the refresh loop return. *)
Theorem approval_returns p e tr r g :
  performs (enter p e) tr r -> expected clock_spec g tr -> exists a, r = Some a.
Proof.
  intros Hp He. assert (H : returns (enter p e)).
  { destruct e; cbn [enter]; (apply returns_bind; [|auto with returns]);
      [apply returns_ApprovalKey|apply returns_Reissue|apply returns_RefreshLoop]. }
  destruct (wp_performs _ _ _ _ _ Hp g (H g) He) as [_ Hr]. destruct r as [a|]; [by exists a|done].
Qed.

(** ** Waits and errors *)

(** What a caller may be told: no text of a third party. *)
Definition safe_error (e : approval_error) : Prop :=
  e = ErrCanceled \/ e = ErrApprovalLockLost \/ e = ErrApprovalUnavailable \/ e = ErrCacheOnlyApprovalUnavailable.
Definition context_error (e : approval_error) : Prop := e = ErrCanceled \/ e = ErrDeadlineExceeded.

(** Waits last between a nanosecond and a minute, [Int64N] gets a positive
    bound (it panics on others), and only safe errors are recorded; contexts
    end with their own errors. *)
Definition conduct_spec : spec op unit := {|
  allowed _ _ o :=
    match o with
    | OpWait _ d => 0 < d <= minute_ns
    | Int64N n => 0 < n
    | MarkFailure e => safe_error e
    | _ => True
    end;
  answers _ _ o :=
    match o in op R return R -> Prop with
    | Int64N n => fun r => 0 <= r < n
    | CtxErr _ => fun e => match e with Some e => context_error e | None => True end
    | _ => fun _ => True
    end;
  update _ _ := tt;
  may_run_out := True
|}.
Definition conducts {A} (p : program A) (P : A -> Prop) : Prop := wp conduct_spec tt p (fun _ a => P a).

Lemma conducts_ret {A} (a : A) (P : A -> Prop) : P a -> conducts (mret a) P.
Proof. done. Qed.
Lemma conducts_bind {A B} (m : program A) (f : A -> program B) P Q :
  conducts m P -> (forall a, P a -> conducts (f a) Q) -> conducts (m ≫= f) Q.
Proof. intros Hm Hf. eapply wp_use; [exact Hm|]. intros [] a Ha. by apply Hf. Qed.
Lemma conducts_call {R : Set} (o : op R) : allowed conduct_spec tt o -> conducts (call o) (answers conduct_spec tt o).
Proof. intros Ho. by split. Qed.
Lemma conducts_weaken {A} (p : program A) (P Q : A -> Prop) :
  conducts p P -> (forall a, P a -> Q a) -> conducts p Q.
Proof. intros Hp HQ. revert Hp. apply wp_mono. intros _. apply HQ. Qed.

Definition safe_result {A} (r : result A approval_error) : Prop := match r with Err e => safe_error e | Ok _ => True end.
Definition told {A} (r : result A approval_error) : Prop :=
  match r with Err e => safe_error e \/ context_error e | Ok _ => True end.

Lemma fail_safe e : safe_error (fail e).
Proof. unfold safe_error, fail. destruct (is_canceled e), (is_lock_lost e); tauto. Qed.

Create HintDb conducts.
#[export] Hint Resolve fail_safe : conducts.
(** Follows the syntax of a routine; a routine with a lemma of its own is
    weakened to what the rest needs. *)
Ltac conducts_auto :=
  repeat lazymatch goal with
  | |- conducts (call ?o ≫= _) _ => apply (conducts_bind (call o) _ (answers conduct_spec tt o)); [|intros ? ?]
  | |- conducts ((if ?b then ?m else ?m') ≫= ?f) _ =>
      apply (conducts_bind (if b then m else m') f (fun _ => True)); [|intros ? ?]
  | |- conducts (_ ≫= _) _ => eapply conducts_bind; [solve [eauto with conducts]|intros ? ?]
  | |- conducts (if ?b then _ else _) _ => destruct b eqn:?
  | |- conducts (match ?x with _ => _ end) _ => destruct x eqn:?
  | |- conducts (call _) (answers _ _ _) => apply conducts_call; cbn
  | |- conducts (call _) _ => eapply conducts_weaken; [apply conducts_call; cbn|intros; cbn in *]
  | |- conducts (mret (match ?x with _ => _ end)) _ => destruct x eqn:?
  | |- conducts (mret _) _ => apply conducts_ret; first [solve [eauto with conducts] | cbn in *]
  | |- _ => solve [eauto with conducts]
  end.

Lemma conducts_cached p c : conducts (cached p c) (fun _ => True).
Proof. unfold cached. conducts_auto. Qed.
Lemma conducts_noteLive ttl : conducts (noteLive ttl) (fun _ => True).
Proof. unfold noteLive. conducts_auto. Qed.
Lemma conducts_present key : conducts (present key) (fun _ => True).
Proof. unfold present. conducts_auto. Qed.
Lemma conducts_terminal e : conducts (terminal e) safe_error.
Proof. unfold terminal. conducts_auto; apply fail_safe. Qed.
#[export] Hint Resolve conducts_cached conducts_noteLive conducts_present conducts_terminal : conducts.
Lemma conducts_terminal_key e : conducts (terminal_key e) safe_result.
Proof. unfold terminal_key. conducts_auto. Qed.
#[export] Hint Resolve conducts_terminal_key : conducts.

Definition told_wait (w : wait_result) : Prop := match w with WaitReturned r => told r | WaitBroke => True end.
Lemma told_fail {A} e : told (A := A) (Err (fail e)).
Proof. left. apply fail_safe. Qed.
Lemma told_ok {A} (a : A) : told (Ok a).
Proof. done. Qed.
#[export] Hint Resolve told_fail told_ok : conducts.

Lemma conducts_wait_error c e : conducts (wait_error c e) told_wait.
Proof. unfold wait_error. conducts_auto. Qed.
#[export] Hint Resolve conducts_wait_error : conducts.

Lemma poll_bounds left jitter :
  0 < left -> 0 <= jitter < ApprovalPoll + 1 ->
  0 < (if ApprovalPoll +w jitter >? left then left else ApprovalPoll +w jitter) <= minute_ns.
Proof.
  assert (Hp : ApprovalPoll = 250000000) by reflexivity. assert (Hm : minute_ns = 60000000000) by reflexivity.
  intros Hl Hj. rewrite wrap64_small by in64. rewrite Z.gtb_ltb. split_if_goal; lia.
Qed.
#[export] Hint Resolve poll_bounds : conducts.

Lemma conducts_wait_loop n p c D force rej : conducts (wait_loop n p c D force rej) told_wait.
Proof.
  induction n as [|n IH]; cbn [wait_loop]; [done|]. conducts_auto; bool_simpl.
  - unfold ApprovalPoll, millisecond_ns. lia.
  - by apply poll_bounds.
Qed.
#[export] Hint Resolve conducts_wait_loop : conducts.

Lemma conducts_publish p c token issued : conducts (publish p c token issued) told.
Proof. unfold publish. conducts_auto. Qed.
#[export] Hint Resolve conducts_publish : conducts.
Lemma conducts_issue p d token : conducts (issue p d token) told.
Proof. unfold issue. conducts_auto. Qed.
#[export] Hint Resolve conducts_issue : conducts.
Lemma conducts_locked p d token force rej : conducts (locked p d token force rej) told.
Proof. unfold locked. conducts_auto. Qed.
Lemma conducts_release p token : conducts (release p token) (fun _ => True).
Proof. unfold release. conducts_auto. Qed.
Lemma conducts_contended p force rej : conducts (contended p force rej) told.
Proof. unfold contended. conducts_auto. Qed.
#[export] Hint Resolve conducts_locked conducts_release conducts_contended : conducts.

Lemma conducts_singleFlight p force rej : conducts (singleFlight p force rej) told.
Proof. unfold singleFlight. conducts_auto. Qed.
#[export] Hint Resolve conducts_singleFlight : conducts.

Lemma safe_cache_only : safe_error ErrCacheOnlyApprovalUnavailable.
Proof. unfold safe_error. tauto. Qed.
Lemma safe_told {A} (r : result A approval_error) : safe_result r -> told r.
Proof. destruct r; cbn; tauto. Qed.
Lemma context_told {A} e : context_error e -> told (A := A) (Err e).
Proof. by right. Qed.
#[export] Hint Resolve safe_cache_only safe_told context_told : conducts.
Lemma conducts_terminal_told e : conducts (terminal_key e) told.
Proof. eapply conducts_weaken; [apply conducts_terminal_key|intros r; apply safe_told]. Qed.
Lemma conducts_recoverable : conducts recoverableFailure (fun _ => True).
Proof. unfold recoverableFailure. conducts_auto. Qed.
#[export] Hint Resolve conducts_recoverable : conducts.
#[export] Hint Resolve conducts_terminal_told | 0 : conducts.

Lemma conducts_reuse_old p e : conducts (reuse_old p e) told.
Proof. unfold reuse_old. conducts_auto. Qed.
#[export] Hint Resolve conducts_reuse_old : conducts.

Lemma conducts_ApprovalKey p : conducts (ApprovalKey p) told.
Proof. unfold ApprovalKey. conducts_auto. Qed.
Lemma conducts_Reissue p : conducts (Reissue p) safe_result.
Proof. unfold Reissue. conducts_auto. Qed.

(** *** The refresh loop *)

Definition retry_ok (retry : Z) : Prop := refreshRetryMin <= retry <= refreshRetryMax.
Definition turn_ok (t : refresh_turn) : Prop :=
  match t with Stopped (Some e) => safe_error e | Stopped None => True | Again retry => retry_ok retry end.

Lemma retry_ok_min : retry_ok refreshRetryMin.
Proof. unfold retry_ok, refreshRetryMin, refreshRetryMax, second_ns. lia. Qed.

Lemma increaseRefreshRetry_ok base : retry_ok base -> retry_ok (increaseRefreshRetry base).
Proof.
  unfold retry_ok, increaseRefreshRetry, refreshRetryMin, refreshRetryMax, second_ns. intros H.
  change (Z.quot (30 * 1000000000) 2) with 15000000000. rewrite Z.geb_leb. split_if_goal; [lia|].
  rewrite wrap64_small by in64. lia.
Qed.

(** The delay before the next attempt: at least the clamped base, at most half
    as much more, and never above half a minute. *)
Lemma conducts_refreshRetryDelay base : in_int64 base ->
  conducts (refreshRetryDelay base) (fun d =>
    let b := Z.min (Z.max base refreshRetryMin) refreshRetryMax in
    b <= d <= Z.min (b + b / 2) refreshRetryMax).
Proof.
  intros Hb. unfold refreshRetryDelay.
  assert (Eb : (let base := if base <? refreshRetryMin then refreshRetryMin else base in
    if base >? refreshRetryMax then refreshRetryMax else base) = Z.min (Z.max base refreshRetryMin) refreshRetryMax).
  { cbv zeta. rewrite Z.gtb_ltb. unfold refreshRetryMin, refreshRetryMax, second_ns.
    destruct (Z.ltb_spec base 1000000000);
    match goal with |- context [Z.ltb ?a ?b] => destruct (Z.ltb_spec a b) end; lia. }
  cbv zeta in Eb |- *. rewrite Eb. clear Eb. set (b := Z.min (Z.max base refreshRetryMin) refreshRetryMax).
  assert (Hr : 1000000000 <= b <= 30000000000) by (unfold b, refreshRetryMin, refreshRetryMax, second_ns; lia).
  assert (Hmax : refreshRetryMax = 30000000000) by reflexivity.
  rewrite Z.quot_div_nonneg by lia.
  assert (0 <= b / 2 <= b) by (split; [apply Z.div_pos; lia|apply Z.div_le_upper_bound; lia]).
  rewrite (wrap64_small (b / 2 + 1)) by in64.
  apply conducts_bind with (P := answers conduct_spec tt (Int64N (b / 2 + 1))); [apply conducts_call; cbn; lia|].
  intros j Hj. cbn in Hj. apply conducts_ret. rewrite (wrap64_small (b + j)) by in64.
  rewrite Z.gtb_ltb. destruct (refreshRetryMax <? b + j) eqn:E; bool_simpl; lia.
Qed.

Lemma conducts_knownLive : conducts knownLive (fun _ => True).
Proof. unfold knownLive. conducts_auto. Qed.
#[export] Hint Resolve retry_ok_min increaseRefreshRetry_ok conducts_knownLive : conducts.

Lemma conducts_stop e : conducts (safe ← terminal e; mret (Stopped (Some safe))) turn_ok.
Proof. conducts_auto. Qed.

Lemma conducts_refresh_wait d retry : 0 < d <= minute_ns -> retry_ok retry -> conducts (refresh_wait d retry) turn_ok.
Proof. intros Hd Hr. unfold refresh_wait. conducts_auto. Qed.

Lemma conducts_refresh_backoff retry : retry_ok retry -> conducts (refresh_backoff retry) turn_ok.
Proof.
  intros Hr. unfold refresh_backoff. apply conducts_bind with (P := fun _ => True); [apply conducts_recoverable|intros _ _].
  assert (Hi : in_int64 retry) by (unfold retry_ok, refreshRetryMin, refreshRetryMax, second_ns in Hr; in64).
  eapply conducts_bind; [by apply conducts_refreshRetryDelay|]. cbv zeta. intros d Hd.
  apply conducts_refresh_wait; [|by apply increaseRefreshRetry_ok].
  revert Hr Hd. unfold retry_ok, refreshRetryMin, refreshRetryMax, minute_ns, second_ns. lia.
Qed.
#[export] Hint Resolve conducts_stop conducts_refresh_wait conducts_refresh_backoff : conducts.

Lemma conducts_refresh_failed p e retry : retry_ok retry -> conducts (refresh_failed p e retry) turn_ok.
Proof.
  intros Hr. unfold refresh_failed. conducts_auto.
Qed.
#[export] Hint Resolve conducts_refresh_failed : conducts.

(** A provider the constructor returns. *)
Definition valid_provider (p : provider) : Prop :=
  exists c i m a g, NewApprovalProviderConfig c i m a g = Ok p.
Lemma valid_margin p : valid_provider p -> 0 < margin p <= MaxRefreshMargin.
Proof.
  intros (c & i & m & a & g & H). unfold NewApprovalProviderConfig in H. split_if in H; [done|].
  injection H as <-. cbn [margin]. rewrite Z.gtb_ltb in *. bool_simpl. lia.
Qed.

Lemma cached_ttl p c : conducts (cached p c) (fun r => match r with Ok (_, ttl) => in_int64 ttl | Err _ => True end).
Proof.
  unfold cached. conducts_auto; try done. apply wrap64_range.
Qed.

Lemma refresh_delay p key ttl : valid_provider p -> in_int64 ttl -> usable key ttl (margin p) = true ->
  0 < (if ttl -w margin p >? minute_ns then minute_ns else ttl -w margin p) <= minute_ns.
Proof.
  intros Hp%valid_margin Ht Hu. unfold usable in Hu. rewrite Z.gtb_ltb in *. bool_simpl.
  assert (MaxRefreshMargin = 7200000000000) by reflexivity. assert (minute_ns = 60000000000) by reflexivity.
  rewrite wrap64_small by in64. split_if_goal; lia.
Qed.

Lemma conducts_refresh_turn_body p retry : valid_provider p -> retry_ok retry ->
  conducts (refresh_turn_body p retry) turn_ok.
Proof.
  intros Hp Hr. unfold refresh_turn_body.
  apply conducts_bind with (P := fun _ => True); [conducts_auto; auto|]. intros over _.
  destruct over; [done|]. eapply conducts_bind; [apply cached_ttl|]. intros [[key ttl]|e] Ht; [|conducts_auto].
  apply conducts_bind with (P := fun _ => True); [conducts_auto|]. intros _ _.
  destruct (usable key ttl (margin p)) eqn:Eu; cbn [negb]; [|conducts_auto].
  apply conducts_refresh_wait; [by eapply refresh_delay|apply retry_ok_min].
Qed.

Lemma conducts_RefreshLoop n p : valid_provider p -> conducts (RefreshLoop n p) turn_ok.
Proof.
  intros Hp. unfold RefreshLoop. destruct (mode p =s _); [conducts_auto|].
  generalize retry_ok_min. generalize refreshRetryMin. induction n as [|n IH]; intros retry Hr; cbn [refresh_turns].
  - by apply conducts_ret.
  - eapply conducts_bind; [by apply conducts_refresh_turn_body|]. intros [e|retry'] Ht; [by apply conducts_ret|by apply IH].
Qed.

Definition outcome_ok (o : outcome) : Prop := match o with KeyOf r => told r | TurnOf t => turn_ok t end.

Lemma conducts_enter p e : valid_provider p -> conducts (enter p e) outcome_ok.
Proof.
  intros Hp. destruct e; cbn [enter].
  - eapply conducts_bind; [apply conducts_ApprovalKey|]. intros r Hr. by apply conducts_ret.
  - eapply conducts_bind; [apply conducts_Reissue|]. intros r Hr. apply conducts_ret. by apply safe_told.
  - eapply conducts_bind; [by apply conducts_RefreshLoop|]. intros t Ht. by apply conducts_ret.
Qed.

Definition wait_ok (e : event op) : Prop :=
  match e with
  | Event o _ => match o with OpWait _ d => 0 < d <= minute_ns | Int64N n => 0 < n | _ => True end
  end.
Definition record_ok (e : event op) : Prop :=
  match e with Event o _ => match o with MarkFailure e => safe_error e | _ => True end end.

Lemma conduct_events tr : all_allowed conduct_spec tt tr -> Forall wait_ok tr /\ Forall record_ok tr.
Proof.
  induction tr as [|[R o r] tr IH]; cbn [all_allowed]; [split; constructor|].
  intros [Ho [Hw Hr]%IH]. split; constructor; try done; destruct o; done.
Qed.

(** The retry delays of consecutive failures: one second, doubled, up to half
    a minute. *)
Lemma retry_schedule k :
  Nat.iter k increaseRefreshRetry refreshRetryMin = Z.min (2 ^ Z.of_nat k * second_ns) refreshRetryMax.
Proof.
  induction k as [|k IH]; [reflexivity|]. rewrite Nat2Z.inj_succ, Z.pow_succ_r by lia.
  change (Nat.iter (S k) increaseRefreshRetry refreshRetryMin) with
    (increaseRefreshRetry (Nat.iter k increaseRefreshRetry refreshRetryMin)). rewrite IH.
  assert (Hs : second_ns = 1000000000) by reflexivity. assert (Hm : refreshRetryMax = 30000000000) by reflexivity.
  unfold increaseRefreshRetry. change (Z.quot refreshRetryMax 2) with 15000000000. rewrite Hm, Hs, Z.geb_leb.
  pose proof (Z.pow_pos_nonneg 2 (Z.of_nat k)). split_if_goal; [lia|]. rewrite wrap64_small by in64. lia.
Qed.

(** No call of a provider busy-waits or waits long: every wait of every
    trace lasts more than nothing and at most a minute, every random draw has a
    positive bound (so [Int64N] does not panic), and after [k] failures in a
    row the retry base is [2^k] seconds capped at thirty. *)
Theorem refresh_waits_bounded p e tr r k :
  valid_provider p -> performs (enter p e) tr r -> expected conduct_spec tt tr ->
  Forall wait_ok tr /\
  Nat.iter k increaseRefreshRetry refreshRetryMin = Z.min (2 ^ Z.of_nat k * second_ns) refreshRetryMax.
Proof.
  intros Hp Hr He. split; [|apply retry_schedule].
  destruct (wp_performs _ _ _ _ _ Hr tt (conducts_enter p e Hp) He) as [Ha _]. by apply conduct_events.
Qed.

(** No text of Redis or of the broker leaves the provider: a failed call
    reports one of the package's errors or the caller's own context error,
    [Reissue] and the refresh loop never the latter's deadline, and only the
    package's errors are recorded as the failure of the process. *)
Theorem approval_errors_safe p e tr r :
  valid_provider p -> performs (enter p e) tr (Some r) -> expected conduct_spec tt tr ->
  outcome_ok r /\ Forall record_ok tr.
Proof.
  intros Hp Hr He. destruct (wp_performs _ _ _ _ _ Hr tt (conducts_enter p e Hp) He) as [Ha Hq].
  split; [done|]. by apply conduct_events.
Qed.

(** ** What a trace did *)

(** A summary of a trace, the latest first: the key [Reissue] was told to
    replace, the keys read with their remaining life, the keys the broker
    issued, the publications that Redis accepted, the locks granted and
    released, and how often the broker and the writing commands were called. *)
Record facts := mkFacts {
  f_rejected : string; f_reads : list (string * Z); f_issued : list string;
  f_published : list (string * string); f_granted : list string; f_released : list string;
  f_calls : nat; f_writes : nat
}.
Definition no_facts : facts := mkFacts "" [] [] [] [] [] 0 0.

Definition write_op {R : Set} (o : op R) : bool :=
  match o with
  | SetNX _ _ _ _ | EvalInvalidate _ _ _ _ | EvalPublish _ _ _ _ _ _ | EvalRelease _ _ _ | Issue _ => true
  | _ => false
  end.

Definition note_answer {R : Set} (f : facts) (o : op R) : R -> facts :=
  let 'mkFacts rejected reads issued published granted released calls writes := f in
  match o in op R return R -> facts with
  | GetLastKey => fun key => mkFacts key reads issued published granted released calls writes
  | EvalCached _ _ => fun r =>
      match r with
      | Ok [value; RpInt ms] =>
          mkFacts rejected ((match value with RpString key => key | _ => "" end, ms *w millisecond_ns) :: reads)
            issued published granted released calls writes
      | _ => f
      end
  | SetNX _ _ token _ => fun r =>
      mkFacts rejected reads issued published (match r with Ok true => token :: granted | _ => granted end)
        released calls writes
  | EvalRelease _ _ token => fun _ =>
      mkFacts rejected reads issued published granted (token :: released) calls writes
  | EvalPublish _ _ _ token key _ => fun r =>
      mkFacts rejected reads issued
        (match r with Err _ | Ok RpNil => published | Ok _ => (token, key) :: published end)
        granted released calls writes
  | Issue _ => fun r =>
      mkFacts rejected reads (match r with Ok key => key :: issued | Err _ => issued end) published granted released
        (S calls) writes
  | _ => fun _ => f
  end.

Definition count_write {R : Set} (f : facts) (o : op R) : facts :=
  if write_op o then
    mkFacts (f_rejected f) (f_reads f) (f_issued f) (f_published f) (f_granted f) (f_released f) (f_calls f)
      (S (f_writes f))
  else f.
Definition note (f : facts) (e : event op) : facts :=
  match e with Event o r => note_answer (count_write f o) o r end.
Definition facts_of (tr : list (event op)) : facts := fold_left note tr no_facts.

Definition facts_spec : spec op facts := {|
  allowed _ _ _ := True; answers _ _ _ _ := True; update := note; may_run_out := True
|}.
Notation learns f p Q := (wp facts_spec f p Q).

(** Nothing but reads of the cache. *)
Record quiet (f f' : facts) : Prop := {
  q_rejected : f_rejected f' = f_rejected f;
  q_reads : f_reads f ⊆ f_reads f';
  q_issued : f_issued f' = f_issued f;
  q_published : f_published f' = f_published f;
  q_granted : f_granted f' = f_granted f;
  q_released : f_released f' = f_released f;
  q_calls : f_calls f' = f_calls f;
  q_writes : f_writes f' = f_writes f
}.
#[export] Instance quiet_preorder : PreOrder quiet.
Proof.
  split; [intros f; split; try done; by intros x|]. intros f g h [] []. split; try congruence.
  intros x Hx. by auto.
Qed.

(** A routine that only reads. *)
Definition reads_only {A} (p : program A) : Prop := forall f, learns f p (fun f' _ => quiet f f').

Lemma reads_only_ret {A} (a : A) : reads_only (mret a).
Proof. intros f. cbn. reflexivity. Qed.
Lemma reads_only_bind {A B} (m : program A) (f : A -> program B) :
  reads_only m -> (forall a, reads_only (f a)) -> reads_only (m ≫= f).
Proof.
  intros Hm Hf g. eapply wp_use; [apply Hm|]. intros g' a Hg. eapply wp_mono; [|apply Hf].
  intros g'' b Hg'. cbn in *. by transitivity g'.
Qed.
(** The calls that leave a summary alone. *)
Definition silent {R : Set} (o : op R) : bool :=
  match o with
  | GetLastKey | EvalCached _ _ => false
  | o => negb (write_op o)
  end.
Lemma silent_note {R : Set} (o : op R) r f : silent o = true -> note f (Event o r) = f.
Proof. destruct o, f; done. Qed.
Lemma reads_only_call {R : Set} (o : op R) : silent o = true -> reads_only (call o).
Proof. intros Ho f. split; [done|]. intros r _. cbn [wp]. by rewrite silent_note. Qed.

(** What a reading routine found holds of every later summary. *)
Definition found {A} (p : program A) (P : facts -> A -> Prop) : Prop :=
  forall f, learns f p (fun f' a => quiet f f' /\ P f' a).
Definition stays {A} (P : facts -> A -> Prop) : Prop := forall f f' a, quiet f f' -> P f a -> P f' a.

Lemma found_ret {A} (a : A) (P : facts -> A -> Prop) : (forall f, P f a) -> found (mret a) P.
Proof. intros HP f. cbn. split; [reflexivity|apply HP]. Qed.
Lemma found_bind {A B} (m : program A) (f : A -> program B) P Q :
  found m P -> (forall g a, P g a -> learns g (f a) (fun f' b => quiet g f' /\ Q f' b)) -> found (m ≫= f) Q.
Proof.
  intros Hm Hf g. eapply wp_use; [apply Hm|]. intros g' a [Hg Ha]. eapply wp_mono; [|by apply Hf].
  intros g'' b [Hg' Hb]. split; [by transitivity g'|done].
Qed.
Lemma reads_found {A B} (m : program A) (f : A -> program B) Q :
  reads_only m -> (forall a, found (f a) Q) -> found (m ≫= f) Q.
Proof.
  intros Hm Hf. apply found_bind with (P := fun _ _ => True); [|intros g a _; apply Hf].
  intros g. eapply wp_mono; [|apply Hm]. done.
Qed.
(** A value found by the first routine and returned by a later one. *)
Lemma learns_after {A B} g (m : program A) (b : B) (Q : facts -> B -> Prop) :
  reads_only m -> (forall g', quiet g g' -> Q g' b) ->
  learns g (m;; mret b) (fun f' b => quiet g f' /\ Q f' b).
Proof. intros Hm HQ. eapply wp_use; [apply Hm|]. intros g' u Hg. cbn in *. auto. Qed.

Create HintDb reads.
Ltac reads_auto :=
  repeat lazymatch goal with
  | |- reads_only (_ ≫= _) => apply reads_only_bind; [|intros ?]
  | |- reads_only (call _) => by apply reads_only_call
  | |- reads_only (if ?b then _ else _) => destruct b
  | |- reads_only (match ?x with _ => _ end) => destruct x
  | |- reads_only (mret _) => apply reads_only_ret
  | |- reads_only _ => solve [auto with reads]
  end.

Lemma reads_noteLive ttl : reads_only (noteLive ttl).
Proof. unfold noteLive. reads_auto. Qed.
Lemma reads_present key : reads_only (present key).
Proof. unfold present. reads_auto. Qed.
Lemma reads_terminal e : reads_only (terminal e).
Proof. unfold terminal. reads_auto. Qed.
Lemma reads_wait_error c e : reads_only (wait_error c e).
Proof. unfold wait_error. reads_auto. Qed.
#[export] Hint Resolve reads_noteLive reads_present reads_terminal reads_wait_error : reads.

(** A key that a call may hand out because it was read. *)
Definition read_ok (f : facts) (ok : string -> Z -> bool) (key : string) : Prop :=
  exists ttl, (key, ttl) ∈ f_reads f /\ ok key ttl = true.
Lemma read_ok_quiet f f' ok key : quiet f f' -> read_ok f ok key -> read_ok f' ok key.
Proof. intros [] (ttl & Hin & Hok). exists ttl. auto. Qed.

Lemma found_cached p c :
  found (cached p c) (fun f r => match r with Ok (key, ttl) => (key, ttl) ∈ f_reads f | Err _ => True end).
Proof.
  intros f. unfold cached. apply wp_call; [done|]. intros r _. destruct f. cbn [wp mret prog_ret update facts_spec note].
  destruct r as [[|v [|[| |ms] [|]]]|e]; cbn; (split; [split; cbn; try done; try by intros x; right|try done]).
  by left.
Qed.

Lemma found_wait_loop n p c D force rej :
  found (wait_loop n p c D force rej)
    (fun f w => match w with WaitReturned (Ok key) => read_ok f (acceptable p force rej) key | _ => True end).
Proof.
  induction n as [|n IH]; cbn [wait_loop]; [done|].
  assert (He : forall e, found (wait_error c e) (fun f w =>
    match w with WaitReturned (Ok key) => read_ok f (acceptable p force rej) key | _ => True end)).
  { intros e. unfold wait_error. apply reads_found; [by apply reads_only_call|]. intros []; by apply found_ret. }
  eapply found_bind; [apply found_cached|]. intros g [[key ttl]|e] Hin; [|apply He].
  destruct (acceptable p force rej key ttl) eqn:Ea.
  - apply wp_call; [done|]. intros u _. change (update facts_spec g _) with (note g (Event (Count LockWaitSuccess) u)).
    rewrite silent_note by done. apply learns_after; [auto with reads|]. intros g' Hg.
    exists ttl. split; [by apply (q_reads _ _ Hg)|done].
  - match goal with |- wp _ _ ?rest ?Q => assert (H : found rest (fun f w =>
      match w with WaitReturned (Ok key) => read_ok f (acceptable p force rej) key | _ => True end)); [|apply H] end.
    apply reads_found; [by apply reads_only_call|]. intros now. cbv zeta.
    destruct (time_sub D now <=? 0); [by apply found_ret|].
    apply reads_found; [by apply reads_only_call|]. intros jitter.
    apply reads_found; [by apply reads_only_call|]. intros [e|]; [apply He|apply IH].
Qed.

Lemma found_contended p force rej :
  found (contended p force rej) (fun f r => match r with Ok key => read_ok f (acceptable p force rej) key | Err _ => True end).
Proof.
  unfold contended. do 3 (apply reads_found; [by apply reads_only_call|]; intros ?).
  eapply found_bind; [apply found_wait_loop|]. intros g [|[key|e]] Hw; [|by split|by split].
  match goal with |- wp _ _ ?rest ?Q => assert (H : found rest (fun f r =>
    match r with Ok key => read_ok f (acceptable p force rej) key | Err _ => True end)); [|apply H] end.
  apply reads_found; [by apply reads_only_call|]. intros [e|]; [by apply found_ret|].
  apply reads_found; [by apply reads_only_call|]. intros _. by apply found_ret.
Qed.

(** A key this call had issued and published under its own lock. *)
Definition issued_ok (f : facts) (key : string) : Prop :=
  key ∈ f_issued f /\ TrimSpace key <> "" /\ exists token, (token, key) ∈ f_published f /\ token ∈ f_granted f.

(** Between the grant of a lock and its release. *)
Record holding (f f' : facts) : Prop := {
  h_rejected : f_rejected f' = f_rejected f;
  h_reads : f_reads f ⊆ f_reads f';
  h_issued : f_issued f ⊆ f_issued f';
  h_published : f_published f ⊆ f_published f';
  h_granted : f_granted f' = f_granted f;
  h_released : f_released f' = f_released f
}.
#[export] Instance holding_preorder : PreOrder holding.
Proof.
  split; [intros f; split; try done; by intros x|]. intros f g h [] []. split; try congruence; intros x Hx; auto.
Qed.
Lemma quiet_holding f f' : quiet f f' -> holding f f'.
Proof. intros []. split; try done; [rewrite q_issued0|rewrite q_published0]; by intros x. Qed.

Lemma learns_publish p c token issued f : token ∈ f_granted f -> issued ∈ f_issued f -> TrimSpace issued <> "" ->
  learns f (publish p c token issued) (fun f' r =>
    holding f f' /\ f_calls f' = f_calls f /\ match r with Ok key => issued_ok f' key | Err _ => True end).
Proof.
  intros Ht Hi Hb. unfold publish. apply wp_call; [done|]. intros r _.
  assert (Hh : forall r, holding f (update facts_spec f
    (Event (EvalPublish c (lockKey p) (cacheKey p) token issued (Z.quot ApprovalCacheTTL second_ns)) r))).
  { intros r'. destruct f. split; cbn; try done; try by intros x. destruct r' as [[]|]; cbn; intros x Hx; by try right. }
  assert (Hc : forall r, f_calls (update facts_spec f
    (Event (EvalPublish c (lockKey p) (cacheKey p) token issued (Z.quot ApprovalCacheTTL second_ns)) r)) = f_calls f)
    by by destruct f.
  assert (Hend : forall r' (e : approval_error), learns (update facts_spec f
    (Event (EvalPublish c (lockKey p) (cacheKey p) token issued (Z.quot ApprovalCacheTTL second_ns)) r'))
    (mret (Err e)) (fun f' r => holding f f' /\ f_calls f' = f_calls f /\
      match r with Ok key => issued_ok f' key | Err _ => True end)).
  { intros r' e. split; [apply Hh|split; [apply Hc|done]]. }
  destruct r as [r|e]; [destruct r eqn:Er|]; [apply Hend| | |apply Hend].
  all: eapply wp_use; [apply reads_noteLive|]; intros g u Hg; cbv beta in Hg; cbn [wp mret prog_ret].
  all: rewrite (q_calls _ _ Hg); split; [etransitivity; [apply Hh|by apply quiet_holding]|split; [done|]].
  all: destruct f; split; [by rewrite (q_issued _ _ Hg)|split; [done|]]; exists token.
  all: rewrite (q_published _ _ Hg), (q_granted _ _ Hg); cbn; split; [by left|done].
Qed.

Lemma learns_issue p d token f : token ∈ f_granted f ->
  learns f (issue p d token) (fun f' r =>
    holding f f' /\ (f_calls f' <= S (f_calls f))%nat /\ match r with Ok key => issued_ok f' key | Err _ => True end).
Proof.
  intros Ht. unfold issue. do 2 (apply wp_call; [done|]; intros ? _; rewrite silent_note by done).
  apply wp_call; [done|]. intros r' _.
  match goal with |- wp _ ?f' _ _ => assert (Hh : holding f f' /\ f_calls f' = S (f_calls f) /\
    match r' with Ok key => key ∈ f_issued f' | Err _ => True end) end.
  { destruct f. destruct r'; cbn; (split; [split; cbn; try done; try (by intros x)|split; [done|try done]]).
    - intros x Hx. by right. - by left. }
  revert Hh. match goal with |- context [holding f ?x] => generalize x end. intros g (Hh & Hc & Hi).
  destruct r' as [issued|e]; [|cbn; by rewrite Hc].
  destruct (TrimSpace issued =s "") eqn:Eb; bool_simpl; [cbn; by rewrite Hc|].
  apply wp_call; [done|]. intros [e|] _; rewrite silent_note by done; [cbn; by rewrite Hc|].
  eapply wp_mono; [|apply learns_publish]; [|by rewrite (h_granted _ _ Hh)|done|done].
  cbn beta. intros g' res (Hg & Hc' & Hr). split; [by transitivity g|]. split; [lia|done].
Qed.

(** What a call that came back with a key may rest on. *)
Definition obtained (f : facts) (ok : string -> Z -> bool) (r : result string approval_error) : Prop :=
  match r with Ok key => issued_ok f key \/ read_ok f ok key | Err _ => True end.

Lemma learns_locked p d token force rej f : token ∈ f_granted f ->
  learns f (locked p d token force rej) (fun f' r =>
    holding f f' /\ (f_calls f' <= S (f_calls f))%nat /\ obtained f' (acceptable p force rej) r).
Proof.
  intros Ht. unfold locked. eapply wp_use; [apply found_cached|]. cbv beta. intros g r [Hg Hr].
  assert (Hh := quiet_holding _ _ Hg). assert (Hc := q_calls _ _ Hg).
  assert (Herr : forall e : approval_error, learns g (mret (Err e)) (fun f' r =>
    holding f f' /\ (f_calls f' <= S (f_calls f))%nat /\ obtained f' (acceptable p force rej) r)).
  { intros e. split; [done|]. split; [lia|done]. }
  assert (Hissue : forall g', holding f g' -> f_calls g' = f_calls f -> learns g' (issue p d token) (fun f' r =>
    holding f f' /\ (f_calls f' <= S (f_calls f))%nat /\ obtained f' (acceptable p force rej) r)).
  { intros g' Hg' Hcg'. eapply wp_mono; [|apply learns_issue; by rewrite (h_granted _ _ Hg')]. cbv beta.
    intros h res (Hh' & Hch & Hres). split; [by transitivity g'|]. split; [lia|]. destruct res; [by left|done]. }
  destruct r as [[key ttl]|e]; [|done]. destruct (acceptable p force rej key ttl) eqn:Ea.
  - eapply wp_use; [apply reads_noteLive|]. cbv beta. intros h u Hq. cbn [wp mret prog_ret].
    split; [transitivity g; [done|by apply quiet_holding]|]. rewrite (q_calls _ _ Hq). split; [lia|].
    right. exists ttl. split; [by apply (q_reads _ _ Hq)|done].
  - destruct force; [|by apply Hissue]. apply wp_call; [done|]. intros n _.
    match goal with |- wp _ ?g' _ _ => assert (Hg' : holding f g' /\ f_calls g' = f_calls f) end.
    { rewrite <- Hc. split; [etransitivity; [exact Hh|]|]; destruct g; [|done]. split; cbn; try done; by intros x. }
    destruct Hg' as [Hg' Hcg']. revert Hg' Hcg'. match goal with |- holding f ?x -> _ => generalize x end.
    intros g' Hg' Hcg'.
    assert (Herr' : forall e : approval_error, learns g' (mret (Err e)) (fun f' r =>
      holding f f' /\ (f_calls f' <= S (f_calls f))%nat /\ obtained f' (acceptable p true rej) r)).
    { intros e. split; [done|]. split; [lia|done]. }
    destruct n as [n|e]; [|apply Herr']. destruct (n =? 0); [apply Herr'|by apply Hissue].
Qed.

(** The locks a call took are the ones it gave back, at most one, and it asked
    the broker only while it had one. *)
Record balanced (f f' : facts) : Prop := {
  b_rejected : f_rejected f' = f_rejected f;
  b_reads : f_reads f ⊆ f_reads f';
  b_locks : exists l, f_granted f' = l ++ f_granted f /\ f_released f' = l ++ f_released f /\
    (length l <= 1)%nat /\ (f_calls f' <= f_calls f + length l)%nat
}.
Lemma quiet_balanced f f' : quiet f f' -> balanced f f'.
Proof.
  intros H. split; [apply H..|]. exists []. rewrite (q_granted _ _ H), (q_released _ _ H), (q_calls _ _ H). cbn. auto with lia.
Qed.

Lemma learns_singleFlight p force rej f :
  learns f (singleFlight p force rej) (fun f' r => balanced f f' /\ obtained f' (acceptable p force rej) r).
Proof.
  unfold singleFlight. apply wp_call; [done|]. intros t _. rewrite silent_note by done.
  destruct t as [token|e]; [|split; [apply quiet_balanced; reflexivity|done]].
  apply wp_call; [done|]. intros at_ _. rewrite silent_note by done.
  apply wp_call; [done|]. intros acquired _.
  match goal with |- wp _ ?f' _ _ => assert (Hf' : match acquired with Ok true =>
      f_granted f' = token :: f_granted f /\ f_released f' = f_released f /\ f_calls f' = f_calls f /\
      f_rejected f' = f_rejected f /\ f_reads f' = f_reads f
    | _ => f_granted f' = f_granted f /\ f_released f' = f_released f /\ f_calls f' = f_calls f /\
      f_rejected f' = f_rejected f /\ f_reads f' = f_reads f end) by (destruct f, acquired as [[]|]; done) end.
  revert Hf'. match goal with |- context [wp _ ?x _ _] => generalize x end. intros g Hg.
  assert (Hsame : match acquired with Ok true => True | _ => forall g', quiet g g' -> balanced f g' end).
  { destruct acquired as [[]|]; [done| |]; intros g' Hq; destruct Hg as (E1 & E2 & E3 & E4 & E5);
      apply quiet_balanced in Hq as [B1 B2 B3]; rewrite E1, E2, E3 in B3; (split; [congruence|by rewrite <- E5|done]). }
  destruct acquired as [[]|e]; [| |split; [by apply Hsame|done]].
  - destruct Hg as (E1 & E2 & E3 & E4 & E5). apply wp_call; [done|]. intros u _. rewrite silent_note by done.
    eapply wp_use; [apply learns_locked with (token := token); rewrite E1; by left|]. cbv beta. intros h r (Hh & Hc & Hr).
    unfold release. apply wp_bind. apply wp_call; [done|]. intros now _. rewrite silent_note by done.
    split; [done|]. intros u' _. cbn [wp mret prog_ret]. destruct Hh as [H1 H2 H3 H4 H5 H6].
    destruct h as [hr hreads hi hp hg hrel hc hw]. cbn in *. split.
    + split; cbn; [congruence|by rewrite <- E5|]. exists [token]. subst hg hrel. rewrite E1, E2. cbn. repeat split; lia.
    + destruct r as [key|]; [|done]. destruct Hr as [(Ha & Hb & Hd)|(ttl & Ha & Hb)]; [left|right].
      * by split.
      * by exists ttl.
  - eapply wp_mono; [|apply found_contended]. cbv beta. intros g' r [Hq Hr]. split; [by apply Hsame|].
    destruct r; [by right|done].
Qed.

(** *** Whole calls *)

(** Every lock taken is given back, and each question to the broker has its
    lock, at most [n] of them. *)
Definition locks_within (n : nat) (f f' : facts) : Prop :=
  exists l, f_granted f' = l ++ f_granted f /\ f_released f' = l ++ f_released f /\
    (length l <= n)%nat /\ (f_calls f' <= f_calls f + length l)%nat.
Definition paired {A} (n : nat) (p : program A) : Prop := forall f, learns f p (fun f' _ => locks_within n f f').

Lemma locks_within_trans n m f g h : locks_within n f g -> locks_within m g h -> locks_within (n + m) f h.
Proof.
  intros (l & E1 & E2 & H1 & H2) (l' & E3 & E4 & H3 & H4). exists (l' ++ l).
  rewrite E3, E4, E1, E2, <- !app_assoc, length_app. repeat split; lia.
Qed.
Lemma paired_bind {A B} n m k (p : program A) (f : A -> program B) :
  (n + m <= k)%nat -> paired n p -> (forall a, paired m (f a)) -> paired k (p ≫= f).
Proof.
  intros Hk Hp Hf g. eapply wp_use; [apply Hp|]. cbv beta. intros g' a Hg. eapply wp_mono; [|apply Hf]. cbv beta.
  intros h b Hh. destruct (locks_within_trans _ _ _ _ _ Hg Hh) as (l & E1 & E2 & H1 & H2). exists l. repeat split; try done. lia.
Qed.
Lemma paired_reads {A} n (p : program A) : reads_only p -> paired n p.
Proof.
  intros Hp f. eapply wp_mono; [|apply Hp]. cbv beta. intros g a Hq. exists [].
  rewrite (q_granted _ _ Hq), (q_released _ _ Hq), (q_calls _ _ Hq). cbn. repeat split; lia.
Qed.
Lemma paired_flight p force rej : paired 1 (singleFlight p force rej).
Proof. intros f. eapply wp_mono; [|apply learns_singleFlight]. intros g r [H _]. apply H. Qed.
Lemma paired_then {A B} n (p : program A) (f : A -> program B) :
  paired n p -> (forall a, reads_only (f a)) -> paired n (p ≫= f).
Proof. intros Hp Hf. eapply paired_bind with (m := 0%nat); [|done|]; [lia|]. intros a. by apply paired_reads. Qed.
Lemma paired_after {A B} n (p : program A) (f : A -> program B) :
  reads_only p -> (forall a, paired n (f a)) -> paired n (p ≫= f).
Proof. intros Hp Hf. eapply paired_bind with (n := 0%nat); [|by apply paired_reads|done]. lia. Qed.

Lemma reads_cached p c : reads_only (cached p c).
Proof. intros f. eapply wp_mono; [|apply found_cached]. by intros ? ? []. Qed.
#[export] Hint Resolve reads_cached : reads.
Lemma reads_terminal_key e : reads_only (terminal_key e).
Proof. unfold terminal_key. reads_auto. Qed.
#[export] Hint Resolve reads_terminal_key : reads.
Lemma reads_recoverable : reads_only recoverableFailure.
Proof. unfold recoverableFailure. reads_auto. Qed.
#[export] Hint Resolve reads_recoverable : reads.
Lemma reads_reuse_old p e : reads_only (reuse_old p e).
Proof. unfold reuse_old. reads_auto. Qed.
Lemma reads_backoff retry : reads_only (refresh_backoff retry).
Proof. unfold refresh_backoff, refreshRetryDelay, refresh_wait. reads_auto. Qed.
Lemma reads_known : reads_only knownLive.
Proof. unfold knownLive. reads_auto. Qed.
#[export] Hint Resolve reads_reuse_old reads_backoff reads_known : reads.
Lemma reads_refresh_failed p e retry : reads_only (refresh_failed p e retry).
Proof. unfold refresh_failed. reads_auto. Qed.
#[export] Hint Resolve reads_refresh_failed : reads.

Lemma paired_ApprovalKey p : paired 1 (ApprovalKey p).
Proof.
  unfold ApprovalKey. apply paired_after; [auto with reads|]. intros r. destruct (mode p =s _).
  - apply paired_reads. reads_auto.
  - destruct r as [[key ttl]|e]; [|apply paired_reads; reads_auto]. destruct (usable key ttl (margin p)).
    + apply paired_reads. reads_auto.
    + apply paired_after; [reads_auto|intros _]. apply paired_then; [apply paired_flight|]. intros []; reads_auto.
Qed.
Lemma paired_Reissue p : paired 1 (Reissue p).
Proof.
  unfold Reissue. destruct (mode p =s _); [apply paired_reads; reads_auto|].
  intros f. apply wp_call; [done|]. intros rej _.
  assert (H : paired 1 (r ← singleFlight p true rej;
    match r with Err e => terminal_key e | Ok key => present key;; mret (Ok key) end)).
  { apply paired_then; [apply paired_flight|]. intros []; reads_auto. }
  destruct f. exact (H _).
Qed.
Lemma paired_refresh_turn p retry : paired 1 (refresh_turn_body p retry).
Proof.
  unfold refresh_turn_body. apply paired_after; [by apply reads_only_call|]. intros [e|]; [apply paired_reads; reads_auto|].
  apply paired_after; [auto with reads|]. intros [[key ttl]|e]; [|apply paired_reads; reads_auto].
  apply paired_after; [reads_auto|intros _]. destruct (negb _).
  - apply paired_then; [apply paired_flight|]. intros []; reads_auto.
  - apply paired_reads. unfold refresh_wait. reads_auto.
Qed.
Lemma paired_RefreshLoop n p : paired n (RefreshLoop n p).
Proof.
  unfold RefreshLoop. destruct (mode p =s _); [apply paired_reads; reads_auto|]. generalize refreshRetryMin.
  induction n as [|n IH]; intros retry; cbn [refresh_turns]; [apply paired_reads; reads_auto|].
  apply paired_bind with (n := 1%nat) (m := n); [lia|apply paired_refresh_turn|].
  intros []; [apply paired_reads; reads_auto|apply IH].
Qed.

Definition max_locks (e : entry) : nat := match e with CallRefreshLoop n => n | _ => 1 end.

(** No lock is leaked and the broker is asked under a lock: when a call is
    over, the locks it was granted are exactly the ones it released, there was
    at most one of them per attempt, and the broker was asked at most once per
    lock. *)
Theorem locks_released p e tr r : performs (enter p e) tr (Some r) ->
  let f := facts_of tr in
  f_granted f = f_released f /\ (length (f_granted f) <= max_locks e)%nat /\
  (f_calls f <= length (f_granted f))%nat.
Proof.
  intros Hp. assert (H : paired (max_locks e) (enter p e)).
  { destruct e; cbn [enter max_locks]; (apply paired_then; [|intros; reads_auto]);
      [apply paired_ApprovalKey|apply paired_Reissue|apply paired_RefreshLoop]. }
  assert (He : forall tr f, expected facts_spec f tr).
  { clear. induction tr as [|[R o r] tr IH]; cbn [expected]; [done|]. intros f. by split. }
  destruct (wp_performs _ _ _ _ _ Hp no_facts (H no_facts) (He _ _)) as [_ (l & E1 & E2 & H1 & H2)].
  change (fold_left (update facts_spec) tr no_facts) with (facts_of tr) in *.
  cbn zeta. rewrite E1, E2. cbn in *. rewrite app_nil_r. split; [done|lia].
Qed.

(** Where a key comes from. *)
Lemma acceptable_usable p force rej key ttl :
  acceptable p force rej key ttl = true -> usable key ttl (margin p) = true.
Proof. unfold acceptable. intros H. by bool_simpl. Qed.
Lemma usable_live p key ttl : 0 < margin p -> usable key ttl (margin p) = true -> live key ttl = true.
Proof. unfold usable, live. rewrite !Z.gtb_ltb. intros Hm H. bool_simpl. apply andb_true_iff. rewrite Z.ltb_lt. split; [by apply negb_true_iff, String.eqb_neq|lia]. Qed.

Lemma read_ok_weaken f (ok ok' : string -> Z -> bool) key :
  (forall key ttl, ok key ttl = true -> ok' key ttl = true) -> read_ok f ok key -> read_ok f ok' key.
Proof. intros H (ttl & Hin & Hok). exists ttl. auto. Qed.

Lemma obtained_quiet f f' ok r : quiet f f' -> obtained f ok r -> obtained f' ok r.
Proof.
  intros Hq. destruct r as [key|]; [|done]. intros [(H1 & H2 & tok & H3 & H4)|H]; [left|right].
  - split; [by rewrite (q_issued _ _ Hq)|split; [done|]]. exists tok. by rewrite (q_published _ _ Hq), (q_granted _ _ Hq).
  - by eapply read_ok_quiet.
Qed.

(** The rest of a call that is done with its result. *)
Lemma learns_finish {A} f (m : program A) r (Q : facts -> result string approval_error -> Prop) :
  reads_only m -> (forall f', quiet f f' -> Q f' r) -> learns f (m;; mret r) Q.
Proof. intros Hm HQ. eapply wp_use; [apply Hm|]. cbv beta. intros g u Hg. by apply HQ. Qed.

Definition alive (p : provider) (key : string) (ttl : Z) : bool :=
  if mode p =s ApprovalModeCacheOnly then TrimSpace key <>s "" else live key ttl.

Lemma learns_terminal_key f e ok : learns f (terminal_key e) (fun f' r => obtained f' ok r).
Proof.
  unfold terminal_key. eapply wp_use; [apply reads_terminal|]. cbv beta. by intros.
Qed.

Lemma learns_reuse_old p f e : learns f (reuse_old p e) (fun f' r => obtained f' live r).
Proof.
  unfold reuse_old. apply wp_call; [done|]. intros [over|] _; [done|]. eapply wp_use; [apply found_cached|].
  cbv beta. intros g [[old rem]|e'] [_ Hin]; [|apply learns_terminal_key].
  destruct (live old rem) eqn:El; [|apply learns_terminal_key].
  eapply wp_use; [apply reads_noteLive|]. cbv beta. intros g1 u1 H1.
  eapply wp_use; [apply reads_present|]. cbv beta. intros g2 u2 H2.
  apply learns_finish; [apply reads_recoverable|]. intros g3 H3. right. exists rem. split; [|done].
  by apply (q_reads _ _ H3), (q_reads _ _ H2), (q_reads _ _ H1).
Qed.

Lemma ApprovalKey_obtained p f : 0 < margin p -> learns f (ApprovalKey p) (fun f' r => obtained f' (alive p) r).
Proof.
  intros Hm. unfold ApprovalKey. eapply wp_use; [apply found_cached|]. cbv beta. intros g r [_ Hr].
  assert (Hkeep : forall key ttl, (key, ttl) ∈ f_reads g -> alive p key ttl = true ->
    learns g (noteLive ttl;; present key;; mret (Ok key)) (fun f' r => obtained f' (alive p) r)).
  { intros key ttl Hin Ha. eapply wp_use; [apply reads_noteLive|]. cbv beta. intros h u Hh.
    apply learns_finish; [apply reads_present|]. intros k Hk. right. exists ttl. split; [|done].
    by apply (q_reads _ _ Hk), (q_reads _ _ Hh). }
  unfold alive in *. destruct (mode p =s ApprovalModeCacheOnly).
  - destruct r as [[key ttl]|e]; [|apply learns_terminal_key]. destruct (TrimSpace key =s "") eqn:Eb.
    + apply wp_call; [done|]. intros u _. by cbn.
    + apply (Hkeep _ _ Hr). by rewrite Eb.
  - destruct r as [[key ttl]|e]; [|apply learns_terminal_key]. destruct (usable key ttl (margin p)) eqn:Eu.
    + apply (Hkeep _ _ Hr). by apply (usable_live p).
    + eapply wp_use with (P := fun _ _ => True); [destruct (live key ttl); [|done]; eapply wp_mono; [|apply reads_noteLive]; done|].
      intros h u _. eapply wp_use; [apply learns_singleFlight|]. cbv beta. intros k [issued|e] [_ Ho].
      * apply learns_finish; [apply reads_present|]. intros h' Hh'. apply (obtained_quiet k); [done|].
        destruct Ho as [Ho|Ho]; [by left|right]. revert Ho. apply read_ok_weaken. intros key' ttl' Ha.
        apply (usable_live p); [done|]. by eapply acceptable_usable.
      * apply learns_reuse_old.
Qed.

(** A key that [ApprovalKey] hands out is either one the broker issued to
    this call and that Redis let it publish under its own lock, or one that was
    read from the cache, is not blank and (with the exception of the
    cache-only mode) had time left to live. *)
Theorem ApprovalKey_justified p tr key :
  valid_provider p -> performs (ApprovalKey p) tr (Some (Ok key)) ->
  issued_ok (facts_of tr) key \/ read_ok (facts_of tr) (alive p) key.
Proof.
  intros Hp%valid_margin Hr.
  assert (He : forall f, expected facts_spec f tr) by (clear; induction tr as [|[R o r] tr IH]; cbn; auto).
  destruct Hp as [Hp _]. exact (proj2 (wp_performs _ _ _ _ _ Hr no_facts (ApprovalKey_obtained p no_facts Hp) (He _))).
Qed.

Definition replaces (p : provider) (rejected key : string) (ttl : Z) : bool := acceptable p true rejected key ttl.

Lemma Reissue_obtained p f :
  learns f (Reissue p) (fun f' r => obtained f' (replaces p (f_rejected f')) r).
Proof.
  unfold Reissue. destruct (mode p =s _); [apply wp_call; [done|]; by intros|].
  apply wp_call; [done|]. intros rej _.
  assert (Hrej : f_rejected (update facts_spec f (Event GetLastKey rej)) = rej) by by destruct f.
  revert Hrej. generalize (update facts_spec f (Event GetLastKey rej)). intros g Hg.
  eapply wp_use; [apply learns_singleFlight|]. cbv beta. intros h [key|e] [Hb Ho].
  - apply learns_finish; [apply reads_present|]. intros k Hk. apply (obtained_quiet h); [done|].
    by rewrite (q_rejected _ _ Hk), (b_rejected _ _ Hb), Hg.
  - unfold terminal_key. eapply wp_use; [apply reads_terminal|]. cbv beta. by intros.
Qed.

(** [Reissue] never hands the rejected key back from the cache: the key is
    one the broker issued to this call, published under its own lock, or a
    usable key of the cache that differs from the rejected one. *)
Theorem Reissue_replaces p tr key :
  performs (Reissue p) tr (Some (Ok key)) ->
  issued_ok (facts_of tr) key \/
  f_rejected (facts_of tr) <> "" /\ key <> f_rejected (facts_of tr) /\
    exists ttl, (key, ttl) ∈ f_reads (facts_of tr) /\ usable key ttl (margin p) = true.
Proof.
  intros Hr.
  assert (He : forall f, expected facts_spec f tr) by (clear; induction tr as [|[R o r] tr IH]; cbn; auto).
  destruct (proj2 (wp_performs _ _ _ _ _ Hr no_facts (Reissue_obtained p no_facts) (He _))) as [H|(ttl & Hin & Ha)]; [by left|right].
  change (fold_left (update facts_spec) tr no_facts) with (facts_of tr) in *.
  unfold replaces, acceptable in Ha. cbn [negb orb] in Ha. bool_simpl. split; [done|split; [done|]]. by exists ttl.
Qed.

(** A cache-only provider is passive: whichever call is made, it takes no
    lock, asks the broker for nothing and writes nothing to Redis. *)
Theorem cache_only_passive p e tr r :
  mode p = ApprovalModeCacheOnly -> performs (enter p e) tr (Some r) -> f_writes (facts_of tr) = 0%nat.
Proof.
  intros Em Hp. assert (H : reads_only (enter p e)).
  { assert (Eb : (mode p =s ApprovalModeCacheOnly) = true) by by rewrite Em, string_eqb_refl.
    destruct e; cbn [enter]; (apply reads_only_bind; [|intros; reads_auto]);
      unfold ApprovalKey, Reissue, RefreshLoop; rewrite Eb; reads_auto. }
  assert (He : forall f, expected facts_spec f tr) by (clear; induction tr as [|[R o r] tr IH]; cbn; auto).
  exact (q_writes _ _ (proj2 (wp_performs _ _ _ _ _ Hp no_facts (H no_facts) (He _)))).
Qed.

(** ** Concrete calls *)

(** An environment that holds one cached key, whose broker issues ["new"]; the
    state is the clock and the answer to [SetNX]. *)
Definition sample_answer (key : string) (ttlMS : Z) (granted : bool) (clock : Z) {R : Set} (o : op R) : Z * R :=
  match o in op R return Z * R with
  | ReadToken => (clock, Ok "token")
  | Now => (clock, clock)
  | SetNX _ _ _ _ => (clock, Ok granted)
  | EvalCached _ _ => (clock, Ok [RpString key; RpInt ttlMS])
  | EvalInvalidate _ _ _ _ => (clock, Ok 1)
  | EvalPublish _ _ _ _ _ _ => (clock, Ok (RpString "OK"))
  | EvalRelease _ _ _ => (clock, tt)
  | Issue _ => (clock, Ok "new")
  | CtxErr _ => (clock, None)
  | CtxDone => (clock, tt)
  | OpWait _ d => (clock + d, None)
  | Int64N _ => (clock, 0)
  | Count _ => (clock, tt)
  | GetLastKey => (clock, "old")
  | SetLastKey _ => (clock, tt)
  | GetKnownUntil => (clock, 0)
  | SetKnownUntil _ => (clock, tt)
  | MarkFailure _ => (clock, tt)
  | OnTransient => (clock, tt)
  end.
Definition sample_provider : provider := mkProvider "" "live" DefaultRefreshMargin.
Definition sample_run {A} (key : string) (ttlMS : Z) (granted : bool) (p : program A) :=
  run (@sample_answer key ttlMS granted) 0 p.

Lemma sample_valid : valid_provider sample_provider.
Proof. by exists true, true, "", "live", DefaultRefreshMargin. Qed.

(** A rejected key in the cache and a lock that another provider holds: the
    waiting loop looks forty-nine times, for twelve seconds, and gives up. *)
Definition contended_run := sample_run "old" 82800000 false (enter sample_provider CallReissue).
Lemma contended_performs : performs (enter sample_provider CallReissue) contended_run.1.2 contended_run.2.
Proof. apply run_performs. Qed.

Lemma approval_returns_witness :
  contended_run.1.1 = 12 * second_ns /\ exists a, contended_run.2 = Some a.
Proof.
  split; [vm_compute; reflexivity|].
  apply (approval_returns sample_provider CallReissue contended_run.1.2 contended_run.2 0 contended_performs).
  vm_compute. repeat split; discriminate.
Defined.

Lemma refresh_waits_bounded_witness :
  Forall wait_ok contended_run.1.2 /\
  Nat.iter 4 increaseRefreshRetry refreshRetryMin = Z.min (2 ^ Z.of_nat 4 * second_ns) refreshRetryMax.
Proof.
  apply (refresh_waits_bounded sample_provider CallReissue contended_run.1.2 contended_run.2 4 sample_valid contended_performs).
  vm_compute. repeat split; discriminate.
Defined.

Lemma approval_errors_safe_witness :
  contended_run.2 = Some (KeyOf (Err ErrApprovalUnavailable)) /\ outcome_ok (KeyOf (Err ErrApprovalUnavailable)).
Proof.
  assert (E : contended_run.2 = Some (KeyOf (Err ErrApprovalUnavailable))) by (vm_compute; reflexivity).
  split; [exact E|]. pose proof contended_performs as H. rewrite E in H.
  refine (proj1 (approval_errors_safe sample_provider CallReissue _ _ sample_valid H _)).
  vm_compute. repeat split; discriminate.
Defined.

(** A rejected key and a free lock: a new key is issued and published. *)
Definition reissue_run := sample_run "old" 82800000 true (Reissue sample_provider).
Lemma reissue_performs : performs (Reissue sample_provider) reissue_run.1.2 (Some (Ok "new")).
Proof. apply (run_performs (@sample_answer "old" 82800000 true) (Reissue sample_provider) 0). Qed.

Lemma Reissue_replaces_witness : f_published (facts_of reissue_run.1.2) = [("token", "new")] /\
  (issued_ok (facts_of reissue_run.1.2) "new" \/
   f_rejected (facts_of reissue_run.1.2) <> "" /\ "new" <> f_rejected (facts_of reissue_run.1.2) /\
     exists ttl, ("new", ttl) ∈ f_reads (facts_of reissue_run.1.2) /\ usable "new" ttl (margin sample_provider) = true).
Proof.
  split; [vm_compute; reflexivity|].
  exact (Reissue_replaces sample_provider reissue_run.1.2 "new" reissue_performs).
Defined.

(** A live key within its margin of the end, a free lock. *)
Definition key_run := sample_run "old" 60000 true (ApprovalKey sample_provider).
Lemma key_performs : performs (ApprovalKey sample_provider) key_run.1.2 (Some (Ok "new")).
Proof. apply (run_performs (@sample_answer "old" 60000 true) (ApprovalKey sample_provider) 0). Qed.

Lemma ApprovalKey_justified_witness :
  f_calls (facts_of key_run.1.2) = 1%nat /\
  (issued_ok (facts_of key_run.1.2) "new" \/ read_ok (facts_of key_run.1.2) (alive sample_provider) "new").
Proof.
  split; [vm_compute; reflexivity|].
  exact (ApprovalKey_justified sample_provider key_run.1.2 "new" sample_valid key_performs).
Defined.

(** Three turns of the refresh loop over the same Redis. *)
Definition refresh_run := sample_run "old" 60000 true (enter sample_provider (CallRefreshLoop 3)).
Lemma refresh_performs :
  performs (enter sample_provider (CallRefreshLoop 3)) refresh_run.1.2 (Some (TurnOf (Again refreshRetryMin))).
Proof. apply (run_performs (@sample_answer "old" 60000 true) (enter sample_provider (CallRefreshLoop 3)) 0). Qed.

Lemma locks_released_witness :
  length (f_granted (facts_of refresh_run.1.2)) = 3%nat /\
  f_granted (facts_of refresh_run.1.2) = f_released (facts_of refresh_run.1.2).
Proof.
  split; [vm_compute; reflexivity|].
  exact (proj1 (locks_released sample_provider (CallRefreshLoop 3) refresh_run.1.2 _ refresh_performs)).
Defined.

(** A cache-only provider told to reissue. *)
Definition passive_provider : provider := mkProvider ApprovalModeCacheOnly "mock" DefaultRefreshMargin.
Definition passive_run := sample_run "old" 60000 true (enter passive_provider CallReissue).
Lemma cache_only_passive_witness :
  passive_run.2 = Some (KeyOf (Err ErrCacheOnlyApprovalUnavailable)) /\ f_writes (facts_of passive_run.1.2) = 0%nat.
Proof.
  split; [vm_compute; reflexivity|].
  apply (cache_only_passive passive_provider CallReissue passive_run.1.2 (KeyOf (Err ErrCacheOnlyApprovalUnavailable)) eq_refl).
  apply (run_performs (@sample_answer "old" 60000 true) (enter passive_provider CallReissue) 0).
Defined.
