(* ===== verification/ApprovalLock.v ===== *)
(** [src/internal/reader/approval.go]: several providers over one Redis.

    The Lua scripts are written over the class [RedisKV]; a system is a clock,
    a Redis, the fields each provider's goroutines share, and threads that run
    the routines of [Approval], interleaved call by call.  Every command may
    fail before or after it took effect.  The theorem is the purpose of the
    lock: at most one REST request for a new key is in flight per account mode,
    and while it is, the lock is held with the requester's token. *)

From stdpp Require Import gmap.
From S2P Require Import Prelude GoStr KST Limits Prog Approval.
Local Open Scope Z_scope.

(** The commands the scripts use: the value and the remaining life of a key at
    a time, setting a key for a while, deleting it. *)
Class RedisKV (D : Type) := {
  rget : D -> Z -> string -> option string;
  rpttl : D -> Z -> string -> Z;
  rset : D -> Z -> string -> string -> Z -> D;
  rdel : D -> Z -> string -> D
}.
(** A key that was set is there until it expires; other keys are untouched. *)
Class RedisLaws (D : Type) `{RedisKV D} := {
  rget_set d t k v ttl t' : t <= t' < t + ttl -> rget (rset d t k v ttl) t' k = Some v;
  rget_set_ne d t k v ttl t' k' : k <> k' -> rget (rset d t k v ttl) t' k' = rget d t' k';
  rget_del_ne d t k t' k' : k <> k' -> rget (rdel d t k) t' k' = rget d t' k'
}.

Section system.
Context {D : Type} {kv : RedisKV D}.

(** [cachedScript]. *)
Definition cachedScript (d : D) (now : Z) (key : string) : list reply :=
  match rget d now key with
  | None => [RpNil; RpInt (-2)]
  | Some value => [RpString value; RpInt (rpttl d now key)]
  end.
Definition owns (d : D) (now : Z) (lock token : string) : bool := bool_decide (rget d now lock = Some token).
(** [publishScript]; a script's [nil] is go-redis's [redis.Nil]. *)
Definition publishScript (d : D) (now : Z) (lock cache token key : string) (seconds : Z)
  : D * result reply approval_error :=
  if owns d now lock token then (rset d now cache key (seconds * second_ns), Ok (RpString "OK"))
  else (d, Err ErrRedisNil).
(** [invalidateScript]. *)
Definition invalidateScript (d : D) (now : Z) (lock cache token : string) : D * result Z approval_error :=
  if owns d now lock token then (rdel d now cache, Ok 1) else (d, Err ErrRedisNil).
(** [releaseScript]. *)
Definition releaseScript (d : D) (now : Z) (lock token : string) : D :=
  if owns d now lock token then rdel d now lock else d.
(** SET NX with an expiry. *)
Definition set_nx (d : D) (now : Z) (key token : string) (ttl : Z) : D * bool :=
  match rget d now key with
  | Some _ => (d, false)
  | None => (rset d now key token ttl, true)
  end.

(** ** The system *)

(** The fields a provider's goroutines share, and its counters. *)
Record shared := mkShared {
  lastKey : string; knownUntil : Z; failureErr : option approval_error; metrics : list metric; transients : nat
}.
(** [failureOnce]. *)
Definition markFailure (f : shared) (e : approval_error) : shared :=
  mkShared (lastKey f) (knownUntil f)
    (match failureErr f with Some e => Some e | None => Some e end) (metrics f) (transients f).

Inductive activity : Type :=
| Idle
| Running (m : program outcome)
| Waiting (until : Z) (k : option approval_error -> program outcome)
| Issuing (deadline : Z) (k : result string approval_error -> program outcome).
Record thread := mkThread { owner : nat; activity_of : activity }.

Record system := mkSystem {
  clock : Z; redis : D; tokens : gset string; fields : nat -> shared; threads : gmap nat thread
}.

(** What the environment decides of a call: whether a command was executed and
    whether its answer arrived, the random draws, the context, the broker. *)
Inductive fate : Type := Answered | AnswerLost (e : approval_error) | NotSent (e : approval_error).
Record choice := mkChoice {
  ch_fate : fate; ch_token : result string approval_error; ch_random : Z; ch_ctx : option approval_error;
  ch_issued : result string approval_error
}.

Definition command {A} (d : D) (f : fate) (done : D * result A approval_error) : D * result A approval_error :=
  match f with
  | Answered => done
  | AnswerLost e => (done.1, Err e)
  | NotSent e => (d, Err e)
  end.

Definition with_redis (s : system) (d : D) : system := mkSystem (clock s) d (tokens s) (fields s) (threads s).
Definition with_fields (s : system) (pid : nat) (f : shared) : system :=
  mkSystem (clock s) (redis s) (tokens s) (fun i => if (i =? pid)%nat then f else fields s i) (threads s).

(** A call that does not block: the system after it and the answer; [None] is
    a choice the environment does not have. *)
Definition answer_op (s : system) (pid : nat) (ch : choice) {R : Set} (o : op R) : option (system * R) :=
  let now := clock s in
  let d := redis s in
  let f := fields s pid in
  match o in op R return option (system * R) with
  | ReadToken =>
      match ch_token ch with
      | Err e => Some (s, Err e)
      | Ok token =>
          if bool_decide (token ∈ tokens s) then None
          else Some (mkSystem now d ({[token]} ∪ tokens s) (fields s) (threads s), Ok token)
      end
  | Now => Some (s, now)
  | SetNX _ key token ttl =>
      let '(d, r) := command d (ch_fate ch) (let '(d, b) := set_nx d now key token ttl in (d, Ok b)) in
      Some (with_redis s d, r)
  | EvalCached _ key =>
      let '(d, r) := command d (ch_fate ch) (d, Ok (cachedScript d now key)) in Some (with_redis s d, r)
  | EvalInvalidate _ lock cache token =>
      let '(d, r) := command d (ch_fate ch) (invalidateScript d now lock cache token) in Some (with_redis s d, r)
  | EvalPublish _ lock cache token key seconds =>
      let '(d, r) := command d (ch_fate ch) (publishScript d now lock cache token key seconds) in
      Some (with_redis s d, r)
  | EvalRelease _ lock token =>
      let '(d, _) := command d (ch_fate ch) (releaseScript d now lock token, Ok tt) in Some (with_redis s d, tt)
  | CtxErr (Until deadline) | CtxErr (Background deadline) =>
      Some (s, if deadline <=? now then Some (default ErrDeadlineExceeded (ch_ctx ch)) else ch_ctx ch)
  | CtxErr Caller => Some (s, ch_ctx ch)
  | CtxDone => Some (s, tt)
  | Int64N n => if (0 <=? ch_random ch) && (ch_random ch <? n) then Some (s, ch_random ch) else None
  | Count m => Some (with_fields s pid (mkShared (lastKey f) (knownUntil f) (failureErr f) (m :: metrics f) (transients f)), tt)
  | GetLastKey => Some (s, lastKey f)
  | SetLastKey key =>
      Some (with_fields s pid (mkShared key (knownUntil f) (failureErr f) (metrics f) (transients f)), tt)
  | GetKnownUntil => Some (s, knownUntil f)
  | SetKnownUntil t =>
      Some (with_fields s pid (mkShared (lastKey f) t (failureErr f) (metrics f) (transients f)), tt)
  | MarkFailure e => Some (with_fields s pid (markFailure f e), tt)
  | OnTransient =>
      Some (with_fields s pid (mkShared (lastKey f) (knownUntil f) (failureErr f) (metrics f) (S (transients f))), tt)
  | OpWait _ _ | Issue _ => None
  end.

Definition set_activity (s : system) (i : nat) (t : thread) (a : activity) : system :=
  mkSystem (clock s) (redis s) (tokens s) (fields s) (<[i := mkThread (owner t) a]> (threads s)).

(** The actions: time passes, an idle thread makes a call, a thread goes on. *)
Inductive action : Type :=
| Tick (t : Z)
| Start (i : nat) (e : entry)
| Go (i : nat) (ch : choice).

(** Time does not pass beyond the deadline of a request in flight: the issuer
    honours its context. *)
Definition in_time (t : Z) (th : thread) : bool :=
  match activity_of th with Issuing deadline _ => t <=? deadline | _ => true end.
Definition may_tick (s : system) (t : Z) : bool :=
  (clock s <=? t) && bool_decide (map_Forall (fun _ th => in_time t th = true) (threads s)).

(** A thread's next call.  No thread gets to [OutOfFuel]
    ([Approval.approval_returns]), so it has no step. *)
Definition go_on (s : system) (i : nat) (th : thread) (ch : choice) {R : Set} (o : op R) (k : R -> program outcome)
  : option system :=
  match answer_op s (owner th) ch o with
  | Some (s, r) => Some (set_activity s i th (Running (k r)))
  | None => None
  end.
Definition go_call (s : system) (i : nat) (th : thread) (ch : choice) {R : Set} (o : op R)
  : (R -> program outcome) -> option system :=
  match o in op R return (R -> program outcome) -> option system with
  | OpWait _ d => fun k => Some (set_activity s i th (Waiting (clock s + d) k))
  | Issue deadline => fun k =>
      if clock s <? deadline then Some (set_activity s i th (Issuing deadline k))
      else
        match ch_issued ch with
        | Ok _ => None
        | Err e => Some (set_activity s i th (Running (k (Err e))))
        end
  | o => go_on s i th ch o
  end.

Definition go (s : system) (i : nat) (th : thread) (ch : choice) : option system :=
  match activity_of th with
  | Idle => None
  | Running (Return _) => Some (set_activity s i th Idle)
  | Running OutOfFuel => None
  | Running (Call o k) => go_call s i th ch o k
  | Waiting until k =>
      match ch_ctx ch with
      | Some e => Some (set_activity s i th (Running (k (Some e))))
      | None => if until <=? clock s then Some (set_activity s i th (Running (k None))) else None
      end
  | Issuing _ k => Some (set_activity s i th (Running (k (ch_issued ch))))
  end.

Definition exec (conf : nat -> provider) (s : system) (a : action) : option system :=
  match a with
  | Tick t => if may_tick s t then Some (mkSystem t (redis s) (tokens s) (fields s) (threads s)) else None
  | Start i e =>
      match threads s !! i with
      | Some th =>
          match activity_of th with
          | Idle => Some (set_activity s i th (Running (enter (conf (owner th)) e)))
          | _ => None
          end
      | None => None
      end
  | Go i ch => match threads s !! i with Some th => go s i th ch | None => None end
  end.
Fixpoint exec_all (conf : nat -> provider) (s : system) (acts : list action) : option system :=
  match acts with
  | [] => Some s
  | a :: acts => match exec conf s a with Some s => exec_all conf s acts | None => None end
  end.

(** The start: any Redis, any fields, threads that have made no call. *)
Definition initial (s : system) : Prop := map_Forall (fun _ th => activity_of th = Idle) (threads s).
Definition issuing (s : system) (i : nat) : Prop :=
  exists th d k, threads s !! i = Some th /\ activity_of th = Issuing d k.
Definition lock_of (conf : nat -> provider) (s : system) (i : nat) : option string :=
  (fun th => lockKey (conf (owner th))) <$> threads s !! i.
End system.
#[global] Arguments system : clear implicits.

(** ** The protocol of one thread *)

(** The latest clock reading, the token drawn last and, while the thread holds
    the lock, the reading from before it asked for it. *)
Record ghost := mkGhost { g_now : Z; g_token : option string; g_hold : option Z }.

Definition ghost_after (g : ghost) {R : Set} (o : op R) : R -> ghost :=
  match o in op R return R -> ghost with
  | Now => fun t => mkGhost t (g_token g) (g_hold g)
  | ReadToken => fun r =>
      match r with Ok token => mkGhost (g_now g) (Some token) (g_hold g) | Err _ => g end
  | SetNX _ _ _ _ => fun r => match r with Ok true => mkGhost (g_now g) (g_token g) (Some (g_now g)) | _ => g end
  | EvalRelease _ _ _ => fun _ => mkGhost (g_now g) (g_token g) None
  | _ => fun _ => g
  end.

(** Tokens are drawn and locks asked for without holding one; the scripts get
    the provider's own keys and the token drawn last; the broker is asked only
    while the lock is held, with a deadline fourteen seconds from the reading. *)
Definition lock_spec (p : provider) : spec op ghost := {|
  allowed g _ o :=
    match o with
    | ReadToken => g_hold g = None
    | SetNX _ key token ttl =>
        key = lockKey p /\ g_token g = Some token /\ ttl = ApprovalLockTTL /\ g_hold g = None
    | EvalInvalidate _ lock cache token | EvalPublish _ lock cache token _ _ =>
        lock = lockKey p /\ cache = cacheKey p /\ g_token g = Some token
    | EvalRelease _ lock token => lock = lockKey p /\ g_token g = Some token
    | Issue deadline => exists t0, g_hold g = Some t0 /\ deadline <= t0 + publishDeadline
    | _ => True
    end;
  answers g _ o := match o in op R return R -> Prop with Now => fun t => g_now g <= t | _ => fun _ => True end;
  update g e := match e with Event o r => ghost_after g o r end;
  may_run_out := True
|}.
Notation keeps p g m Q := (wp (lock_spec p) g m Q).

(** The calls that neither read the clock nor concern the lock. *)
Definition aside {R : Set} (o : op R) : bool :=
  match o with
  | EvalCached _ _ | CtxErr _ | CtxDone | OpWait _ _ | Int64N _ | Count _ | GetLastKey | SetLastKey _ | GetKnownUntil
  | SetKnownUntil _ | MarkFailure _ | OnTransient => true
  | _ => false
  end.

(** A routine that leaves the lock alone, whatever the ghost state. *)
Definition same_lock (g g' : ghost) : Prop := g_token g' = g_token g /\ g_hold g' = g_hold g.
Definition leaves_lock {A} (p : provider) (m : program A) : Prop :=
  forall g, keeps p g m (fun g' _ => same_lock g g').
#[export] Instance same_lock_preorder : PreOrder same_lock.
Proof. split; [by intros []|]. intros ? ? ? [] []. split; congruence. Qed.

Lemma leaves_ret {A} p (a : A) : leaves_lock p (mret a).
Proof. intros g. cbn. reflexivity. Qed.
Lemma leaves_bind {A B} p (m : program A) (f : A -> program B) :
  leaves_lock p m -> (forall a, leaves_lock p (f a)) -> leaves_lock p (m ≫= f).
Proof.
  intros Hm Hf g. eapply wp_use; [apply Hm|]. cbv beta. intros g' a Hg. eapply wp_mono; [|apply Hf].
  cbv beta. intros g'' b Hg'. by transitivity g'.
Qed.
Lemma leaves_now p : leaves_lock p (call Now).
Proof. intros g. split; [done|]. intros t _. cbn. by split. Qed.
Lemma leaves_aside {R : Set} p (o : op R) : aside o = true -> leaves_lock p (call o).
Proof. intros Ho g. split; [by destruct o|]. intros r _. cbn [wp update lock_spec]. by destruct o. Qed.

Create HintDb leaves.
#[export] Hint Resolve leaves_ret leaves_now : leaves.
Ltac leaves_auto :=
  repeat lazymatch goal with
  | |- leaves_lock _ (_ ≫= _) => apply leaves_bind; [|intros ?]
  | |- leaves_lock _ (call Now) => apply leaves_now
  | |- leaves_lock _ (call _) => by apply leaves_aside
  | |- leaves_lock _ (if ?b then _ else _) => destruct b
  | |- leaves_lock _ (match ?x with _ => _ end) => destruct x
  | |- leaves_lock _ (mret _) => apply leaves_ret
  | |- leaves_lock _ OutOfFuel => done
  | |- leaves_lock _ _ => solve [auto with leaves]
  end.

Lemma leaves_cached p c : leaves_lock p (cached p c).
Proof. unfold cached. leaves_auto. Qed.
Lemma leaves_noteLive p ttl : leaves_lock p (noteLive ttl).
Proof. unfold noteLive. leaves_auto. Qed.
#[export] Hint Resolve leaves_cached leaves_noteLive : leaves.
Lemma leaves_wait_loop n p c dl force rej : leaves_lock p (wait_loop n p c dl force rej).
Proof. induction n as [|n IH]; cbn [wait_loop]; unfold wait_error; leaves_auto. Qed.
#[export] Hint Resolve leaves_wait_loop : leaves.
Lemma leaves_contended p force rej : leaves_lock p (contended p force rej).
Proof. unfold contended. leaves_auto. Qed.

(** While the lock is held since [t0] with [token]. *)
Definition held (t0 : Z) (token : string) (g : ghost) : Prop := g_hold g = Some t0 /\ g_token g = Some token.
Definition in_lock {A} (p : provider) (t0 : Z) (token : string) (m : program A) : Prop :=
  forall g, held t0 token g -> keeps p g m (fun g' _ => held t0 token g').
Lemma in_lock_bind {A B} p t0 token (m : program A) (f : A -> program B) :
  in_lock p t0 token m -> (forall a, in_lock p t0 token (f a)) -> in_lock p t0 token (m ≫= f).
Proof. intros Hm Hf g Hg. eapply wp_use; [by apply Hm|]. cbv beta. intros g' a Hg'. by apply Hf. Qed.
Lemma in_lock_leaves {A} p t0 token (m : program A) : leaves_lock p m -> in_lock p t0 token m.
Proof. intros Hm g [H1 H2]. eapply wp_mono; [|apply Hm]. cbv beta. intros g' a [E1 E2]. by split; congruence. Qed.

Lemma in_lock_publish p t0 token c issued : in_lock p t0 token (publish p c token issued).
Proof.
  unfold publish. apply in_lock_bind; [|intros r; apply in_lock_leaves; leaves_auto].
  intros g [H1 H2]. split; [done|]. intros r _. done.
Qed.
Lemma in_lock_issue p t0 token : in_lock p t0 token (issue p (t0 + publishDeadline) token).
Proof.
  unfold issue. do 2 (apply in_lock_bind; [apply in_lock_leaves; leaves_auto|intros ?]). apply in_lock_bind.
  - intros g [H1 H2]. split; [exists t0; split; [done|lia]|]. intros r _. done.
  - intros [issued|e]; [|apply in_lock_leaves; leaves_auto]. destruct (_ =s _); [apply in_lock_leaves; leaves_auto|].
    apply in_lock_bind; [apply in_lock_leaves; leaves_auto|]. intros []; [apply in_lock_leaves; leaves_auto|apply in_lock_publish].
Qed.
Lemma in_lock_locked p t0 token force rej : in_lock p t0 token (locked p (t0 + publishDeadline) token force rej).
Proof.
  unfold locked. apply in_lock_bind; [apply in_lock_leaves; leaves_auto|].
  intros [[key ttl]|e]; [|apply in_lock_leaves; leaves_auto].
  destruct (acceptable p force rej key ttl); [apply in_lock_leaves; leaves_auto|]. destruct force; [|apply in_lock_issue].
  apply in_lock_bind.
  - intros g [H1 H2]. split; [done|]. intros r _. done.
  - intros [n|e]; [|apply in_lock_leaves; leaves_auto]. destruct (n =? 0); [apply in_lock_leaves; leaves_auto|apply in_lock_issue].
Qed.

(** A routine that starts and ends without the lock. *)
Definition unlocked {A} (p : provider) (m : program A) : Prop :=
  forall g, g_hold g = None -> keeps p g m (fun g' _ => g_hold g' = None).
Lemma unlocked_bind {A B} p (m : program A) (f : A -> program B) :
  unlocked p m -> (forall a, unlocked p (f a)) -> unlocked p (m ≫= f).
Proof. intros Hm Hf g Hg. eapply wp_use; [by apply Hm|]. cbv beta. intros g' a Hg'. by apply Hf. Qed.
Lemma unlocked_leaves {A} p (m : program A) : leaves_lock p m -> unlocked p m.
Proof. intros Hm g Hg. eapply wp_mono; [|apply Hm]. cbv beta. intros g' a [_ E]. congruence. Qed.

Lemma unlocked_singleFlight p force rej : unlocked p (singleFlight p force rej).
Proof.
  intros g Hg. unfold singleFlight. apply wp_call; [done|]. intros [token|e] _; [|done].
  apply wp_call; [done|]. intros t0 _. cbn [update lock_spec ghost_after g_now g_token g_hold].
  apply wp_call; [by rewrite Hg|]. intros [[]|e] _; cbn [update lock_spec ghost_after g_now g_token g_hold]; [| |done].
  - apply wp_call; [done|]. intros u _. cbn [update lock_spec ghost_after].
    eapply wp_use; [by apply in_lock_locked|]. cbv beta. intros g' r [H1 H2]. unfold release.
    apply wp_bind, wp_call; [done|]. intros now _. split; [done|]. intros u' _. done.
  - by apply (unlocked_leaves p _ (leaves_contended p force rej)).
Qed.

Ltac unlocked_auto := apply unlocked_leaves; unfold terminal_key, terminal, present, recoverableFailure; leaves_auto.

Lemma unlocked_enter p e : unlocked p (enter p e).
Proof.
  assert (Hreuse : forall e, leaves_lock p (reuse_old p e)).
  { intros e'. unfold reuse_old, terminal_key, terminal, present, recoverableFailure. leaves_auto. }
  assert (Hback : forall retry, leaves_lock p (refresh_backoff retry)).
  { intros retry. unfold refresh_backoff, recoverableFailure, refreshRetryDelay, refresh_wait, terminal. leaves_auto. }
  assert (Hfail : forall e retry, leaves_lock p (refresh_failed p e retry)).
  { intros e' retry. unfold refresh_failed, knownLive, terminal. leaves_auto; apply Hback. }
  assert (Hend : forall {A B} (m : program A) (f : A -> B), unlocked p m -> unlocked p (r ← m; mret (f r))).
  { intros A B m f Hm. apply unlocked_bind; [done|]. intros r. unlocked_auto. }
  destruct e as [| |n]; cbn [enter]; apply Hend.
  - unfold ApprovalKey. apply unlocked_bind; [unlocked_auto|]. intros r. destruct (mode p =s _); [unlocked_auto|].
    destruct r as [[key ttl]|e]; [|unlocked_auto]. destruct (usable key ttl (margin p)); [unlocked_auto|].
    apply unlocked_bind; [unlocked_auto|intros _]. apply unlocked_bind; [apply unlocked_singleFlight|].
    intros [issued|e]; [unlocked_auto|apply unlocked_leaves, Hreuse].
  - unfold Reissue. destruct (mode p =s _); [unlocked_auto|]. apply unlocked_bind; [unlocked_auto|intros rej].
    apply unlocked_bind; [apply unlocked_singleFlight|]. intros []; unlocked_auto.
  - unfold RefreshLoop. destruct (mode p =s _); [unlocked_auto|]. generalize refreshRetryMin.
    induction n as [|n IH]; intros retry; cbn [refresh_turns]; [unlocked_auto|].
    apply unlocked_bind; [|intros []; [unlocked_auto|apply IH]].
    unfold refresh_turn_body. apply unlocked_bind; [unlocked_auto|]. intros [over|]; [unlocked_auto|].
    apply unlocked_bind; [unlocked_auto|]. intros [[key ttl]|e].
    + apply unlocked_bind; [unlocked_auto|intros _]. destruct (negb _).
      * apply unlocked_bind; [apply unlocked_singleFlight|]. intros [|e]; [unlocked_auto|apply unlocked_leaves, Hfail].
      * unfold refresh_wait. unlocked_auto.
    + apply unlocked_leaves. unfold knownLive, terminal. leaves_auto; apply Hback.
Qed.

(** ** The invariant of the system *)

Section safety.
Context {D : Type} {kv : RedisKV D} {laws : RedisLaws D}.
Variable conf : nat -> provider.
Implicit Types (s : system D) (d : D).

(** The lock is [token]'s from now until [e], whatever the clock shows. *)
Definition claim d (now e : Z) (lock token : string) : Prop :=
  forall t, now <= t < e -> rget d t lock = Some token.

Definition thread_ok (now : Z) (g : ghost) (th : thread) : Prop :=
  let p := conf (owner th) in
  let done (m : program outcome) := keeps p g m (fun g' _ => g_hold g' = None) in
  match activity_of th with
  | Idle => g_hold g = None
  | Running m => done m
  | Waiting _ k => forall r, done (k r)
  | Issuing deadline k =>
      (exists t0, g_hold g = Some t0 /\ deadline <= t0 + publishDeadline) /\ now <= deadline /\ forall r, done (k r)
  end.

Definition hold_ok d (now : Z) (g : ghost) (th : thread) : Prop :=
  forall t0, g_hold g = Some t0 -> exists token e,
    g_token g = Some token /\ t0 + ApprovalLockTTL <= e /\ claim d now e (lockKey (conf (owner th))) token.

Record inv s (G : nat -> ghost) : Prop := {
  inv_thread : forall i th, threads s !! i = Some th -> thread_ok (clock s) (G i) th;
  inv_now : forall i, g_now (G i) <= clock s;
  inv_token : forall i token, g_token (G i) = Some token -> token ∈ tokens s;
  inv_distinct : forall i j token, g_token (G i) = Some token -> g_token (G j) = Some token -> i = j;
  inv_hold : forall i th, threads s !! i = Some th -> hold_ok (redis s) (clock s) (G i) th
}.

(** A command of one thread leaves the locks of the others alone. *)
Definition respects d d' (now : Z) (token : string) : Prop :=
  forall p e other, other <> token -> claim d now e (lockKey p) other -> claim d' now e (lockKey p) other.

Lemma lock_not_cache p q : lockKey p <> cacheKey q.
Proof. unfold lockKey, cacheKey. destruct (accountMode p =s _), (accountMode q =s _); vm_compute; discriminate. Qed.

Lemma respects_refl d now token : respects d d now token.
Proof. by intros p e other _. Qed.
Lemma respects_cache_set d now p v ttl t token : respects d (rset d t (cacheKey p) v ttl) now token.
Proof using laws. intros q e other _ H t' Ht'. rewrite rget_set_ne; [by apply H|]. apply not_eq_sym, lock_not_cache. Qed.
Lemma respects_cache_del d now p t token : respects d (rdel d t (cacheKey p)) now token.
Proof using laws. intros q e other _ H t' Ht'. rewrite rget_del_ne; [by apply H|]. apply not_eq_sym, lock_not_cache. Qed.
Lemma respects_release d now p token : respects d (releaseScript d now (lockKey p) token) now token.
Proof using laws.
  intros q e other Hne H t' Ht'. unfold releaseScript, owns. case_bool_decide as Ho; [|by apply H].
  destruct (decide (lockKey p = lockKey q)) as [E|E]; [|rewrite rget_del_ne by done; by apply H].
  rewrite E, (H now) in Ho by lia. congruence.
Qed.
Lemma respects_set_nx d now p token ttl : respects d (set_nx d now (lockKey p) token ttl).1 now token.
Proof using laws.
  intros q e other Hne H t' Ht'. unfold set_nx. destruct (rget d now (lockKey p)) eqn:Eg; [by apply H|]. cbn [fst].
  destruct (decide (lockKey p = lockKey q)) as [E|E]; [|rewrite rget_set_ne by done; by apply H].
  rewrite E, (H now) in Eg by lia. done.
Qed.
(** ** One call *)

(** What a call may do to the system, seen from the other threads. *)
Record call_ok s s' (g : ghost) : Prop := {
  co_clock : clock s' = clock s;
  co_threads : threads s' = threads s;
  co_tokens : tokens s ⊆ tokens s';
  co_redis : redis s' = redis s \/ exists token, g_token g = Some token /\ respects (redis s) (redis s') (clock s) token
}.

(** The ghost state after a call of its thread: the token is the old one or a
    fresh one, and a hold was justified. *)
Record ghost_ok s s' (g g' : ghost) (th : thread) : Prop := {
  go_now : g_now g' <= clock s;
  go_token : g_token g' = g_token g \/ exists token, g_token g' = Some token /\ token ∉ tokens s /\ token ∈ tokens s';
  go_hold : hold_ok (redis s') (clock s) g' th
}.

Lemma inv_step s s' G i th a g' :
  inv s G -> threads s !! i = Some th -> call_ok s s' (G i) -> ghost_ok s s' (G i) g' th ->
  thread_ok (clock s) g' (mkThread (owner th) a) ->
  inv (set_activity s' i th a) (fun j => if decide (j = i) then g' else G j).
Proof using Type.
  intros [I1 I2 I3 I4 I5] Hi [C1 C2 C3 C4] [G1 G2 G3] Ht. unfold set_activity. split; cbn [threads clock redis tokens].
  - rewrite C2, C1. intros j th'. destruct (decide (j = i)) as [->|Hj].
    + rewrite lookup_insert_eq. intros [= <-]. done.
    + rewrite lookup_insert_ne by done. apply I1.
  - rewrite C1. intros j. destruct (decide (j = i)); [done|apply I2].
  - intros j token. destruct (decide (j = i)) as [->|]; [|intros H; by apply C3, (I3 j)].
    destruct G2 as [->|(t & -> & _ & Hin)]; [intros H; by apply C3, (I3 i)|]. by intros [= <-].
  - intros j k token. destruct (decide (j = i)) as [->|Hj], (decide (k = i)) as [->|Hk]; [done| | |apply I4].
    + destruct G2 as [->|(t & -> & Hn & _)]; [apply I4|]. intros [= ->] Hk'%I3. done.
    + destruct G2 as [->|(t & -> & Hn & _)]; [apply I4|]. intros Hk'%I3 [= ->]. done.
  - rewrite C2, C1. intros j th'. destruct (decide (j = i)) as [->|Hj].
    + rewrite lookup_insert_eq. intros [= <-]. done.
    + rewrite lookup_insert_ne by done. intros Hth t0 Hh. destruct (I5 _ _ Hth _ Hh) as (token & e & E1 & E2 & E3).
      exists token, e. split; [done|]. split; [done|]. destruct C4 as [->|(tok & Etok & Hr)]; [done|].
      apply (Hr _ _ token); [|done]. intros ->. by destruct (I4 _ _ _ E1 Etok).
Qed.
(** Commands on cache keys keep every lock, the caller's included. *)
Definition keeps_locks d d' : Prop :=
  forall p now e token, claim d now e (lockKey p) token -> claim d' now e (lockKey p) token.
Lemma keeps_locks_set d t p v ttl : keeps_locks d (rset d t (cacheKey p) v ttl).
Proof using laws. intros q now e token H t' Ht'. rewrite rget_set_ne; [by apply H|]. apply not_eq_sym, lock_not_cache. Qed.
Lemma keeps_locks_del d t p : keeps_locks d (rdel d t (cacheKey p)).
Proof using laws. intros q now e token H t' Ht'. rewrite rget_del_ne; [by apply H|]. apply not_eq_sym, lock_not_cache. Qed.

Lemma command_keeps {A} d f (x : D * result A approval_error) :
  keeps_locks d x.1 -> keeps_locks d (command d f x).1.
Proof using Type. intros H. destruct f; cbn; try done. by intros q. Qed.

Lemma inv_ghost s G i th :
  inv s G -> threads s !! i = Some th -> ghost_ok s s (G i) (G i) th.
Proof using Type. intros [I1 I2 I3 I4 I5] Hi. split; [apply I2|by left|by apply I5]. Qed.

Lemma call_ok_same s f g : call_ok s (mkSystem (clock s) (redis s) (tokens s) f (threads s)) g.
Proof using Type. split; try done. by left. Qed.

(** A command that keeps every lock. *)
Lemma answer_keeps s G i th d' token :
  inv s G -> threads s !! i = Some th -> keeps_locks (redis s) d' -> g_token (G i) = Some token ->
  call_ok s (with_redis s d') (G i) /\ ghost_ok s (with_redis s d') (G i) (G i) th.
Proof using Type.
  intros HI Hi Hk Ht. split; split; cbn; try done.
  - right. exists token. split; [done|]. intros p e other _. apply Hk.
  - apply HI.
  - by left.
  - intros t0 Hh. destruct (inv_hold _ _ HI _ _ Hi _ Hh) as (tok & e & E1 & E2 & E3). exists tok, e. auto.
Qed.

(** A command that keeps the other threads' locks, after which the thread
    holds none. *)
Lemma answer_unheld s G i th d' token g' :
  inv s G -> threads s !! i = Some th -> respects (redis s) d' (clock s) token -> g_token (G i) = Some token ->
  g_hold g' = None -> g_token g' = Some token -> g_now g' = g_now (G i) ->
  call_ok s (with_redis s d') (G i) /\ ghost_ok s (with_redis s d') (G i) g' th.
Proof using Type.
  intros HI Hi Hr Ht Hh Ht' Hn. split; split; cbn; try done.
  - right. by exists token.
  - rewrite Hn. apply HI.
  - left. congruence.
  - intros t0. by rewrite Hh.
Qed.

Lemma answer_set_nx s G i th c token ch d' r :
  inv s G -> threads s !! i = Some th -> g_token (G i) = Some token -> g_hold (G i) = None ->
  command (redis s) (ch_fate ch)
    (let '(d, b) := set_nx (redis s) (clock s) (lockKey (conf (owner th))) token ApprovalLockTTL in (d, Ok b)) = (d', r) ->
  call_ok s (with_redis s d') (G i) /\
  ghost_ok s (with_redis s d') (G i)
    (ghost_after (G i) (SetNX c (lockKey (conf (owner th))) token ApprovalLockTTL) r) th.
Proof using laws.
  intros HI Hi Ht Hh Hc. set (lk := lockKey (conf (owner th))) in *.
  assert (Hr : respects (redis s) d' (clock s) token).
  { pose proof (respects_set_nx (redis s) (clock s) (conf (owner th)) token ApprovalLockTTL) as H. fold lk in H.
    destruct (set_nx _ _ _ _ _) as [d2 b]. cbn [fst] in H.
    destruct (ch_fate ch); cbn in Hc; injection Hc as <- _; try done. apply respects_refl. }
  assert (Hplain : ghost_after (G i) (SetNX c lk token ApprovalLockTTL) r = G i ->
    call_ok s (with_redis s d') (G i) /\
    ghost_ok s (with_redis s d') (G i) (ghost_after (G i) (SetNX c lk token ApprovalLockTTL) r) th).
  { intros ->. by apply (answer_unheld s G i th d' token). }
  destruct r as [[]|e]; [|by apply Hplain..]. clear Hplain. split; [split; try done; right; by exists token|].
  split; cbn [ghost_after g_now g_token g_hold redis with_redis]; [apply HI|by left|].
  intros t0 [= <-]. exists token, (clock s + ApprovalLockTTL). split; [done|].
  split; [pose proof (inv_now _ _ HI i); lia|]. unfold set_nx in Hc. destruct (rget (redis s) (clock s) lk).
  - destruct (ch_fate ch); cbn in Hc; congruence.
  - destruct (ch_fate ch); cbn in Hc; try congruence. injection Hc as <-. intros t Hlt. by apply rget_set.
Qed.
(** A call that touches neither Redis nor the tokens. *)
Lemma answer_plain s s' G i th :
  inv s G -> threads s !! i = Some th ->
  clock s' = clock s -> threads s' = threads s -> tokens s' = tokens s -> redis s' = redis s ->
  call_ok s s' (G i) /\ ghost_ok s s' (G i) (G i) th.
Proof using Type.
  intros HI Hi E1 E2 E3 E4. split; split; try done; [by rewrite E3|by left|apply HI|by left|].
  rewrite E4. by apply HI.
Qed.

Lemma answer_token s s' G i th ch r :
  inv s G -> threads s !! i = Some th -> g_hold (G i) = None -> answer_op s (owner th) ch ReadToken = Some (s', r) ->
  call_ok s s' (G i) /\ ghost_ok s s' (G i) (ghost_after (G i) ReadToken r) th.
Proof using laws.
  intros HI Hi Ho Ha. cbn [answer_op] in Ha. destruct (ch_token ch) as [token|e].
  - case_bool_decide as Hn; [done|]. injection Ha as <- <-. split.
    + split; cbn; try done; [by apply union_subseteq_r|by left].
    + split; cbn [ghost_after g_now g_token g_hold];
        [apply HI|right; exists token; split; [done|]; split; [done|]; cbn; set_solver|].
      intros t0. cbn. by rewrite Ho.
  - injection Ha as <- <-. by apply answer_plain.
Qed.

(** A script that writes the cache, if anything. *)
Lemma answer_script {A} s G i th ch token (x : D * result A approval_error) d' r :
  inv s G -> threads s !! i = Some th -> g_token (G i) = Some token -> keeps_locks (redis s) x.1 ->
  command (redis s) (ch_fate ch) x = (d', r) ->
  call_ok s (with_redis s d') (G i) /\ ghost_ok s (with_redis s d') (G i) (G i) th.
Proof using Type.
  intros HI Hi Ht Hk Hc. apply (answer_keeps s G i th d' token); [done..| |done].
  replace d' with (command (redis s) (ch_fate ch) x).1 by by rewrite Hc. by apply command_keeps.
Qed.

Ltac plain_call Ha := injection Ha as <- <-; split; [done|]; by apply answer_plain.

Lemma answer_facts s s' G i th ch {R : Set} (o : op R) r :
  inv s G -> threads s !! i = Some th -> allowed (lock_spec (conf (owner th))) (G i) o ->
  answer_op s (owner th) ch o = Some (s', r) ->
  answers (lock_spec (conf (owner th))) (G i) o r /\ call_ok s s' (G i) /\ ghost_ok s s' (G i) (ghost_after (G i) o r) th.
Proof using laws.
  intros HI Hi Ho Ha.
  destruct o; cbn [allowed lock_spec answers] in *; [split; [done|by apply answer_token with (ch := ch)]|..];
    cbn [answer_op ghost_after] in *; try plain_call Ha; try done.
  - injection Ha as <- <-. split; [exact (inv_now _ _ HI i)|]. destruct (answer_plain s s G i th HI Hi) as [Hc [_ _ H3]]; try done.
    split; [done|]. split; [done|by left|done].
  - destruct Ho as (-> & Ht & -> & Hh). destruct (command _ _ _) as [d' r'] eqn:Ec. injection Ha as <- <-.
    split; [done|]. by apply (answer_set_nx s G i th c token ch).
  - destruct (command _ _ _) as [d' r'] eqn:Ec. injection Ha as <- <-. split; [done|].
    apply answer_plain; try done. destruct (ch_fate ch); cbn in Ec |- *; congruence.
  - destruct Ho as (-> & -> & Ht). destruct (command _ _ _) as [d' r'] eqn:Ec. injection Ha as <- <-.
    split; [done|]. apply (answer_script _ _ _ _ _ _ _ _ _ HI Hi Ht) with (2 := Ec).
    unfold invalidateScript. destruct (owns _ _ _ _); [apply keeps_locks_del|by intros q].
  - destruct Ho as (-> & -> & Ht). destruct (command _ _ _) as [d' r'] eqn:Ec. injection Ha as <- <-.
    split; [done|]. apply (answer_script _ _ _ _ _ _ _ _ _ HI Hi Ht) with (2 := Ec).
    unfold publishScript. destruct (owns _ _ _ _); [apply keeps_locks_set|by intros q].
  - destruct Ho as (-> & Ht). destruct (command _ _ _) as [d' r'] eqn:Ec. injection Ha as <- <-.
    split; [done|]. apply answer_unheld with (token := token); try done.
    pose proof (respects_release (redis s) (clock s) (conf (owner th)) token).
    destruct (ch_fate ch); cbn in Ec; injection Ec as <- _; try done. apply respects_refl.
  - destruct c; plain_call Ha.
  - split_if in Ha; [|done]. plain_call Ha.
Qed.
(** ** Every action *)

(** A step that changes only what thread [i] does, not its ghost state. *)
Lemma inv_activity s G i th a :
  inv s G -> threads s !! i = Some th -> thread_ok (clock s) (G i) (mkThread (owner th) a) ->
  exists G', inv (set_activity s i th a) G'.
Proof using Type.
  intros HI Hi Ht. destruct (answer_plain s s G i th HI Hi) as [Hc Hg]; try done.
  eexists. by eapply inv_step.
Qed.

Lemma inv_tick s G t : inv s G -> may_tick s t = true ->
  inv (mkSystem t (redis s) (tokens s) (fields s) (threads s)) G.
Proof using Type.
  intros HI Ht. unfold may_tick in Ht. bool_simpl.
  match goal with H : bool_decide _ = true |- _ => apply bool_decide_eq_true in H; rename H into Hm end.
  destruct HI as [I1 I2 I3 I4 I5]. split; cbn [clock redis tokens threads]; try done.
  - intros i th Hi. specialize (I1 _ _ Hi). specialize (Hm _ _ Hi). unfold in_time in Hm. unfold thread_ok in *.
    destruct (activity_of th); try done. destruct I1 as (H1 & H2 & H3). bool_simpl. split; [done|]. split; [lia|done].
  - intros i. specialize (I2 i). lia.
  - intros i th Hi t0 Hh. destruct (I5 _ _ Hi _ Hh) as (token & e & E1 & E2 & E3). exists token, e.
    split; [done|]. split; [done|]. intros t' Ht'. apply E3. lia.
Qed.

Lemma inv_call s s' G i th ch {R : Set} (o : op R) k :
  inv s G -> threads s !! i = Some th -> thread_ok (clock s) (G i) (mkThread (owner th) (Running (Call o k))) ->
  go_call s i th ch o k = Some s' -> exists G', inv s' G'.
Proof using laws.
  intros HI Hi [Ho Hk] Hg. cbn [owner] in Ho, Hk.
  assert (Hon : go_on s i th ch o k = Some s' -> exists G', inv s' G').
  { unfold go_on. destruct (answer_op s (owner th) ch o) as [[s1 r]|] eqn:Ea; [|done]. intros [= <-].
    destruct (answer_facts s s1 G i th ch o r HI Hi Ho Ea) as (Hr & Hc & Hgo).
    eexists. eapply inv_step; [done..|]. unfold thread_ok. cbn [activity_of owner]. by apply Hk. }
  destruct o; cbn [go_call] in Hg; try by apply Hon.
  - split_if in Hg.
    + injection Hg as <-. apply (inv_activity s G i th _ HI Hi). split; [exact Ho|]. split; [lia|]. intros r. by apply (Hk r).
    + destruct (ch_issued ch) as [|e]; [done|]. injection Hg as <-. apply (inv_activity s G i th _ HI Hi).
      by apply (Hk (Err e)).
  - injection Hg as <-. apply (inv_activity s G i th _ HI Hi). intros r. by apply (Hk r).
Qed.

Lemma inv_exec s s' G a : inv s G -> exec conf s a = Some s' -> exists G', inv s' G'.
Proof using laws.
  intros HI Ha. destruct a as [t|i e|i ch]; cbn [exec] in Ha.
  - split_if in Ha; [|done]. injection Ha as <-. exists G. by apply inv_tick.
  - destruct (threads s !! i) as [th|] eqn:Hi; [|done]. pose proof (inv_thread _ _ HI _ _ Hi) as Ht.
    unfold thread_ok in Ht. destruct (activity_of th); try done. injection Ha as <-.
    apply (inv_activity s G i th _ HI Hi). by apply unlocked_enter.
  - destruct (threads s !! i) as [th|] eqn:Hi; [|done]. pose proof (inv_thread _ _ HI _ _ Hi) as Ht.
    unfold thread_ok in Ht. unfold go in Ha. destruct (activity_of th) as [|[a|R o k|]|until k|deadline k] eqn:Eact; [done| | |done| |].
    + injection Ha as <-. by apply (inv_activity s G i th _ HI Hi).
    + apply (inv_call s s' G i th ch o k HI Hi); [exact Ht|exact Ha].
    + destruct (ch_ctx ch) as [e|].
      * injection Ha as <-. apply (inv_activity s G i th _ HI Hi). apply (Ht (Some e)).
      * split_if in Ha; [|done]. injection Ha as <-. apply (inv_activity s G i th _ HI Hi). apply (Ht None).
    + injection Ha as <-. apply (inv_activity s G i th _ HI Hi). apply Ht.
Qed.
Lemma inv_exec_all s s' acts : (exists G, inv s G) -> exec_all conf s acts = Some s' -> exists G, inv s' G.
Proof using laws.
  revert s. induction acts as [|a acts IH]; intros s [G HI] Ha; cbn [exec_all] in Ha; [injection Ha as <-; by exists G|].
  destruct (exec conf s a) as [s1|] eqn:E; [|done]. apply (IH s1); [|done]. by eapply inv_exec.
Qed.

Lemma inv_initial s : initial s -> exists G, inv s G.
Proof using Type.
  intros Hs. exists (fun _ => mkGhost (clock s) None None). split; cbn; try done.
  intros i th Hi. unfold thread_ok. by rewrite (Hs i th Hi).
Qed.

(** A thread that asks the broker holds its provider's lock. *)
Lemma issuing_holds s G i : inv s G -> issuing s i ->
  exists th token, threads s !! i = Some th /\ g_token (G i) = Some token /\
    rget (redis s) (clock s) (lockKey (conf (owner th))) = Some token.
Proof using Type.
  intros HI (th & d & k & Hi & Ha). pose proof (inv_thread _ _ HI _ _ Hi) as Ht. unfold thread_ok in Ht.
  rewrite Ha in Ht. destruct Ht as ((t0 & Hh & Hd) & Hn & _).
  destruct (inv_hold _ _ HI _ _ Hi _ Hh) as (token & e & E1 & E2 & E3). exists th, token. split; [done|]. split; [done|].
  apply E3. unfold publishDeadline, ApprovalLockTTL, second_ns in *. lia.
Qed.

(** C7: However the threads of however many providers are interleaved, and
    whichever commands fail before or after they took effect, at most one
    request for a new key is in flight per account mode, and the lock in Redis
    is held while it is. *)
Theorem one_issue_in_flight s0 s acts i j :
  initial s0 -> exec_all conf s0 acts = Some s -> issuing s i -> issuing s j ->
  lock_of conf s i = lock_of conf s j ->
  i = j /\ exists key token, lock_of conf s i = Some key /\ rget (redis s) (clock s) key = Some token.
Proof using laws.
  intros H0 Ha Hi Hj Hl. destruct (inv_exec_all _ _ _ (inv_initial _ H0) Ha) as [G HI].
  destruct (issuing_holds _ _ _ HI Hi) as (th & token & E1 & E2 & E3).
  destruct (issuing_holds _ _ _ HI Hj) as (th' & token' & E1' & E2' & E3').
  unfold lock_of in Hl. rewrite E1, E1' in Hl. injection Hl as Hl. rewrite Hl in E3.
  assert (token = token') as -> by congruence. split; [by eapply (inv_distinct _ _ HI)|].
  exists (lockKey (conf (owner th'))), token'. unfold lock_of. rewrite E1. cbn. by rewrite Hl.
Qed.
End safety.

(** ** A concrete system *)

(** Redis as a map from keys to a value and the time it expires at. *)
#[local] Instance map_kv : RedisKV (gmap string (string * Z)) := {|
  rget d now key := '(v, e) ← d !! key; if now <? e then Some v else None;
  rpttl d now key := match d !! key with Some (_, e) => Z.quot (e - now) millisecond_ns | None => -2 end;
  rset d now key v ttl := <[key := (v, now + ttl)]> d;
  rdel d now key := delete key d
|}.
#[local] Instance map_laws : RedisLaws (gmap string (string * Z)).
Proof.
  split; cbn.
  - intros d t k v ttl t' Ht. rewrite lookup_insert_eq. cbn. destruct (Z.ltb_spec t' (t + ttl)); [done|lia].
  - intros d t k v ttl t' k' Hk. by rewrite lookup_insert_ne.
  - intros d t k t' k' Hk. by rewrite lookup_delete_ne.
Qed.

Definition sample_choice (token : string) : choice := mkChoice Answered (Ok token) 0 None (Ok "key").
Definition sample_start : system (gmap string (string * Z)) :=
  mkSystem 1000 ∅ ∅ (fun _ => mkShared "" 0 None [] 0) {[0%nat := mkThread 0 Idle; 1%nat := mkThread 1 Idle]}.
(** Two providers ask for a key: the first gets the lock and asks the broker,
    the second finds the lock taken and waits. *)
Definition sample_actions : list action :=
  [Start 0 CallApprovalKey; Start 1 CallApprovalKey] ++
  replicate 9 (Go 0 (sample_choice "a")) ++ replicate 11 (Go 1 (sample_choice "b")).
Definition sample_end : option (system (gmap string (string * Z))) :=
  exec_all (fun _ => sample_provider) sample_start sample_actions.

Definition issuing_b {D} (s : system D) (i : nat) : bool :=
  match activity_of <$> threads s !! i with Some (Issuing _ _) => true | _ => false end.
Lemma issuing_b_issuing {D} (s : system D) i : issuing_b s i = true -> issuing s i.
Proof.
  unfold issuing_b, issuing. destruct (threads s !! i) as [th|]; [|done]. cbn.
  destruct (activity_of th) eqn:E; try done. intros _. eauto.
Qed.
Definition waiting_b {D} (s : system D) (i : nat) : bool :=
  match activity_of <$> threads s !! i with Some (Waiting _ _) => true | _ => false end.

Lemma sample_initial : initial sample_start.
Proof.
  unfold initial. intros i th. cbn. rewrite lookup_insert_Some, lookup_singleton_Some.
  by intros [[_ <-]|[_ [_ <-]]].
Qed.

Lemma one_issue_in_flight_witness :
  match sample_end with
  | Some s => waiting_b s 1 = true /\
      exists key token, lock_of (fun _ => sample_provider) s 0 = Some key /\ rget (redis s) (clock s) key = Some token
  | None => False
  end.
Proof.
  assert (E : match sample_end with Some s => issuing_b s 0 && waiting_b s 1 | None => false end = true)
    by (vm_compute; reflexivity).
  destruct sample_end as [s|] eqn:Es; [|discriminate E]. apply andb_true_iff in E as [E0 E1]. split; [exact E1|].
  exact (proj2 (one_issue_in_flight (fun _ => sample_provider) sample_start s sample_actions 0 0 sample_initial Es
    (issuing_b_issuing s 0 E0) (issuing_b_issuing s 0 E0) eq_refl)).
Defined.
