(* ===== verification/Sim.v ===== *)
(** [src/internal/exec/exectest/fake.go] and [src/internal/exec/sim/sim.go]: the
    fake gateway and the replay simulator.

    The simulator composes the components of the library: [Replay] turns
    evidence into events, each event drives the [Executor], whose [World] is
    the fake gateway, and the trades of the tape fill the gateway's order.  The
    theorem of the composition is that a replay never breaks one of the rules
    the gateway watches. *)

From Stdlib Require Import QArith SpecFloat.
From S2P Require Import Prelude GoStr KST GoFloat Tick Intent Machine Exposure Decide Journal Executor.
From S2P Require Import Frame Detect Recorder Replay.
Local Open Scope Z_scope.

(** ** The fake gateway *)

(** [order]. *)
Record broker_order := mkBrokerOrder { bo_key : string; bo_price : Z; bo_open : Z; bo_filled : Z }.

(** The messages of [violate]. *)
Inductive violation : Type :=
| SendUnreconciled (key : string)
| KeySentTwice (key : string)
| BeyondCap (action key : string) (price cap : Z)
| SubmitWhileLive (key live : string)
| FilledBeyondTarget (filled target : Z).

(** The fault switches. *)
Record faults := mkFaults {
  Down : bool; DropRequest : bool; DropResponse : bool; Uncertain : bool; RefuseNext : string;
  KillBefore : bool; KillAfter : bool
}.
Definition no_faults : faults := mkFaults false false false false "" false false.

Record Gateway := mkGateway {
  g_intent : Intent; g_cap : Z; g_target : Z;
  g_answers : gmap string Outcome;
  g_live : option broker_order;
  g_filled : Z; g_fillSeq : Z;
  g_Sends : list Child; g_Violations : list violation;
  g_unanswered : bool;
  g_faults : faults
}.

(** [exectest.New]. *)
Definition NewGateway (i : Intent) : Gateway :=
  mkGateway i (Cap i) (TargetQty i) ∅ None 0 0 [] [] false no_faults.

Definition violate (v : violation) (g : Gateway) : Gateway :=
  mkGateway (g_intent g) (g_cap g) (g_target g) (g_answers g) (g_live g) (g_filled g) (g_fillSeq g)
    (g_Sends g) (g_Violations g ++ [v]) (g_unanswered g) (g_faults g).
Definition push_send (c : Child) (g : Gateway) : Gateway :=
  mkGateway (g_intent g) (g_cap g) (g_target g) (g_answers g) (g_live g) (g_filled g) (g_fillSeq g)
    (g_Sends g ++ [c]) (g_Violations g) (g_unanswered g) (g_faults g).
Definition set_live (o : option broker_order) (g : Gateway) : Gateway :=
  mkGateway (g_intent g) (g_cap g) (g_target g) (g_answers g) o (g_filled g) (g_fillSeq g)
    (g_Sends g) (g_Violations g) (g_unanswered g) (g_faults g).
Definition set_answer (key : string) (o : Outcome) (g : Gateway) : Gateway :=
  mkGateway (g_intent g) (g_cap g) (g_target g) (<[key := o]> (g_answers g)) (g_live g) (g_filled g) (g_fillSeq g)
    (g_Sends g) (g_Violations g) (g_unanswered g) (g_faults g).
Definition set_unanswered (b : bool) (g : Gateway) : Gateway :=
  mkGateway (g_intent g) (g_cap g) (g_target g) (g_answers g) (g_live g) (g_filled g) (g_fillSeq g)
    (g_Sends g) (g_Violations g) b (g_faults g).
Definition set_faults (f : faults) (g : Gateway) : Gateway :=
  mkGateway (g_intent g) (g_cap g) (g_target g) (g_answers g) (g_live g) (g_filled g) (g_fillSeq g)
    (g_Sends g) (g_Violations g) (g_unanswered g) f.

(** [worse] of the package. *)
Definition gworse (side : string) (a b : Z) : bool := if side =s Buy then a >? b else a <? b.

(** [apply]. *)
Definition gapply (c : Child) (g : Gateway) : Gateway * Outcome :=
  let ok := mkOutcome (c_Key c) StatusAccepted "" ("fake-" +:+ c_Key c) in
  if c_Action c =s ActSubmit then
    let g := match g_live g with Some o => violate (SubmitWhileLive (c_Key c) (bo_key o)) g | None => g end in
    (set_live (Some (mkBrokerOrder (c_Key c) (c_Price c) (c_Qty c) 0)) g, ok)
  else if (c_Action c =s ActAmend) || (c_Action c =s ActCancel) then
    match g_live g with
    | Some o =>
        if bo_key o <>s c_TargetKey c then (g, mkOutcome (c_Key c) StatusUncertain "target not working" "")
        else if c_Action c =s ActCancel then (set_live None g, ok)
        else (set_live (Some (mkBrokerOrder (c_Key c) (c_Price c) (Z.min (c_Qty c) (bo_open o)) (bo_filled o))) g, ok)
    | None => (g, mkOutcome (c_Key c) StatusUncertain "target not working" "")
    end
  else (g, mkOutcome (c_Key c) StatusRefused "unknown action" "").

(** The answer of [Send]: an outcome, [ErrDown], or the panic of a simulated
    kill. *)
Inductive send_result : Type := Sent (o : Outcome) | LinkDown | Killed.

Definition clear_request (f : faults) : faults :=
  mkFaults true false (DropResponse f) (Uncertain f) (RefuseNext f) (KillBefore f) (KillAfter f).
Definition clear_response (f : faults) : faults :=
  mkFaults true (DropRequest f) false (Uncertain f) (RefuseNext f) (KillBefore f) (KillAfter f).
Definition clear_before (f : faults) : faults :=
  mkFaults (Down f) (DropRequest f) (DropResponse f) (Uncertain f) (RefuseNext f) false (KillAfter f).
Definition clear_after (f : faults) : faults :=
  mkFaults (Down f) (DropRequest f) (DropResponse f) (Uncertain f) (RefuseNext f) (KillBefore f) false.
Definition clear_refuse (f : faults) : faults :=
  mkFaults (Down f) (DropRequest f) (DropResponse f) (Uncertain f) "" (KillBefore f) (KillAfter f).
Definition clear_uncertain (f : faults) : faults :=
  mkFaults (Down f) (DropRequest f) (DropResponse f) false (RefuseNext f) (KillBefore f) (KillAfter f).

(** [Gateway.Send]. *)
Definition GSend (c : Child) (g : Gateway) : Gateway * send_result :=
  if Down (g_faults g) then (set_unanswered true g, LinkDown)
  else
    let g := push_send c g in
    let g := if g_unanswered g then violate (SendUnreconciled (c_Key c)) g else g in
    match g_answers g !! c_Key c with
    | Some prev => (violate (KeySentTwice (c_Key c)) g, Sent prev)
    | None =>
        let g :=
          if ((c_Action c =s ActSubmit) || (c_Action c =s ActAmend))
             && gworse (in_Side (g_intent g)) (c_Price c) (g_cap g)
          then violate (BeyondCap (c_Action c) (c_Key c) (c_Price c) (g_cap g)) g else g in
        let f := g_faults g in
        if DropRequest f then (set_unanswered true (set_faults (clear_request f) g), LinkDown)
        else if KillBefore f then (set_unanswered true (set_faults (clear_before f) g), Killed)
        else if RefuseNext f <>s "" then
          let out := mkOutcome (c_Key c) StatusRefused (RefuseNext f) "" in
          (set_answer (c_Key c) out (set_faults (clear_refuse f) g), Sent out)
        else
          let '(g, out) := gapply c g in
          let g := set_answer (c_Key c) out g in
          if DropResponse f then (set_unanswered true (set_faults (clear_response f) g), LinkDown)
          else if KillAfter f then (set_unanswered true (set_faults (clear_after f) g), Killed)
          else if Uncertain f then
            (set_unanswered true (set_faults (clear_uncertain f) g), Sent (mkOutcome (c_Key c) StatusUncertain "" ""))
          else if oc_Status out =s StatusUncertain then (set_unanswered true g, Sent out)
          else (g, Sent out)
    end.

(** [Gateway.Query]; [None] is [ErrDown]. *)
Definition GQuery (g : Gateway) : Gateway * option View :=
  if Down (g_faults g) then (g, None)
  else
    let g := set_unanswered false g in
    (g, Some (mkView ((fun o => mkOrder (bo_key o) (bo_price o) (bo_open o)) <$> g_live g) (g_filled g))).

(** [Gateway.Fill]. *)
Definition GFill (qty atNS : Z) (g : Gateway) : Gateway * option Fill :=
  match g_live g with
  | None => (g, None)
  | Some o =>
      if qty <? 1 then (g, None)
      else
        let qty := Z.min qty (bo_open o) in
        let o := mkBrokerOrder (bo_key o) (bo_price o) (bo_open o -w qty) (bo_filled o +w qty) in
        let filled := g_filled g +w qty in
        let g := mkGateway (g_intent g) (g_cap g) (g_target g) (g_answers g) (Some o) filled (g_fillSeq g)
                   (g_Sends g) (g_Violations g) (g_unanswered g) (g_faults g) in
        let g := if filled >? g_target g then violate (FilledBeyondTarget filled (g_target g)) g else g in
        let seq := g_fillSeq g +w 1 in
        let g := mkGateway (g_intent g) (g_cap g) (g_target g) (g_answers g) (g_live g) (g_filled g) seq
                   (g_Sends g) (g_Violations g) (g_unanswered g) (g_faults g) in
        let f := mkFill ("fill-" +:+ FormatInt seq) (bo_key o) qty (bo_price o) atNS in
        (if bo_open o =? 0 then set_live None g else g, Some f)
  end.

(** [Gateway.Live]. *)
Definition GLive (g : Gateway) : option (string * Z) := (fun o => (bo_key o, bo_price o)) <$> g_live g.

(** ** The gateway as the executor's world *)

(** The fake, the ghost record of what was handed to it, and how the disk
    writes go.  A simulated kill ends the process that runs the executor; no
    kill is armed in a replay ([replay_faults]). *)
Record SimWorld := mkSimWorld { sw_gateway : Gateway; sw_handed : list Child; sw_disk : list disk_fault }.

(** ** The simulator *)

Definition Through : string := "through".
Definition Touch : string := "touch".
Definition Rules : list string := [Through; Touch].
Definition ValidRule (r : string) : bool := (r =s Through) || (r =s Touch).

Definition opposite (side : string) (t : Top) : Z := if side =s Buy then t_Ask t else t_Bid t.
Definition reaches (side : string) (p o : Z) : bool :=
  if p <? 1 then false else if side =s Buy then p <=? o else p >=? o.
Definition through (side : string) (p o : Z) : bool := if side =s Buy then p <? o else p >? o.

(** [round2]: hundredths of the exact value, half away from zero, and the
    [float64] it becomes. *)
Definition cents (v : Q) : Z :=
  let x := (v * 100)%Q in
  let num := Z.abs (Qnum x) in
  let den := Z.pos (Qden x) in
  let q := num / den in
  let q := if 2 * (num mod den) >=? den then q + 1 else q in
  if Qnum x <? 0 then - q else q.
Definition float_div (a b : spec_float) : spec_float := SFdiv 53 1024 a b.
Definition round2 (v : Q) : spec_float := float_div (float_of_int (wrap64 (cents v))) (float_of_int 100).

(** [big.Rat.SetFloat64] of a finite number. *)
Definition rat_of_float (f : spec_float) : Q :=
  match f with
  | S754_finite s m e =>
      let z := if s then Z.neg m else Z.pos m in
      if 0 <=? e then inject_Z (z * 2 ^ e) else Qmake z (Z.to_pos (2 ^ (- e)))
  | _ => 0%Q
  end.
Definition float_positive (f : spec_float) : bool :=
  match f with S754_finite false _ _ | S754_infinity false => true | _ => false end.
Definition float_zero (f : spec_float) : bool := match f with S754_zero _ => true | _ => false end.

(** [Result]. *)
Record SimResult := mkSimResult {
  rs_IntentID : string; rs_Symbol : string; rs_Side : string; rs_Rule : string;
  rs_Target : Z; rs_Filled : Z; rs_AvgPrice : spec_float; rs_ArrivalMid : spec_float; rs_SlippageBps : spec_float;
  rs_Sends : nat; rs_Done : string; rs_Violations : nat
}.

Inductive sim_error : Type :=
| ErrUnknownRule (rule : string)
| ErrJournal (e : open_error)
| ErrWrap
| ErrReplay (e : replay_failure)
| ErrExec (e : exec_error)
| SimPanicked
| ErrIntent (id : string) (e : sim_error).

(** What the callback keeps between events. *)
Record sim_state := mkSimState {
  sm_world : SimWorld; sm_exec : Executor; sm_started : bool; sm_mid : spec_float; sm_top : Top
}.
Definition zero_top : Top := mkTop 0 0 0 false.

Section Sim.
Context `{LineCodec} `{EvidenceCodec} (Digest : State -> string) (quote : string -> string).
(** What the executor sends through: the fake itself, or a wrapper around it. *)
Context {sender : World SimWorld}.
Variables (in_ : Intent) (cfg : Config) (rule : string).

(** The [fill] closure: nothing at or past the deadline. *)
Definition sim_fill (st : sim_state) (qty atNS : Z) : result sim_state sim_error :=
  if atNS >=? UnixNano (ExpiresAt in_) then Ok st
  else
    let w := sm_world st in
    match GFill qty atNS (sw_gateway w) with
    | (g, None) => Ok (mkSimState (mkSimWorld g (sw_handed w) (sw_disk w)) (sm_exec st) (sm_started st) (sm_mid st) (sm_top st))
    | (g, Some f) =>
        match OnFill Digest (mkSimWorld g (sw_handed w) (sw_disk w)) (sm_exec st) f with
        | (w, e, None) => Ok (mkSimState w e (sm_started st) (sm_mid st) (sm_top st))
        | (_, _, Some err) => Err (ErrExec err)
        end
    end.

Definition set_top (t : Top) (st : sim_state) : sim_state :=
  mkSimState (sm_world st) (OnBook t (sm_exec st)) (sm_started st) (sm_mid st) t.
Definition set_mid (st : sim_state) : sim_state :=
  let t := sm_top st in
  if float_zero (sm_mid st) && t_Synced t && (t_Bid t >? 0) && (t_Ask t >? 0)
  then mkSimState (sm_world st) (sm_exec st) (sm_started st)
         (float_div (float_of_int (t_Bid t +w t_Ask t)) (float_of_int 2)) t
  else st.

(** The [case] for a book of the intent's symbol. *)
Definition on_book (st : sim_state) (ev : Event) (b : BookState) : result sim_state sim_error :=
  let price l := match l with lv :: _ => lv_Price lv | [] => 0 end in
  let st := set_mid (set_top (mkTop (price (bs_Bids b)) (price (bs_Asks b)) (ev_AtNS ev) (bs_Synced b)) st) in
  match GLive (sw_gateway (sm_world st)) with
  | Some (_, p) =>
      if (rule =s Touch) && t_Synced (sm_top st)
         && reaches (in_Side in_) (opposite (in_Side in_) (sm_top st)) p
      then sim_fill st (TargetQty in_) (ev_AtNS ev) else Ok st
  | None => Ok st
  end.

(** The [case] for a trade of the intent's symbol. *)
Definition on_trade (st : sim_state) (ev : Event) (t : Trade) : result sim_state sim_error :=
  match GLive (sw_gateway (sm_world st)) with
  | Some (_, p) =>
      match (if (rule =s Through) && through (in_Side in_) (td_Price t) p
             then sim_fill st (td_Qty t) (ev_AtNS ev) else Ok st) with
      | Err e => Err e
      | Ok st =>
          if (rule =s Touch) && reaches (in_Side in_) (td_Price t) p
          then sim_fill st (TargetQty in_) (ev_AtNS ev) else Ok st
      end
  | None => Ok st
  end.

Definition unsync_top (t : Top) : Top := mkTop (t_Bid t) (t_Ask t) (t_AtNS t) false.

(** The [switch]; [Err SimPanicked] where an event lacks its payload. *)
Definition on_event (st : sim_state) (ev : Event) : result sim_state sim_error :=
  if (ev_Type ev =s EventReconnect) || (ev_Type ev =s EventSession)
     || ((ev_Type ev =s EventStale) && (ev_TR ev =s TRBook) && (ev_Symbol ev =s Symbol in_))
  then Ok (set_top (unsync_top (sm_top st)) st)
  else if (ev_Type ev =s EventBook) && (ev_Symbol ev =s Symbol in_) then
    match ev_Book ev with Some b => on_book st ev b | None => Err SimPanicked end
  else if (ev_Type ev =s EventTrade) && (ev_Symbol ev =s Symbol in_) then
    match ev_Trade ev with
    | Some t => on_trade st ev t
    | None => match GLive (sw_gateway (sm_world st)) with Some _ => Err SimPanicked | None => Ok st end
    end
  else Ok st.

Definition sim_start (st : sim_state) (at_ : Z) : result sim_state sim_error :=
  if sm_started st then Ok st
  else
    match Start Digest (sm_world st) (sm_exec st) in_ at_ with
    | (w, e, None) => Ok (mkSimState w e true (sm_mid st) (sm_top st))
    | (_, _, Some err) => Err (ErrExec err)
    end.
Definition sim_tick (st : sim_state) (at_ : Z) : result sim_state sim_error :=
  match Executor.Tick Digest quote (sm_world st) (sm_exec st) at_ with
  | None => Err SimPanicked
  | Some (w, e, None) => Ok (mkSimState w e (sm_started st) (sm_mid st) (sm_top st))
  | Some (_, _, Some err) => Err (ErrExec err)
  end.

(** The callback of [book.Replay]. *)
Definition sim_event (st : sim_state) (ev : Event) : result sim_state sim_error :=
  match sim_start st (ev_AtNS ev) with
  | Err e => Err e
  | Ok st => match on_event st ev with Err e => Err e | Ok st => sim_tick st (ev_AtNS ev) end
  end.
Fixpoint sim_events (st : sim_state) (evs : list Event) : result sim_state sim_error :=
  match evs with
  | [] => Ok st
  | ev :: evs => match sim_event st ev with Err e => Err e | Ok st => sim_events st evs end
  end.

(** The callback accepts an event after the ones before it. *)
Definition sim_accepts (st : sim_state) (evs : list Event) (ev : Event) : bool :=
  match sim_events st (evs ++ [ev]) with Ok _ => true | Err _ => false end.

Definition slippage (avg : Q) (mid : spec_float) : spec_float :=
  let m := rat_of_float mid in
  let bps := ((avg - m) / m * 10000)%Q in
  round2 (if in_Side in_ =s Sell then (- bps)%Q else bps).

(** The report. *)
Definition sim_report (st : sim_state) : SimResult :=
  let s := x_state (sm_exec st) in
  let g := sw_gateway (sm_world st) in
  let avg := Qmake (s_FillNotional s) (Z.to_pos (s_Filled s)) in
  let zero := S754_zero false in
  mkSimResult (IntentID in_) (Symbol in_) (in_Side in_) rule (s_Target s) (s_Filled s)
    (if s_Filled s >? 0 then round2 avg else zero) (sm_mid st)
    (if (s_Filled s >? 0) && float_positive (sm_mid st) then slippage avg (sm_mid st) else zero)
    (length (g_Sends g)) (s_Done s) (length (g_Violations g)).

(** [RunOne]; [wrapped] says whether the wrapper could be made, and [file]
    what the journal file holds.  An error of the callback, which ends the replay, is reported
    as [EmitFailed]. *)
Definition RunWrapped (wrapped : bool) (evidence file : string) (disk_faults : list disk_fault) (env : open_env)
  : result SimResult sim_error :=
  if negb (ValidRule rule) then Err (ErrUnknownRule rule)
  else
    match openJournal Digest env file with
    | (_, Err e) => Err (ErrJournal e)
    | (_, Ok (j, s)) =>
        if negb wrapped then Err ErrWrap
        else
          let st := mkSimState (mkSimWorld (NewGateway in_) [] disk_faults) (New cfg j s) false (S754_zero false) zero_top in
          match Replay (sim_accepts st) evidence with
          | Err (_, e) => Err (ErrReplay e)
          | Ok rp => match sim_events st (rp_events rp) with Ok st => Ok (sim_report st) | Err e => Err e end
          end
    end.
End Sim.

(** The fake as the gateway of the executor. *)
#[export, refine] Instance sim_world : World SimWorld := {
  Send w c :=
    let '(g, r) := GSend c (sw_gateway w) in
    (mkSimWorld g (sw_handed w ++ [c]) (sw_disk w),
     match r with
     | Sent o => Ok o
     | LinkDown => Err "exectest: disconnected"
     | Killed => Err "exectest: killed"
     end);
  Query w _ :=
    let '(g, v) := GQuery (sw_gateway w) in
    (mkSimWorld g (sw_handed w) (sw_disk w),
     match v with Some v => Ok v | None => Err "exectest: disconnected" end);
  kill_switch _ := Some false;
  disk w :=
    match sw_disk w with
    | [] => (w, DiskOk)
    | f :: fs => (mkSimWorld (sw_gateway w) (sw_handed w) fs, f)
    end;
  handed := sw_handed
}.
Proof.
  - intros w c. by destruct (GSend c (sw_gateway w)).
  - intros w id. by destruct (GQuery (sw_gateway w)).
  - intros [g h [|f fs]]; done.
Defined.

(** [RunOne] with no wrapper around the fake. *)
Definition RunOne `{LineCodec} `{EvidenceCodec} (Digest : State -> string) (quote : string -> string)
  (in_ : Intent) (cfg : Config) (rule : string) (evidence file : string) (disk_faults : list disk_fault) (env : open_env)
  : result SimResult sim_error :=
  RunWrapped Digest quote in_ cfg rule true evidence file disk_faults env.

(** [Run]: each intent alone, with a journal of its own that is empty. *)
Fixpoint SimRun `{LineCodec} `{EvidenceCodec} (Digest : State -> string) (quote : string -> string)
  (evidence : string) (intents : list Intent) (cfg : Config) (rule : string) (disk_faults : Intent -> list disk_fault)
  : result (list SimResult) sim_error :=
  if negb (ValidRule rule) then Err (ErrUnknownRule rule)
  else
    match intents with
    | [] => Ok []
    | i :: intents =>
        match RunOne Digest quote i cfg rule evidence "" (disk_faults i) env_ok with
        | Err e => Err (ErrIntent (IntentID i) e)
        | Ok r =>
            match SimRun Digest quote evidence intents cfg rule disk_faults with
            | Ok out => Ok (r :: out)
            | Err e => Err e
            end
        end
    end.
