(* ===== verification/SimSafety.v ===== *)
(** The simulator is safe: the executor and the fake gateway stay coupled along
    a replay ([src/internal/exec/sim], [src/internal/exec/exectest]).

    The coupling relates the executor's state to the broker's: the broker's
    working order is the one the executor believes in, the filled quantities
    agree, and what is open fits what the intent still wants.  Every commit of
    the executor, every child it sends and every fill keeps it, and none of
    them breaks a rule the gateway watches. *)

From Stdlib Require Import QArith SpecFloat Lqa.
From S2P Require Import Prelude GoStr KST GoFloat Tick Intent Machine Exposure Decide Journal Executor.
From S2P Require Import Frame Detect Recorder Replay Sim.
Local Open Scope Z_scope.

(** [Apply] on a record of a known kind. *)
Lemma Apply_fill_inv s r s' : r_Kind r = RecFill -> Apply s r = Ok s' -> apply_fill s r = Ok s'.
Proof. intros Hk Ha. destruct (Apply_cases s r s' Ha) as [E|E|E|E|E|E]; rewrite Hk in E; done. Qed.
Lemma Apply_send_inv s r s' : r_Kind r = RecSend -> Apply s r = Ok s' -> apply_send s r = Ok s'.
Proof. intros Hk Ha. destruct (Apply_cases s r s' Ha) as [E|E|E|E|E|E]; rewrite Hk in E; done. Qed.
Lemma Apply_outcome_inv s r s' : r_Kind r = RecOutcome -> Apply s r = Ok s' -> apply_outcome s r = Ok s'.
Proof. intros Hk Ha. destruct (Apply_cases s r s' Ha) as [E|E|E|E|E|E]; rewrite Hk in E; done. Qed.
Lemma Apply_reconcile_inv s r s' : r_Kind r = RecReconcile -> Apply s r = Ok s' -> apply_reconcile s r = Ok s'.
Proof. intros Hk Ha. destruct (Apply_cases s r s' Ha) as [E|E|E|E|E|E]; rewrite Hk in E; done. Qed.
Lemma Apply_finish_inv s r s' : r_Kind r = RecFinish -> Apply s r = Ok s' -> apply_finish s r = Ok s'.
Proof. intros Hk Ha. destruct (Apply_cases s r s' Ha) as [E|E|E|E|E|E]; rewrite Hk in E; done. Qed.
Lemma Apply_start_inv s r s' : r_Kind r = RecStart -> Apply s r = Ok s' -> apply_start s r = Ok s'.
Proof. intros Hk Ha. destruct (Apply_cases s r s' Ha) as [E|E|E|E|E|E]; rewrite Hk in E; done. Qed.

(** ** The coupling *)

Definition fill_id (n : Z) : string := "fill-" +:+ FormatInt n.

(** The gateway's side: its own books are in order. *)
Record gateway_ok (g : Gateway) : Prop := {
  gk_faults : g_faults g = no_faults;
  gk_clean : g_Violations g = [];
  gk_seq : 0 <= g_fillSeq g <= g_filled g;
  gk_filled : g_filled g <= g_target g <= 1000000;
  gk_live : forall o, g_live g = Some o ->
    1 <= bo_open o /\ g_filled g + bo_open o <= g_target g /\ 1 <= bo_price o <= max_price
}.

(** An order of the broker is one of the executor's children, at its price. *)
Definition priced (sent : list Child) (key : string) (price : Z) : Prop :=
  exists c, c ∈ sent /\ c_Key c = key /\ c_Price c = price.
(** A fill of the executor is one the fake made: of a child, at its limit,
    before the deadline. *)
Definition explained (i : Intent) (sent : list Child) (seq : Z) (id : string) (f : Fill) : Prop :=
  (exists n, 1 <= n <= seq /\ id = fill_id n) /\ f_AtNS f < UnixNano (ExpiresAt i) /\
  priced sent (f_Key f) (f_Price f).

Lemma priced_app sent l key price : priced sent key price -> priced (sent ++ l) key price.
Proof. intros (c & Hc & ? & ?). exists c. split; [apply elem_of_app; by left|done]. Qed.
Lemma explained_mono i sent l seq seq' id f : seq <= seq' ->
  explained i sent seq id f -> explained i (sent ++ l) seq' id f.
Proof.
  intros Hs ((n & Hn & Hid) & Ht & Hp). split; [exists n; split; [lia|done]|]. split; [done|by apply priced_app].
Qed.

(** Both sides; between two records of the journal. *)
Record coupled (g : Gateway) (s : State) : Prop := {
  cu_gateway : gateway_ok g;
  cu_state : exec_ok s;
  cu_intent : g_intent g = s_Intent s /\ g_cap g = s_Cap s /\ g_target g = s_Target s;
  cu_answers : forall k, is_Some (g_answers g !! k) -> k ∈ map c_Key (s_Sent s);
  cu_fills : forall id f, s_Fills s !! id = Some f -> explained (s_Intent s) (s_Sent s) (g_fillSeq g) id f;
  cu_filled : s_Filled s = g_filled g;
  cu_broker : s_BrokerFilled s <= g_filled g;
  cu_live : forall o, g_live g = Some o ->
    s_InFlight s = None /\ (exists o', s_Order s = Some o' /\ o_Key o' = bo_key o) /\
    priced (s_Sent s) (bo_key o) (bo_price o);
  cu_unanswered : g_unanswered g = true -> s_InFlight s <> None
}.

(** Between the commit of child [c] and its answer. *)
Record sending (g : Gateway) (s : State) (c : Child) : Prop := {
  se_gateway : gateway_ok g;
  se_state : exec_ok s;
  se_intent : g_intent g = s_Intent s /\ g_cap g = s_Cap s /\ g_target g = s_Target s;
  se_answers : forall k, is_Some (g_answers g !! k) -> k ∈ map c_Key (s_Sent s);
  se_fresh : g_answers g !! c_Key c = None /\ c ∈ s_Sent s;
  se_fills : forall id f, s_Fills s !! id = Some f -> explained (s_Intent s) (s_Sent s) (g_fillSeq g) id f;
  se_filled : s_Filled s = g_filled g;
  se_broker : s_BrokerFilled s <= g_filled g;
  se_inflight : s_InFlight s = Some c;
  se_unanswered : g_unanswered g = false;
  se_live : forall o, g_live g = Some o ->
    (exists o', s_Order s = Some o' /\ o_Key o' = bo_key o) /\ priced (s_Sent s) (bo_key o) (bo_price o);
  se_target : target_ok s c = true;
  se_submit : c_Action c = ActSubmit -> s_Order s = None;
  se_child : is_send_action (c_Action c) = true ->
    1 <= c_Qty c /\ c_Qty c + g_filled g <= g_target g /\ 1 <= c_Price c <= max_price /\
    gworse (in_Side (g_intent g)) (c_Price c) (g_cap g) = false;
  se_action : c_Action c = ActSubmit \/ c_Action c = ActAmend \/ c_Action c = ActCancel
}.

Lemma gworse_worse i a b : gworse (in_Side i) a b = worse i a b.
Proof. done. Qed.

(** What is left when the broker's fills are known. *)
Lemma coupled_remaining g s : coupled g s -> Remaining s = g_target g - g_filled g.
Proof.
  intros [[_ _ Hs Hf _] _ (_ & _ & Et) _ _ E Hb _ _]. unfold Remaining.
  rewrite E, Z.max_l by done. rewrite <- Et. rewrite wrap64_small; [done|]. in64.
Qed.

(** A send that was committed. *)
Lemma coupled_send g s r c s' :
  coupled g s -> sends r c -> pre_ok s r -> caps_pass s r -> Apply s r = Ok s' -> sending g s' c.
Proof.
  intros HC Hsend Hpre Hcaps Ha. pose proof (coupled_remaining g s HC) as Hrem.
  pose proof (state_ok_Apply s r s' (or_intror (cu_state _ _ HC)) Hpre Hcaps Ha) as Hok.
  destruct HC as [G S I A F E B L U]. destruct Hsend as [Hk Hc].
  pose proof (Apply_send_inv s r s' Hk Ha) as Hs. pose proof (eo_wf s S) as W.
  destruct (apply_send_inv s r s' W Hs) as (d & Hd & Hsent & Hfresh & Hdone & Hin & Htgt & Hact & Es).
  assert (d = c) as -> by congruence.
  assert (Hfields : s_Intent s' = s_Intent s /\ s_Cap s' = s_Cap s /\ s_Target s' = s_Target s /\
    s_Sent s' = s_Sent s ++ [c] /\ s_Fills s' = s_Fills s /\ s_Filled s' = s_Filled s /\
    s_BrokerFilled s' = s_BrokerFilled s /\ s_InFlight s' = Some c /\ s_Order s' = s_Order s).
  { rewrite Es. destruct (is_send_action (c_Action c)); done. }
  destruct Hfields as (E1 & E2 & E3 & E4 & E5 & E6 & E7 & E8 & E9).
  destruct (po_send s r Hpre c (conj Hk Hc)) as (_ & _ & Hpr).
  split; rewrite ?E1, ?E2, ?E3, ?E4, ?E5, ?E6, ?E7, ?E9; try done.
  - intros k Hk'. rewrite map_app. apply elem_of_app. left. by apply A.
  - split; [|apply elem_of_app; right; by left].
    destruct (g_answers g !! c_Key c) eqn:Ek; [|done]. exfalso. apply Hfresh, A. by exists o.
  - intros id f Hf. by apply (explained_mono _ _ _ _ _ _ _ (Z.le_refl _)), F.
  - destruct (g_unanswered g); [by destruct U|done].
  - intros o Ho. destruct (L o Ho) as (_ & Ho' & Hp). split; [done|by apply priced_app].
  - unfold target_ok in *. by rewrite E9.
  - intros Hs'. destruct Hact as (_ & _ & Hn); [by rewrite Hs'|]. rewrite Hs' in Hn.
    apply is_none_true. symmetry. exact Hn.
  - intros Hs'. destruct (Hact Hs') as (_ & Hq & _). rewrite Hrem in Hq.
    destruct Hsent as (_ & _ & [Hx|(_ & Hq1 & Hp & Hw)]); [by rewrite Hx in Hs'|].
    destruct I as (I1 & I2 & I3). rewrite I1, I2, gworse_worse. specialize (Hpr Hs'). repeat split; lia || done.
  - destruct Hsent as (_ & _ & [Hx|(Hx & _)]); [by right; right|].
    unfold is_send_action in Hx. apply orb_true_iff in Hx as [Hx|Hx]; bool_simpl; auto.
Qed.

(** ** A send and its answer *)

(** What the gateway makes of a child it is handed while the two are coupled. *)
Inductive handled (g : Gateway) (c : Child) : Gateway -> Outcome -> Prop :=
| handled_order g' o :
    g_live g' = Some o -> bo_key o = c_Key c -> bo_price o = c_Price c -> c_Action c <> ActCancel -> g_unanswered g' = false ->
    handled g c g' (mkOutcome (c_Key c) StatusAccepted "" ("fake-" +:+ c_Key c))
| handled_cancel g' :
    g_live g' = None -> c_Action c = ActCancel -> g_unanswered g' = false ->
    handled g c g' (mkOutcome (c_Key c) StatusAccepted "" ("fake-" +:+ c_Key c))
| handled_uncertain g' :
    g_live g' = None -> g_unanswered g' = true ->
    handled g c g' (mkOutcome (c_Key c) StatusUncertain "target not working" "").

(** A gateway after [c]: its live order and flag changed, nothing else but the
    log and the answers. *)
Record after_send (g : Gateway) (c : Child) (g' : Gateway) : Prop := {
  as_ok : gateway_ok g';
  as_intent : g_intent g' = g_intent g /\ g_cap g' = g_cap g /\ g_target g' = g_target g;
  as_answers : forall k, is_Some (g_answers g' !! k) -> k = c_Key c \/ is_Some (g_answers g !! k);
  as_seq : g_fillSeq g' = g_fillSeq g;
  as_filled : g_filled g' = g_filled g
}.

(** With the fault switches off and a fresh, priced child, [Send] is [apply]. *)
Lemma GSend_plain g s c : sending g s c ->
  GSend c g =
    let '(g1, out) := gapply c (push_send c g) in
    let g2 := set_answer (c_Key c) out g1 in
    if oc_Status out =s StatusUncertain then (set_unanswered true g2, Sent out) else (g2, Sent out).
Proof.
  intros [[Hf _ _ _ _] _ _ _ [Hfr _] _ _ _ _ Hu _ _ _ Hc Ha]. unfold GSend. rewrite Hf. cbn [Down no_faults].
  cbn [g_unanswered push_send]. rewrite Hu. cbn [g_answers push_send g_faults g_intent g_cap]. rewrite Hfr.
  assert (Hb : ((c_Action c =s ActSubmit) || (c_Action c =s ActAmend)) && gworse (in_Side (g_intent g)) (c_Price c) (g_cap g) = false).
  { destruct ((c_Action c =s ActSubmit) || (c_Action c =s ActAmend)) eqn:E; [|done]. by destruct (Hc E) as (_ & _ & _ & ->). }
  rewrite Hb. cbn [g_faults push_send]. rewrite Hf. cbn [DropRequest KillBefore RefuseNext no_faults DropResponse KillAfter Uncertain].
  change ("" <>s "") with false. destruct (gapply c (push_send c g)) as [g1 out].
  by destruct (oc_Status out =s StatusUncertain).
Qed.

Lemma after_send_live g c out b o :
  gateway_ok g -> (forall o', o = Some o' ->
    1 <= bo_open o' /\ g_filled g + bo_open o' <= g_target g /\ 1 <= bo_price o' <= max_price) ->
  after_send g c (set_unanswered b (set_answer (c_Key c) out (set_live o (push_send c g)))).
Proof.
  intros [H1 H2 H3 H4 H5] Ho. split; try done.
  cbn. intros k. rewrite lookup_insert_is_Some. intros [->|[_ ?]]; [by left|by right].
Qed.

(** The flag as it is. *)
Lemma set_unanswered_same g b : g_unanswered g = b -> set_unanswered b g = g.
Proof. intros <-. by destruct g. Qed.
Lemma set_live_same g o : g_live g = o -> set_live o g = g.
Proof. intros <-. by destruct g. Qed.

Lemma sending_handled g s c : sending g s c ->
  exists g' out, GSend c g = (g', Sent out) /\ after_send g c g' /\ handled g c g' out.
Proof.
  intros HS. rewrite (GSend_plain g s c HS). destruct HS as [G S I A Fr F E B In U L T Sub Ch Act].
  unfold gapply. destruct Act as [Ha|Ha].
  - rewrite Ha. change (ActSubmit =s ActSubmit) with true. cbn match.
    assert (Hl : g_live (push_send c g) = None).
    { cbn. destruct (g_live g) as [o|] eqn:El; [|done]. destruct (L o eq_refl) as ((o' & Eo & _) & _). by rewrite (Sub Ha) in Eo. }
    rewrite Hl. cbn [oc_Status]. change (StatusAccepted =s StatusUncertain) with false. cbn match.
    assert (Hx : is_send_action (c_Action c) = true) by by rewrite Ha. destruct (Ch Hx) as (C1 & C2 & C3 & C4).
    eexists _, _. split; [done|]. split.
    + rewrite <- (set_unanswered_same (set_answer _ _ _) false) by done. apply after_send_live; [done|].
      intros o' [= <-]. cbn. lia.
    + eapply handled_order; [done|done|done|by rewrite Ha|done].
  - assert (Hn : (c_Action c =s ActSubmit) = false) by (destruct Ha as [-> | ->]; done).
    assert (Hy : (c_Action c =s ActAmend) || (c_Action c =s ActCancel) = true) by (destruct Ha as [-> | ->]; done).
    rewrite Hn, Hy. cbn [g_live push_send]. destruct (g_live g) as [o|] eqn:El.
    + destruct (L o eq_refl) as ((o' & Eo & Ek) & _). unfold target_ok in T. rewrite Hn, Eo, Ek in T. cbn [orb] in T.
      bool_simpl. rewrite T, string_eqb_refl. cbn [negb]. destruct (gk_live _ G o El) as (G1 & G2 & G3).
      destruct Ha as [Ha|Ha]; rewrite Ha.
      * change (ActAmend =s ActCancel) with false. cbn [oc_Status]. change (StatusAccepted =s StatusUncertain) with false.
        cbn match. assert (Hx : is_send_action (c_Action c) = true) by by rewrite Ha.
        destruct (Ch Hx) as (C1 & C2 & C3 & C4). eexists _, _. split; [done|]. split.
        -- rewrite <- (set_unanswered_same (set_answer _ _ _) false) by done. apply after_send_live; [done|].
           intros o2 [= <-]. cbn. lia.
        -- eapply handled_order; [done|done|done|by rewrite Ha|done].
      * change (ActCancel =s ActCancel) with true. cbn [oc_Status]. change (StatusAccepted =s StatusUncertain) with false.
        cbn match. eexists _, _. split; [done|]. split.
        -- rewrite <- (set_unanswered_same (set_answer _ _ _) false) by done. by apply after_send_live.
        -- by apply handled_cancel.
    + cbn [oc_Status]. change (StatusUncertain =s StatusUncertain) with true. cbn match.
      eexists _, _. split; [done|]. split; [|by apply handled_uncertain].
      rewrite <- (set_live_same (push_send c g) None) by done. by apply after_send_live.
Qed.

(** The fields an outcome leaves alone, and what it does with the order. *)
Lemma outcome_effect s t out defer c s' :
  s_InFlight s = Some c -> oc_Key out = c_Key c -> Apply s (outcome_rec t out defer) = Ok s' ->
  (s_Intent s' = s_Intent s /\ s_Cap s' = s_Cap s /\ s_Target s' = s_Target s /\ s_Sent s' = s_Sent s /\
   s_Fills s' = s_Fills s /\ s_Filled s' = s_Filled s /\ s_BrokerFilled s' = s_BrokerFilled s) /\
  (oc_Status out = StatusAccepted -> s_InFlight s' = None /\
     (c_Action c <> ActCancel -> s_Order s' = Some (mkOrder (c_Key c) (c_Price c) (c_Qty c)))) /\
  (oc_Status out = StatusUncertain -> s_InFlight s' = Some c).
Proof.
  intros Hin Hk Ha. pose proof (Apply_outcome_inv s (outcome_rec t out defer) s' eq_refl Ha) as Hs. unfold apply_outcome in Hs.
  cbn [r_Outcome outcome_rec r_DeferFinish] in Hs. rewrite Hin, Hk, string_eqb_refl in Hs. cbn [negb] in Hs.
  destruct (oc_Status out =s StatusAccepted) eqn:E1; cbn [andb] in Hs; bool_simpl.
  - rewrite E1. destruct (c_Action c =s ActCancel) eqn:E2; bool_simpl; injection Hs as <-.
    + split; [by destruct defer|]. split; [|discriminate]. intros _. split; [by destruct defer|done].
    + split; [done|]. split; [done|discriminate].
  - destruct ((oc_Status out =s StatusRefused) && (c_Action c <>s ActCancel)) eqn:E2; bool_simpl; injection Hs as <-.
    + split; [done|]. split; [done|]. match goal with H : oc_Status out = StatusRefused |- _ => rewrite H end. discriminate.
    + split; [done|]. split; done.
Qed.

Lemma coupled_answer g s c g' out t defer s' :
  sending g s c -> after_send g c g' -> handled g c g' out -> in_int64 t ->
  Apply s (outcome_rec t out defer) = Ok s' -> coupled g' s'.
Proof.
  intros HS [AO (AI1 & AI2 & AI3) AA AS AF] Hh Ht Ha.
  assert (Hok : exec_ok s').
  { apply (state_ok_Apply s (outcome_rec t out defer)); [by right; apply HS| |by intros ? []|done].
    apply pre_ok_simple; [by constructor|done|done]. }
  destruct HS as [G S I A Fr F E B In U L T Sub Ch Act].
  assert (Hkey : oc_Key out = c_Key c) by by destruct Hh.
  destruct (outcome_effect s t out defer c s' In Hkey Ha) as ((E1 & E2 & E3 & E4 & E5 & E6 & E7) & Hacc & Hunc).
  split; rewrite ?E1, ?E2, ?E3, ?E4, ?E5, ?E6, ?E7, ?AI1, ?AI2, ?AI3, ?AS, ?AF; try done.
  - intros k Hk. destruct (AA k Hk) as [->|Hk']; [|by apply A]. apply list_elem_of_fmap. exists c. split; [done|apply Fr].
  - intros o Ho. destruct Hh as [g' o' Hl Hb Hp Hne Hu|g' Hl Hc Hu|g' Hl Hu]; [|congruence..].
    destruct (Hacc eq_refl) as [Hi Ho']. split; [done|]. split; [eexists; split; [by apply Ho'|]; cbn; congruence|].
    exists c. split; [apply Fr|]. split; congruence.
  - intros Hu'. destruct Hh as [g' o' Hl Hb Hp Hne Hu|g' Hl Hc Hu|g' Hl Hu]; [congruence..|].
    rewrite (Hunc eq_refl). done.
Qed.

(** ** A query *)

Lemma GQuery_ok g : gateway_ok g ->
  GQuery g = (set_unanswered false g,
    Some (mkView ((fun o => mkOrder (bo_key o) (bo_price o) (bo_open o)) <$> g_live g) (g_filled g))).
Proof. intros [Hf _ _ _ _]. unfold GQuery. by rewrite Hf. Qed.

Lemma gateway_ok_unanswered g b : gateway_ok g -> gateway_ok (set_unanswered b g).
Proof. intros []. by split. Qed.

(** What a reconciliation does. *)
Lemma reconcile_effect s t v defer s' : Apply s (reconcile_rec t v defer) = Ok s' ->
  (s_Intent s' = s_Intent s /\ s_Cap s' = s_Cap s /\ s_Target s' = s_Target s /\ s_Sent s' = s_Sent s /\
   s_Fills s' = s_Fills s /\ s_Filled s' = s_Filled s /\
   s_BrokerFilled s' = Z.max (s_BrokerFilled s) (v_FilledQty v)) /\
  s_InFlight s' = None /\ s_Order s' = v_Order v.
Proof.
  intros Ha. pose proof (Apply_reconcile_inv s (reconcile_rec t v defer) s' eq_refl Ha) as Hs.
  unfold apply_reconcile in Hs. cbn [r_View reconcile_rec r_DeferFinish] in Hs.
  destruct (v_Order v) as [o|].
  - destruct (is_none (sentKey s (o_Key o))); [done|]. destruct (worse _ _ _); [done|]. injection Hs as <-.
    destruct (s_InFlight s) as [c|]; [|done]. destruct ((c_Action c =s ActCancel) && _); [by destruct defer|done].
  - injection Hs as <-. destruct (s_InFlight s) as [c|]; [|done].
    destruct ((c_Action c =s ActCancel) && _); [by destruct defer|done].
Qed.

Lemma coupled_view g s t defer s' v :
  coupled g s -> in_int64 t ->
  v = mkView ((fun o => mkOrder (bo_key o) (bo_price o) (bo_open o)) <$> g_live g) (g_filled g) ->
  Apply s (reconcile_rec t v defer) = Ok s' -> coupled (set_unanswered false g) s'.
Proof.
  intros HC Ht -> Ha. pose proof (cu_gateway _ _ HC) as [G1 G2 G3 G4 G5].
  set (v := mkView _ _) in *.
  assert (Hview : int64_view v /\ forall o, v_Order v = Some o -> order_sane o).
  { unfold v. destruct (g_live g) as [b|] eqn:El; cbn.
    - destruct (G5 b eq_refl) as (H1 & H2 & H3). unfold max_price in *. split; [split; cbn; [in64|]|]; intros o [= <-].
      + split; cbn; in64.
      + unfold order_sane. cbn. unfold max_price. lia.
    - split; [split; cbn; [in64|done]|done]. }
  assert (Hok : exec_ok s').
  { apply (state_ok_Apply s (reconcile_rec t v defer)); [right; apply HC| |by intros ? []|done].
    constructor; [constructor; cbn; try done; intros ? [= <-]; apply Hview|by intros ? []|].
    intros v' o _ [= <-] Ho. by apply Hview. }
  destruct (reconcile_effect s t v defer s' Ha) as ((E1 & E2 & E3 & E4 & E5 & E6 & E7) & Hi & Ho).
  destruct HC as [G S I A F E B L U]. change (v_FilledQty v) with (g_filled g) in E7.
  split; rewrite ?E1, ?E2, ?E3, ?E4, ?E5, ?E6, ?E7; try done.
  - cbn [set_unanswered g_filled]. lia.
  - cbn [set_unanswered g_live]. intros o Hl. split; [done|]. split; [|by apply (L o Hl)]. rewrite Ho. unfold v. cbn. rewrite Hl. by eexists.
Qed.

(** ** The end of an intent, a fill, the start *)

Lemma coupled_finish g s t reason s' :
  coupled g s -> in_int64 t -> Apply s (finish_rec t reason) = Ok s' -> coupled g s'.
Proof.
  intros HC Ht Ha.
  assert (Hok : exec_ok s').
  { apply (state_ok_Apply s (finish_rec t reason)); [right; apply HC| |by intros ? []|done].
    apply pre_ok_simple; [by constructor|done|done]. }
  pose proof (Apply_finish_inv s (finish_rec t reason) s' eq_refl Ha) as Hs. unfold apply_finish in Hs.
  split_if in Hs; [done|]. destruct (s_Order s) eqn:Eo; [done|]. injection Hs as <-.
  destruct HC as [G S I A F E B L U]. by split.
Qed.

Lemma fill_id_inj m n : in_int64 m -> in_int64 n -> fill_id m = fill_id n -> m = n.
Proof.
  intros Hm Hn H. unfold fill_id in H. apply (inj (String.append "fill-")) in H.
  pose proof (ParseIntValue_FormatInt m Hm) as E. rewrite H, (ParseIntValue_FormatInt n Hn) in E. congruence.
Qed.

(** *** A fill *)

(** The gateway after it filled [q] of its order [o]. *)
Definition filled_gateway (g : Gateway) (o : broker_order) (q : Z) : Gateway :=
  mkGateway (g_intent g) (g_cap g) (g_target g) (g_answers g)
    (if bo_open o - q =? 0 then None
     else Some (mkBrokerOrder (bo_key o) (bo_price o) (bo_open o - q) (bo_filled o +w q)))
    (g_filled g + q) (g_fillSeq g + 1) (g_Sends g) (g_Violations g) (g_unanswered g) (g_faults g).

Lemma GFill_ok g qty t : gateway_ok g ->
  match g_live g with
  | Some o =>
      if qty <? 1 then GFill qty t g = (g, None)
      else let q := Z.min qty (bo_open o) in
        GFill qty t g = (filled_gateway g o q, Some (mkFill (fill_id (g_fillSeq g + 1)) (bo_key o) q (bo_price o) t)) /\
        gateway_ok (filled_gateway g o q) /\ 1 <= q
  | None => GFill qty t g = (g, None)
  end.
Proof.
  intros [G1 G2 G3 G4 G5]. unfold GFill. destruct (g_live g) as [o|] eqn:El; [|done].
  destruct (Z.ltb_spec qty 1); [done|]. destruct (G5 o eq_refl) as (H1 & H2 & H3). cbv zeta.
  set (q := Z.min qty (bo_open o)). assert (Hq : 1 <= q <= bo_open o) by lia.
  unfold fill_id, filled_gateway. rewrite (wrap64_small (g_filled g + q)), (wrap64_small (bo_open o - q)) by in64.
  assert (Hnv : (g_filled g + q >? g_target g) = false) by (rewrite Z.gtb_ltb; apply Z.ltb_ge; lia).
  cbn [g_fillSeq bo_open bo_key bo_price g_live g_intent g_cap g_target g_answers g_filled g_Sends g_Violations g_unanswered g_faults].
  rewrite Hnv.
  cbn [g_fillSeq bo_open bo_key bo_price g_live g_intent g_cap g_target g_answers g_filled g_Sends g_Violations g_unanswered g_faults].
  rewrite (wrap64_small (g_fillSeq g + 1)) by in64. split; [by destruct (bo_open o - q =? 0)|]. split; [|lia].
  split; cbn; try done; [lia|lia|]. intros o'. destruct (Z.eqb_spec (bo_open o - q) 0); [done|]. intros [= <-].
  cbn. lia.
Qed.

Lemma coupled_fill g s o q t s' :
  coupled g s -> g_live g = Some o -> 1 <= q <= bo_open o -> in_int64 t -> t < UnixNano (ExpiresAt (s_Intent s)) ->
  gateway_ok (filled_gateway g o q) ->
  let f := mkFill (fill_id (g_fillSeq g + 1)) (bo_key o) q (bo_price o) t in
  Apply s (fill_rec f) = Ok s' -> coupled (filled_gateway g o q) s'.
Proof.
  intros HC Hl Hq Ht Hdl Hg f Ha. destruct (gk_live _ (cu_gateway _ _ HC) o Hl) as (H1 & H2 & H3).
  pose proof (gk_filled _ (cu_gateway _ _ HC)) as Hfl. pose proof (gk_seq _ (cu_gateway _ _ HC)) as Hsq.
  assert (Hok : exec_ok s').
  { apply (state_ok_Apply s (fill_rec f)); [right; apply HC| |by intros ? []|done].
    apply pre_ok_simple; [|done|done]. constructor; cbn; try done. intros ? [= <-].
    unfold max_price in *. split; [cbn; in64|split; cbn; [in64|done]]. }
  pose proof (Apply_fill_inv s (fill_rec f) s' eq_refl Ha) as Hs. destruct HC as [G S I A F E B L U].
  unfold apply_fill in Hs. cbn [r_Fill fill_rec] in Hs. split_if in Hs; [done|]. split_if in Hs; [done|].
  split_if in Hs; [done|]. injection Hs as <-. destruct (L o Hl) as (Hi & (o' & Ho & Hk) & Hp).
  split; cbn [add_fill s_Intent s_Cap s_Target s_Sent s_Fills s_Filled s_BrokerFilled s_InFlight s_Order
    filled_gateway g_intent g_cap g_target g_answers g_live g_filled g_fillSeq g_unanswered f_Qty f_FillID f]; try done.
  - intros id f'. rewrite lookup_insert_Some. intros [[<- <-]|[_ Hid]].
    + split; [exists (g_fillSeq g + 1); split; [lia|done]|]. by split.
    + rewrite <- (app_nil_r (s_Sent s)). apply (explained_mono _ _ _ (g_fillSeq g)); [lia|by apply F].
  - rewrite E. apply wrap64_small. in64.
  - lia.
  - intros o2. destruct (bo_open o - q =? 0); [done|]. intros [= <-]. split; [done|]. split; [by exists o'|done].
Qed.

(** *** The start *)

Lemma coupled_start i t s' : Apply zero_state (start_rec t i) = Ok s' -> coupled (NewGateway i) s'.
Proof.
  intros Ha. pose proof (Apply_zero_exec _ _ Ha) as Hok.
  pose proof (Apply_start_inv zero_state (start_rec t i) s' eq_refl Ha) as Hs. unfold apply_start in Hs.
  cbn [r_Intent start_rec] in Hs. change (Started zero_state) with false in Hs. cbn match in Hs.
  destruct (Validate i) eqn:V; [done|]. injection Hs as <-.
  pose proof (valid_target i (Validate_ok i V)) as Ht.
  split; cbn; try done; [split; cbn; try done; lia|]. intros k []. done.
Qed.

(** ** The executor on the fake gateway *)

Section replaying.
Context `{LineCodec} `{EvidenceCodec} (Digest : State -> string) (quote : string -> string).
Variable in_ : Intent.

Record engaged (w : SimWorld) (e : Executor) : Prop := {
  en_coupled : coupled (sw_gateway w) (x_state e);
  en_err : x_err e = None;
  en_cfg : in_int64 (StepEvery (x_cfg e)) /\ in_int64 (StaleAfter (x_cfg e));
  en_top : forall t, x_top e = Some t -> int64_top t;
  en_intent : g_intent (sw_gateway w) = in_
}.

Lemma caps_pass_why s r :
  (match r_Child r with
   | Some c => if (r_Kind r =s RecSend) && is_send_action (c_Action c) then E1CapsRefusal s c else ""
   | None => ""
   end) = "" -> caps_pass s r.
Proof.
  intros Hw c [Hk Hc] Ha. rewrite Hc, Hk, Ha, string_eqb_refl in Hw. exact Hw.
Qed.

(** A commit that succeeded. *)
Lemma commit_done (w : SimWorld) e r w' e' :
  commit Digest w e r = (w', e', None) ->
  caps_pass (x_state e) r /\ Apply (x_state e) r = Ok (x_state e') /\ sw_gateway w' = sw_gateway w /\
  x_cfg e' = x_cfg e /\ x_top e' = x_top e /\ x_err e = None /\ x_err e' = None.
Proof.
  unfold commit. destruct (x_err e) eqn:Ee; [done|]. cbv zeta. intros Hc.
  split_if in Hc; [done|]. assert (Hcap := caps_pass_why _ _ Eif). split; [exact Hcap|]. clear Eif.
  destruct (Apply (x_state e) r) as [next|] eqn:Ea; [|done]. destruct (disk w) as [w1 fault] eqn:Ed.
  destruct (append Digest fault (x_j e) r next) as [j [ae|]]; [done|]. injection Hc as <- <-. split; [done|].
  split; [|done]. cbn in Ed. destruct (sw_disk w); by injection Ed as <- _.
Qed.

(** A commit that keeps the coupling leaves the pair engaged. *)
Lemma commit_engaged w e r w' e' :
  engaged w e -> commit Digest w e r = (w', e', None) -> coupled (sw_gateway w') (x_state e') -> engaged w' e'.
Proof.
  intros [_ _ Hc Ht Hi] Hcom HC. destruct (commit_done _ _ _ _ _ Hcom) as (_ & _ & Eg & E1 & E2 & _ & E3).
  split; [done|done|by rewrite E1|by rewrite E2|by rewrite Eg].
Qed.

Lemma engaged_inputs w e t : engaged w e -> in_int64 t ->
  int64_inputs (mkInputs t (x_top e) (x_cfg e) (Engaged (kill_switch w))).
Proof.
  intros [_ _ [H1 H2] Ht _] Hi. split; [done|]. split; [done|]. split; [done|]. cbn. intros tp Hx. by apply Ht.
Qed.

(** The answer to a query of a coupled gateway. *)
Lemma query_answer w e id : engaged w e ->
  let g := sw_gateway w in
  let v := mkView ((fun o => mkOrder (bo_key o) (bo_price o) (bo_open o)) <$> g_live g) (g_filled g) in
  Query w id = (mkSimWorld (set_unanswered false g) (sw_handed w) (sw_disk w), Ok v).
Proof. intros [HC _ _ _ _]. cbn. by rewrite (GQuery_ok _ (cu_gateway _ _ HC)). Qed.

(** One committed send and its answer. *)
Lemma send_engaged w e r c w1 e1 t w2 e2 :
  engaged w e -> in_int64 t -> sends r c -> pre_ok (x_state e) r ->
  commit Digest w e r = (w1, e1, None) -> send Digest quote w1 e1 c t = (w2, e2, None) -> engaged w2 e2.
Proof.
  intros HE Ht Hsend Hpre Hcom Hs. destruct (commit_done _ _ _ _ _ Hcom) as (Hcaps & Ha & Eg & E1 & E2 & _ & E3).
  pose proof (coupled_send _ _ _ _ _ (en_coupled _ _ HE) Hsend Hpre Hcaps Ha) as HS. rewrite <- Eg in HS.
  destruct (sending_handled _ _ _ HS) as (g' & out & Es & Has & Hh).
  unfold send in Hs. cbn [Send sim_world] in Hs. rewrite Es in Hs.
  assert (Hans : answer quote c (Ok out) = out).
  { unfold answer. destruct Hh; cbn [oc_Key]; by rewrite string_eqb_refl. }
  rewrite Hans in Hs. destruct (commit_done _ _ _ _ _ Hs) as (_ & Ha2 & Eg2 & F1 & F2 & _ & F3). cbn in Eg2.
  split; [|done|rewrite F1, E1; apply HE|rewrite F2, E2; apply HE|].
  - rewrite Eg2. by eapply coupled_answer.
  - destruct (as_intent _ _ _ Has) as (Ei & _ & _). rewrite Eg2, Ei, Eg. apply HE.
Qed.

Lemma tick_step_engaged w e t : engaged w e -> in_int64 t ->
  exists w' e' ctl, tick_step Digest quote w e t = Some (w', e', ctl) /\
    (ctl = Continue \/ ctl = Return None -> engaged w' e').
Proof.
  intros HE Ht. unfold tick_step. rewrite (en_err _ _ HE).
  destruct (Decide_ok _ _ (cu_state _ _ (en_coupled _ _ HE)) (engaged_inputs w e t HE Ht)) as (d & Ed & Hd).
  rewrite Ed. cbn [mbind option_bind]. destruct d as [| |r].
  - eexists _, _, _. split; [done|]. by intros _.
  - rewrite (query_answer w e (IntentID (s_Intent (x_state e))) HE). cbv zeta.
    match goal with |- context [commit ?d ?w1 ?e ?r] => destruct (commit d w1 e r) as [[w2 e2] res] eqn:Ec end.
    destruct res; eexists _, _, _; (split; [done|]); [by intros [|]|]. intros _.
    assert (HE1 : engaged (mkSimWorld (sw_gateway w) (sw_handed w) (sw_disk w)) e) by (by destruct HE).
    destruct (commit_done _ _ _ _ _ Ec) as (_ & Ha & Eg & E1 & E2 & _ & E3). cbn in Eg.
    split; [|done|rewrite E1; apply HE|rewrite E2; apply HE|rewrite Eg; apply HE]. rewrite Eg.
    eapply coupled_view; [apply HE|exact Ht|reflexivity|exact Ha].
  - destruct ((r_Kind r =s RecFinish) && _ && _).
    { eexists _, _, _. split; [done|]. by intros [|]. }
    assert (Hpre : pre_ok (x_state e) r)
      by (eapply decision_pre_ok; [apply (eo_wf _ (cu_state _ _ (en_coupled _ _ HE)))| |exact Hd]; exact Ht).
    destruct (commit Digest w e r) as [[w1 e1] res] eqn:Ec. destruct res as [err|].
    { eexists _, _, _. split; [done|]. by intros [|]. }
    destruct (decision_child _ _ _ Hd) as [[Hn Hk]|(c & Hsend & _)].
    + rewrite Hn. eexists _, _, _. split; [done|]. intros _.
      destruct (commit_done _ _ _ _ _ Ec) as (_ & Ha & Eg & _).
      apply (commit_engaged w e r w1 e1 HE Ec). rewrite Eg. inversion Hd; subst r; try done.
      eapply coupled_finish; [apply HE|exact Ht|exact Ha].
    + destruct Hsend as [Hk Hc]. rewrite Hc, Hk, string_eqb_refl.
      destruct (send Digest quote w1 e1 c t) as [[w2 e2] res] eqn:Es. destruct res as [err|].
      { eexists _, _, _. split; [done|]. by intros [|]. }
      assert (HE2 : engaged w2 e2) by by eapply (send_engaged w e r c w1 e1 t).
      destruct (RequireLedgerComplete (x_cfg e2)); eexists _, _, _; (split; [done|]); intros _; [|done].
      destruct HE2. by split.
Qed.

Lemma tick_loop_engaged n : forall w e t, engaged w e -> in_int64 t ->
  exists w' e' res, tick_loop Digest quote n w e t = Some (w', e', res) /\ (res = None -> engaged w' e').
Proof.
  induction n as [|n IH]; intros w e t HE Ht; cbn [tick_loop]; [by eexists _, _, _|].
  destruct (tick_step_engaged w e t HE Ht) as (w1 & e1 & ctl & -> & HE1). cbn [mbind option_bind].
  destruct ctl as [|err].
  - apply IH; [by apply HE1; left|done].
  - eexists _, _, _. split; [done|]. intros ->. by apply HE1; right.
Qed.

(** ** One event *)

Notation fill_ := (sim_fill Digest in_).

(** The simulator once it has started. *)
Definition running (st : sim_state) : Prop :=
  sm_started st = true /\ engaged (sm_world st) (sm_exec st) /\ int64_top (sm_top st).

Definition event_int64 (ev : Event) : Prop :=
  in_int64 (ev_AtNS ev) /\
  (forall b, ev_Book ev = Some b -> Forall (fun l => in_int64 (lv_Price l)) (bs_Bids b ++ bs_Asks b)).
(** A book or trade event carries its payload, as [Replay] emits it. *)
Definition event_whole (ev : Event) : Prop :=
  (ev_Type ev = EventBook -> is_Some (ev_Book ev)) /\ (ev_Type ev = EventTrade -> is_Some (ev_Trade ev)).

Lemma coupled_started g s : coupled g s -> Started s = true.
Proof. intros HC. apply Started_wf, (eo_wf _ (cu_state _ _ HC)). Qed.

(** A fill of the fake is news to the executor, and of a child it sent. *)
Lemma fill_is_news g s o : coupled g s -> g_live g = Some o ->
  s_Fills s !! fill_id (g_fillSeq g + 1) = None /\ is_none (sentKey s (bo_key o)) = false.
Proof.
  intros HC Hl. pose proof (gk_seq _ (cu_gateway _ _ HC)) as Hs. pose proof (gk_filled _ (cu_gateway _ _ HC)) as Hf. split.
  - destruct (s_Fills s !! _) as [f|] eqn:E; [|done]. exfalso.
    destruct (cu_fills _ _ HC _ _ E) as ((n & Hn & Hid) & _ & _). apply fill_id_inj in Hid; [lia|in64..].
  - destruct (cu_live _ _ HC _ Hl) as (_ & _ & (c & Hc & Hk & _)).
    destruct (is_none _) eqn:E; [|done]. exfalso. apply sent_none in E. apply E, list_elem_of_fmap. by exists c.
Qed.

Lemma fill_running st qty t : running st -> in_int64 t ->
  match fill_ st qty t with Ok st' => running st' | Err e => e <> SimPanicked end.
Proof.
  intros (Hs & HE & Htop) Ht. unfold sim_fill. destruct (t >=? UnixNano (ExpiresAt in_)) eqn:Ed; [done|].
  rewrite Z.geb_leb in Ed. bool_simpl. pose proof (GFill_ok (sw_gateway (sm_world st)) qty t (cu_gateway _ _ (en_coupled _ _ HE))) as Hf.
  destruct (g_live (sw_gateway (sm_world st))) as [o|] eqn:El.
  2: { rewrite Hf. split; [done|]. split; [|done]. by destruct HE. }
  destruct (qty <? 1).
  { rewrite Hf. split; [done|]. split; [|done]. by destruct HE. }
  cbv zeta in Hf. destruct Hf as (-> & Hg & Hq). set (q := Z.min qty (bo_open o)) in *.
  destruct (OnFill Digest _ _ _) as [[w e] [err|]] eqn:Eo; [done|]. split; [done|]. split; [|done].
  cbn [sm_world sm_exec]. unfold OnFill in Eo. destruct (fill_is_news _ _ _ (en_coupled _ _ HE) El) as [Hn Hk].
  rewrite (coupled_started _ _ (en_coupled _ _ HE)) in Eo. cbn [f_FillID f_Key] in Eo. rewrite Hn, Hk in Eo.
  cbn [negb is_some is_none] in Eo.
  match type of Eo with context [commit ?d ?w1 ?e1 ?r] => destruct (commit d w1 e1 r) as [[w2 e2] [|]] eqn:Ec; [done|] end.
  destruct (Overfill _ >? 0); [done|]. injection Eo as <- <-.
  destruct (commit_done _ _ _ _ _ Ec) as (_ & Ha & Eg & E1 & E2 & _ & E3). cbn in Eg. pose proof (en_intent _ _ HE) as Ei.
  split; [|done|rewrite E1; apply HE|rewrite E2; apply HE|by rewrite Eg]. rewrite Eg.
  apply (coupled_fill _ (x_state (sm_exec st)) o q t); try done; [apply HE|lia|].
  destruct (cu_intent _ _ (en_coupled _ _ HE)) as (Ein & _ & _). by rewrite <- Ein, Ei.
Qed.

(** The simulator before its first event. *)
Definition waiting (st : sim_state) : Prop :=
  sm_started st = false /\ sw_gateway (sm_world st) = NewGateway in_ /\ x_state (sm_exec st) = zero_state /\
  x_top (sm_exec st) = None /\
  in_int64 (StepEvery (x_cfg (sm_exec st))) /\ in_int64 (StaleAfter (x_cfg (sm_exec st))) /\ int64_top (sm_top st).

Definition ends_well (r : result sim_state sim_error) : Prop :=
  match r with Ok st => running st | Err e => e <> SimPanicked end.

Lemma start_running st t : waiting st \/ running st -> in_int64 t -> ends_well (sim_start Digest in_ st t).
Proof.
  intros [(Hs & Hg & Hx & Htop & H1 & H2 & H3)|HR] Ht; unfold sim_start.
  2: { pose proof HR as (-> & _). done. }
  rewrite Hs. destruct (Start Digest (sm_world st) (sm_exec st) in_ t) as [[w e] [err|]] eqn:Es; [done|].
  unfold Start in Es. destruct (commit_done _ _ _ _ _ Es) as (_ & Ha & Eg & E1 & E2 & _ & E3). rewrite Hx in Ha.
  split; [done|]. split; [|done]. cbn [sm_world sm_exec].
  split; [|done|by rewrite E1|rewrite E2, Htop; done|by rewrite Eg, Hg]. rewrite Eg, Hg. by apply (coupled_start in_ t).
Qed.

Lemma set_top_running t st : int64_top t -> running st -> running (set_top t st).
Proof.
  intros Ht (Hs & [HC He Hc Htop Hi] & _). split; [done|]. split; [|done]. split; try done. cbn. by intros ? [= <-].
Qed.
Lemma set_mid_running st : running st -> running (set_mid st).
Proof.
  intros (Hs & HE & Ht). unfold set_mid. destruct (_ && _ && _ && _); [|done]. split; [done|]. split; [|done].
  by destruct HE.
Qed.

Lemma book_running rule st ev b : running st -> in_int64 (ev_AtNS ev) ->
  Forall (fun l => in_int64 (lv_Price l)) (bs_Bids b ++ bs_Asks b) -> ends_well (on_book Digest in_ rule st ev b).
Proof.
  intros HR Ht [Hb Ha]%Forall_app. unfold on_book. cbv zeta.
  match goal with |- context [set_mid (set_top ?t st)] => assert (H1 : running (set_mid (set_top t st))) end.
  { apply set_mid_running, set_top_running; [|done]. split; [|split; [|done]]; cbn.
    - destruct (bs_Bids b) as [|l bs]; [in64|by apply Forall_cons in Hb as [? _]].
    - destruct (bs_Asks b) as [|l bs]; [in64|by apply Forall_cons in Ha as [? _]]. }
  revert H1. generalize (set_mid (set_top (mkTop
    match bs_Bids b with lv :: _ => lv_Price lv | [] => 0 end
    match bs_Asks b with lv :: _ => lv_Price lv | [] => 0 end (ev_AtNS ev) (bs_Synced b)) st)).
  intros st1 H1. destruct (GLive (sw_gateway (sm_world st1))) as [[k p]|]; [|done].
  destruct (_ && _ && _); [|done]. by apply fill_running.
Qed.

Lemma trade_running rule st ev t : running st -> in_int64 (ev_AtNS ev) -> ends_well (on_trade Digest in_ rule st ev t).
Proof.
  intros HR Ht. unfold on_trade. destruct (GLive (sw_gateway (sm_world st))) as [[k p]|]; [|done].
  assert (H1 : ends_well (if (rule =s Through) && through (in_Side in_) (td_Price t) p
    then sim_fill Digest in_ st (td_Qty t) (ev_AtNS ev) else Ok st)).
  { destruct (_ && _); [|done]. by apply fill_running. }
  destruct (if _ && _ then _ else _) as [st1|e]; [|done]. destruct (_ && _); [|done]. by apply fill_running.
Qed.

Lemma event_running rule st ev : running st -> event_int64 ev -> event_whole ev ->
  ends_well (on_event Digest in_ rule st ev).
Proof.
  intros HR [Ht Hl] [Hb Htr]. unfold on_event. destruct (_ || _ || _).
  { apply set_top_running; [|done]. by destruct HR as (_ & _ & (? & ? & ?)). }
  destruct ((ev_Type ev =s EventBook) && _) eqn:E1; bool_simpl.
  { destruct Hb as [b Eb]; [done|]. rewrite Eb. apply book_running; [done|done|by apply Hl]. }
  destruct ((ev_Type ev =s EventTrade) && _) eqn:E2; bool_simpl; [|done].
  destruct Htr as [t Et]; [done|]. rewrite Et. by apply trade_running.
Qed.

Lemma tick_running st t : running st -> in_int64 t -> ends_well (sim_tick Digest quote st t).
Proof.
  intros (Hs & HE & Htop) Ht. unfold sim_tick, Executor.Tick.
  destruct (tick_loop_engaged maxStepsPerTick _ _ _ HE Ht) as (w & e & res & -> & HE1).
  destruct res as [err|]; [done|]. split; [done|]. split; [|done]. by apply HE1.
Qed.

Lemma sim_event_running rule st ev : waiting st \/ running st -> event_int64 ev -> event_whole ev ->
  ends_well (sim_event Digest quote in_ rule st ev).
Proof.
  intros HS Hi Hw. unfold sim_event. pose proof (start_running st (ev_AtNS ev) HS (proj1 Hi)) as H1.
  destruct (sim_start _ _ st _) as [st1|e]; [|done]. pose proof (event_running rule st1 ev H1 Hi Hw) as H2.
  destruct (on_event _ _ _ st1 ev) as [st2|e]; [|done]. by apply tick_running; [|apply Hi].
Qed.

Lemma sim_events_running rule evs : forall st, waiting st \/ running st ->
  Forall event_int64 evs -> Forall event_whole evs ->
  match sim_events Digest quote in_ rule st evs with
  | Ok st' => (evs = [] /\ st' = st) \/ running st'
  | Err e => e <> SimPanicked
  end.
Proof.
  induction evs as [|ev evs IH]; intros st HS Hi Hw; cbn [sim_events]; [by left|].
  apply Forall_cons in Hi as [Hi His]. apply Forall_cons in Hw as [Hw Hws].
  pose proof (sim_event_running rule st ev HS Hi Hw) as H1. destruct (sim_event _ _ _ _ st ev) as [st1|e]; [|done].
  specialize (IH st1 (or_intror H1) His Hws). destruct (sim_events _ _ _ _ st1 evs); [|done].
  destruct IH as [[-> ->]|?]; by right.
Qed.
End replaying.

(** ** The events of a replay are whole *)

Section events.
Context `{EvidenceCodec} (emit_ok : list Event -> Event -> bool).
(** A decoded line's [at_ns] is a Go [int64]. *)
Hypothesis Hat : forall raw l, ev_unmarshal raw = Some l -> in_int64 (ln_AtNS l).

Definition good_event (ev : Event) : Prop := event_int64 ev /\ event_whole ev.
Definition good_events (rp : replayer) : Prop := Forall good_event (rp_events rp).
Definition stays_good (r : result replayer (replayer * replay_failure)) : Prop :=
  match r with Ok rp | Err (rp, _) => good_events rp end.

Lemma send_good e rp : good_event e -> good_events rp -> stays_good (rp_send emit_ok e rp).
Proof.
  intros He Hr. unfold rp_send. destruct (emit_ok _ _); [|done]. cbn. unfold good_events. cbn.
  apply Forall_app. split; [done|]. by constructor.
Qed.

(** An event without a payload. *)
Lemma plain_good type session seq at_ tr symbol missing since :
  in_int64 at_ -> type <> EventBook -> type <> EventTrade ->
  good_event (mkEvent type session seq at_ tr symbol None None missing since).
Proof. intros Ha Hb Ht. split; [split; [done|done]|split; done]. Qed.

Lemma apply_record_good rp l f i v : in_int64 (ln_AtNS l) -> frame_ok f -> good_events rp ->
  stays_good (apply_record emit_ok rp l f i v).
Proof.
  intros Ha Hf Hr. unfold apply_record. cbv zeta. destruct (fr_TR f =s TRBook).
  - destruct (fr_Books f !! i) as [r|] eqn:Eb; [|done]. apply send_good; [|done].
    split; [split; [done|]|split; [by intros _; eexists|by intros [=]]]. cbn. intros b [= <-]. cbn.
    destruct (proj1 (Forall_lookup _ _) (fo_books _ Hf) i r Eb) as (_ & _ & _ & Hasks & Hbids & _).
    apply Forall_app. split; [eapply Forall_impl; [exact Hbids|]|eapply Forall_impl; [exact Hasks|]]; by intros x [].
  - destruct (fr_Trades f !! i) as [r|]; [|done]. apply send_good; [|done].
    split; [by split|]. split; [by intros [=]|by intros _; eexists].
Qed.

Lemma verdict_loop_good l f vs : in_int64 (ln_AtNS l) -> frame_ok f ->
  forall i rp, good_events rp -> stays_good (verdict_loop emit_ok l f i vs rp).
Proof.
  intros Ha Hf. induction vs as [|v vs IH]; intros i rp Hr; cbn [verdict_loop]; [done|].
  assert (Happ : forall rp, good_events rp -> stays_good (match apply_record emit_ok rp l f i v with
    | Err e => Err e | Ok rp => verdict_loop emit_ok l f (S i) vs rp end)).
  { intros rp1 H1. pose proof (apply_record_good rp1 l f i v Ha Hf H1) as H2.
    destruct (apply_record emit_ok rp1 l f i v) as [rp2|[rp2 e]]; [by apply IH|done]. }
  repeat (split_if_goal; [by apply IH|]). split_if_goal; [|by apply Happ].
  match goal with |- context [rp_send emit_ok ?e ?r] => assert (H1 : stays_good (rp_send emit_ok e r));
    [apply send_good; [by apply plain_good|done]|destruct (rp_send emit_ok e r) as [rp1|[rp1 e1]]; [|done]] end.
  by apply Happ.
Qed.

Lemma rp_frame_good l rp : in_int64 (ln_AtNS l) -> good_events rp -> stays_good (rp_frame emit_ok l rp).
Proof.
  intros Ha Hr. unfold rp_frame. destruct (ParseFrame (raw_of l)) as [tr [f|e]] eqn:Ef; [|done].
  apply ParseFrame_facts in Ef as [_ Hf]. destruct (track_frame _ _ _) as [[t vs] day].
  apply verdict_loop_good; [done|done|]. destruct (decide _), day; done.
Qed.

Lemma rp_decoded_good l rp : in_int64 (ln_AtNS l) -> good_events rp -> stays_good (rp_decoded emit_ok l rp).
Proof.
  intros Ha Hr. unfold rp_decoded. repeat (split_if_goal; [done|]).
  split_if_goal; [apply send_good; [by apply plain_good|done]|].
  split_if_goal; [apply send_good; [by apply plain_good|done]|].
  split_if_goal; [apply send_good; [by apply plain_good|done]|].
  split_if_goal; [by apply rp_frame_good|done].
Qed.

Lemma replay_loop_good cs : forall n rp, good_events rp -> stays_good (replay_loop emit_ok cs n rp).
Proof using Hat.
  induction cs as [|c cs IH]; intros n rp Hr; cbn [replay_loop]; [done|]. destruct (TrimSpace c =s ""); [by apply IH|].
  assert (H1 : stays_good (rp_line emit_ok c n rp)).
  { unfold rp_line. destruct (ev_unmarshal c) as [l|] eqn:El.
    - destruct (_ && _); [done|]. by apply rp_decoded_good; [apply (Hat c)|].
    - by destruct (negb _). }
  destruct (rp_line emit_ok c n rp) as [rp1|[rp1 e]]; [by apply IH|done].
Qed.

Lemma Replay_good file : stays_good (Replay emit_ok file).
Proof using Hat. apply replay_loop_good. constructor. Qed.
End events.

(** ** The theorems *)

Section theorems.
Context `{LineCodec} `{EvidenceCodec} (Digest : State -> string) (quote : string -> string).
Variables (in_ : Intent) (cfg : Config) (rule : string) (disk_faults : list disk_fault).
Hypothesis Hat : forall raw l, ev_unmarshal raw = Some l -> in_int64 (ln_AtNS l).
Hypothesis Hcfg : in_int64 (StepEvery cfg) /\ in_int64 (StaleAfter cfg).

(** The simulator [RunOne] starts on an empty journal. *)
Definition sim_initial : sim_state :=
  mkSimState (mkSimWorld (NewGateway in_) [] disk_faults) (New cfg (mkJournal "" 0) zero_state) false
    (S754_zero false) zero_top.

Lemma initial_waiting : waiting in_ sim_initial.
Proof using Hcfg.
  split; [done|]. split; [done|]. split; [done|]. split; [done|]. split; [apply Hcfg|]. split; [apply Hcfg|].
  cbn. unfold int64_top. cbn. in64.
Qed.

Lemma RunOne_events evidence :
  RunOne Digest quote in_ cfg rule evidence "" disk_faults env_ok =
  if negb (ValidRule rule) then Err (ErrUnknownRule rule)
  else match Replay (sim_accepts Digest quote in_ rule sim_initial) evidence with
       | Err (_, e) => Err (ErrReplay e)
       | Ok rp => match sim_events Digest quote in_ rule sim_initial (rp_events rp) with
                  | Ok st => Ok (sim_report in_ rule st) | Err e => Err e end
       end.
Proof using Type. done. Qed.

(** What a simulator that ran is: the rules were kept, and the fills are the
    order's. *)
Record kept_rules (st : sim_state) : Prop := {
  kr_violations : g_Violations (sw_gateway (sm_world st)) = [];
  kr_filled : s_Filled (x_state (sm_exec st)) = g_filled (sw_gateway (sm_world st)) /\
    0 <= s_Filled (x_state (sm_exec st)) <= s_Target (x_state (sm_exec st));
  kr_sum : s_Filled (x_state (sm_exec st)) = map_sum64 fill_qty (s_Fills (x_state (sm_exec st)));
  kr_fills : forall id f, s_Fills (x_state (sm_exec st)) !! id = Some f ->
    f_AtNS f < UnixNano (ExpiresAt in_) /\
    exists c, c ∈ s_Sent (x_state (sm_exec st)) /\ c_Key c = f_Key f /\ c_Price c = f_Price f
}.

Lemma running_kept st : running in_ st -> kept_rules st.
Proof using Type.
  intros (_ & [[G S (I1 & I2 & I3) A F E B L U] He Hc Ht Hi] & _). destruct G as [G1 G2 G3 G4 G5]. split; [done| | |].
  - split; [done|]. rewrite E, <- I3. lia.
  - apply (wf_filled _ (eo_wf _ S)).
  - intros id f Hf. destruct (F id f Hf) as (_ & Hd & Hp). rewrite <- I1, Hi in Hd. by split.
Qed.

Lemma initial_kept : kept_rules sim_initial.
Proof using Type. by split. Qed.

Lemma sim_events_kept evs : Forall good_event evs ->
  match sim_events Digest quote in_ rule sim_initial evs with Ok st => kept_rules st | Err e => e <> SimPanicked end.
Proof using Hcfg.
  intros Hg. pose proof (sim_events_running Digest quote in_ rule evs sim_initial (or_introl initial_waiting)
    (Forall_impl _ _ _ Hg (fun ev => @proj1 _ _)) (Forall_impl _ _ _ Hg (fun ev => @proj2 _ _))) as Hr.
  destruct (sim_events _ _ _ _ _ evs) as [st|e]; [|done].
  destruct Hr as [[_ ->]|Hr]; [apply initial_kept|by apply running_kept].
Qed.


(** A report of [RunOne] shows no violation and a fill between nothing and
    the target. *)
Theorem RunOne_sound evidence r :
  RunOne Digest quote in_ cfg rule evidence "" disk_faults env_ok = Ok r ->
  ValidRule rule = true /\ rs_Violations r = 0%nat /\ 0 <= rs_Filled r <= rs_Target r.
Proof using Hat Hcfg.
  rewrite RunOne_events. destruct (ValidRule rule); cbn [negb]; [|done].
  pose proof (Replay_good (sim_accepts Digest quote in_ rule sim_initial) Hat evidence) as Hg.
  destruct (Replay _ evidence) as [rp|[rp e]]; [|done]. pose proof (sim_events_kept _ Hg) as Hk.
  destruct (sim_events _ _ _ _ _ (rp_events rp)) as [st|e]; [|done]. intros [= <-]. destruct Hk as [K1 [_ K2] _ _].
  cbn. rewrite K1. done.
Qed.
End theorems.

(** ** Rounding *)

(** [round2] rounds to the nearest hundredth, half away from zero: with
    [n/d] hundredths to round and [c] the result, [c] is within half of [n/d],
    and farther from zero when it is exactly half away. *)
Theorem cents_nearest v :
  let n := 100 * Qnum v in let d := Z.pos (Qden v) in let c := cents v in
  2 * Z.abs (n - c * d) <= d /\ (2 * Z.abs (n - c * d) = d -> Z.abs n < Z.abs c * d).
Proof.
  cbv zeta. unfold cents. cbn [Qmult Qnum Qden]. rewrite Pos.mul_1_r, (Z.mul_comm (Qnum v) 100).
  set (n := 100 * Qnum v). set (d := Z.pos (Qden v)). assert (Hd : 0 < d) by done.
  pose proof (Z.div_mod (Z.abs n) d ltac:(lia)) as Hdm. pose proof (Z.mod_pos_bound (Z.abs n) d Hd) as Hm.
  set (q := Z.abs n / d) in *. set (m := Z.abs n mod d) in *.
  assert (Hq : 0 <= q) by (apply Z.div_pos; lia). rewrite Z.geb_leb.
  destruct (Z.leb_spec d (2 * m)); destruct (Z.ltb_spec n 0); split; nia.
Qed.

(** The hundredths depend on the value only, not on the fraction. *)
#[export] Instance cents_proper : Proper (Qeq ==> eq) cents.
Proof.
  intros [n d] [n' d'] E. unfold Qeq in E. cbn in E. unfold cents. cbn [Qmult Qnum Qden]. rewrite !Pos.mul_1_r.
  assert (Habs : Z.abs (n * 100) * Z.pos d' = Z.abs (n' * 100) * Z.pos d) by nia.
  assert (Hq : Z.abs (n * 100) / Z.pos d = Z.abs (n' * 100) / Z.pos d').
  { rewrite <- (Z.div_mul_cancel_r _ (Z.pos d) (Z.pos d')), Habs by lia.
    rewrite (Z.mul_comm (Z.pos d)), Z.div_mul_cancel_r by lia. done. }
  rewrite Hq, !Z.geb_leb.
  assert (Hm : (Z.pos d <=? 2 * (Z.abs (n * 100) mod Z.pos d)) = (Z.pos d' <=? 2 * (Z.abs (n' * 100) mod Z.pos d'))).
  { rewrite !Z.mod_eq by lia. rewrite Hq. set (q := _ / Z.pos d'). apply eq_true_iff_eq. rewrite !Z.leb_le. nia. }
  rewrite Hm. assert (Hs : (n * 100 <? 0) = (n' * 100 <? 0)) by (apply eq_true_iff_eq; rewrite !Z.ltb_lt; nia).
  by rewrite Hs.
Qed.

(** ** Witnesses *)

(** Lines in the bits of [dot_codec], the raw text apart from the rest. *)
Definition with_raw (raw : string) (l : Line) : Line :=
  mkEvidenceLine (ln_V l) (ln_Seq l) (ln_Kind l) (ln_AtNS l) (ln_StaleAfterMS l) (ln_Attempt l)
    (ln_Symbol l) (ln_SinceNS l) (ln_TR l) raw (ln_RawBytes l) (ln_Error l) (ln_Verdicts l).
Definition line_bits (l : Line) : positive := encode (ln_Raw l, with_raw "" l).
Definition of_line_bits (p : positive) : option Line :=
  '(raw, l) ← (decode p : option (string * Line)); Some (with_raw raw l).

Lemma of_line_bits_ok l : of_line_bits (line_bits l) = Some l.
Proof. unfold of_line_bits, line_bits. rewrite decode_encode. by destruct l. Qed.

(** A codec of the lines whose time fits, as [encoding/json] reads an
    [int64]. *)
#[local, refine] Instance int64_codec : EvidenceCodec := {
  ev_marshal l := if bool_decide (in_int64 (ln_AtNS l)) then Some (dot_bits (line_bits l)) else None;
  ev_unmarshal s :=
    match of_dot_bits s ≫= of_line_bits with
    | Some l => if bool_decide (in_int64 (ln_AtNS l)) then Some l else None
    | None => None
    end;
  ev_faithful _ := True
}.
Proof.
  - intros l b. case_match; [|done]. intros [= <-]. apply dot_bits_plain.
  - intros l b. case_match; [|done]. intros [= <-]. destruct (dot_bits_plain (line_bits l)) as [Hp _]. revert Hp.
    destruct (dot_bits (line_bits l)) as [|c b] eqn:E; [|apply TrimSpace_line].
    unfold dot_bits in E. by destruct (bits _).
  - intros l b _. case_match eqn:El; [|done]. intros [= <-]. destruct (of_dot_bits_ok (line_bits l)) as [-> ->].
    cbn. by rewrite of_line_bits_ok, El.
  - intros l b k. case_match; [|done]. intros [= <-] Hk. by destruct (of_dot_bits_torn (line_bits l) k Hk) as [-> ->].
Defined.

Lemma int64_codec_at raw l : ev_unmarshal raw = Some l -> in_int64 (ln_AtNS l).
Proof.
  cbn. destruct (of_dot_bits raw ≫= of_line_bits) as [l'|]; [|done].
  case_bool_decide; [|done]. by intros [= <-].
Qed.

Definition caret : Ascii.ascii := Ascii.Ascii false true true true true false true false.
(** One level of ten. *)
Definition sample_level (x : string) : list string := x :: replicate 9 "0".
(** A book of one ask at 70,000 and one bid at 69,900. *)
Definition sample_book_raw : string :=
  "0|H0STASP0|001|" +:+ Join caret (["005930"; "093000"; "0"] ++ sample_level "70000" ++ sample_level "69900"
    ++ sample_level "5" ++ sample_level "7" ++ ["5"; "7"]).
(** A trade of three at 69,800, through a bid at 69,900. *)
Definition sample_through_raw : string :=
  "0|H0STCNT0|001|005930^093001^69800^2^100^0.1^69900^69800^70100^69700^70000^69900^3^503^0^0^0^0^0^0^0^5".

(** What a recorder wrote of them. *)
Definition sample_evidence : string :=
  rc_file (rec_run (fun _ => true) (fun _ _ => "bad frame")
    [OFrame sample_book_raw 1000; OFrame sample_through_raw 2000] (NewRecorder "" [] 0 500)).
Definition sample_events : list Event :=
  match Replay accept_all sample_evidence with Ok rp => rp_events rp | Err _ => [] end.
Definition sample_replayed (rule : string) : result sim_state sim_error :=
  sim_events sample_digest sample_quote sample_buy rule (sim_initial sample_buy sample_cfg []) sample_events.

Lemma sample_cfg_int64 : in_int64 (StepEvery sample_cfg) /\ in_int64 (StaleAfter sample_cfg).
Proof. unfold in_int64, min_int64, max_int64. cbn. lia. Qed.


Definition sample_run : result SimResult sim_error :=
  RunOne sample_digest sample_quote sample_buy sample_cfg Touch sample_evidence "" [] env_ok.
Lemma sample_run_filled : match sample_run with Ok r => rs_Filled r | Err _ => 0 end = 10.
Proof. vm_compute. reflexivity. Qed.

Lemma RunOne_sound_witness :
  exists r, sample_run = Ok r /\ rs_Filled r = 10 /\ rs_Violations r = 0%nat /\ rs_Filled r <= rs_Target r.
Proof.
  pose proof (RunOne_sound sample_digest sample_quote sample_buy sample_cfg Touch [] int64_codec_at sample_cfg_int64
    sample_evidence) as H. fold sample_run in H.
  pose proof sample_run_filled as Hf. destruct sample_run as [r|e]; [|discriminate Hf].
  destruct (H r eq_refl) as (_ & H2 & _ & H3). exists r.
  split; [reflexivity|]. split; [exact Hf|]. split; [exact H2|exact H3].
Defined.
