(* ===== verification/Runner.v ===== *)
(** [src/internal/quote/runner.go] and the wrappers of
    [src/internal/quote/safe.go]: the goroutines of the quote lane.

    Each goroutine is a program over the calls it makes: the clock, contexts,
    channels, counters, the declaration limiter, and the dependencies the lane
    is given (the token source, the dialer and its transports, Redis).  A
    dependency may panic; [contain] turns that into an error.  The loops run
    until a context ends, so they have as many [rounds] as asked for, and the
    theorems hold for every number.  Log output is left out. *)

From S2P Require Import Prelude GoStr KST Session Limits Quotes Prog.
Local Open Scope Z_scope.
Local Open Scope go_scope.

(** ** Constants *)

Definition DefaultStreamKey : string := "quotes:toss".
Definition Endpoint : string := "wss://openapi-ws.tossinvest.com/ws/v1".
Definition dialTimeout : Z := 30 * second_ns.
Definition writeTimeout : Z := 10 * second_ns.
Definition xaddTimeout : Z := 2 * second_ns.
Definition defaultPingInterval : Z := 60 * second_ns.
Definition maxRedeclares : Z := 3.
Definition maxWaitSlice : Z := minute_ns.
Definition healthyRun : Z := minute_ns.
Definition defaultRetry : Z := second_ns.
Definition maxRetry : Z := 5 * minute_ns.
Definition tokenPoll : Z := 15 * second_ns.

(** ** Errors *)

(** The errors of the lane, what a dependency says of itself ([ErrOther]), and
    the end of a context. *)
Inductive lane_error : Type :=
| ErrTokenUnavailable
| ErrUnauthorized
| ErrForbidden
| ErrOther (text : string)
| ErrContext
| errContainedPanic
| errSecondConnection
| errNoTransport
| errTokenRejected
| errNoSubscriptions
| errServerShutdown
| errServerError (code : string)
| errTooManyRedeclare
| errStreamStopped (e : lane_error).

(** [errors.Is] on the errors the supervisor looks for: what a wrapping error
    carries counts. *)
Fixpoint error_is (target : lane_error -> bool) (e : lane_error) : bool :=
  target e || match e with errStreamStopped e => error_is target e | _ => false end.
Definition is_unauthorized (e : lane_error) : bool := match e with ErrUnauthorized => true | _ => false end.
Definition is_forbidden (e : lane_error) : bool := match e with ErrForbidden => true | _ => false end.
Definition is_token_wait (e : lane_error) : bool :=
  match e with ErrTokenUnavailable | errTokenRejected => true | _ => false end.

(** What a call to a dependency ends with, and [contain]. *)
Inductive dep (A : Set) : Set :=
| Panics
| Gives (a : A)
| Fails (e : lane_error).
Arguments Panics {A}.
Arguments Gives {A} a.
Arguments Fails {A} e.
Definition contain {A : Set} (d : dep A) : result A lane_error :=
  match d with Panics => Err errContainedPanic | Gives a => Ok a | Fails e => Err e end.

(** ** The calls *)

(** [Counters], by field. *)
Inductive counter : Set :=
| Frames | TicksWritten | Dropped (reason : string) | DropBufferFull | UnknownFrames | XAddErrors
| SubscribeRejected | ErrorFrames | TokenUnavailable | TokenRejected | Declarations | Pings | Dials | WindowRuns.

(** What a websocket message of the lane holds: the declaration that
    [json.Marshal] is given, or a ping. *)
Inductive outgoing : Set := Declaration | Ping.

(** What the [select] of a connection found ready. *)
Inductive signal : Set :=
| WindowDone
| ReaderDone (e : lane_error)
| ControlFrame (f : QFrame)
| TimerFired.

(** Window contexts and transports are known by number. *)
Inductive op : Set -> Type :=
| Now : op Z
| LaneErr : op bool
| NewWindow : op nat
| WindowErr (w : nat) : op bool
| CloseWindow (w : nat) : op unit
| GoWatch (w : nat) (closes : Z) : op unit
| AskToken (w : nat) : op (dep string)
| TakeOpen : op bool
| ReleaseOpen : op unit
| ReleaseOnce (h : nat) : op unit
| AskDial (w : nat) (timeout : Z) (endpoint token : string) : op (dep (option nat))
| AskClose (h : nat) : op (dep unit)
| AskWrite (w h : nat) (timeout : Z) (data : outgoing) : op (dep unit)
| AskRead (w h : nat) : op (dep string)
| GoRead (w h : nat) : op unit
| Reserve : op (Z + unit)
| CoolDown (until : Z) : op unit
| SleepLane (d : Z) : op bool
| SleepWindow (w : nat) (d : Z) : op bool
| Select (w h : nat) (d : Z) : op signal
| Count (c : counter) : op unit
| Int64N (n : Z) : op Z
| OfferTick (t : QTick) : op bool
| RecvTick : op (option QTick)
| SendControl (w h : nat) (f : QFrame) : op bool
| SendDone (h : nat) (e : lane_error) : op unit
| XAdd (timeout : Z) (stream : string) (maxLen : Z) (entry : list (string * string)) : op bool.

Notation program := (prog op).

(** ** The configuration *)

(** [Config] after the defaults; [Symbols] and the declaration are what
    [NewRunner] derives the schedule and the decoder from. *)
Record runner := mkRunner {
  StreamKey : string; MaxLen : Z; Buffer : Z; RetryMin : Z; RetryMax : Z; PingInterval : Z;
  rn_schedule : list string; rn_symbols : gset QSymbol; rn_declaration : list (string * list string)
}.

Inductive config_error : Type :=
| ErrSymbolCount | ErrSymbol | ErrDependencies | ErrStream | ErrDeclaration.

(** The symbol loop of [NewRunner]. *)
Fixpoint symbols_accepted (seen : gset QSymbol) (symbols : list QSymbol) : bool :=
  match symbols with
  | [] => true
  | s :: symbols =>
      if negb (ValidSymbol s) || bool_decide (s ∈ seen) then false
      else symbols_accepted ({[ s ]} ∪ seen) symbols
  end.

(** [NewRunner]; [deps] says that the token source, the dialer and the Redis
    client are there. *)
Definition NewRunner (symbols : list QSymbol) (deps : bool) (streamKey : string)
  (maxLen buffer retryMin retryMax pingInterval : Z) : result runner config_error :=
  if (length symbols =? 0)%nat || (MaxSymbols <? length symbols)%nat then Err ErrSymbolCount
  else if negb (symbols_accepted ∅ symbols) then Err ErrSymbol
  else if negb deps then Err ErrDependencies
  else if negb (HasPrefix streamKey "quotes:") || (maxLen <=? 0) || (buffer <=? 0) then Err ErrStream
  else
    let retryMin := if retryMin <=? 0 then defaultRetry else retryMin in
    let retryMax := if retryMax <? retryMin then Z.max maxRetry retryMin else retryMax in
    let pingInterval := if pingInterval <=? 0 then defaultPingInterval else pingInterval in
    match buildDeclaration symbols with
    | None => Err ErrDeclaration
    | Some (declaration, markets) =>
        Ok (mkRunner streamKey maxLen buffer retryMin retryMax pingInterval (NewSchedule markets)
              (NewQuoteDecoder symbols) declaration)
    end.

Section Runner.
Context {codec : TossCodec} (Eastern : location) (r : runner) (rounds : nat).

(** ** Waiting *)

(** [waitUntil]. *)
Fixpoint waitUntil (n : nat) (deadline : Z) : program unit :=
  match n with
  | O => OutOfFuel
  | S n =>
      over ← call LaneErr;
      if (over : bool) then mret tt
      else
        now ← call Now;
        let remaining := time_sub deadline now in
        if remaining <=? 0 then mret tt
        else
          over ← call (SleepLane (Z.min remaining maxWaitSlice));
          if (over : bool) then mret tt else waitUntil n deadline
  end.

(** [windowOpen]. *)
Definition windowOpen (closes : Z) : program bool :=
  now ← call Now;
  mret (match At Eastern (rn_schedule r) now with Some current => current =? closes | None => false end).

(** [watchWindow]. *)
Fixpoint watchWindow (n w : nat) (closes : Z) : program unit :=
  match n with
  | O => OutOfFuel
  | S n =>
      over ← call (WindowErr w);
      if (over : bool) then mret tt
      else
        still ← windowOpen closes;
        if negb still then mret tt
        else
          now ← call Now;
          over ← call (SleepWindow w (Z.min (time_sub closes now) maxWaitSlice));
          if (over : bool) then mret tt else watchWindow n w closes
  end.
(** The goroutine that ends a window's context. *)
Definition watcher (w : nat) (closes : Z) : program unit :=
  watchWindow rounds w closes;; call (CloseWindow w).

(** ** One connection *)

(** [declareLimiter.Wait]. *)
Fixpoint limiterWait (n w : nat) : program (option lane_error) :=
  match n with
  | O => OutOfFuel
  | S n =>
      admitted ← call Reserve;
      match admitted with
      | inr _ => mret None
      | inl wait =>
          over ← call (SleepWindow w wait);
          if (over : bool) then mret (Some ErrContext) else limiterWait n w
      end
  end.

(** [write]. *)
Definition write (w h : nat) (data : outgoing) : program (option lane_error) :=
  answer ← call (AskWrite w h writeTimeout data);
  mret (match contain answer with Ok _ => None | Err e => Some e end).

(** [declare]. *)
Definition declare (w h : nat) : program (option lane_error) :=
  e ← limiterWait rounds w;
  match e with
  | Some e => mret (Some e)
  | None => call (Count Declarations);; write w h Declaration
  end.

(** [safeDialer.Dial] and [singleConnection.Dial]. *)
Definition safeDial (w : nat) (endpoint token : string) : program (result nat lane_error) :=
  answer ← call (AskDial w dialTimeout endpoint token);
  mret (match contain answer with
        | Err e => Err e
        | Ok None => Err errNoTransport
        | Ok (Some h) => Ok h
        end).
Definition singleDial (w : nat) (endpoint token : string) : program (result nat lane_error) :=
  free ← call TakeOpen;
  if negb free then mret (Err errSecondConnection)
  else
    dialed ← safeDial w endpoint token;
    match dialed with
    | Err e => call ReleaseOpen;; mret (Err e)
    | Ok h => mret (Ok h)
    end.
(** [releasingTransport.Close]. *)
Definition closeTransport (h : nat) : program unit := call (AskClose h);; call (ReleaseOnce h).

(** An error once the connection is made: nothing to report when the window
    is over ([windowEnded]). *)
Definition unless_ended (w : nat) (e : lane_error) : program (option lane_error) :=
  over ← call (WindowErr w);
  mret (if (over : bool) then None else Some e).

(** What a frame of the control channel leads to: leaving the connection loop
    with a result, or staying with so many redeclarations. *)
Inductive handled : Type := Leave (e : option lane_error) | Stay (redeclares : Z).

Fixpoint count_rejected (rejected : list Rejection) : program unit :=
  match rejected with [] => mret tt | _ :: rejected => call (Count SubscribeRejected);; count_rejected rejected end.

Definition handleControl (w h : nat) (redeclares : Z) (f : QFrame) : program handled :=
  match f with
  | FrameSubscriptions subscribed rejected =>
      count_rejected rejected;;
      mret (match subscribed with [] => Leave (Some errNoSubscriptions) | _ => Stay redeclares end)
  | FrameError code =>
      call (Count ErrorFrames);;
      if code =s "server-shutdown" then mret (Leave (Some errServerShutdown))
      else if code =s "rate-limit-exceeded" then
        let redeclares := redeclares + 1 in
        if redeclares >? maxRedeclares then mret (Leave (Some errTooManyRedeclare))
        else
          e ← declare w h;
          match e with
          | None => mret (Stay redeclares)
          | Some e => e ← unless_ended w e; mret (Leave e)
          end
      else mret (Leave (Some (errServerError code)))
  | _ => mret (Stay redeclares)
  end.

(** The [for] of [runWindow]. *)
Fixpoint connectionLoop (n w h : nat) (redeclares nextPing : Z) : program (option lane_error) :=
  match n with
  | O => OutOfFuel
  | S n =>
      now ← call Now;
      s ← call (Select w h (Z.max (time_sub nextPing now) 0));
      match s with
      | WindowDone => mret None
      | ReaderDone e => unless_ended w (errStreamStopped e)
      | ControlFrame f =>
          x ← handleControl w h redeclares f;
          match x with
          | Leave e => mret e
          | Stay redeclares => connectionLoop n w h redeclares nextPing
          end
      | TimerFired =>
          now ← call Now;
          if now <? nextPing then connectionLoop n w h redeclares nextPing
          else
            e ← write w h Ping;
            match e with
            | Some e => unless_ended w e
            | None =>
                call (Count Pings);;
                now ← call Now;
                connectionLoop n w h redeclares (now + PingInterval r)
            end
      end
  end.

(** [runWindow] from the reader's start to the transport's close. *)
Definition connected (w h : nat) : program (option lane_error) :=
  call (GoRead w h);;
  e ← declare w h;
  match e with
  | Some e => unless_ended w e
  | None => now ← call Now; connectionLoop rounds w h 0 (now + PingInterval r)
  end.

(** [runWindow]; with the result, the tokens the lane remembers as refused. *)
Definition dialAndServe (refused : refusedTokens) (w : nat) (token : string)
  : program (refusedTokens * option lane_error) :=
  call (Count Dials);;
  dialed ← singleDial w Endpoint token;
  match dialed with
  | Err e =>
      over ← call (WindowErr w);
      if (over : bool) then mret (refused, None)
      else if error_is is_unauthorized e then
        call (Count TokenRejected);; mret (Limits.add refused token, Some errTokenRejected)
      else mret (refused, Some e)
  | Ok h =>
      e ← connected w h;
      closeTransport h;;
      mret (refused, e)
  end.
Definition withWindow (refused : refusedTokens) (w : nat) : program (refusedTokens * option lane_error) :=
  answer ← call (AskToken w);
  match contain answer with
  | Err e =>
      over ← call (WindowErr w);
      if (over : bool) then mret (refused, None)
      else call (Count TokenUnavailable);; mret (refused, Some e)
  | Ok token =>
      if contains refused token then mret (refused, Some errTokenRejected)
      else dialAndServe refused w token
  end.
Definition runWindow (refused : refusedTokens) (closes : Z) : program (refusedTokens * option lane_error) :=
  w ← call NewWindow;
  call (GoWatch w closes);;
  x ← withWindow refused w;
  call (CloseWindow w);;
  mret x.

(** ** The supervisor *)

(** How long to wait after an error, before the jitter. *)
Definition retryWait (delay : Z) (e : lane_error) : Z :=
  if error_is is_forbidden e then RetryMax r
  else if error_is is_token_wait e then Z.min delay tokenPoll
  else delay.
Definition nextDelay (delay : Z) : Z := Z.min (delay *w 2) (RetryMax r).

Inductive supervise_turn : Type := LaneOver | NextTurn (delay : Z) (refused : refusedTokens).

(** What follows a window run that failed. *)
Definition retryLater (delay started closes : Z) (refused : refusedTokens) (e : lane_error)
  : program supervise_turn :=
  now ← call Now;
  let delay := if time_sub now started >=? healthyRun then RetryMin r else delay in
  let wait := retryWait delay e in
  jitter ← call (Int64N (Z.quot wait 5 +w 1));
  let wait := wait +w jitter in
  now ← call Now;
  let wake := now + wait in
  let wake := if wake >? closes then closes else wake in
  waitUntil rounds wake;;
  mret (NextTurn (nextDelay delay) refused).

(** One turn of [superviseLoop]. *)
Definition superviseTurn (delay : Z) (refused : refusedTokens) : program supervise_turn :=
  over ← call LaneErr;
  if (over : bool) then mret LaneOver
  else
    now ← call Now;
    match At Eastern (rn_schedule r) now with
    | None =>
        waitUntil rounds (NextOpen Eastern (rn_schedule r) now);;
        mret (NextTurn delay refused)
    | Some closes =>
        started ← call Now;
        call (Count WindowRuns);;
        x ← runWindow refused closes;
        let '(refused, e) := x in
        over ← call LaneErr;
        if (over : bool) then mret LaneOver
        else
          match e with
          | None => mret (NextTurn (RetryMin r) refused)
          | Some e => retryLater delay started closes refused e
          end
    end.
Fixpoint superviseLoop (n : nat) (delay : Z) (refused : refusedTokens) : program unit :=
  match n with
  | O => OutOfFuel
  | S n =>
      x ← superviseTurn delay refused;
      match x with
      | LaneOver => mret tt
      | NextTurn delay refused => superviseLoop n delay refused
      end
  end.
Definition supervisor : program unit := superviseLoop rounds (RetryMin r) (mkRefusedTokens [] ∅).

(** ** The reader and the writer *)

(** [readLoop]. *)
Fixpoint readLoop (n w h : nat) : program lane_error :=
  match n with
  | O => OutOfFuel
  | S n =>
      answer ← call (AskRead w h);
      match contain answer with
      | Err e => mret e
      | Ok raw =>
          received ← call Now;
          call (Count Frames);;
          match DecodeFrame Eastern (rn_symbols r) raw with
          | FrameMessage tick drop =>
              if drop <>s "" then call (Count (Dropped drop));; readLoop n w h
              else
                offered ← call (OfferTick tick);
                if (offered : bool) then readLoop n w h else call (Count DropBufferFull);; readLoop n w h
          | FrameSubscriptions subscribed rejected =>
              queued ← call (SendControl w h (FrameSubscriptions subscribed rejected));
              if (queued : bool) then readLoop n w h else mret ErrContext
          | FrameError code =>
              (if code =s "rate-limit-exceeded" then call (CoolDown (received + rateLimitCoolDown)) else mret tt);;
              queued ← call (SendControl w h (FrameError code));
              if (queued : bool) then readLoop n w h else mret ErrContext
          | FramePong => readLoop n w h
          | FrameUnknown => call (Count UnknownFrames);; readLoop n w h
          end
      end
  end.
(** The reader's goroutine. *)
Definition reader (w h : nat) : program unit := e ← readLoop rounds w h; call (SendDone h e).

(** [writeLoop]; the clock is read to space the log lines. *)
Fixpoint writeLoop (n : nat) : program unit :=
  match n with
  | O => OutOfFuel
  | S n =>
      received ← call RecvTick;
      match received with
      | None => mret tt
      | Some tick =>
          added ← call (XAdd xaddTimeout (StreamKey r) (MaxLen r) (values tick));
          if (added : bool) then call (Count TicksWritten);; writeLoop n
          else call (Count XAddErrors);; call Now;; writeLoop n
      end
  end.
Definition writer : program unit := writeLoop rounds.
End Runner.

(** ** Sample runs *)

(** Frames of a trade at 10:00 on Monday 2024-01-01 in Seoul, and of a rate
    limit. *)
Definition runner_toss : TossCodec := {|
  unmarshal_frame s :=
    if s =s "limit" then Some (mkWireFrame "error" "" "" [] [] (Some "rate-limit-exceeded"))
    else Some (mkWireFrame "message" "trade:kr:005930" "data" [] [] None);
  unmarshal_trade := @unmarshal_trade sample_toss;
  unmarshal_book := @unmarshal_book sample_toss;
  parse_time := @parse_time sample_toss;
  format_time := @format_time sample_toss
|}.
Definition sample_runner : runner :=
  match NewRunner [sample_symbol] true DefaultStreamKey 1000 2 0 0 0 with
  | Ok r => r
  | Err _ => mkRunner "" 0 0 0 0 0 [] ∅ []
  end.
Definition ten_oclock : Z := monday + 10 * hour_ns.

(** An environment whose clock moves by what is slept, where dials end with
    [dialed] and frames are [frame], and where the lane is stopped after
    [until]. *)
Definition sample_env (dialed : dep (option nat)) (frame : dep string) (until : Z) (clock : Z) {R : Set} (o : op R)
  : Z * R :=
  match o in op R return Z * R with
  | Now => (clock, clock)
  | LaneErr => (clock, until <=? clock)
  | NewWindow => (clock, 0%nat)
  | WindowErr _ => (clock, false)
  | CloseWindow _ | GoWatch _ _ | ReleaseOpen | ReleaseOnce _ | GoRead _ _ | CoolDown _ | Count _ | SendDone _ _ =>
      (clock, tt)
  | AskToken _ => (clock, Gives "token")
  | TakeOpen => (clock, true)
  | AskDial _ _ _ _ => (clock, dialed)
  | AskClose _ | AskWrite _ _ _ _ => (clock, Gives tt)
  | AskRead _ _ => (clock, frame)
  | Reserve => (clock, inr tt)
  | SleepLane d => (clock + d, false)
  | SleepWindow _ d => (clock + d, false)
  | Select _ _ _ => (clock, ReaderDone (ErrOther "closed"))
  | Int64N _ => (clock, 0)
  | OfferTick _ => (clock, true)
  | RecvTick => (clock, None)
  | SendControl _ _ f => (clock, match f with FrameError _ => false | _ => true end)
  | XAdd _ _ _ _ => (clock, true)
  end.
Definition sample_lane_run {A} (dialed : dep (option nat)) (frame : dep string) (seconds : Z) (p : program A) :=
  run (@sample_env dialed frame (ten_oclock + seconds * second_ns)) ten_oclock p.
