(* ===== verification/RunnerLane.v ===== *)
(** The quote lane is safe: what the goroutines of [Runner] do, alone and
    interleaved.

    Each goroutine has a role with a ghost state, and the specification
    [lane_spec] says which calls a role may make in it; the programs follow
    it, whatever the environment answers.  [answer] is the world they share:
    the clock, contexts, channels, the limiter, the connection guard, the
    transports and Redis.  The invariant of the system relates the two. *)

From stdpp Require Import gmap sorting.
From S2P Require Import Prelude GoStr KST Session Limits Quotes Prog Runner.
Local Open Scope Z_scope.

(** ** The supervisor's conduct *)

(** What the supervisor's calls so far amount to: the window it runs, whether
    it has taken the connection guard, the transport it holds (open, or closed
    and not yet given back), the token it
    was given, the tokens refused with the window still open, a refusal whose
    window has not been looked at, whether the limiter admitted a declaration
    that was not written yet, how many were written on this transport, and the
    last two readings of the clock. *)
Record sup := mkSup {
  sp_window : option nat; sp_guard : bool; sp_conn : option (nat * bool); sp_token : option string;
  sp_refused : refusedTokens; sp_401 : option string; sp_admitted : bool; sp_sent : Z;
  sp_now : Z; sp_before : Z
}.

Definition sup_step (g : sup) {R : Set} (o : op R) : R -> sup :=
  let 'mkSup window guard conn token refused last admitted sent now before := g in
  match o in op R return R -> sup with
  | Now => fun t => mkSup window guard conn token refused last admitted sent t now
  | NewWindow => fun w => mkSup (Some w) guard conn None refused last admitted sent now before
  | CloseWindow _ => fun _ => mkSup None guard conn token refused last admitted sent now before
  | AskToken _ => fun d =>
      mkSup window guard conn (match contain d with Ok t => Some t | Err _ => None end) refused last admitted sent
        now before
  | TakeOpen => fun _ => mkSup window true conn token refused last admitted sent now before
  | ReleaseOnce _ => fun _ => mkSup window false None token refused last admitted sent now before
  | ReleaseOpen => fun _ => mkSup window false conn token refused last admitted sent now before
  | AskDial _ _ _ tok => fun d =>
      match contain d with
      | Ok (Some h) => mkSup window guard (Some (h, true)) token refused last false 0 now before
      | Ok None => g
      | Err e =>
          mkSup window guard conn token refused (if error_is is_unauthorized e then Some tok else None)
            admitted sent now before
      end
  | WindowErr _ => fun over =>
      mkSup window guard conn token
        (match last with Some tok => if over : bool then refused else Limits.add refused tok | None => refused end)
        None admitted sent now before
  | AskClose h => fun _ => mkSup window guard (Some (h, false)) token refused last admitted sent now before
  | Reserve => fun a =>
      mkSup window guard conn token refused last (match a with inr _ => true | inl _ => admitted end) sent now before
  | AskWrite _ _ _ Declaration => fun _ => mkSup window guard conn token refused last false (sent + 1) now before
  | _ => fun _ => g
  end.

(** The counters that account for ticks. *)
Definition tick_counter (c : counter) : bool :=
  match c with TicksWritten | DropBufferFull | XAddErrors => true | _ => false end.

Section conduct.
Context {codec : TossCodec} (Eastern : location) (r : runner).

(** What the supervisor may call. *)
Definition sup_may (g : sup) {R : Set} (o : op R) : Prop :=
  match o with
  | NewWindow => sp_window g = None /\ sp_conn g = None /\ sp_guard g = false
  | GoWatch w closes => sp_window g = Some w /\ At Eastern (rn_schedule r) (sp_before g) = Some closes
  | AskToken w => sp_window g = Some w /\ sp_conn g = None
  | TakeOpen => sp_guard g = false /\ sp_conn g = None
  | AskDial w _ endpoint token =>
      sp_window g = Some w /\ sp_guard g = true /\ sp_conn g = None /\
      endpoint = Endpoint /\ sp_token g = Some token /\ contains (sp_refused g) token = false
  | ReleaseOpen => sp_guard g = true /\ sp_conn g = None
  | ReleaseOnce h => sp_guard g = true /\ sp_conn g = Some (h, false)
  | GoRead w h | Select w h _ => sp_window g = Some w /\ sp_conn g = Some (h, true)
  | AskWrite w h _ data =>
      sp_window g = Some w /\ sp_conn g = Some (h, true) /\
      match data with Declaration => sp_admitted g = true /\ sp_sent g <= maxRedeclares | Ping => True end
  | AskClose h => sp_conn g = Some (h, true)
  | CloseWindow w => sp_window g = Some w /\ sp_conn g = None /\ sp_guard g = false
  | Count c => tick_counter c = false
  | AskRead _ _ | CoolDown _ | OfferTick _ | RecvTick | SendControl _ _ _ | SendDone _ _ | XAdd _ _ _ _ => False
  | Now | LaneErr | WindowErr _ | Reserve | SleepLane _ | SleepWindow _ _ | Int64N _ => True
  end.

(** The guard answers what this goroutine, its only user, left it at. *)
Definition guard_answers (g : sup) {R : Set} (o : op R) : R -> Prop :=
  match o in op R return R -> Prop with TakeOpen => fun free => free = negb (sp_guard g) | _ => fun _ => True end.

(** ** The other goroutines *)

(** What a reader has in hand: a tick that is not offered or counted yet. *)
Definition decoded_tick (raw : string) : option QTick :=
  match DecodeFrame Eastern (rn_symbols r) raw with
  | FrameMessage t drop => if drop =s "" then Some t else None
  | _ => None
  end.

Inductive writing : Type := Empty | Got (t : QTick) | Written (ok : bool).
Inductive role : Type :=
| Supervisor (g : sup)
| Watcher
| Reader (held : option QTick)
| Writer (held : writing).

Definition lane_may (g : role) (R : Set) (o : op R) : Prop :=
  match g with
  | Supervisor g => sup_may g o
  | Watcher => match o with WindowErr _ | Now | SleepWindow _ _ | CloseWindow _ => True | _ => False end
  | Reader held =>
      match o with
      | AskRead _ _ => held = None
      | OfferTick t => held = Some t
      | Count DropBufferFull => is_Some held
      | Count c => tick_counter c = false
      | Now | CoolDown _ | SendControl _ _ _ | SendDone _ _ => True
      | _ => False
      end
  | Writer held =>
      match o, held with
      | RecvTick, Empty => True
      | XAdd _ stream maxLen entry, Got t => stream = StreamKey r /\ maxLen = MaxLen r /\ entry = values t
      | Count TicksWritten, Written ok => ok = true
      | Count XAddErrors, Written ok => ok = false
      | Now, _ => True
      | _, _ => False
      end
  end.
Definition lane_answers (g : role) (R : Set) (o : op R) : R -> Prop :=
  match g with Supervisor g => guard_answers g o | _ => fun _ => True end.

Definition reader_step (held : option QTick) {R : Set} (o : op R) : R -> option QTick :=
  match o in op R return R -> option QTick with
  | AskRead _ _ => fun d => match contain d with Ok raw => decoded_tick raw | Err _ => None end
  | OfferTick _ => fun offered => if offered : bool then None else held
  | Count DropBufferFull => fun _ => None
  | _ => fun _ => held
  end.
Definition writer_step (held : writing) {R : Set} (o : op R) : R -> writing :=
  match o in op R return R -> writing with
  | RecvTick => fun t => match t with Some t => Got t | None => Empty end
  | XAdd _ _ _ _ => fun ok => Written ok
  | Count _ => fun _ => Empty
  | _ => fun _ => held
  end.
Definition role_step (g : role) {R : Set} (o : op R) (x : R) : role :=
  match g with
  | Supervisor g => Supervisor (sup_step g o x)
  | Watcher => Watcher
  | Reader held => Reader (reader_step held o x)
  | Writer held => Writer (writer_step held o x)
  end.

(** The loops end when they have used up their rounds. *)
Definition lane_spec : spec op role := {|
  allowed := lane_may;
  answers := lane_answers;
  update g e := let 'Event o x := e in role_step g o x;
  may_run_out := True
|}.

(** ** The supervisor keeps to its conduct *)

Notation conducts g p Q := (wp lane_spec (Supervisor g) p Q).

(** The supervisor between windows, in a window without a connection, and
    serving one on which [n] declarations were written. *)
Definition resting (R : refusedTokens) (g : role) : Prop :=
  exists tok adm n t t', g = Supervisor (mkSup None false None tok R None adm n t t').
Definition opened (w : nat) (R : refusedTokens) (g : role) : Prop :=
  exists tok adm n t t', g = Supervisor (mkSup (Some w) false None tok R None adm n t t').
Definition serving (w h : nat) (R : refusedTokens) (n : Z) (g : role) : Prop :=
  exists tok adm t t', g = Supervisor (mkSup (Some w) true (Some (h, true)) tok R None adm n t t').

Ltac role_is := cbn; repeat eexists.
Ltac sup_call := wp_step; [first [done | cbn; tauto | idtac]|cbn [update lane_spec role_step sup_step] in *].

Lemma waitUntil_resting n : forall deadline R g, resting R g ->
  wp lane_spec g (waitUntil n deadline) (fun g' _ => resting R g').
Proof.
  induction n as [|n IH]; intros deadline R g (tok & adm & k & t & t' & ->); cbn [waitUntil]; [done|].
  sup_call. wp_step; [wp_step; role_is|]. sup_call. wp_step; [wp_step; role_is|].
  sup_call. wp_step; [wp_step; role_is|]. apply IH. role_is.
Qed.

Lemma limiterWait_serving n w : forall tok adm h R k t t',
  conducts (mkSup (Some w) true (Some (h, true)) tok R None adm k t t') (limiterWait n w) (fun g e =>
    serving w h R k g /\ (e = None -> exists tok t t', g = Supervisor (mkSup (Some w) true (Some (h, true)) tok R None true k t t'))).
Proof.
  induction n as [|n IH]; intros; cbn [limiterWait]; [done|]. sup_call. wp_step.
  - sup_call. wp_step; [wp_step; split; [role_is|done]|]. apply IH.
  - wp_step. split; [role_is|intros _; role_is].
Qed.

Lemma write_ping_serving w h R k g : serving w h R k g ->
  wp lane_spec g (write w h Ping) (fun g' _ => serving w h R k g').
Proof. intros (tok & adm & t & t' & ->). unfold write. sup_call. wp_step. role_is. Qed.

(** A declaration, of which there are at most four on a connection. *)
Lemma declare_serving rounds w h R k g : serving w h R k g -> k <= maxRedeclares ->
  wp lane_spec g (declare rounds w h) (fun g' e => exists k', serving w h R k' g' /\ (e = None -> k' = k + 1)).
Proof.
  intros (tok & adm & t & t' & ->) Hk. unfold declare. eapply wp_use; [apply limiterWait_serving|]. cbv beta.
  intros g e [Hs He]. destruct e as [e|]; [wp_step; by exists k|]. destruct (He eq_refl) as (tok' & u & u' & ->).
  sup_call. unfold write. sup_call. wp_step. exists (k + 1). split; [role_is|done].
Qed.

Lemma unless_ended_serving w h R k e g : serving w h R k g ->
  wp lane_spec g (unless_ended w e) (fun g' _ => serving w h R k g').
Proof. intros (tok & adm & t & t' & ->). unfold unless_ended. sup_call. wp_step. role_is. Qed.

Lemma count_rejected_serving rejected w h R k : forall g, serving w h R k g ->
  wp lane_spec g (count_rejected rejected) (fun g' _ => serving w h R k g').
Proof.
  induction rejected as [|x rejected IH]; intros g Hs; cbn [count_rejected]; [done|].
  pose proof Hs as (tok & adm & t & t' & ->). sup_call. by apply IH.
Qed.

Lemma handleControl_serving rounds w h R k f g : serving w h R (k + 1) g ->
  wp lane_spec g (handleControl rounds w h k f) (fun g' x =>
    match x with
    | Stay k' => serving w h R (k' + 1) g'
    | Leave _ => exists n, serving w h R n g'
    end).
Proof.
  intros Hs. unfold handleControl. destruct f as [|tick drop|subs rej|code|]; [by wp_step|by wp_step| | |by wp_step].
  - eapply wp_use; [by apply count_rejected_serving|]. cbv beta. intros g' _ Hs'.
    wp_step. destruct subs; [by exists (k + 1)|done].
  - pose proof Hs as (tok & adm & t & t' & ->). sup_call. wp_step; [wp_step; by exists (k + 1)|].
    wp_step; [|wp_step; by exists (k + 1)]. cbv zeta. wp_step; [wp_step; by exists (k + 1)|].
    rewrite Z.gtb_ltb in *. bool_simpl. eapply wp_use; [apply declare_serving with (k := k + 1); [done|lia]|].
    cbv beta. intros g' e (k' & Hk' & He). destruct e as [e|].
    + eapply wp_use; [by apply unless_ended_serving|]. cbv beta. intros g2 e' Hs2. wp_step. by exists k'.
    + wp_step. by rewrite He in Hk'.
Qed.

Lemma connectionLoop_serving rounds n w h R : forall k ping g, serving w h R (k + 1) g ->
  wp lane_spec g (connectionLoop r rounds n w h k ping) (fun g' _ => exists k', serving w h R k' g').
Proof.
  induction n as [|n IH]; intros k ping g (tok & adm & t & t' & ->); cbn [connectionLoop]; [done|].
  sup_call. sup_call. wp_step; [wp_step; role_is| | |].
  - eapply wp_mono; [|apply unless_ended_serving; role_is]. cbv beta. by exists (k + 1).
  - eapply wp_use; [apply handleControl_serving; role_is|]. cbv beta. intros g x Hx.
    destruct x as [e|k']; [wp_step; done|]. by apply IH.
  - sup_call. wp_step; [apply IH; role_is|]. eapply wp_use; [apply write_ping_serving; role_is|]. cbv beta.
    intros g e Hs. destruct e as [e|].
    + eapply wp_mono; [|by apply unless_ended_serving]. cbv beta. by exists (k + 1).
    + destruct Hs as (tok' & adm' & u & u' & ->). sup_call. sup_call. apply IH. role_is.
Qed.

Lemma connected_serving rounds w h R g : serving w h R 0 g ->
  wp lane_spec g (connected r rounds w h) (fun g' _ => exists k, serving w h R k g').
Proof.
  intros (tok & adm & t & t' & ->). unfold connected. sup_call.
  eapply wp_use; [apply declare_serving with (k := 0); [role_is|unfold maxRedeclares; lia]|]. cbv beta.
  intros g e (k & Hk & He). destruct e as [e|].
  - eapply wp_mono; [|by apply unless_ended_serving]. cbv beta. by exists k.
  - rewrite (He eq_refl) in Hk. destruct Hk as (tok' & adm' & u & u' & ->). sup_call.
    apply connectionLoop_serving. role_is.
Qed.
Lemma dialAndServe_opened rounds w R token adm n t t' : contains R token = false ->
  conducts (mkSup (Some w) false None (Some token) R None adm n t t') (dialAndServe r rounds R w token)
    (fun g' x => opened w x.1 g').
Proof.
  intros Hc. unfold dialAndServe, singleDial, safeDial. sup_call. wp_step. sup_call.
  match goal with H : answers _ _ TakeOpen ?b |- _ => cbn in H; subst b end. cbn [negb].
  wp_step. sup_call.
  match goal with |- context [contain ?d] => destruct (contain d) as [[h|]|e] eqn:Ed end.
  - do 2 wp_step. eapply wp_use; [apply connected_serving; role_is|]. cbv beta.
    intros g e (k & tok & adm' & u & u' & ->). unfold closeTransport. wp_step. sup_call. sup_call. wp_step. role_is.
  - wp_step. sup_call. wp_step. sup_call. wp_step; [wp_step; role_is|]. cbn [error_is is_unauthorized orb]. wp_step. role_is.
  - wp_step. sup_call. wp_step. sup_call. wp_step; [wp_step; destruct (error_is _ _); role_is|].
    wp_step; [sup_call; wp_step; role_is|]. wp_step. role_is.
Qed.

Lemma withWindow_opened rounds w R g : opened w R g ->
  wp lane_spec g (withWindow r rounds R w) (fun g' x => opened w x.1 g').
Proof.
  intros (tok & adm & n & t & t' & ->). unfold withWindow. sup_call.
  match goal with |- context [contain ?d] => destruct (contain d) as [token|e] eqn:Ed end.
  - wp_step; [wp_step; role_is|]. by apply dialAndServe_opened.
  - sup_call. wp_step; [wp_step; role_is|]. sup_call. wp_step. role_is.
Qed.

Lemma runWindow_resting rounds R closes tok adm n t t' : At Eastern (rn_schedule r) t' = Some closes ->
  conducts (mkSup None false None tok R None adm n t t') (runWindow r rounds R closes)
    (fun g' x => resting x.1 g').
Proof.
  intros Hc. unfold runWindow. sup_call. sup_call. eapply wp_use; [apply withWindow_opened; role_is|]. cbv beta.
  intros g x (tok' & adm' & n' & u & u' & ->). sup_call. wp_step. role_is.
Qed.

Definition turn_resting (x : supervise_turn) (g : role) : Prop :=
  match x with LaneOver => exists R, resting R g | NextTurn _ R => resting R g end.

Lemma retryLater_resting rounds delay started closes R e g : resting R g ->
  wp lane_spec g (retryLater r rounds delay started closes R e) (fun g' x => turn_resting x g').
Proof.
  intros (tok & adm & n & t & t' & ->). unfold retryLater. sup_call. sup_call. sup_call.
  eapply wp_use; [apply waitUntil_resting; role_is|]. cbv beta. intros g _ Hg. by wp_step.
Qed.

Lemma superviseTurn_resting rounds delay R g : resting R g ->
  wp lane_spec g (superviseTurn Eastern r rounds delay R) (fun g' x => turn_resting x g').
Proof.
  intros (tok & adm & n & t & t' & ->). unfold superviseTurn. sup_call. wp_step; [wp_step; exists R; role_is|].
  sup_call. wp_step.
  - sup_call. sup_call. eapply wp_use; [by apply runWindow_resting|]. cbv beta.
    intros g [R' e] (tok' & adm' & n' & u & u' & ->). sup_call. wp_step; [wp_step; exists R'; role_is|].
    wp_step; [apply retryLater_resting; role_is|wp_step; role_is].
  - eapply wp_use; [apply waitUntil_resting; role_is|]. cbv beta. intros g _ Hg. by wp_step.
Qed.

Lemma superviseLoop_resting rounds n : forall delay R g, resting R g ->
  wp lane_spec g (superviseLoop Eastern r rounds n delay R) (fun g' _ => exists R, resting R g').
Proof.
  induction n as [|n IH]; intros delay R g Hg; cbn [superviseLoop]; [done|].
  eapply wp_use; [by apply superviseTurn_resting|]. cbv beta. intros g' [|delay' R'] Hx; [by wp_step|by apply IH].
Qed.

(** ** Every goroutine follows its role *)

Notation follows := (Prog.follows lane_spec).

Ltac role_call := wp_step; [try (cbn; first [done|by eexists])|cbn [update lane_spec role_step reader_step writer_step] in *].

Lemma watcher_follows rounds w closes : follows Watcher (watcher Eastern r rounds w closes).
Proof.
  unfold watcher, Prog.follows. apply wp_bind. eapply wp_mono with (Q := fun g _ => g = Watcher).
  - intros g u ->. by role_call.
  - generalize rounds at 1. intros n. induction n as [|n IH]; cbn [watchWindow]; [done|].
    role_call. wp_step; [by wp_step|]. unfold windowOpen. wp_step. role_call. wp_step. wp_step; [by wp_step|].
    role_call. role_call. wp_step; [by wp_step|done].
Qed.

Lemma readLoop_follows n w h : wp lane_spec (Reader None) (readLoop Eastern r n w h) (fun g _ => exists t, g = Reader t).
Proof.
  induction n as [|n IH]; cbn [readLoop]; [done|]. role_call.
  match goal with |- context [contain ?d] => destruct (contain d) as [raw|e] eqn:Ed end; [|wp_step; by exists None].
  role_call. role_call. unfold decoded_tick. destruct (DecodeFrame _ _ raw) as [|tick drop|subs rej|code|].
  - by role_call.
  - destruct (drop =s "") eqn:Edrop; bool_simpl; cbn [negb].
    + role_call. destruct r3; [exact IH|]. by role_call.
    + by role_call.
  - role_call. wp_step; [done|wp_step; by exists None].
  - wp_step. wp_step; wp_step; [done| |]; role_call; (wp_step; [done|wp_step; by exists None]).
  - done.
Qed.
Lemma reader_follows rounds w h : follows (Reader None) (reader Eastern r rounds w h).
Proof.
  unfold reader, Prog.follows. eapply wp_use; [apply readLoop_follows|]. cbv beta. intros g e [t ->]. by role_call.
Qed.

Lemma writer_follows rounds : follows (Writer Empty) (writer r rounds).
Proof.
  unfold writer, Prog.follows. induction rounds as [|n IH]; cbn [writeLoop]; [done|]. role_call.
  wp_step; [|by wp_step]. role_call. wp_step.
  - by role_call.
  - role_call. by role_call.
Qed.

Lemma supervisor_follows rounds :
  follows (Supervisor (mkSup None false None None (mkRefusedTokens [] ∅) None false 0 0 0)) (supervisor Eastern r rounds).
Proof.
  unfold supervisor, Prog.follows. eapply wp_mono; [|apply superviseLoop_resting; role_is]. done.
Qed.
End conduct.

(** ** The world the goroutines share *)

(** The lane's clock and context, the limiter, the guard with the transports
    whose [once] has released it, the transports that are open, the window
    contexts that have ended, the channels and the counters; and, for the
    theorems, what was dialed and read, and what reached Redis. *)
Record lane_world := mkLaneWorld {
  lw_now : Z; lw_over : bool; lw_limiter : declareLimiter;
  lw_guard : bool; lw_released : list nat; lw_open : list nat; lw_handles : nat;
  lw_windows : nat; lw_ended : list nat;
  lw_ticks : list QTick; lw_controls : nat -> list QFrame; lw_done : nat -> list lane_error;
  lw_counts : list counter;
  lw_frames : list string; lw_taken : list QTick; lw_stream : list (list (string * string))
}.

(** What the environment chooses: the clock and the lane's context, the
    answers of the dependencies, random draws, which of the ready cases a
    [select] takes, and whether an [XADD] took effect. *)
Record lane_choice := mkLaneChoice {
  lc_now : Z; lc_stop : bool; lc_token : dep string; lc_dial : dep bool; lc_write : dep unit; lc_read : dep string;
  lc_random : Z; lc_ready : nat; lc_added : bool; lc_effect : bool
}.

Definition set_clock (t : Z) (over : bool) (w : lane_world) : lane_world :=
  let 'mkLaneWorld _ _ l g rel op hs ws en ti co d cs fr ta st := w in
  mkLaneWorld t over l g rel op hs ws en ti co d cs fr ta st.
Definition set_limiter (l : declareLimiter) (w : lane_world) : lane_world :=
  let 'mkLaneWorld n o _ g rel op hs ws en ti co d cs fr ta st := w in
  mkLaneWorld n o l g rel op hs ws en ti co d cs fr ta st.
Definition set_guard (g : bool) (rel : list nat) (w : lane_world) : lane_world :=
  let 'mkLaneWorld n o l _ _ op hs ws en ti co d cs fr ta st := w in
  mkLaneWorld n o l g rel op hs ws en ti co d cs fr ta st.
Definition set_open (op : list nat) (hs : nat) (w : lane_world) : lane_world :=
  let 'mkLaneWorld n o l g rel _ _ ws en ti co d cs fr ta st := w in
  mkLaneWorld n o l g rel op hs ws en ti co d cs fr ta st.
Definition set_windows (ws : nat) (en : list nat) (w : lane_world) : lane_world :=
  let 'mkLaneWorld n o l g rel op hs _ _ ti co d cs fr ta st := w in
  mkLaneWorld n o l g rel op hs ws en ti co d cs fr ta st.
Definition set_ticks (ti ta : list QTick) (w : lane_world) : lane_world :=
  let 'mkLaneWorld n o l g rel op hs ws en _ co d cs fr _ st := w in
  mkLaneWorld n o l g rel op hs ws en ti co d cs fr ta st.
Definition set_channels (h : nat) (fs : list QFrame) (es : list lane_error) (w : lane_world) : lane_world :=
  let 'mkLaneWorld n o l g rel op hs ws en ti co d cs fr ta st := w in
  mkLaneWorld n o l g rel op hs ws en ti (fun i => if (i =? h)%nat then fs else co i)
    (fun i => if (i =? h)%nat then es else d i) cs fr ta st.
Definition count_world (c : counter) (w : lane_world) : lane_world :=
  let 'mkLaneWorld n o l g rel op hs ws en ti co d cs fr ta st := w in
  mkLaneWorld n o l g rel op hs ws en ti co d (c :: cs) fr ta st.
Definition log_frame (raw : string) (w : lane_world) : lane_world :=
  let 'mkLaneWorld n o l g rel op hs ws en ti co d cs fr ta st := w in
  mkLaneWorld n o l g rel op hs ws en ti co d cs (fr ++ [raw]) ta st.
Definition log_entry (entry : list (string * string)) (w : lane_world) : lane_world :=
  let 'mkLaneWorld n o l g rel op hs ws en ti co d cs fr ta st := w in
  mkLaneWorld n o l g rel op hs ws en ti co d cs fr ta (st ++ [entry]).

(** A window's context ends with the lane's. *)
Definition window_over (w : lane_world) (i : nat) : bool := lw_over w || bool_decide (i ∈ lw_ended w).
(** The capacity of a connection's control channel. *)
Definition controlBuffer : nat := 8.

(** A sleep: it ends at its context's end or when its timer has fired. *)
Definition sleep (over : bool) (c : lane_choice) (w : lane_world) : option (lane_world * bool) :=
  match lc_ready c with O => if over then Some (w, true) else None | S _ => Some (w, false) end.
(** The [select] of a connection: the window, the reader, the controls, the
    ping timer. *)
Definition select_ready (i h : nat) (c : lane_choice) (w : lane_world) : option (lane_world * signal) :=
  match lc_ready c with
  | 0 => if window_over w i then Some (w, WindowDone) else None
  | 1 => match lw_done w h with
         | e :: es => Some (set_channels h (lw_controls w h) es w, ReaderDone e)
         | [] => None
         end
  | 2 => match lw_controls w h with
         | f :: fs => Some (set_channels h fs (lw_done w h) w, ControlFrame f)
         | [] => None
         end
  | _ => Some (w, TimerFired)
  end%nat.

Definition lane_environment (w : lane_world) (c : lane_choice) : option lane_world :=
  Some (set_clock (lc_now c) (lw_over w || lc_stop c) w).

Section world.
Context (r : runner).

(** The answer to a call; [None] where it blocks. *)
Definition lane_answer (w : lane_world) (c : lane_choice) (R : Set) (o : op R) : option (lane_world * R) :=
  match o in op R return option (lane_world * R) with
  | Now => Some (w, lw_now w)
  | LaneErr => Some (w, lw_over w)
  | NewWindow => Some (set_windows (S (lw_windows w)) (lw_ended w) w, lw_windows w)
  | WindowErr i => Some (w, window_over w i)
  | CloseWindow i => Some (set_windows (lw_windows w) (i :: lw_ended w) w, tt)
  | GoWatch _ _ | GoRead _ _ => Some (w, tt)
  | AskToken _ => Some (w, lc_token c)
  | TakeOpen => Some (if lw_guard w then (w, false) else (set_guard true (lw_released w) w, true))
  | ReleaseOpen => Some (set_guard false (lw_released w) w, tt)
  | ReleaseOnce h =>
      Some (if bool_decide (h ∈ lw_released w) then w else set_guard false (h :: lw_released w) w, tt)
  | AskDial _ _ _ _ =>
      Some match lc_dial c with
           | Gives true => (set_open (lw_handles w :: lw_open w) (S (lw_handles w)) w, Gives (Some (lw_handles w)))
           | Gives false => (w, Gives None)
           | Panics => (w, Panics)
           | Fails e => (w, Fails e)
           end
  | AskClose h => Some (set_open (filter (fun i => i <> h) (lw_open w)) (lw_handles w) w, lc_write c)
  | AskWrite _ _ _ _ => Some (w, lc_write c)
  | AskRead _ _ =>
      Some (match contain (lc_read c) with Ok raw => log_frame raw w | Err _ => w end, lc_read c)
  | Reserve => Some (let '(l, a) := reserve (lw_limiter w) (lw_now w) in (set_limiter l w, a))
  | CoolDown until => Some (set_limiter (coolDown (lw_limiter w) until) w, tt)
  | SleepLane _ => sleep (lw_over w) c w
  | SleepWindow i _ => sleep (window_over w i) c w
  | Select i h _ => select_ready i h c w
  | Count k => Some (count_world k w, tt)
  | Int64N n => if (0 <=? lc_random c) && (lc_random c <? n) then Some (w, lc_random c) else None
  | OfferTick t =>
      Some (if Z.of_nat (length (lw_ticks w)) <? Buffer r
            then (set_ticks (lw_ticks w ++ [t]) (lw_taken w) w, true) else (w, false))
  | RecvTick =>
      match lc_ready c, lw_ticks w with
      | O, _ => if lw_over w then Some (w, None) else None
      | S _, t :: ts => Some (set_ticks ts (lw_taken w ++ [t]) w, Some t)
      | S _, [] => None
      end
  | SendControl i h f =>
      match lc_ready c with
      | O => if window_over w i then Some (w, false) else None
      | S _ =>
          if (length (lw_controls w h) <? controlBuffer)%nat
          then Some (set_channels h (lw_controls w h ++ [f]) (lw_done w h) w, true) else None
      end
  | SendDone h e => Some (set_channels h (lw_controls w h) (lw_done w h ++ [e]) w, tt)
  | XAdd _ _ _ entry =>
      Some (if lc_added c || lc_effect c then log_entry entry w else w, lc_added c)
  end.
End world.

(** ** The invariant of the lane *)

#[export] Instance counter_eq_dec : EqDecision counter.
Proof. solve_decision. Defined.

Section lane.
Context {codec : TossCodec} (Eastern : location) (r : runner) (rounds : nat).
Notation lane_spec := (lane_spec Eastern r).

Definition tally (c : counter) (counts : list counter) : nat := length (filter (fun k => k = c) counts).
(** The valid ticks in the frames the readers got. *)
Definition ticks_of (frames : list string) : list QTick := omap (decoded_tick Eastern r) frames.
Definition held_by (g : role) : option QTick := match g with Reader held => held | _ => None end.
Definition helper (g : role) : Prop := match g with Watcher | Reader _ => True | _ => False end.

(** What became of the ticks: taken out of the channel by the writer, waiting
    in it, counted as dropped, or in a reader's hand.  The writer has counted
    what it took but for the one in its hand, and what Redis holds is what it
    took, in order, with omissions. *)
Definition flows (frames : list string) (taken ticks : list QTick) (counts : list counter)
  (stream : list (list (string * string))) (wr : writing) (held : list QTick) : Prop :=
  exists dropped,
    ticks_of frames ≡ₚ taken ++ ticks ++ dropped ++ held /\
    length dropped = tally DropBufferFull counts /\
    length taken = (tally TicksWritten counts + tally XAddErrors counts +
      match wr with Empty => 0 | _ => 1 end)%nat /\
    match wr with
    | Got t => exists done, taken = done ++ [t] /\ sublist stream (values <$> done)
    | _ => sublist stream (values <$> taken)
    end.
Definition world_flows (w : lane_world) (wr : writing) (held : list QTick) : Prop :=
  Z.of_nat (length (lw_ticks w)) <= Buffer r /\
  flows (lw_frames w) (lw_taken w) (lw_ticks w) (lw_counts w) (lw_stream w) wr held.

(** The guard and the open transports are the supervisor's. *)
Definition linked (g : sup) (w : lane_world) : Prop :=
  lw_guard w = sp_guard g /\
  lw_open w = match sp_conn g with Some (h, true) => [h] | _ => [] end /\
  Forall (fun h => h < lw_handles w)%nat (lw_released w) /\
  match sp_conn g with Some (h, _) => (h < lw_handles w)%nat /\ h ∉ lw_released w /\ sp_guard g = true | None => True end.

Definition lane_inv (w : lane_world) (Gs : list role) : Prop :=
  exists g wr rest, Gs = Supervisor g :: Writer wr :: rest /\ Forall helper rest /\
    linked g w /\ world_flows w wr (omap held_by rest).

(** The calls of the supervisor and of the watchers leave the ticks alone, those
    of the others the connection. *)
Definition same_flow (w w' : lane_world) : Prop :=
  lw_frames w' = lw_frames w /\ lw_taken w' = lw_taken w /\ lw_ticks w' = lw_ticks w /\ lw_stream w' = lw_stream w /\
  forall c, tick_counter c = true -> tally c (lw_counts w') = tally c (lw_counts w).
Definition same_links (w w' : lane_world) : Prop :=
  lw_guard w' = lw_guard w /\ lw_open w' = lw_open w /\ lw_released w' = lw_released w /\ lw_handles w' = lw_handles w.

Lemma flows_same w w' wr held : same_flow w w' -> world_flows w wr held -> world_flows w' wr held.
Proof.
  intros (E1 & E2 & E3 & E4 & E5) (Hb & dropped & H1 & H2 & H3 & H4). unfold world_flows. rewrite E3.
  split; [done|]. exists dropped. rewrite E1, E2, E4, !E5 by done. done.
Qed.
Lemma linked_same g w w' : same_links w w' -> linked g w -> linked g w'.
Proof. intros (E1 & E2 & E3 & E4). unfold linked. by rewrite E1, E2, E3, E4. Qed.

Lemma tally_other c k counts : c <> k -> tally k (c :: counts) = tally k counts.
Proof. intros H. unfold tally. by rewrite filter_cons_False. Qed.
Lemma tally_cons c counts : tally c (c :: counts) = S (tally c counts).
Proof. unfold tally. by rewrite filter_cons_True. Qed.

Lemma same_flow_count c w : tick_counter c = false -> same_flow w (count_world c w).
Proof.
  intros Hc. destruct w. repeat split. intros k Hk. cbn. apply tally_other. intros ->. congruence.
Qed.

Ltac unchanged := match goal with w : lane_world |- _ => destruct w; by repeat split end.

Lemma set_limiter_same l w : same_flow w (set_limiter l w) /\ same_links w (set_limiter l w).
Proof. split; unchanged. Qed.
Lemma set_windows_same n e w : same_flow w (set_windows n e w) /\ same_links w (set_windows n e w).
Proof. split; unchanged. Qed.
Lemma set_channels_same h f e w : same_flow w (set_channels h f e w) /\ same_links w (set_channels h f e w).
Proof. split; unchanged. Qed.
Lemma set_clock_same t o w : same_flow w (set_clock t o w) /\ same_links w (set_clock t o w).
Proof. split; unchanged. Qed.
Lemma count_links c w : same_links w (count_world c w).
Proof. unchanged. Qed.
Lemma same_refl w : same_flow w w /\ same_links w w.
Proof. done. Qed.

Lemma sleep_same over c w w' b : sleep over c w = Some (w', b) -> w' = w.
Proof. unfold sleep. destruct (lc_ready c), over; congruence. Qed.
Lemma select_same i h c w w' s : select_ready i h c w = Some (w', s) -> same_flow w w' /\ same_links w w'.
Proof.
  unfold select_ready. destruct (lc_ready c) as [|[|[|n]]].
  - destruct (window_over w i); [|done]. by intros [= <- _].
  - destruct (lw_done w h); [done|]. intros [= <- _]. apply set_channels_same.
  - destruct (lw_controls w h); [done|]. intros [= <- _]. apply set_channels_same.
  - by intros [= <- _].
Qed.

(** ** One call *)

(** A call of the supervisor that leaves the connection and its record
    alone. *)
Lemma sup_plain g g' w w' : linked g w -> same_flow w w' /\ same_links w w' ->
  sp_guard g' = sp_guard g -> sp_conn g' = sp_conn g -> linked g' w' /\ same_flow w w'.
Proof.
  intros Hl [Hf Hs] Eg Ec. split; [|done]. apply (linked_same g' _ _ Hs). unfold linked in *. by rewrite Eg, Ec.
Qed.

Lemma dial_linked g w i timeout endpoint token d w' x :
  linked g w -> sp_guard g = true -> sp_conn g = None ->
  lane_answer r w d _ (AskDial i timeout endpoint token) = Some (w', x) ->
  linked (sup_step g (AskDial i timeout endpoint token) x) w' /\ same_flow w w'.
Proof.
  intros Hl Hg Hc Ha. cbn in Ha. destruct g as [win gd cn tok R l adm n t t'], w. cbn in Hg, Hc. subst gd cn.
  destruct Hl as (L1 & L2 & L3 & L4). cbn in *.
  destruct (lc_dial d) as [|[]|e]; injection Ha as <- <-; (split; [|repeat split]); unfold linked; cbn; try done.
  split; [done|]. split; [by rewrite L2|]. split.
  - eapply Forall_impl; [exact L3|]. cbn. lia.
  - split; [lia|]. split; [|done]. intros Hin. rewrite Forall_forall in L3. specialize (L3 _ Hin). cbn in L3. lia.
Qed.

Lemma close_linked g w h d w' x :
  linked g w -> sp_conn g = Some (h, true) -> lane_answer r w d _ (AskClose h) = Some (w', x) ->
  linked (sup_step g (AskClose h) x) w' /\ same_flow w w'.
Proof.
  intros Hl Hc Ha. cbn in Ha. destruct g as [win gd cn tok R l adm n t t'], w. cbn in Hc. subst cn.
  injection Ha as <- <-. destruct Hl as (L1 & L2 & L3 & L4). cbn in *. split; [|by repeat split].
  unfold linked. cbn. split; [done|]. split; [|done]. rewrite L2, filter_cons_False; [done|]. by intros [].
Qed.

Lemma release_linked g w h d w' x :
  linked g w -> sp_conn g = Some (h, false) -> lane_answer r w d _ (ReleaseOnce h) = Some (w', x) ->
  linked (sup_step g (ReleaseOnce h) x) w' /\ same_flow w w'.
Proof.
  intros Hl Hc Ha. cbn in Ha. destruct g as [win gd cn tok R l adm n t t'], w. cbn in Hc. subst cn.
  destruct Hl as (L1 & L2 & L3 & L4 & L5 & L6). cbn in *. rewrite bool_decide_false in Ha by done. injection Ha as <- <-.
  split; [|by repeat split]. unfold linked. cbn. split; [done|]. split; [done|]. split; [by constructor|done].
Qed.

Lemma guard_linked g w b : linked g w -> sp_conn g = None ->
  linked (mkSup (sp_window g) b (sp_conn g) (sp_token g) (sp_refused g) (sp_401 g) (sp_admitted g) (sp_sent g)
    (sp_now g) (sp_before g)) (set_guard b (lw_released w) w) /\ same_flow w (set_guard b (lw_released w) w).
Proof.
  intros (L1 & L2 & L3 & L4) Hc. destruct w. split; [|by repeat split]. unfold linked. cbn in *.
  rewrite Hc in *. done.
Qed.

Lemma sup_answer g w c w' {R : Set} (o : op R) x :
  linked g w -> sup_may Eastern r g o -> lane_answer r w c R o = Some (w', x) ->
  guard_answers g o x /\ linked (sup_step g o x) w' /\ same_flow w w'.
Proof.
  intros Hl Ho Ha. pose proof Hl as (L1 & _).
  destruct o; cbn [sup_may] in Ho; try done; (split; [try done|]);
    try (injection Ha as <- <-; by (apply (sup_plain g); [done|first [apply set_limiter_same|apply set_windows_same|done]|by destruct g..])).
  all: try (by apply sleep_same in Ha as ->; apply (sup_plain g); destruct g).
  - cbn in Ha. rewrite L1, (proj1 Ho) in Ha. injection Ha as _ <-. cbn. by rewrite (proj1 Ho).
  - cbn in Ha. rewrite L1, (proj1 Ho) in Ha. injection Ha as <- _.
    pose proof (guard_linked g w true Hl (proj2 Ho)) as Hx. by destruct g.
  - injection Ha as <- <-. pose proof (guard_linked g w false Hl (proj2 Ho)) as Hx. by destruct g.
  - destruct Ho as [_ Hc]. by apply (release_linked g w h c).
  - destruct Ho as (_ & Hg & Hc & _). by apply (dial_linked g w w0 timeout endpoint token c).
  - by apply (close_linked g w h c).
  - injection Ha as <- <-. apply (sup_plain g); [done|done|by destruct g, data..].
  - cbn in Ha. destruct (reserve _ _) as [l a]. injection Ha as <- <-.
    apply (sup_plain g); [done|apply set_limiter_same|by destruct g..].
  - apply select_same in Ha. apply (sup_plain g); [done|done|by destruct g..].
  - injection Ha as <- <-. apply (sup_plain g); [done| |by destruct g..].
    split; [by apply same_flow_count|apply count_links].
  - cbn in Ha. split_if in Ha; [|done]. injection Ha as <- <-. apply (sup_plain g); [done|done|by destruct g..].
Qed.

Lemma watcher_answer w c w' {R : Set} (o : op R) x :
  lane_may Eastern r Watcher R o -> lane_answer r w c R o = Some (w', x) -> same_flow w w' /\ same_links w w'.
Proof.
  intros Ho Ha. destruct o; try done; cbn [lane_answer] in Ha.
  - by injection Ha as <- _.
  - by injection Ha as <- _.
  - injection Ha as <- _. apply set_windows_same.
  - by apply sleep_same in Ha as ->.
Qed.

Definition opt_list {A} (o : option A) : list A := match o with Some a => [a] | None => [] end.

(** The reader moves a tick from the frames to its hand, and from there to the
    channel or to the counter. *)
Lemma reader_answer held w c w' {R : Set} (o : op R) x wr others :
  lane_may Eastern r (Reader held) R o -> lane_answer r w c R o = Some (w', x) ->
  world_flows w wr (opt_list held ++ others) ->
  same_links w w' /\ world_flows w' wr (opt_list (reader_step Eastern r held o x) ++ others).
Proof.
  intros Ho Ha Hf.
  assert (Hsame : forall w1, same_flow w w1 -> same_links w w1 -> same_links w w1 /\ world_flows w1 wr (opt_list held ++ others)).
  { intros w1 H1 H2. split; [done|]. by apply (flows_same w). }
  destruct o; try done; cbn [lane_answer reader_step lane_may] in *.
  - injection Ha as <- _. by apply Hsame.
  - subst held. destruct (contain (lc_read c)) as [raw|e] eqn:Ed; injection Ha as <- <-; rewrite Ed; [|by apply Hsame].
    destruct w. split; [done|]. destruct Hf as (Hb & dropped & H1 & H2). split; [done|]. exists dropped. split; [|done].
    cbn [lw_frames log_frame lw_taken lw_ticks] in *. unfold ticks_of in *. rewrite omap_app. cbn [omap list_omap].
    rewrite H1. destruct (decoded_tick Eastern r raw); cbn; [|by rewrite app_nil_r]. solve_Permutation.
  - injection Ha as <- _. apply Hsame; apply set_limiter_same.
  - injection Ha as <- _. destruct c0; cbn in Ho; try done; try (apply Hsame; [by apply same_flow_count|apply count_links]).
    destruct Ho as [t ->]. split; [apply count_links|]. destruct w, Hf as (Hb & dropped & H1 & H2 & H3 & H4).
    split; [done|]. exists (t :: dropped). cbn [count_world lw_frames lw_taken lw_ticks lw_counts lw_stream opt_list app length] in *.
    rewrite tally_cons, !tally_other by done. split; [rewrite H1; solve_Permutation|].
    split; [by rewrite <- H2|done].
  - subst held. split_if in Ha; injection Ha as <- <-; [|by apply Hsame]. split; [by destruct w|].
    destruct w, Hf as (Hb & dropped & H1 & H2). split; [cbn in *; rewrite length_app; cbn; lia|].
    exists dropped. split; [|done]. cbn [set_ticks lw_frames lw_taken lw_ticks opt_list app] in *. rewrite H1. solve_Permutation.
  - destruct (lc_ready c); [split_if in Ha; [|done]; injection Ha as <- _; by apply Hsame|].
    destruct (_ <? _)%nat; [|done]. injection Ha as <- _. apply Hsame; apply set_channels_same.
  - injection Ha as <- _. apply Hsame; apply set_channels_same.
Qed.

(** The writer takes a tick, adds it to the stream or not, and counts it. *)
Lemma writer_takes w t ts held : lw_ticks w = t :: ts -> world_flows w Empty held ->
  world_flows (set_ticks ts (lw_taken w ++ [t]) w) (Got t) held.
Proof.
  intros Et (Hb & dropped & H1 & H2 & H3 & H4). destruct w. cbn in Et. subst. split; [cbn in *; lia|]. exists dropped.
  cbn [set_ticks lw_frames lw_taken lw_ticks lw_counts lw_stream] in *. rewrite H1, length_app, H3. cbn [length].
  split; [solve_Permutation|]. split; [done|]. split; [lia|]. by exists lw_taken0.
Qed.
Lemma writer_adds w t ok effect held : world_flows w (Got t) held ->
  world_flows (if ok || effect then log_entry (values t) w else w) (Written ok) held.
Proof.
  intros (Hb & dropped & H1 & H2 & H3 & done & Et & H4).
  split; [by destruct w, (ok || effect)|]. exists dropped.
  assert (Hs : sublist (lw_stream (if ok || effect then log_entry (values t) w else w)) (values <$> lw_taken w)).
  { rewrite Et, fmap_app. destruct w, (ok || effect); cbn in *; [by apply sublist_app|by apply sublist_inserts_r]. }
  destruct w, (ok || effect); done.
Qed.
Lemma writer_counts w ok held : world_flows w (Written ok) held ->
  world_flows (count_world (if ok then TicksWritten else XAddErrors) w) Empty held.
Proof.
  intros (Hb & dropped & H1 & H2 & H3 & H4). split; [by destruct w|]. exists dropped. destruct w. cbn [count_world lw_counts lw_frames lw_taken lw_ticks lw_stream] in *.
  destruct ok; rewrite tally_cons, !tally_other by done; (split; [done|split; [done|split; [lia|done]]]).
Qed.

Lemma writer_answer wr w c w' {R : Set} (o : op R) x held :
  lane_may Eastern r (Writer wr) R o -> lane_answer r w c R o = Some (w', x) -> world_flows w wr held ->
  same_links w w' /\ world_flows w' (writer_step wr o x) held.
Proof.
  intros Ho Ha Hf. destruct o; try done; cbn [lane_answer writer_step lane_may] in *.
  - by injection Ha as <- _.
  - destruct c0, wr; try done; subst ok; injection Ha as <- _; (split; [apply count_links|]); [|].
    + by apply (writer_counts w true).
    + by apply (writer_counts w false).
  - destruct wr; try done. destruct (lc_ready c); [split_if in Ha; [|done]; by injection Ha as <- <-|].
    destruct (lw_ticks w) as [|t ts] eqn:Et; [done|]. injection Ha as <- <-. split; [by destruct w|]. by apply writer_takes.
  - destruct wr as [|t|]; try done. destruct Ho as (_ & _ & ->). injection Ha as <- <-.
    split; [destruct w, (_ || _); by repeat split|]. by apply writer_adds.
Qed.


(** ** The system *)

(** What a call starts: the watcher of a window, the reader of a
    connection. *)
Definition lane_spawned (R : Set) (o : op R) (x : R) : option (prog op unit) :=
  match o with
  | GoWatch w closes => Some (watcher Eastern r rounds w closes)
  | GoRead w h => Some (reader Eastern r rounds w h)
  | _ => None
  end.
Definition spawned_roles {R : Set} (o : op R) : list role :=
  match o with GoWatch _ _ => [Watcher] | GoRead _ _ => [Reader None] | _ => [] end.

Lemma spawned_follows {R : Set} (o : op R) x :
  Forall2 (Prog.follows lane_spec) (spawned_roles o) (started lane_spawned o x).
Proof.
  destruct o; cbn; repeat constructor; [apply watcher_follows|apply reader_follows].
Qed.
Lemma spawned_helpers {R : Set} (o : op R) : Forall helper (spawned_roles o).
Proof. destruct o; cbn; by repeat constructor. Qed.
Lemma spawned_hold {R : Set} (o : op R) : omap held_by (spawned_roles o) = [].
Proof. by destruct o. Qed.

Lemma held_split rest i g : rest !! i = Some g ->
  omap held_by rest ≡ₚ opt_list (held_by g) ++ omap held_by (delete i rest).
Proof. intros Hg. rewrite (delete_Permutation _ _ _ Hg) at 1. cbn [omap list_omap]. by destruct (held_by g). Qed.
Lemma delete_insert_same {A} (l : list A) : forall i x, delete i (<[i := x]> l) = delete i l.
Proof. induction l as [|y l IH]; intros [|i] x; cbn; [done..|]. f_equal. apply IH. Qed.
Lemma held_insert rest i g g' : rest !! i = Some g ->
  omap held_by (<[i := g']> rest) ≡ₚ opt_list (held_by g') ++ omap held_by (delete i rest).
Proof.
  intros Hg. rewrite (held_split _ i g') by (apply list_lookup_insert_eq; by eapply lookup_lt_Some).
  by rewrite delete_insert_same.
Qed.
Lemma world_flows_perm w wr held held' : held ≡ₚ held' -> world_flows w wr held -> world_flows w wr held'.
Proof. intros Hp (Hb & dropped & H1 & H2). split; [done|]. exists dropped. split; [by rewrite <- Hp|done]. Qed.

Lemma lane_call w Gs i g c R (o : op R) w' x :
  lane_inv w Gs -> Gs !! i = Some g -> allowed lane_spec g o -> lane_answer r w c R o = Some (w', x) ->
  answers lane_spec g o x /\
  exists new, Forall2 (Prog.follows lane_spec) new (started lane_spawned o x) /\
    lane_inv w' (<[i := update lane_spec g (Event o x)]> Gs ++ new).
Proof.
  intros (g0 & wr & rest & -> & Hr & Hl & Hf) Hi Ho Ha. cbn [allowed lane_spec update answers] in *.
  assert (Hg : g = Supervisor g0 /\ i = 0%nat \/ g = Writer wr /\ i = 1%nat \/ exists j, i = S (S j) /\ rest !! j = Some g).
  { destruct i as [|[|j]]; cbn in Hi; [left|right; left|right; right; by exists j]; by injection Hi as <-. }
  destruct Hg as [[-> ->]|[[-> ->]|(j & -> & Hj)]].
  - destruct (sup_answer _ _ _ _ _ _ Hl Ho Ha) as (Hx & Hl' & Hs). split; [done|]. exists (spawned_roles o).
    split; [apply spawned_follows|]. exists (sup_step g0 o x), wr, (rest ++ spawned_roles o). split; [done|].
    split; [apply Forall_app; split; [done|apply spawned_helpers]|]. split; [done|].
    rewrite omap_app, spawned_hold, app_nil_r. by apply (flows_same w).
  - split; [done|]. exists []. destruct (writer_answer _ _ _ _ _ _ _ Ho Ha Hf) as [Hk Hf'].
    split; [destruct o; try done; by constructor|]. exists g0, (writer_step wr o x), rest.
    split; [by rewrite app_nil_r|]. split; [done|]. split; [by apply (linked_same g0 w)|done].
  - apply (world_flows_perm _ _ _ _ (held_split rest j g Hj)) in Hf.
    assert (Hnew : lane_answers g R o x /\ spawned_roles o = [] /\ same_links w w' /\
      world_flows w' wr (opt_list (held_by (role_step Eastern r g o x)) ++ omap held_by (delete j rest)) /\
      helper (role_step Eastern r g o x)).
    { pose proof (proj1 (Forall_lookup _ _) Hr _ _ Hj) as Hh. destruct g as [|  |held|]; try done.
      - destruct (watcher_answer _ _ _ _ _ Ho Ha) as [Hs Hk]. split; [done|]. split; [by destruct o|].
        split; [done|]. split; [by apply (flows_same w)|done].
      - destruct (reader_answer _ _ _ _ _ _ _ _ Ho Ha Hf) as [Hk Hf']. split; [done|]. by destruct o. }
    destruct Hnew as (Hx & Hn & Hk & Hf' & Hh). split; [done|]. exists (spawned_roles o). split; [apply spawned_follows|].
    rewrite Hn, app_nil_r. exists g0, wr, (<[j := role_step Eastern r g o x]> rest). split; [done|].
    split; [by apply Forall_insert|]. split; [by apply (linked_same g0 w)|].
    eapply world_flows_perm; [symmetry; by apply (held_insert rest j g)|done].
Qed.

Lemma omap_short {A B} (f : A -> option B) l : (length (omap f l) <= length l)%nat.
Proof. induction l as [|a l IH]; cbn; [done|]. destruct (f a); cbn; lia. Qed.

(** [Run]: the supervisor and the writer, over any clock. *)
Definition lane_start (now : Z) : lane_world :=
  mkLaneWorld now false newDeclareLimiter false [] [] 0 0 [] [] (fun _ => []) (fun _ => []) [] [] [] [].
Definition RunLane (now : Z) : list (action lane_choice) -> option (system op lane_world) :=
  exec_all (lane_answer r) lane_environment lane_spawned
    (mkSystem (lane_start now) [supervisor Eastern r rounds; writer r rounds]).

Lemma lane_invariant now acts s : 0 <= Buffer r -> RunLane now acts = Some s ->
  exists Gs, lane_inv (world s) Gs /\ length Gs = length (threads s).
Proof.
  intros Hb Hrun. assert (Hi : invariant lane_spec lane_inv s).
  { revert Hrun. apply invariant_exec_all.
    - intros w c w' Gs (g & wr & rest & -> & Hr & Hl & Hf) [= <-]. exists g, wr, rest.
      destruct (set_clock_same (lc_now c) (lw_over w || lc_stop c) w) as [Hs Hk].
      split; [done|]. split; [done|]. split; [by eapply linked_same|by eapply flows_same].
    - intros w Gs i g c R o w' x. apply lane_call.
    - eexists [_; _]. split; [|repeat constructor; [apply supervisor_follows|apply writer_follows]].
      eexists _, _, []. split; [done|]. split; [done|]. split; [done|]. split; [done|]. exists [].
      split; [done|]. split; [done|]. by split. }
  destruct Hi as (Gs & HI & HF). exists Gs. split; [done|]. by eapply Forall2_length.
Qed.

(** C20: Break before make: however the goroutines of the lane interleave,
    whatever the dependencies answer (panics included) and however the clock
    jumps, at most one websocket is open, and the guard is taken while one
    is. *)
Theorem one_websocket now acts s : 0 <= Buffer r -> RunLane now acts = Some s ->
  (length (lw_open (world s)) <= 1)%nat /\ (lw_open (world s) <> [] -> lw_guard (world s) = true).
Proof.
  intros Hb Hrun. destruct (lane_invariant _ _ _ Hb Hrun) as (Gs & (g & wr & rest & _ & _ & (L1 & L2 & L3 & L4) & _) & _).
  rewrite L1, L2. destruct (sp_conn g) as [[h []]|]; cbn; [|split; [lia|done]..].
  destruct L4 as (_ & _ & ->). split; [lia|done].
Qed.

(** C30: No tick is lost without being counted, none is added twice or out of
    order: at every moment the valid ticks of the frames that were read are
    those the writer took, those in the channel (at most its buffer), those
    counted as dropped, and at most one in each reader's hand; the writer has
    counted all it took, as written or as failed, but for the one in its hand;
    and what reached Redis are entries of ticks it took, in that order. *)
Theorem ticks_accounted now acts s : 0 <= Buffer r -> RunLane now acts = Some s ->
  let w := world s in
  exists dropped held,
    ticks_of (lw_frames w) ≡ₚ lw_taken w ++ lw_ticks w ++ dropped ++ held /\
    Z.of_nat (length (lw_ticks w)) <= Buffer r /\
    length dropped = tally DropBufferFull (lw_counts w) /\
    (length held + 2 <= length (threads s))%nat /\
    (tally TicksWritten (lw_counts w) + tally XAddErrors (lw_counts w) <= length (lw_taken w) <=
      S (tally TicksWritten (lw_counts w) + tally XAddErrors (lw_counts w)))%nat /\
    sublist (lw_stream w) (values <$> lw_taken w).
Proof.
  intros Hb Hrun w. destruct (lane_invariant _ _ _ Hb Hrun) as (Gs & (g & wr & rest & -> & _ & _ & Hf) & Hn).
  destruct Hf as (Hbuf & dropped & H1 & H2 & H3 & H4). exists dropped, (omap held_by rest). split; [done|].
  split; [done|]. split; [done|]. split; [rewrite <- Hn; cbn; pose proof (omap_short held_by rest); lia|].
  split; [fold w in H3; destruct wr; lia|]. destruct wr as [|t|ok]; [done| |done]. destruct H4 as (taken & Et & Hs).
  fold w in Et. rewrite Et, fmap_app. by apply sublist_inserts_r.
Qed.

(** The supervisor before its first call. *)
Definition sup_start : role :=
  Supervisor (mkSup None false None None (mkRefusedTokens [] ∅) None false 0 0 0).

(** C31: The supervisor's conduct: in every run it opens a window the schedule
    found open, and only when the last is over and its transport closed; it
    dials nothing but the endpoint, with the token it was just given and never
    with one it remembers as refused, and the guard never turns it away; it
    writes only on its open transport, a declaration only after the limiter
    admitted it, and at most four of them; and it returns with everything
    closed. *)
Theorem supervisor_disciplined tr res :
  performs (supervisor Eastern r rounds) tr res -> expected lane_spec sup_start tr ->
  all_allowed lane_spec sup_start tr /\
  (res = Some tt -> exists R, resting R (fold_left (update lane_spec) tr sup_start)).
Proof.
  intros Hp He.
  assert (H : wp lane_spec sup_start (supervisor Eastern r rounds) (fun g _ => exists R, resting R g))
    by (apply superviseLoop_resting; cbn; repeat eexists).
  destruct (wp_performs _ _ _ _ _ Hp _ H He) as [Ha Hr]. split; [done|]. by intros ->.
Qed.
End lane.

(** ** Witnesses *)

Existing Instance runner_toss.

(** A dial that ends with a transport whose reader fails at once, twice. *)
Definition disciplined_run :=
  sample_lane_run (Gives (Some 0%nat)) Panics 3 (supervisor KST sample_runner 9).
Lemma disciplined_performs : performs (supervisor KST sample_runner 9) disciplined_run.1.2 (Some tt).
Proof.
  assert (E : disciplined_run.2 = Some tt) by (vm_compute; reflexivity). rewrite <- E. apply run_performs.
Qed.
Definition declares (e : event op) : bool := match e with Event (AskWrite _ _ _ Declaration) _ => true | _ => false end.

Lemma supervisor_disciplined_witness :
  length (List.filter declares disciplined_run.1.2) = 2%nat /\
  all_allowed (lane_spec KST sample_runner) sup_start disciplined_run.1.2 /\
  exists R, resting R (fold_left (update (lane_spec KST sample_runner)) disciplined_run.1.2 sup_start).
Proof.
  split; [vm_compute; reflexivity|].
  destruct (supervisor_disciplined KST sample_runner 9 disciplined_run.1.2 (Some tt) disciplined_performs) as [H1 H2].
  - vm_compute. repeat split.
  - split; [exact H1|exact (H2 eq_refl)].
Defined.

(** The supervisor connects, the reader gets a frame and offers its tick, and
    the writer adds it to the stream; a second tick stays in the channel. *)
Definition sample_choice : lane_choice :=
  mkLaneChoice ten_oclock false (Gives "token") (Gives true) (Gives tt) (Gives "frame") 0 1 true true.
Definition lane_actions : list (action lane_choice) :=
  replicate 14 (Go 0 sample_choice) ++ replicate 4 (Go 3 sample_choice) ++ replicate 3 (Go 1 sample_choice) ++
  replicate 4 (Go 3 sample_choice).
Definition lane_end : option (system op lane_world) := RunLane KST sample_runner 5 ten_oclock lane_actions.
Lemma sample_buffer : 0 <= Buffer sample_runner.
Proof. vm_compute. discriminate. Qed.

Lemma lane_end_is :
  match lane_end with
  | Some s => lw_open (world s) = [0%nat] /\ length (lw_frames (world s)) = 2%nat /\
              lw_stream (world s) = [values sample_tick]
  | None => False
  end.
Proof. vm_compute. repeat split. Qed.

Lemma one_websocket_witness : exists s, lane_end = Some s /\ lw_open (world s) = [0%nat] /\ lw_guard (world s) = true.
Proof.
  pose proof lane_end_is as He. destruct lane_end as [s|] eqn:E; [|destruct He]. destruct He as (Ho & _).
  exists s. split; [reflexivity|]. split; [exact Ho|]. unfold lane_end in E.
  apply (one_websocket KST sample_runner 5 ten_oclock lane_actions s sample_buffer E). rewrite Ho. discriminate.
Defined.

Lemma ticks_accounted_witness : exists s, lane_end = Some s /\
  length (lw_frames (world s)) = 2%nat /\ lw_stream (world s) = [values sample_tick] /\
  sublist (lw_stream (world s)) (values <$> lw_taken (world s)).
Proof.
  pose proof lane_end_is as He. destruct lane_end as [s|] eqn:E; [|destruct He]. destruct He as (_ & H1 & H2).
  exists s. split; [reflexivity|]. split; [exact H1|]. split; [exact H2|].
  unfold lane_end in E.
  destruct (ticks_accounted KST sample_runner 5 ten_oclock lane_actions s sample_buffer E) as (dropped & held & H).
  apply H.
Defined.
