(* ===== verification/RunnerPace.v ===== *)
(** The pace of the quote lane's supervisor: when [Runner]'s supervisor opens
    a window run again after one that failed, how long it sleeps, and that its
    waits end. *)

From S2P Require Import Prelude GoStr KST Session Limits Quotes Prog Runner.
Local Open Scope Z_scope.
Local Open Scope go_scope.

(** What [NewRunner] accepts. The backoff doubles in 64 bits, so the longest
    retry is taken to be below half of the largest duration (146 years). *)
Definition runner_ok (r : runner) : Prop :=
  0 < RetryMin r <= RetryMax r /\ 2 * RetryMax r <= max_int64 /\ 0 < PingInterval r /\ 0 < Buffer r /\ 0 < MaxLen r.

Lemma NewRunner_ok symbols deps key maxLen buffer retryMin retryMax ping r :
  NewRunner symbols deps key maxLen buffer retryMin retryMax ping = Ok r ->
  2 * retryMin <= max_int64 -> 2 * retryMax <= max_int64 -> runner_ok r.
Proof.
  unfold NewRunner, runner_ok. intros Hr Hmin Hmax. do 4 (split_if in Hr; [done|]).
  destruct (buildDeclaration symbols) as [[d ms]|]; [|done]. injection Hr as <-. cbn [RetryMin RetryMax PingInterval Buffer MaxLen].
  unfold defaultRetry, maxRetry, defaultPingInterval, minute_ns, second_ns, max_int64 in *.
  repeat match goal with |- context [if ?b then _ else _] => destruct b eqn:? end; bool_simpl; lia.
Qed.

(** ** The ghost state of the clock *)

(** A lower bound of the clock, whether the lane's context is over, the
    closing time of the window that is run, whether that window has ended, and
    when the last run failed, if it did, with its window's closing time. *)
Record pace := mkPace {
  pc_now : Z; pc_over : bool; pc_closes : Z; pc_ended : bool; pc_failed : option (Z * Z)
}.

Definition pace_step (g : pace) {R : Set} (o : op R) : R -> pace :=
  let 'mkPace now over closes ended failed := g in
  match o in op R return R -> pace with
  | Now => fun t => mkPace t over closes ended failed
  | LaneErr => fun b => mkPace now (over || b) closes ended failed
  | SleepLane d => fun b => if b : bool then mkPace now true closes ended failed else mkPace (now + d) over closes ended failed
  | GoWatch _ c => fun _ => mkPace now over c false failed
  | WindowErr _ => fun b => mkPace now over closes (ended || b) failed
  | Select _ _ _ => fun s => mkPace now over closes (match s with WindowDone => true | _ => ended end) failed
  | CloseWindow _ => fun _ => mkPace now over closes ended (if ended then None else Some (closes, now))
  | _ => fun _ => g
  end.

Section pace.
Context {codec : TossCodec} (Eastern : location) (r : runner) (rounds : nat).

(** The shortest wait before a retry. *)
Definition shortest : Z := Z.min (RetryMin r) tokenPoll.

(** The supervisor sleeps for at most a minute at a time, never draws from an
    empty range, and does not run a window again that it failed in less than
    the shortest wait ago. *)
Definition pace_may (g : pace) (R : Set) (o : op R) : Prop :=
  match o with
  | SleepLane d => 0 < d <= maxWaitSlice
  | Int64N n => 0 < n
  | GoWatch _ closes => forall t, pc_failed g = Some (closes, t) -> t + shortest <= pc_now g
  | _ => True
  end.
(** The clock does not go back, a context that is over stays over, and draws
    are in their range. *)
Definition pace_answers (g : pace) (R : Set) (o : op R) : R -> Prop :=
  match o in op R return R -> Prop with
  | Now => fun t => pc_now g <= t
  | LaneErr => fun b => pc_over g = true -> b = true
  | Int64N n => fun x => 0 <= x < n
  | _ => fun _ => True
  end.
Definition pace_spec : spec op pace := {|
  allowed := pace_may;
  answers := pace_answers;
  update g e := let 'Event o x := e in pace_step g o x;
  may_run_out := True
|}.

(** ** Inside a window *)

(** The calls of a window run after its start and before its end. *)
Definition inside {R : Set} (o : op R) : bool :=
  match o with SleepLane _ | Int64N _ | GoWatch _ _ | CloseWindow _ | LaneErr => false | _ => true end.
Record during (g g' : pace) : Prop := {
  du_now : pc_now g <= pc_now g';
  du_over : pc_over g' = pc_over g;
  du_closes : pc_closes g' = pc_closes g;
  du_failed : pc_failed g' = pc_failed g;
  du_ended : pc_ended g = true -> pc_ended g' = true
}.
#[local] Instance during_preorder : PreOrder during.
Proof.
  split; [done|]. intros g g' g'' [A1 A2 A3 A4 A5] [B1 B2 B3 B4 B5]. split; [lia|congruence..|auto].
Qed.
Definition within {A} (p : program A) (P : A -> pace -> Prop) : Prop :=
  forall g, wp pace_spec g p (fun g' a => during g g' /\ P a g').

Lemma within_ret {A} (a : A) (P : A -> pace -> Prop) : (forall g, P a g) -> within (mret a) P.
Proof. intros H g. by split. Qed.
Lemma within_out {A} (P : A -> pace -> Prop) : within OutOfFuel P.
Proof. done. Qed.
Lemma within_bind {A B} (m : program A) (f : A -> program B) P Q :
  within m P -> (forall a, (exists g, P a g) -> within (f a) Q) -> within (m ≫= f) Q.
Proof.
  intros Hm Hf g. eapply wp_use; [apply Hm|]. cbv beta. intros g' a [Hd Hp].
  eapply wp_mono; [|apply Hf; by exists g']. cbv beta. intros g'' b [Hd' HQ]. split; [by etrans|done].
Qed.
Lemma within_call {R : Set} (o : op R) : inside o = true ->
  within (call o) (fun x g' => exists g, g' = pace_step g o x).
Proof.
  intros Ho g. split; [by destruct o|]. intros x Hx. cbn [wp update pace_spec] in *. split; [|by exists g].
  destruct g. destruct o; try done; cbn in *; split; try done; cbn; [intros ->; done|by destruct x].
Qed.
Lemma within_weaken {A} (p : program A) (P Q : A -> pace -> Prop) :
  within p P -> (forall a g, P a g -> Q a g) -> within p Q.
Proof. intros Hp HQ g. eapply wp_mono; [|apply Hp]. cbv beta. intros g' a [H1 H2]. split; [done|by apply HQ]. Qed.
(** Any postcondition will do. *)
Lemma within_any {A} (p : program A) P : within p P -> within p (fun _ _ => True).
Proof. intros H. by eapply within_weaken. Qed.

Create HintDb within.
#[local] Hint Resolve within_out within_any : within.
(** Follows the syntax of a routine; what is left are the postconditions of
    its results. *)
Ltac within_auto :=
  repeat lazymatch goal with
  | |- within (call _ ≫= _) _ => eapply within_bind; [by apply within_call|intros ? _]
  | |- within (_ ≫= _) _ => eapply within_bind; [solve [eauto with within]|intros ? ?]
  | |- within (if ?b then _ else _) _ => destruct b
  | |- within (match ?x with _ => _ end) _ => destruct x
  | |- within (mret _) (fun _ _ => True) => by apply within_ret
  | |- within (call _) (fun _ _ => True) => eapply within_weaken; [by apply within_call|done]
  | |- within _ _ => solve [eauto with within]
  end.

Lemma within_limiterWait n w : within (limiterWait n w) (fun _ _ => True).
Proof. induction n; cbn [limiterWait]; within_auto. Qed.
#[local] Hint Resolve within_limiterWait : within.
Lemma within_write w h data : within (write w h data) (fun _ _ => True).
Proof. unfold write. within_auto. Qed.
#[local] Hint Resolve within_write : within.
Lemma within_declare w h : within (declare rounds w h) (fun _ _ => True).
Proof. unfold declare. within_auto. Qed.
Lemma within_count_rejected l : within (count_rejected l) (fun _ _ => True).
Proof. induction l; cbn [count_rejected]; within_auto. Qed.
#[local] Hint Resolve within_declare within_count_rejected : within.
(** Shows the rest of a routine inside a window run. *)
Ltac inside Q := match goal with |- wp _ _ ?p _ => let H := fresh in enough (H : within p Q) by apply H end.

Lemma within_bind_dep {A B} (m : program A) (f : A -> program B) (P : A -> pace -> Prop) (Q : B -> pace -> Prop) :
  within m P -> (forall a g, P a g -> wp pace_spec g (f a) (fun g' b => during g g' /\ Q b g')) -> within (m ≫= f) Q.
Proof.
  intros Hm Hf g. eapply wp_use; [apply Hm|]. cbv beta. intros g' a [Hd Hp].
  eapply wp_mono; [|by apply Hf]. cbv beta. intros g'' b [Hd' HQ]. split; [by etrans|done].
Qed.
Lemma within_map {A B} (m : program A) (f : A -> B) (P : A -> pace -> Prop) (Q : B -> pace -> Prop) :
  within m P -> (forall a g, P a g -> Q (f a) g) -> within (m ≫= fun a => mret (f a)) Q.
Proof.
  intros Hm HQ g. eapply wp_use; [apply Hm|]. cbv beta. intros g' a [Hd Hp]. wp_step. split; [done|by apply HQ].
Qed.

(** A run without an error ends with its window. *)
Definition quits (e : option lane_error) (g : pace) : Prop := e = None -> pc_ended g = true.

Lemma quits_some e g : quits (Some e) g.
Proof. done. Qed.
#[local] Hint Resolve quits_some : within.

Lemma within_unless_ended w e : within (unless_ended w e) quits.
Proof.
  unfold unless_ended. eapply within_map; [by apply within_call|]. cbv beta. intros over g' [[] ->].
  destruct over; [|done]. intros _. cbn. apply orb_true_r.
Qed.

Definition handled_quits (x : handled) (g : pace) : Prop := match x with Leave e => quits e g | Stay _ => True end.
Lemma within_handleControl w h k f : within (handleControl rounds w h k f) handled_quits.
Proof.
  unfold handleControl. destruct f as [|tick drop|subs rej|code|]; [by apply within_ret|by apply within_ret| | |by apply within_ret].
  - eapply within_bind; [apply within_count_rejected|]. intros [] _. apply within_ret. by destruct subs.
  - within_auto; try by apply within_ret. cbv zeta. within_auto; try by apply within_ret.
    eapply within_map; [apply within_unless_ended|done].
Qed.

#[local] Hint Resolve within_unless_ended : within.

Lemma within_connectionLoop n w h : forall k ping, within (connectionLoop r rounds n w h k ping) quits.
Proof.
  induction n as [|n IH]; intros k ping; cbn [connectionLoop]; [done|].
  eapply within_bind; [by apply within_call|]. intros now _.
  eapply within_bind_dep; [by apply within_call|]. intros s g [g0 ->].
  destruct s as [|e|f|].
  - wp_step. split; [done|]. intros _. by destruct g0.
  - apply within_unless_ended.
  - inside quits. eapply within_bind_dep; [apply within_handleControl|].
    intros [e|k'] g Hx; [by wp_step|apply IH].
  - inside quits. within_auto.
Qed.

Lemma within_connected w h : within (connected r rounds w h) quits.
Proof. unfold connected. within_auto. apply within_connectionLoop. Qed.
#[local] Hint Resolve within_connected : within.

Definition run_quits (x : refusedTokens * option lane_error) (g : pace) : Prop := quits x.2 g.

Lemma within_safeDial w endpoint token : within (safeDial w endpoint token) (fun _ _ => True).
Proof. unfold safeDial. within_auto. Qed.
#[local] Hint Resolve within_safeDial : within.
Lemma within_singleDial w endpoint token : within (singleDial w endpoint token) (fun _ _ => True).
Proof. unfold singleDial. within_auto. Qed.
#[local] Hint Resolve within_singleDial : within.

Lemma within_closeTransport h : within (closeTransport h) (fun _ _ => True).
Proof. unfold closeTransport. within_auto. Qed.

(** An error of a call, unless the window is over. *)
Lemma within_over (w : nat) R (m : program (refusedTokens * option lane_error)) : within m run_quits ->
  within (over ← call (WindowErr w); if (over : bool) then mret (R, None) else m) run_quits.
Proof.
  intros Hm. eapply within_bind_dep; [by apply within_call|]. intros over g [g0 ->]. destruct over; [|apply Hm].
  wp_step. split; [done|]. intros _. destruct g0. cbn. apply orb_true_r.
Qed.

Lemma within_dialAndServe R w token : within (dialAndServe r rounds R w token) run_quits.
Proof.
  unfold dialAndServe. eapply within_bind; [by apply within_call|]. intros _ _.
  eapply within_bind; [apply within_singleDial|]. intros [h|e] _.
  - eapply within_bind_dep; [apply within_connected|]. intros e g He.
    assert (Hx : within (closeTransport h;; mret (R, e)) (fun x _ => x = (R, e)))
      by (eapply within_map; [apply within_closeTransport|done]).
    eapply wp_mono; [|apply Hx]. cbv beta. intros g' x [Hd ->]. split; [done|]. intros E. by apply (du_ended _ _ Hd), He.
  - apply within_over. destruct (error_is _ _); [|by apply within_ret].
    eapply within_bind; [by apply within_call|]. intros _ _. by apply within_ret.
Qed.

Lemma within_withWindow R w : within (withWindow r rounds R w) run_quits.
Proof.
  unfold withWindow. eapply within_bind; [by apply within_call|]. intros answer _. destruct (contain answer) as [token|e].
  - destruct (contains R token); [by apply within_ret|]. apply within_dialAndServe.
  - apply within_over. eapply within_bind; [by apply within_call|]. intros _ _. by apply within_ret.
Qed.

(** ** Between windows *)

Lemma At_future s t c : At Eastern s t = Some c -> t < c.
Proof.
  unfold At. destruct (List.find _ _) as [w|] eqn:Ew; [|done]. intros [= <-].
  apply find_some in Ew as [_ Hw]. bool_simpl. lia.
Qed.

(** What a wait leaves as it was. *)
Record waits (g g' : pace) : Prop := {
  wa_now : pc_now g <= pc_now g';
  wa_over : pc_over g = true -> pc_over g' = true;
  wa_failed : pc_failed g' = pc_failed g
}.
#[local] Instance waits_preorder : PreOrder waits.
Proof. split; [done|]. intros g g' g'' [A1 A2 A3] [B1 B2 B3]. split; [lia|auto|congruence]. Qed.

(** A wait ends at its deadline or with the lane. *)
Lemma waitUntil_waits n D : forall g,
  wp pace_spec g (waitUntil n D) (fun g' _ => waits g g' /\ (pc_over g' = true \/ D <= pc_now g')).
Proof.
  induction n as [|n IH]; intros [now over closes ended failed]; cbn [waitUntil]; [done|].
  wp_step; [done|]. match goal with H : answers _ _ LaneErr ?b |- _ => cbn in H; rename b into b, H into Hb end.
  cbn [update pace_spec pace_step].
  wp_step; [wp_step; split; [split; cbn; [lia|by intros ->|done]|left; cbn; by rewrite orb_true_r]|].
  wp_step; [done|]. match goal with H : answers _ _ Now ?t |- _ => cbn in H; rename t into t, H into Ht end.
  cbn [update pace_spec pace_step].
  wp_step; bool_simpl.
  - wp_step. split; [split; cbn; [lia|by intros ->|done]|right; cbn]. unfold time_sub, min_int64, max_int64 in *. lia.
  - wp_step; [cbn; unfold maxWaitSlice, minute_ns, second_ns; lia|]. cbn [update pace_spec pace_step]. wp_step.
    + wp_step. split; [split; cbn; [lia|done|done]|by left].
    + eapply wp_mono; [|apply IH]. cbv beta. intros g' _ [Hw Hd]. split; [|done]. etrans; [|exact Hw].
      unfold maxWaitSlice, minute_ns, second_ns in *. split; cbn; [lia|by intros ->|done].
Qed.

Lemma runWindow_pace R closes g :
  (forall t, pc_failed g = Some (closes, t) -> t + shortest <= pc_now g) ->
  wp pace_spec g (runWindow r rounds R closes) (fun g' x =>
    pc_now g <= pc_now g' /\ pc_over g' = pc_over g /\
    match x.2 with
    | None => pc_failed g' = None
    | Some _ => forall c t, pc_failed g' = Some (c, t) -> c = closes /\ t <= pc_now g'
    end).
Proof.
  intros Hg. unfold runWindow. destruct g as [now over cl ended failed]. wp_step; [done|]. cbn [update pace_spec pace_step].
  wp_step; [exact Hg|]. cbn [update pace_spec pace_step]. eapply wp_use; [apply within_withWindow|]. cbv beta. intros g x [[D1 D2 D3 D4 D5] Hx].
  wp_step; [done|]. wp_step. destruct g as [now' over' cl' ended' failed']. cbn in *.
  split; [lia|]. split; [done|]. unfold run_quits, quits in Hx. cbn in Hx. destruct x as [R' [e|]]; cbn in *.
  - destruct ended'; [done|]. intros c t [= <- <-]. split; [done|lia].
  - by rewrite Hx.
Qed.

(** ** The supervisor *)
Hypothesis Hr : runner_ok r.

Definition delay_ok (delay : Z) : Prop := RetryMin r <= delay <= RetryMax r.
(** The lane is over, or the failed window's end or the shortest wait has
    passed. *)
Definition rested (g : pace) : Prop :=
  pc_over g = true \/ forall c t, pc_failed g = Some (c, t) -> Z.min c (t + shortest) <= pc_now g.

Lemma rested_waits g g' : waits g g' -> rested g -> rested g'.
Proof using Type.
  intros [W1 W2 W3] [Ho|Hf]; [left; by apply W2|right]. intros c t. rewrite W3. intros E. specialize (Hf _ _ E). lia.
Qed.

Lemma shortest_pos : 0 < shortest.
Proof using Hr. destruct Hr as (H1 & _). unfold shortest, tokenPoll, second_ns. lia. Qed.
Lemma retryWait_bounds delay e : delay_ok delay -> shortest <= retryWait r delay e <= RetryMax r.
Proof using Hr.
  intros Hd. destruct Hr as (H1 & _). pose proof shortest_pos. unfold retryWait, delay_ok, shortest, tokenPoll in *.
  destruct (error_is is_forbidden e); [lia|]. destruct (error_is is_token_wait e); lia.
Qed.
Lemma nextDelay_ok delay : delay_ok delay -> delay_ok (nextDelay r delay).
Proof using Hr.
  intros Hd. destruct Hr as (H1 & H2 & _). unfold delay_ok, nextDelay, max_int64 in *.
  rewrite wrap64_small by in64. lia.
Qed.

Lemma retryLater_pace delay started closes R e g : delay_ok delay ->
  (forall c t, pc_failed g = Some (c, t) -> c = closes /\ t <= pc_now g) ->
  wp pace_spec g (retryLater r rounds delay started closes R e) (fun g' x =>
    match x with NextTurn delay _ => delay_ok delay /\ rested g' | LaneOver => True end).
Proof using Hr.
  intros Hd Hg. unfold retryLater. destruct g as [now over cl ended failed]. wp_step; [done|].
  match goal with H : answers _ _ Now ?t |- _ => cbn in H; rename t into t1, H into Ht1 end.
  cbn [update pace_spec pace_step].
  set (delay1 := if time_sub t1 started >=? healthyRun then RetryMin r else delay).
  assert (Hd1 : delay_ok delay1) by (unfold delay1; destruct Hr as (? & _); destruct (_ >=? _); [unfold delay_ok; lia|done]).
  pose proof (retryWait_bounds delay1 e Hd1) as Hw. pose proof shortest_pos as Hs. destruct Hr as (H1 & H2 & _).
  set (wait := retryWait r delay1 e) in *.
  assert (Hq : 0 <= Z.quot wait 5 <= wait) by (rewrite Z.quot_div_nonneg by lia; split; [apply Z.div_pos; lia|apply Z.div_le_upper_bound; lia]).
  rewrite wrap64_small by (unfold max_int64 in *; in64). wp_step; [cbn; lia|].
  match goal with H : answers _ _ (Int64N _) ?t |- _ => cbn in H; rename t into jitter, H into Hj end.
  cbn [update pace_spec pace_step].
  rewrite (wrap64_small (wait + jitter)) by (unfold max_int64 in *; in64). wp_step; [done|].
  match goal with H : answers _ _ Now ?t |- _ => cbn in H; rename t into t2, H into Ht2 end.
  cbn [update pace_spec pace_step].
  eapply wp_use; [apply waitUntil_waits|]. cbv beta. intros g' _ [[W1 W2 W3] Hdone]. wp_step.
  split; [by apply nextDelay_ok|]. cbn in *. destruct Hdone as [Ho|Hdone]; [by left|right].
  intros c t E. rewrite W3 in E. destruct (Hg _ _ E) as [-> Ht]. rewrite Z.gtb_ltb in Hdone.
  destruct (closes <? _) eqn:Ec; bool_simpl; lia.
Qed.

Definition turn_paced (x : supervise_turn) (g : pace) : Prop :=
  match x with NextTurn delay _ => delay_ok delay /\ rested g | LaneOver => True end.

(** A window run that the schedule found open, and what follows it. *)
Lemma windowRun_pace delay R closes g : delay_ok delay -> rested g -> pc_over g = false -> pc_now g < closes ->
  wp pace_spec g
    (started ← call Now;
     call (Count WindowRuns);;
     x ← runWindow r rounds R closes;
     let '(refused, e) := x in
     over ← call LaneErr;
     if (over : bool) then mret LaneOver
     else match e with
          | None => mret (NextTurn (RetryMin r) refused)
          | Some e => retryLater r rounds delay started closes refused e
          end)
    (fun g' x => turn_paced x g').
Proof using Hr.
  intros Hd [Ho|Hf] Hover Hc; [congruence|]. destruct g as [now over cl ended failed]. cbn in Hf, Hover, Hc.
  wp_step; [done|]. match goal with H : answers _ _ Now ?t |- _ => cbn in H; rename t into t1, H into Ht1 end.
  cbn [update pace_spec pace_step]. wp_step; [done|]. cbn [update pace_spec pace_step].
  eapply wp_use; [apply runWindow_pace; cbn; intros t E; specialize (Hf _ _ E); lia|]. cbv beta.
  intros g' [R' e] (H1 & H2 & H3). cbn in H1, H2, H3. destruct g' as [now' over' cl' ended' failed'].
  wp_step; [done|]. cbn [update pace_spec pace_step]. wp_step; [by wp_step|]. destruct e as [e|].
  - eapply wp_mono; [|apply retryLater_pace; [done|exact H3]]. cbv beta. by intros g2 [].
  - wp_step. cbn in H3. subst failed'. split; [|by right]. destruct Hr as (? & _). unfold delay_ok. lia.
Qed.

Lemma superviseTurn_pace delay R g : delay_ok delay -> rested g ->
  wp pace_spec g (superviseTurn Eastern r rounds delay R) (fun g' x => turn_paced x g').
Proof using Hr.
  intros Hd Hf. unfold superviseTurn. destruct g as [now over cl ended failed].
  wp_step; [done|]. match goal with H : answers _ _ LaneErr ?b |- _ => cbn in H; rename b into b, H into Hb end.
  cbn [update pace_spec pace_step]. wp_step; [by wp_step|].
  wp_step; [done|]. match goal with H : answers _ _ Now ?t |- _ => cbn in H; rename t into t1, H into Ht1 end.
  cbn [update pace_spec pace_step]. rewrite orb_false_r.
  assert (Hf' : rested (mkPace t1 over cl ended failed)) by (revert Hf; apply rested_waits; by split).
  destruct (At Eastern (rn_schedule r) t1) as [closes|] eqn:Eat.
  - apply windowRun_pace; [done|done| |by apply At_future in Eat]. destruct over; [|done]. specialize (Hb eq_refl). congruence.
  - eapply wp_use; [apply waitUntil_waits|]. cbv beta. intros g' _ [Hw _]. wp_step. split; [done|].
    by eapply rested_waits.
Qed.

Lemma superviseLoop_pace n : forall delay R g, delay_ok delay -> rested g ->
  wp pace_spec g (superviseLoop Eastern r rounds n delay R) (fun _ _ => True).
Proof using Hr.
  induction n as [|n IH]; intros delay R g Hd Hf; cbn [superviseLoop]; [done|].
  eapply wp_use; [by apply superviseTurn_pace|]. cbv beta. intros g' [|delay' R'] Hx; [exact Logic.I|]. destruct Hx. by apply IH.
Qed.

(** C35: The supervisor backs off: with a clock that does not go back, it never
    sleeps for longer than a minute at once, never draws a jitter from an empty
    range, and after a window run that failed it does not run the same window
    again before the shortest wait (one second by default, fifteen at most) has
    passed; the delays stay between the configured bounds. *)
Theorem retries_are_paced now tr res :
  performs (supervisor Eastern r rounds) tr res ->
  expected pace_spec (mkPace now false 0 false None) tr ->
  all_allowed pace_spec (mkPace now false 0 false None) tr /\
  forall k, delay_ok (Nat.iter k (nextDelay r) (RetryMin r)).
Proof using Hr.
  intros Hp He. assert (H0 : delay_ok (RetryMin r)) by (destruct Hr as (? & _); unfold delay_ok; lia).
  split; [|intros k; induction k; cbn; [done|by apply nextDelay_ok]].
  assert (Hf : rested (mkPace now false 0 false None)) by (by right).
  apply (wp_performs _ _ _ _ _ Hp _ (superviseLoop_pace rounds (RetryMin r) _ _ H0 Hf) He).
Qed.
End pace.

(** ** The waits end *)

(** The clock moves on by what is slept. *)
Definition clock_step (g : Z) {R : Set} (o : op R) : R -> Z :=
  match o in op R return R -> Z with
  | Now => fun t => t
  | SleepLane d => fun over => if over : bool then g else g + d
  | _ => fun _ => g
  end.
Definition clock_spec : spec op Z := {|
  allowed _ _ _ := True;
  answers g R o := match o in op R return R -> Prop with Now => fun t => g <= t | _ => fun _ => True end;
  update g e := let 'Event o x := e in clock_step g o x;
  may_run_out := False
|}.

Lemma waitUntil_ends n D : forall g, D - g <= Z.of_nat n * maxWaitSlice ->
  wp clock_spec g (waitUntil (S n) D) (fun _ _ => True).
Proof.
  induction n as [|n IH]; intros g Hg; cbn [waitUntil].
  all: wp_step; [done|]; cbn [update clock_spec clock_step]; wp_step; [done|].
  all: wp_step; [done|]; match goal with H : answers _ _ Now ?t |- _ => cbn in H; rename t into t1, H into Ht1 end.
  all: cbn [update clock_spec clock_step]; wp_step; [done|]; bool_simpl.
  all: assert (Hs : maxWaitSlice = 60000000000) by reflexivity.
  - unfold time_sub, min_int64, max_int64 in *. lia.
  - wp_step; [done|]. cbn [update clock_spec clock_step]. wp_step; [done|]. apply IH.
    unfold time_sub, min_int64, max_int64 in *. lia.
Qed.

(** A wait of the lane ends: with a clock that does not go back, the wait
    for a deadline is over after as many slices of a minute as fit before it,
    and one more look. *)
Theorem waitUntil_returns n D now tr res : D - now <= Z.of_nat n * maxWaitSlice ->
  performs (waitUntil (S n) D) tr res -> expected clock_spec now tr -> exists a, res = Some a.
Proof.
  intros Hn Hp He. destruct (wp_performs _ _ _ _ _ Hp _ (waitUntil_ends n D now Hn) He) as [_ Hr].
  destruct res as [a|]; [by exists a|done].
Qed.

(** ** Cool-downs *)

(** The frame a reader got last, the clock after it, and the last cool-down it
    installed. *)
Record cool := mkCool { cl_frame : option QFrame; cl_time : option Z; cl_until : option Z }.

Section cooldown.
Context {codec : TossCodec} (Eastern : location) (r : runner) (rounds : nat).

Definition cool_step (g : cool) {R : Set} (o : op R) : R -> cool :=
  match o in op R return R -> cool with
  | AskRead _ _ => fun d =>
      mkCool (match contain d with Ok raw => Some (DecodeFrame Eastern (rn_symbols r) raw) | Err _ => None end) None None
  | Now => fun t => mkCool (cl_frame g) (Some t) (cl_until g)
  | CoolDown until => fun _ => mkCool (cl_frame g) (cl_time g) (Some until)
  | _ => fun _ => g
  end.
(** A frame goes to the connection loop as it was decoded, and a rate-limit
    frame only after the cool-down from its receipt is installed. *)
Definition cool_may (g : cool) (R : Set) (o : op R) : Prop :=
  match o with
  | SendControl _ _ f =>
      cl_frame g = Some f /\
      (f = FrameError "rate-limit-exceeded" -> exists t, cl_time g = Some t /\ cl_until g = Some (t + rateLimitCoolDown))
  | CoolDown until => exists t, cl_time g = Some t /\ until = t + rateLimitCoolDown
  | _ => True
  end.
Definition cool_spec : spec op cool := {|
  allowed := cool_may;
  answers _ _ _ _ := True;
  update g e := let 'Event o x := e in cool_step g o x;
  may_run_out := True
|}.

Lemma readLoop_cools n w h : forall g, wp cool_spec g (readLoop Eastern r n w h) (fun _ _ => True).
Proof.
  induction n as [|n IH]; intros g; cbn [readLoop]; [done|]. wp_step; [done|]. cbn [update cool_spec cool_step].
  destruct (contain _) as [raw|e]; [|done]. do 2 (wp_step; [done|]). cbn [update cool_spec cool_step cl_frame cl_time cl_until].
  destruct (DecodeFrame _ _ raw) as [|tick drop|subs rej|code|].
  - wp_step; [done|]. apply IH.
  - destruct (drop <>s ""); (wp_step; [done|]); [apply IH|]. wp_step; [apply IH|]. wp_step; [done|]. apply IH.
  - wp_step; [by split|]. wp_step; [apply IH|done].
  - wp_step. wp_step; bool_simpl.
    + wp_step; [by eexists|]. cbn [update cool_spec cool_step cl_frame cl_time cl_until].
      cbv beta. wp_step; [split; [done|]; intros _; by eexists|]. wp_step; [apply IH|done].
    + wp_step. wp_step; [split; [done|]; by intros [=]|]. wp_step; [apply IH|done].
  - apply IH.
Qed.

(** The lane obeys a rate limit from its receipt: whatever a reader
    receives, a rate-limit frame reaches the connection loop, which declares
    again, only after the limiter was told to cool down for a second from the
    clock at its receipt; and every control frame is the one just decoded. *)
Theorem cooldown_before_control w h tr res :
  performs (reader Eastern r rounds w h) tr res -> all_allowed cool_spec (mkCool None None None) tr.
Proof.
  intros Hp. assert (He : forall g, expected cool_spec g tr) by (clear; induction tr as [|[R o x] tr IH]; cbn; auto).
  assert (H : wp cool_spec (mkCool None None None) (reader Eastern r rounds w h) (fun _ _ => True)).
  { unfold reader. eapply wp_use; [apply readLoop_cools|]. cbv beta. intros g e _. by split. }
  by destruct (wp_performs _ _ _ _ _ Hp _ H (He _)).
Qed.
End cooldown.

(** ** Witnesses *)

Existing Instance runner_toss.

(** A dialer that is down for ten seconds. *)
Definition paced_run := sample_lane_run (Fails (ErrOther "down")) Panics 10 (supervisor KST sample_runner 9).
Lemma paced_performs : performs (supervisor KST sample_runner 9) paced_run.1.2 paced_run.2.
Proof. apply run_performs. Qed.
Lemma sample_runner_ok : runner_ok sample_runner.
Proof.
  apply (NewRunner_ok [sample_symbol] true DefaultStreamKey 1000 2 0 0 0); [vm_compute; reflexivity|..];
    unfold max_int64; lia.
Qed.
Definition is_dial (e : event op) : bool := match e with Event (AskDial _ _ _ _) _ => true | _ => false end.

Lemma retries_are_paced_witness :
  paced_run.1.1 = ten_oclock + 15 * second_ns /\ length (List.filter is_dial paced_run.1.2) = 4%nat /\
  all_allowed (pace_spec sample_runner) (mkPace ten_oclock false 0 false None) paced_run.1.2.
Proof.
  split; [vm_compute; reflexivity|]. split; [vm_compute; reflexivity|].
  refine (proj1 (retries_are_paced KST sample_runner 9 sample_runner_ok ten_oclock paced_run.1.2 paced_run.2 paced_performs _)).
  vm_compute. repeat split; try discriminate; intros H; discriminate H.
Defined.

(** A wait of ninety seconds takes two slices. *)
Definition wait_run := sample_lane_run (Gives None) Panics 3600 (waitUntil 4 (ten_oclock + 90 * second_ns)).
Lemma wait_performs : performs (waitUntil 4 (ten_oclock + 90 * second_ns)) wait_run.1.2 wait_run.2.
Proof. apply run_performs. Qed.
Lemma waitUntil_returns_witness : wait_run.1.1 = ten_oclock + 90 * second_ns /\ exists a, wait_run.2 = Some a.
Proof.
  split; [vm_compute; reflexivity|].
  apply (waitUntil_returns 3 (ten_oclock + 90 * second_ns) ten_oclock wait_run.1.2 wait_run.2).
  - vm_compute. discriminate.
  - exact wait_performs.
  - vm_compute. repeat split; discriminate.
Defined.

(** A rate-limit frame after which the window is over. *)
Definition cool_run := sample_lane_run (Gives None) (Gives "limit") 3600 (reader KST sample_runner 9 0 0).
Lemma cool_performs : performs (reader KST sample_runner 9 0 0) cool_run.1.2 cool_run.2.
Proof. apply run_performs. Qed.
Lemma cooldown_before_control_witness :
  cool_run.1.2 = [Event (AskRead 0 0) (Gives "limit"); Event Now ten_oclock; Event (Count Frames) tt;
    Event (CoolDown (ten_oclock + second_ns)) tt;
    Event (SendControl 0 0 (FrameError "rate-limit-exceeded")) false; Event (SendDone 0 ErrContext) tt] /\
  all_allowed (cool_spec KST sample_runner) (mkCool None None None) cool_run.1.2.
Proof.
  split; [vm_compute; reflexivity|].
  exact (cooldown_before_control KST sample_runner 9 0 0 cool_run.1.2 cool_run.2 cool_performs).
Defined.
