(* ===== verification/Transport.v ===== *)
(** [src/internal/quote/transport.go]: the websocket of the quote lane, as
    programs over the websocket library.

    [WsDial] follows no redirect; it answers with the status of the handshake,
    if there was a response, and with a connection or an error's text. *)

From S2P Require Import Prelude GoStr Wire KST Runner Prog.
Local Open Scope Z_scope.

Definition readLimit : Z := 1048576.
Definition closeTimeout : Z := 5 * second_ns.

Inductive ws_op : Set -> Type :=
| WsDial (endpoint : string) (header : Header) : ws_op (option Z * result nat string)
| CloseBody : ws_op unit
| SetReadLimit (conn : nat) (n : Z) : ws_op unit
| WsRead (conn : nat) : ws_op (result string string)
| WsWrite (conn : nat) (data : string) : ws_op (option string)
| GoClose (conn : nat) : ws_op unit
| SelectClosed (timeout : Z) : ws_op bool
| CloseNow (conn : nat) : ws_op unit.
Notation program := (prog ws_op).

Definition errEndpoint : lane_error := ErrOther "quote: refusing to dial a websocket other than the Toss endpoint".

(** The error of a handshake. *)
Definition dialError (response : option Z) (text : string) : lane_error :=
  match response with
  | Some 401 => ErrUnauthorized
  | Some 403 => ErrForbidden
  | Some code => ErrOther ("quote: Toss websocket handshake failed (HTTP " +:+ pretty code +:+ ")")
  | None => ErrOther ("quote: Toss websocket dial failed: " +:+ text)
  end.
Definition bearer (token : string) : Header := {["Authorization" := "Bearer " +:+ token]}.

Definition dialURL (endpoint token : string) : program (result nat lane_error) :=
  a ← call (WsDial endpoint (bearer token));
  (if is_some a.1 then call CloseBody else mret tt);;
  match a.2 with
  | Err text => mret (Err (dialError a.1 text))
  | Ok conn => call (SetReadLimit conn readLimit);; mret (Ok conn)
  end.
Definition Dial (endpoint token : string) : program (result nat lane_error) :=
  if endpoint <>s Endpoint then mret (Err errEndpoint) else dialURL endpoint token.

Definition Read (conn : nat) : program (result string string) := call (WsRead conn).
Definition Write (conn : nat) (data : string) : program (option string) := call (WsWrite conn data).

(** [Close]: the closing handshake runs by itself, for at most a while. *)
Definition Close (conn : nat) : program unit :=
  call (GoClose conn);;
  closed ← call (SelectClosed closeTimeout);
  if (closed : bool) then mret tt else call (CloseNow conn).

(** ** What a dial can do *)

Definition dialed (tr : list (event ws_op)) : list (string * Header) :=
  omap (fun e : event ws_op => let 'Event o _ := e in match o with WsDial endpoint h => Some (endpoint, h) | _ => None end) tr.

Record dial_done (endpoint token : string) (h : list (event ws_op)) (res : result nat lane_error) : Prop := {
  dd_foreign : endpoint <> Endpoint -> h = [] /\ res = Err errEndpoint;
  dd_endpoint : endpoint = Endpoint -> dialed h = [(Endpoint, bearer token)];
  dd_limit : forall conn, res = Ok conn -> Event (SetReadLimit conn readLimit) tt ∈ h;
  dd_unauthorized : forall e, res = Err e -> error_is is_unauthorized e = true ->
    exists text, Event (WsDial Endpoint (bearer token)) (Some 401, Err text) ∈ h;
  dd_forbidden : forall e, res = Err e -> error_is is_forbidden e = true ->
    exists text, Event (WsDial Endpoint (bearer token)) (Some 403, Err text) ∈ h
}.

Lemma dialError_unauthorized response text : error_is is_unauthorized (dialError response text) = true -> response = Some 401.
Proof. unfold dialError. repeat (case_match; try done). Qed.
Lemma dialError_forbidden response text : error_is is_forbidden (dialError response text) = true -> response = Some 403.
Proof. unfold dialError. repeat (case_match; try done). Qed.

(** The token goes to the one endpoint, once, in a header; a connection is
    handed out with its limit set; and the two errors the lane stops for are
    the handshake's 401 and 403. *)
Lemma Dial_done endpoint token : wp history [] (Dial endpoint token) (dial_done endpoint token).
Proof.
  unfold Dial. destruct (endpoint <>s Endpoint) eqn:E; bool_simpl.
  { split; try done; by intros e [= <-]. }
  subst endpoint. unfold dialURL. wp_step; [done|]. destruct r as [response res]. cbn [fst snd update history app].
  apply wp_bind. apply (wp_mono _ _ (fun g _ => dialed g = [(Endpoint, bearer token)] /\
    Event (WsDial Endpoint (bearer token)) (response, res) ∈ g)).
  - intros g _ [Hd Hin]. destruct res as [conn|text].
    + wp_step; [done|]. wp_step. split; try done.
      * intros _. cbn. unfold dialed in *. by rewrite omap_app, Hd.
      * intros c [= <-]. apply elem_of_app. right. destruct r. left.
    + wp_step. split; try done; intros e [= <-] He.
      * apply dialError_unauthorized in He as ->. by exists text.
      * apply dialError_forbidden in He as ->. by exists text.
  - destruct (is_some response); wp_step; try done; cbn; by split; [|left].
Qed.
