(* ===== verification/E1.v ===== *)
(** [src/internal/exec/e1]: the executor's client for the E1 intent gateway,
    [client.go] and [reads.go].

    The client's routines are programs over its calls: the token source, the
    HTTP requests, the log of a dry run and the simulated answer.
    [encoding/json], [math/big] and [net/url] are the classes [E1Codec] and
    [NetURL].  A request's context is left out: when it ends, [Do] fails. *)

From Stdlib Require Import Ascii QArith.
From S2P Require Import Prelude GoStr Wire KST Tick Intent Machine Ledger Prog.
Local Open Scope Z_scope.

(** ** Constants *)

Definition MockAccount : string := "kis_mock".
Definition ConfirmHeader : string := "X-Execution-Intent-Confirm".
Definition DefaultTokenHeader : string := "X-Execution-Intent-Gateway-Token".
Definition maxAnswerBytes : Z := 65536.
Definition maxReadBytes : Z := 4194304.
Definition ErrNoReconcile : string := "e1: no usable reconcile view; the child stays unresolved".
Definition ErrNoAnswer : string := "e1: dry run, no answer".

(** ** The configuration *)

Inductive ClientMode := Off | DryRun | SendMode.

Record E1Config := mkE1Config {
  cf_Account : string; cf_SendEnabled : bool; cf_DryRun : bool; cf_URL : string; cf_TokenHeader : string;
  cf_Timeout : Z
}.

(** Why [New] refuses. *)
Inductive refusal :=
| ErrAccountNotMock (account : string)
| ErrIntent (e : intent_error)
| ErrConfig (text : string).

(** [Config.Mode]. *)
Definition Config_Mode (c : E1Config) : result ClientMode refusal :=
  if cf_Account c <>s MockAccount then Err (ErrAccountNotMock (cf_Account c))
  else if cf_DryRun c then Ok DryRun
  else if cf_SendEnabled c then Ok SendMode
  else Ok Off.

(** [Config.ExecutorSends]. *)
Definition ExecutorSends (c : E1Config) : bool :=
  match Config_Mode c with Ok Off | Err _ => false | Ok _ => true end.

(** [Options]: what is there; [opt_HTTP] is the timeout of the client given. *)
Record Options := mkOptions { opt_Token : bool; opt_HTTP : option Z; opt_Log : bool; opt_Answer : bool }.

(** [Client]; [cl_http] is the timeout of the HTTP client. *)
Record Client := mkClient {
  cl_mode : ClientMode; cl_account : string; cl_intent : Intent; cl_url : string; cl_header : string;
  cl_token : string; cl_http : option Z; cl_answer : bool
}.

(** [headerName]. *)
Definition headerName (s : string) : bool := (s <>s "") && str_forall token_byte s.
(** [headerValue]. *)
Definition headerValue (s : string) : bool :=
  str_forall (byte_in 32 126) s && (TrimSpace s =s s).

Definition clientHeaders : list string :=
  [ConfirmHeader; "Content-Type"; "Content-Length"; "Host"; "Transfer-Encoding"].

(** ** What travels *)

(** [Outcome]; a raw [Result] is its bytes. *)
Record E1Outcome : Set := mkE1Outcome {
  ot_Status : string; ot_Reason : option string; ot_ChildID : option Z; ot_BrokerOrderID : option string;
  ot_Result : string; ot_Replayed : bool; ot_OutcomeNotRecorded : bool
}.

(** [LedgerFill], [LedgerOrder] and [FillsSnapshot]; a nil slice is [None]. *)
Record LedgerFill := mkLedgerFill {
  lf_FillID : string; lf_Side : string; lf_Qty : Z; lf_Price : string; lf_FilledAt : Z; lf_CommittedAt : Z
}.
Record LedgerOrder := mkLedgerOrder {
  lo_BrokerOrderID : string; lo_CumulativeQty : Z; lo_Fills : option (list LedgerFill)
}.
Record FillsSnapshot := mkFillsSnapshot { fs_IntentID : string; fs_Orders : option (list LedgerOrder) }.

(** The answer of the intent read; raw messages are their bytes. *)
Record IntentRead := mkIntentRead {
  ir_IntentID : string; ir_Reconciled : bool; ir_View : option View;
  ir_Unresolved : list string; ir_Children : list string
}.

(** [dryRunLine]. *)
Record dryRunLine := mkDryRunLine {
  dl_DryRun : bool; dl_Method : string; dl_URL : string; dl_Headers : Header; dl_Body : string
}.

Record Request := mkRequest { rq_Method : string; rq_URL : string; rq_Header : Header; rq_Body : string }.

(** How a request ends: no response, with the cause a [*url.Error] wraps, or
    a response. *)
Inductive http_answer : Set :=
| DoFailed (cause : option string) (text : string)
| Response (code : Z) (b : body).

Definition orders_fills (os : list LedgerOrder) : list LedgerFill :=
  mjoin ((fun o => default [] (lo_Fills o)) <$> os).
Definition snapshot_fills (s : FillsSnapshot) : list LedgerFill :=
  orders_fills (default [] (fs_Orders s)).

(** [encoding/json] on these types, and [big.Rat.SetString]; an element of a
    JSON array takes a byte at least. *)
Class E1Codec := {
  marshal_child : Child -> result string string;
  encode_line : dryRunLine -> result string string;
  outcome_decoder :: JSONDecoder E1Outcome;
  snapshot_decoder :: JSONDecoder FillsSnapshot;
  intent_decoder :: JSONDecoder IntentRead;
  parse_rat : string -> option Q;
  snapshot_sized data (s : FillsSnapshot) rest : decode_value data = Ok (s, rest) ->
    (length (snapshot_fills s) <= String.length data)%nat
}.

(** The calls. *)
Inductive op : Set -> Type :=
| AskToken : op (result string string)
| NewRequest (method url : string) : op (option string)
| Do (rq : Request) : op http_answer
| WriteLog (line : string) : op (option string)
| AskAnswer (c : Child) : op (result E1Outcome string).
Notation program := (prog op).

Section E1.
Context `{E1Codec, NetURL}.
(** [fmt]'s [%q]. *)
Context (quote : string -> string).

(** ** Making a client *)

(** The URL an error may show. *)
Definition bare (u : URL) : URL :=
  mkURL (u_Scheme u) (u_Opaque u) None (u_Host u) (u_Path u) (u_RawPath u) (u_OmitHost u) false "" "" "".

(** [checkURL]. *)
Definition checkURL (raw : string) : result string refusal :=
  match url_Parse raw with
  | None => Err (ErrConfig "url does not parse")
  | Some u =>
      let shown := "url " +:+ quote (url_String (bare u)) in
      if bool_decide (u_User u <> None)
      then Err (ErrConfig (shown +:+ ": credentials in a url are refused; the token header is the only credential"))
      else if (u_RawQuery u <>s "") || u_ForceQuery u || (u_Fragment u <>s "") || (u_RawFragment u <>s "")
      then Err (ErrConfig (shown +:+ ": a query or fragment is refused; the token header is the only credential"))
      else if (u_Host u =s "") || (Hostname u =s "") || (u_Opaque u <>s "") then Err (ErrConfig shown)
      else if u_Scheme u =s "https" then Ok (url_String u)
      else if u_Scheme u =s "http" then
        if negb (IsLoopbackHost (Hostname u)) then Err (ErrConfig (shown +:+ ": http only to a loopback host; use https"))
        else Ok (url_String u)
      else Err (ErrConfig shown)
  end.

(** The end of [New], in send mode. *)
Definition newSender (cfg : E1Config) (i : Intent) (opt : Options) (header url : string)
  : program (result Client refusal) :=
  if negb (opt_Token opt) then mret (Err (ErrConfig "send mode needs a token source"))
  else
    token ← call AskToken;
    match token with
    | Err e => mret (Err (ErrConfig ("token: " +:+ e)))
    | Ok token =>
        if token =s "" then mret (Err (ErrConfig "empty token"))
        else if negb (headerValue token) then mret (Err (ErrConfig "token is not a valid header value"))
        else
          let timeout := match opt_HTTP opt with Some t => t | None => cf_Timeout cfg end in
          let timeout := if timeout <=? 0 then 10 * second_ns else timeout in
          mret (Ok (mkClient SendMode (cf_Account cfg) i url header token (Some timeout) false))
    end.

(** [New]. *)
Definition New (cfg : E1Config) (i : Intent) (opt : Options) : program (result Client refusal) :=
  match Config_Mode cfg with
  | Err e => mret (Err e)
  | Ok mode =>
      if Account i <>s MockAccount then mret (Err (ErrAccountNotMock (Account i)))
      else match Validate i with
           | Some e => mret (Err (ErrIntent e))
           | None =>
               let header := if cf_TokenHeader cfg =s "" then DefaultTokenHeader else cf_TokenHeader cfg in
               if negb (headerName header)
               then mret (Err (ErrConfig ("token header " +:+ quote header +:+ " is not a valid header name")))
               else if existsb (String.eqb (CanonicalHeaderKey header)) clientHeaders
               then mret (Err (ErrConfig ("token header " +:+ quote header +:+ " collides with a header the client sets")))
               else
                 match mode with
                 | Off => mret (Ok (mkClient Off (cf_Account cfg) i "" header "" None false))
                 | _ =>
                     match checkURL (cf_URL cfg) with
                     | Err e => mret (Err e)
                     | Ok url =>
                         match mode with
                         | DryRun =>
                             if negb (opt_Log opt) then mret (Err (ErrConfig "dry run needs a log"))
                             else mret (Ok (mkClient DryRun (cf_Account cfg) i url header "" None (opt_Answer opt)))
                         | _ => newSender cfg i opt header url
                         end
                     end
                 end
           end
  end.

(** ** Sending a child *)

(** [local]. *)
Definition local (c : Child) (reason : string) : Outcome :=
  mkOutcome (c_Key c) StatusRefused ("fillwire: " +:+ reason) "".

(** [ParseOutcome]. *)
Definition ParseOutcome (data : string) : result E1Outcome string :=
  match DecodeStrict data with
  | Err e => Err ("e1: outcome: " +:+ strict_text e)
  | Ok o => if ot_Status o =s "" then Err "e1: outcome: no status" else Ok o
  end.

(** [Outcome.ToExec]. *)
Definition ToExec (o : E1Outcome) (ch : Child) : Outcome :=
  let reason := default "" (ot_Reason o) in
  let id := match ot_BrokerOrderID o with Some id => TrimSpace id | None => "" end in
  if ot_Status o =s StatusAccepted then
    if (id <>s "") || (c_Action ch =s ActCancel) then mkOutcome (c_Key ch) StatusAccepted reason id
    else mkOutcome (c_Key ch) StatusUncertain "e1 accepted without broker_order_id" id
  else if ot_Status o =s StatusRefused then mkOutcome (c_Key ch) StatusRefused reason id
  else if (ot_Status o =s StatusUncertain) || (ot_Status o =s StatusSending) || (ot_Status o =s StatusConflict)
  then mkOutcome (c_Key ch) (ot_Status o) reason id
  else mkOutcome (c_Key ch) StatusUncertain ("e1 status " +:+ quote (ot_Status o)) id.

(** The request of a child. *)
Definition childRequest (c : Client) (ch : Child) (data : string) : Request :=
  mkRequest "POST" (cl_url c)
    (set_header ConfirmHeader (c_Key ch)
      (set_header (cl_header c) (cl_token c) (set_header "Content-Type" "application/json" ∅))) data.

(** What [Send] makes of the answer to it. *)
Definition childAnswer (ch : Child) (a : http_answer) : result Outcome string :=
  match a with
  | DoFailed (Some cause) _ => Err ("e1: post: " +:+ cause)
  | DoFailed None text => Err text
  | Response code b =>
      match ReadLimited (maxAnswerBytes + 1) b with
      | Err e => Err e
      | Ok data =>
          if negb (code =? 200) then Err ("e1: http " +:+ FormatInt code)
          else if Z.of_nat (String.length data) >? maxAnswerBytes then Err "e1: answer too large"
          else match ParseOutcome data with Err e => Err e | Ok o => Ok (ToExec o ch) end
      end
  end.

(** [dryRun]. *)
Definition dryLine (c : Client) (ch : Child) (data : string) : dryRunLine :=
  mkDryRunLine true "POST" (cl_url c)
    (<[ConfirmHeader := c_Key ch]> (<[cl_header c := "<not read in dry run>"]> {[ "Content-Type" := "application/json" ]}))
    data.
Definition dryRun (c : Client) (ch : Child) (data : string) : program (result Outcome string) :=
  match encode_line (dryLine c ch data) with
  | Err e => mret (Err e)
  | Ok line =>
      failed ← call (WriteLog line);
      match failed with
      | Some e => mret (Err e)
      | None =>
          if negb (cl_answer c) then mret (Err ErrNoAnswer)
          else
            o ← call (AskAnswer ch);
            mret match o with Err e => Err e | Ok o => Ok (ToExec o ch) end
      end
  end.

(** The posting end of [Send]. *)
Definition post (c : Client) (ch : Child) (data : string) : program (result Outcome string) :=
  failed ← call (NewRequest "POST" (cl_url c));
  match failed with
  | Some e => mret (Ok (local ch e))
  | None => answer ← call (Do (childRequest c ch data)); mret (childAnswer ch answer)
  end.

(** [Send]. *)
Definition Send (c : Client) (ch : Child) : program (result Outcome string) :=
  if (cl_account c <>s MockAccount) || (Account (cl_intent c) <>s MockAccount)
  then mret (Ok (local ch "account not kis_mock"))
  else if c_IntentID ch <>s IntentID (cl_intent c)
  then mret (Ok (local ch ("intent " +:+ quote (c_IntentID ch) +:+ " is not this client's")))
  else match cl_mode c with
       | Off => mret (Ok (local ch "send disabled"))
       | mode =>
           match marshal_child ch with
           | Err e => mret (Ok (local ch e))
           | Ok data => match mode with DryRun => dryRun c ch data | _ => post c ch data end
           end
       end.

(** ** The reads *)

(** [LedgerFill.Execution]. *)
Definition Execution (f : LedgerFill) : result Fill string :=
  let invalid := Err "e1: invalid or fractional-KRW ledger fill" in
  match parse_rat (lf_Price f) with
  | None => invalid
  | Some p =>
      let p := Qred p in
      if negb (Qden p =? 1)%positive || (Qnum p <? min_int64) || (Qnum p >? max_int64) || (Qnum p <=? 0)
         || (lf_FillID f =s "") || (lf_Qty f <=? 0) || (lf_Qty f >? 1000000)
         || IsZero (lf_FilledAt f) || IsZero (lf_CommittedAt f)
      then invalid
      else if Qnum p >? 10000000 then Err "e1: ledger price outside KR equity range"
      else Ok (mkFill (lf_FillID f) "" (lf_Qty f) (Qnum p) (UnixNano (lf_FilledAt f)))
  end.

(** [strict]. *)
Definition strict {A} `{JSONDecoder A} (data : string) : result A string :=
  match DecodeStrict data with
  | Err ErrTrailingData => Err "e1: trailing read response"
  | Err (ErrDecode _) => Err "e1: invalid read response"
  | Ok v => Ok v
  end.

(** [read]. *)
Definition readEndpoint (c : Client) (suffix : string) : string :=
  TrimSuffix (cl_url c) "/children" +:+ "/intents/" +:+ IntentID (cl_intent c) +:+ suffix.
Definition readRequest (c : Client) (suffix : string) : Request :=
  mkRequest "GET" (readEndpoint c suffix) (set_header (cl_header c) (cl_token c) ∅) "".
Definition readAnswer {A} `{JSONDecoder A} (a : http_answer) : result A string :=
  match a with
  | DoFailed _ _ => Err "e1: read transport failed"
  | Response code b =>
      if negb (code =? 200) then Err "e1: read HTTP failure"
      else match ReadLimited (maxReadBytes + 1) b with
           | Err _ => Err "e1: read response exceeds limit"
           | Ok data =>
               if Z.of_nat (String.length data) >? maxReadBytes then Err "e1: read response exceeds limit"
               else strict data
           end
  end.
Definition read {A} `{JSONDecoder A} (c : Client) (suffix : string) : program (result A string) :=
  if negb (match cl_mode c with SendMode => true | _ => false end) || bool_decide (cl_http c = None)
     || negb (HasSuffix (cl_url c) "/children")
  then mret (Err ErrNoReconcile)
  else
    failed ← call (NewRequest "GET" (readEndpoint c suffix));
    match failed with
    | Some _ => mret (Err "e1: invalid read endpoint")
    | None => answer ← call (Do (readRequest c suffix)); mret (readAnswer answer)
    end.

(** The loops of [Fills]: the fill identities and the order numbers so far. *)
Fixpoint checkFills (side : string) (fills : list LedgerFill) (ids : gset string) (total : Z)
  : result (gset string * Z) string :=
  match fills with
  | [] => Ok (ids, total)
  | f :: fills =>
      if bool_decide (lf_FillID f ∈ ids) || (lf_Side f <>s side) then Err "e1: conflicting fill identity"
      else match Execution f with
           | Err e => Err e
           | Ok _ => checkFills side fills ({[ lf_FillID f ]} ∪ ids) (total +w lf_Qty f)
           end
  end.
Fixpoint checkOrders (side : string) (os : list LedgerOrder) (ids orders : gset string) : option string :=
  match os with
  | [] => None
  | o :: os =>
      let number := NormalizeOrderNumber (lo_BrokerOrderID o) in
      match lo_Fills o with
      | None => Some "e1: invalid ledger order"
      | Some fills =>
          if (number =s "") || bool_decide (number ∈ orders) || (lo_CumulativeQty o <? 0)
          then Some "e1: invalid ledger order"
          else match checkFills side fills ids 0 with
               | Err e => Some e
               | Ok (ids, total) =>
                   if negb (total =? lo_CumulativeQty o) then Some "e1: ledger cumulative quantity mismatch"
                   else checkOrders side os ids ({[ number ]} ∪ orders)
               end
      end
  end.

(** What [Fills] makes of a snapshot. *)
Definition checkSnapshot (c : Client) (s : FillsSnapshot) : option string :=
  match fs_Orders s with
  | None => Some "e1: missing or mismatched fill snapshot identity"
  | Some orders =>
      if fs_IntentID s <>s IntentID (cl_intent c) then Some "e1: missing or mismatched fill snapshot identity"
      else checkOrders (in_Side (cl_intent c)) orders ∅ ∅
  end.

(** [Fills]. *)
Definition Fills (c : Client) : program (result FillsSnapshot string) :=
  s ← read c "/fills";
  mret match s with
       | Err e => Err e
       | Ok s => match checkSnapshot c s with Some e => Err e | None => Ok s end
       end.

(** What [query] makes of an intent read. *)
Definition checkRead (intentID : string) (s : IntentRead) : result View string :=
  match ir_View s with
  | None => Err ErrNoReconcile
  | Some v =>
      if (ir_IntentID s <>s intentID) || negb (ir_Reconciled s) || (0 <? length (ir_Unresolved s))%nat
         || (v_FilledQty v <? 0)
      then Err ErrNoReconcile
      else Ok v
  end.

(** [Query]. *)
Definition Query (c : Client) (intentID : string) : program (result View string) :=
  if intentID <>s IntentID (cl_intent c) then mret (Err ErrNoReconcile)
  else
    s ← read c "";
    mret match s with Err e => Err e | Ok s => checkRead intentID s end.

(** ** What travels, in a trace *)

Definition request_of (e : event op) : option Request :=
  match e with Event o _ => match o with Do rq => Some rq | _ => None end end.
Definition requests (tr : list (event op)) : list Request := omap request_of tr.
Definition token_of (e : event op) : option unit :=
  match e with Event o _ => match o with AskToken => Some tt | _ => None end end.
Definition tokens (tr : list (event op)) : list unit := omap token_of tr.

(** E1, or the simulated E1, answered the child with this outcome: as one
    JSON value of a body within the limit, in a 200 response. *)
Definition e1_said (ch : Child) (tr : list (event op)) (o : E1Outcome) : Prop :=
  Event (AskAnswer ch) (Ok o) ∈ tr \/
  exists rq b, Event (Do rq) (Response 200 b) ∈ tr /\ bd_err b = None /\
    Z.of_nat (String.length (bd_bytes b)) <= maxAnswerBytes /\ DecodeStrict (bd_bytes b) = Ok o.

(** The outcomes [ToExec] makes of E1's. *)
Lemma ToExec_honest o ch :
  oc_Key (ToExec o ch) = c_Key ch /\
  (oc_Status (ToExec o ch) = StatusAccepted ->
    ot_Status o = StatusAccepted /\ (oc_BrokerOrderID (ToExec o ch) <> "" \/ c_Action ch = ActCancel)) /\
  (oc_Status (ToExec o ch) = StatusRefused -> ot_Status o = StatusRefused) /\
  oc_Status (ToExec o ch) ∈ [StatusAccepted; StatusRefused; StatusUncertain; StatusSending; StatusConflict].
Proof.
  unfold ToExec. set (id := match ot_BrokerOrderID o with Some _ => _ | None => _ end).
  destruct (ot_Status o =s StatusAccepted) eqn:E1; bool_simpl.
  - destruct ((id <>s "") || (c_Action ch =s ActCancel)) eqn:E2; cbn; bool_simpl;
      (split; [done|split; [|split; [done|set_solver]]]); [|done].
    intros _. split; [done|]. apply orb_true_iff in E2 as [E2|E2]; bool_simpl; [by left|by right].
  - destruct (ot_Status o =s StatusRefused) eqn:E2; bool_simpl; cbn; [rewrite E2; by (split; [|split; [|split; [|set_solver]]])|].
    destruct (_ || _) eqn:E3; bool_simpl; cbn.
    + split; [done|]. split; [done|]. split; [done|]. apply orb_true_iff in E3 as [E3%orb_true_iff|E3]; [destruct E3 as [E3|E3]|]; bool_simpl; rewrite E3; set_solver.
    + split; [done|]. split; [done|]. split; [done|set_solver].
Qed.

(** ** New *)

(** What a client that [New] returned holds. *)
Record client_ok (cfg : E1Config) (i : Intent) (c : Client) : Prop := {
  co_mode : Config_Mode cfg = Ok (cl_mode c);
  co_account : cl_account c = MockAccount;
  co_intent : cl_intent c = i;
  co_intent_account : Account i = MockAccount;
  co_valid : Validate i = None;
  co_header : headerName (cl_header c) = true;
  co_distinct : CanonicalHeaderKey (cl_header c) ∉ clientHeaders;
  co_url : cl_mode c <> Off -> checkURL (cf_URL cfg) = Ok (cl_url c);
  co_token : cl_mode c = SendMode -> cl_token c <> "" /\ headerValue (cl_token c) = true /\
    exists t, cl_http c = Some t /\ 0 < t;
  co_secret : cl_mode c <> SendMode -> cl_token c = "" /\ cl_http c = None
}.

Lemma checkURL_safe raw url : checkURL raw = Ok url ->
  exists u, url_Parse raw = Some u /\ url = url_String u /\ bare u = u /\ u_Host u <> "" /\ u_Opaque u = "" /\
    (u_Scheme u = "https" \/ (u_Scheme u = "http" /\ IsLoopbackHost (Hostname u) = true)).
Proof.
  unfold checkURL. destruct (url_Parse raw) as [u|] eqn:Eu; [|done]. cbv zeta.
  intros Hs. split_if in Hs; [done|]. split_if in Hs; [done|]. split_if in Hs; [done|].
  apply bool_decide_eq_false in Eif. exists u. split; [done|].
  assert (Hu : url = url_String u /\ (u_Scheme u = "https" \/ (u_Scheme u = "http" /\ IsLoopbackHost (Hostname u) = true))).
  { split_if in Hs; [injection Hs as <-; split; [done|by left]|]. split_if in Hs; [|done].
    split_if in Hs; [done|]. injection Hs as <-. split; [done|by right]. }
  destruct Hu as [-> Hsch]. split; [done|]. split; [|done]. destruct u as [? ? [|] ? ? ? ? ? ? ? ?]; cbn in *;
    [by destruct Eif|]. unfold bare. cbn. by subst.
Qed.

Lemma newSender_ok cfg i opt header url tr0 :
  Config_Mode cfg = Ok SendMode -> Account i = MockAccount -> Validate i = None ->
  headerName header = true -> CanonicalHeaderKey header ∉ clientHeaders -> checkURL (cf_URL cfg) = Ok url ->
  wp history tr0 (newSender cfg i opt header url) (fun tr r =>
    requests tr = requests tr0 /\ (length (tokens tr) <= 1 + length (tokens tr0))%nat /\
    forall c, r = Ok c -> client_ok cfg i c).
Proof.
  intros Hm Ha Hv Hh Hd Hu. unfold newSender. wp_step; [by split; [|split; [lia|]]|].
  wp_step; [done|]. cbn [update history].
  assert (Hr : requests (tr0 ++ [Event AskToken r]) = requests tr0).
  { unfold requests. rewrite omap_app. by rewrite app_nil_r. }
  assert (Ht : (length (tokens (tr0 ++ [Event AskToken r])) <= 1 + length (tokens tr0))%nat).
  { unfold tokens. rewrite omap_app, length_app. cbn. lia. }
  wp_step; [|by split; [|split; [lia|]]]. wp_step; [by split; [|split; [lia|]]|].
  wp_step; [by split; [|split; [lia|]]|]. wp_step. split; [done|]. split; [done|]. intros c [= <-].
  bool_simpl. assert (Hc : cf_Account cfg = MockAccount).
  { unfold Config_Mode in Hm. destruct (cf_Account cfg <>s MockAccount) eqn:E; [done|]. by bool_simpl. }
  constructor; cbn; try done. intros _. split; [done|]. split; [done|].
  eexists. split; [done|]. destruct (_ <=? 0) eqn:Et; bool_simpl; [unfold second_ns; lia|lia].
Qed.

(** What a request of a child carries besides its JSON: three headers, the
    confirmation being the child's key, none hiding another. *)
Lemma childRequest_headers cfg i c ch data : client_ok cfg i c ->
  let h := rq_Header (childRequest c ch data) in
  h !! ConfirmHeader = Some (c_Key ch) /\ h !! "Content-Type" = Some "application/json" /\
  h !! CanonicalHeaderKey (cl_header c) = Some (cl_token c) /\ size h = 3%nat.
Proof.
  intros Hc. pose proof (co_distinct _ _ _ Hc) as Hd. unfold clientHeaders in Hd.
  rewrite !not_elem_of_cons in Hd. destruct Hd as (D1 & D2 & _). unfold childRequest, set_header. cbn [rq_Header].
  change (CanonicalHeaderKey ConfirmHeader) with ConfirmHeader.
  change (CanonicalHeaderKey "Content-Type") with "Content-Type".
  set (k := CanonicalHeaderKey (cl_header c)) in *. cbv zeta. split; [apply lookup_insert_eq|]. split; [|split].
  - rewrite lookup_insert_ne by done. rewrite lookup_insert_ne by done. apply lookup_insert_eq.
  - rewrite lookup_insert_ne by done. apply lookup_insert_eq.
  - rewrite map_size_insert_None by (rewrite !lookup_insert_ne by done; apply lookup_empty).
    rewrite map_size_insert_None by (rewrite !lookup_insert_ne by done; apply lookup_empty).
    by rewrite map_size_insert_None by apply lookup_empty.
Qed.

Lemma New_history cfg i opt :
  wp history [] (New cfg i opt) (fun tr r =>
    requests tr = [] /\ (length (tokens tr) <= 1)%nat /\
    (tokens tr <> [] -> Config_Mode cfg = Ok SendMode /\ Account i = MockAccount /\ Validate i = None /\
      exists url, checkURL (cf_URL cfg) = Ok url) /\
    forall c, r = Ok c -> client_ok cfg i c).
Proof.
  unfold New.
  assert (Hq : forall r : result Client refusal, (forall c, r = Ok c -> client_ok cfg i c) ->
    wp history [] (mret r) (fun tr r => requests tr = [] /\ (length (tokens tr) <= 1)%nat /\
      (tokens tr <> [] -> Config_Mode cfg = Ok SendMode /\ Account i = MockAccount /\ Validate i = None /\
        exists url, checkURL (cf_URL cfg) = Ok url) /\ forall c, r = Ok c -> client_ok cfg i c)).
  { intros r Hr. cbn. split; [done|]. split; [lia|]. by split. }
  destruct (Config_Mode cfg) as [mode|e] eqn:Em; [|by apply Hq].
  assert (Hc : cf_Account cfg = MockAccount).
  { unfold Config_Mode in Em. destruct (cf_Account cfg <>s MockAccount) eqn:E; [done|]. by bool_simpl. }
  destruct (Account i <>s MockAccount) eqn:Ea; [by apply Hq|]. destruct (Validate i) eqn:Ev; [by apply Hq|].
  cbv zeta. set (header := if cf_TokenHeader cfg =s "" then _ else _).
  destruct (negb (headerName header)) eqn:Eh; [by apply Hq|].
  destruct (existsb _ clientHeaders) eqn:Ed; [by apply Hq|]. bool_simpl.
  assert (Hd : CanonicalHeaderKey header ∉ clientHeaders).
  { intros Hin. apply not_true_iff_false in Ed. apply Ed, existsb_exists. eexists. split; [by apply list_elem_of_In|apply String.eqb_refl]. }
  destruct mode.
  - apply Hq. intros c [= <-]. by constructor.
  - destruct (checkURL (cf_URL cfg)) as [url|e] eqn:Eu; [|by apply Hq].
    destruct (negb (opt_Log opt)); [by apply Hq|]. apply Hq. intros c [= <-]. by constructor.
  - destruct (checkURL (cf_URL cfg)) as [url|e] eqn:Eu; [|by apply Hq].
    eapply wp_mono; [|by apply (newSender_ok cfg i opt header url [])]. cbv beta. intros tr r (H1 & H2 & H3).
    split; [done|]. split; [cbn in H2; lia|]. split; [|done]. intros _. by eauto 10.
Qed.


(** ** Send *)

(** What [Send] does, whatever answers it gets: at most one request, only in
    send mode, the child's; and what its outcome may say. *)
Definition sent_honestly (c : Client) (ch : Child) (tr : list (event op)) (r : result Outcome string) : Prop :=
  (requests tr = [] \/ exists data, requests tr = [childRequest c ch data] /\ marshal_child ch = Ok data /\
    cl_mode c = SendMode /\ cl_account c = MockAccount /\ Account (cl_intent c) = MockAccount /\
    c_IntentID ch = IntentID (cl_intent c)) /\
  tokens tr = [] /\
  forall o, r = Ok o -> oc_Key o = c_Key ch /\
    (oc_Status o = StatusAccepted -> exists e, e1_said ch tr e /\ ot_Status e = StatusAccepted /\
      (oc_BrokerOrderID o <> "" \/ c_Action ch = ActCancel)) /\
    (oc_Status o = StatusRefused -> requests tr = [] \/ exists e, e1_said ch tr e /\ ot_Status e = StatusRefused) /\
    oc_Status o ∈ [StatusAccepted; StatusRefused; StatusUncertain; StatusSending; StatusConflict].

Lemma local_honest c ch tr reason : requests tr = [] -> tokens tr = [] ->
  sent_honestly c ch tr (Ok (local ch reason)).
Proof.
  intros Hr Ht. split; [by left|]. split; [done|]. intros o [= <-]. cbn. split; [done|]. split; [done|].
  split; [by left|]. right. left.
Qed.
Lemma ToExec_said c ch tr e :
  (requests tr = [] \/ exists data, requests tr = [childRequest c ch data] /\ marshal_child ch = Ok data /\
    cl_mode c = SendMode /\ cl_account c = MockAccount /\ Account (cl_intent c) = MockAccount /\
    c_IntentID ch = IntentID (cl_intent c)) -> tokens tr = [] -> e1_said ch tr e ->
  sent_honestly c ch tr (Ok (ToExec e ch)).
Proof.
  intros Hr Ht He. split; [done|]. split; [done|]. intros o [= <-].
  destruct (ToExec_honest e ch) as (Hk & Ha & Hf & Hs). split; [done|]. split; [|split; [|done]].
  - intros Hx. destruct (Ha Hx). by exists e.
  - intros Hx. right. exists e. auto.
Qed.

Lemma childAnswer_ok ch a o : childAnswer ch a = Ok o ->
  exists b e, a = Response 200 b /\ bd_err b = None /\ Z.of_nat (String.length (bd_bytes b)) <= maxAnswerBytes /\
    DecodeStrict (bd_bytes b) = Ok e /\ o = ToExec e ch.
Proof.
  destruct a as [[|] |code b]; cbn [childAnswer]; [done|done|].
  destruct (ReadLimited _ b) as [data|] eqn:Er; [|done]. destruct (negb (code =? 200)) eqn:Ec; [done|].
  destruct (_ >? maxAnswerBytes) eqn:El; [done|]. unfold ParseOutcome.
  destruct (DecodeStrict data) as [e|] eqn:Ed; [|done]. destruct (ot_Status e =s ""); [done|].
  intros [= <-]. bool_simpl. rewrite Z.gtb_ltb in El. bool_simpl. subst code.
  destruct (ReadLimited_whole _ _ _ Er) as [Hb ->]; [unfold maxAnswerBytes; lia|lia|]. by exists b, e.
Qed.

Lemma Send_history c ch : wp history [] (Send c ch) (sent_honestly c ch).
Proof.
  unfold Send. destruct (_ || _) eqn:Ea; [by apply local_honest|].
  destruct (c_IntentID ch <>s IntentID (cl_intent c)) eqn:Ei; [by apply local_honest|]. bool_simpl.
  destruct (cl_mode c) eqn:Em; [by apply local_honest|destruct (marshal_child ch) as [data|] eqn:Ed..];
    [|by apply local_honest| |by apply local_honest].
  - unfold dryRun. destruct (encode_line _) as [line|]; [|by split; [left|split]].
    wp_step; [done|]. cbn [update history app]. wp_step; [by split; [left|split]|].
    wp_step; [by split; [left|split]|]. wp_step; [done|]. cbn [update history app]. wp_step.
    destruct r0 as [e|]; [|by split; [left|split]]. apply ToExec_said; [by left|done|].
    left. right. left.
  - unfold post. wp_step; [done|]. cbn [update history app]. wp_step; [by apply local_honest|].
    wp_step; [done|]. cbn [update history app]. wp_step. rename r0 into a.
    assert (Hr : exists data0, [childRequest c ch data] = [childRequest c ch data0] /\ marshal_child ch = Ok data0 /\
      cl_mode c = SendMode /\ cl_account c = MockAccount /\ Account (cl_intent c) = MockAccount /\
      c_IntentID ch = IntentID (cl_intent c)) by (by exists data).
    destruct (childAnswer ch a) as [o|err] eqn:Eo; [|by split; [right|split]].
    destruct (childAnswer_ok _ _ _ Eo) as (b & e & -> & Hb & Hl & Hd & ->). apply ToExec_said; [by right|done|].
    right. eexists _, b. split; [right; left|done].
Qed.

(** C13: [Send] tells the truth: whatever happens on the wire, it makes at most
    one request, the child's own, and only in send mode with both accounts the
    mock one; the outcome is for the child's key; accepted is only said of an
    accepted outcome, decoded from a whole body within the limit of a 200
    answer, with an order number unless it is a cancel; and refused is only
    said when no request was made or E1 refused, so that a refusal is final. *)
Theorem Send_honest c ch tr res : performs (Send c ch) tr res ->
  exists r, res = Some r /\ sent_honestly c ch tr r.
Proof. intros Hp. apply (performs_history _ _ _ _ Hp (Send_history c ch)). Qed.

End E1.

(** ** What the reads promise *)

Section Reads.
Context `{E1Codec}.

(** The trace of a read: the GET of the endpoint with the token, in send mode,
    or no request. *)
Definition one_read (c : Client) (suffix : string) (tr : list (event op)) : Prop :=
  requests tr = [] \/ (requests tr = [readRequest c suffix] /\ cl_mode c = SendMode /\
    exists base, cl_url c = base +:+ "/children" /\
      rq_URL (readRequest c suffix) = base +:+ "/intents/" +:+ IntentID (cl_intent c) +:+ suffix).
(** The answer to it was this value: one JSON value, the whole of a body
    within the limit, in a 200 response. *)
Definition was_read {A} `{JSONDecoder A} (c : Client) (suffix : string) (tr : list (event op)) (v : A) : Prop :=
  exists b, Event (Do (readRequest c suffix)) (Response 200 b) ∈ tr /\ bd_err b = None /\
    Z.of_nat (String.length (bd_bytes b)) <= maxReadBytes /\ DecodeStrict (bd_bytes b) = Ok v.

Lemma readAnswer_ok {A} `{JSONDecoder A} a (v : A) : readAnswer a = Ok v ->
  exists b, a = Response 200 b /\ bd_err b = None /\ Z.of_nat (String.length (bd_bytes b)) <= maxReadBytes /\
    DecodeStrict (bd_bytes b) = Ok v.
Proof.
  destruct a as [|code b]; cbn [readAnswer]; [done|]. destruct (negb (code =? 200)) eqn:Ec; [done|].
  destruct (ReadLimited _ b) as [data|] eqn:Er; [|done].
  destruct (_ >? maxReadBytes) eqn:El; [done|]. unfold strict.
  destruct (DecodeStrict data) as [x|[|]] eqn:Ed; [|done..].
  intros [= <-]. bool_simpl. rewrite Z.gtb_ltb in El. bool_simpl. subst code.
  destruct (ReadLimited_whole _ _ _ Er) as [Hb ->]; [unfold maxReadBytes; lia|lia|]. by exists b.
Qed.

Lemma read_history {A} `{JSONDecoder A} c suffix :
  wp history [] (read (A := A) c suffix) (fun tr r => one_read c suffix tr /\ tokens tr = [] /\
    forall v, r = Ok v -> was_read c suffix tr v).
Proof.
  unfold read. destruct (_ || _ || _) eqn:Eg; [by split; [left|split]|]. bool_simpl.
  wp_step; [done|]. cbn [update history app]. wp_step; [by split; [left|split]|].
  wp_step; [done|]. cbn [update history app]. wp_step. split; [|split; [done|]].
  - right. split; [done|]. split; [by destruct (cl_mode c)|]. eexists. split; [by apply HasSuffix_split|done].
  - intros v Hv. destruct (readAnswer_ok _ _ Hv) as (b & -> & Hb). exists b. split; [right; left|done].
Qed.

(** A view is what E1 reconciled: [Query] asks at most once, for this intent,
    with the token; and a view it returns is the one of a reconciled answer
    for the intent with nothing unresolved. *)
Theorem Query_sound c id tr res : performs (Query c id) tr res ->
  exists r, res = Some r /\ one_read c "" tr /\ tokens tr = [] /\
    forall v, r = Ok v -> id = IntentID (cl_intent c) /\
      exists s, was_read c "" tr s /\ ir_IntentID s = id /\ ir_Reconciled s = true /\ ir_View s = Some v /\
        ir_Unresolved s = [] /\ 0 <= v_FilledQty v.
Proof.
  intros Hp. apply (performs_history _ (fun tr r => one_read c "" tr /\ tokens tr = [] /\ forall v, r = Ok v ->
    id = IntentID (cl_intent c) /\ exists s, was_read c "" tr s /\ ir_IntentID s = id /\ ir_Reconciled s = true /\
      ir_View s = Some v /\ ir_Unresolved s = [] /\ 0 <= v_FilledQty v) _ _ Hp).
  unfold Query. destruct (id <>s _) eqn:Ei; [by split; [left|split]|]. bool_simpl.
  eapply wp_use; [apply read_history|]. cbv beta. intros tr' [s|e] (H1 & H2 & H3); wp_step; [|by split; [|split]].
  split; [done|]. split; [done|]. intros v Hv. split; [done|]. exists s. split; [by apply H3|].
  unfold checkRead in Hv. destruct (ir_View s) as [v'|]; [|done]. destruct (_ || _) eqn:Eg; [done|].
  injection Hv as ->. bool_simpl. split; [done|]. split; [by destruct (ir_Reconciled s)|]. split; [done|].
  split; [|done]. by destruct (ir_Unresolved s).
Qed.

(** What [Execution] accepts: whole won within the market's range. *)
Lemma Execution_ok f x : Execution f = Ok x ->
  f_FillID x = lf_FillID f /\ f_FillID x <> "" /\ f_Key x = "" /\ f_Qty x = lf_Qty f /\ 1 <= lf_Qty f <= 1000000 /\
  1 <= f_Price x <= 10000000 /\ (exists p, parse_rat (lf_Price f) = Some p /\ (p == inject_Z (f_Price x))%Q) /\
  f_AtNS x = UnixNano (lf_FilledAt f).
Proof.
  unfold Execution. destruct (parse_rat (lf_Price f)) as [p|]; [|done]. cbv zeta.
  destruct (_ || _) eqn:Eg; [done|]. destruct (_ >? 10000000) eqn:Ep; [done|]. intros [= <-].
  cbn [f_FillID f_Key f_Qty f_Price f_AtNS]. bool_simpl. rewrite Z.gtb_ltb in *. bool_simpl.
  split; [done|]. split; [done|]. split; [done|]. split; [done|]. split; [lia|]. split; [lia|]. split; [|done].
  exists p. split; [done|]. etransitivity; [symmetry; apply Qred_correct|]. destruct (Qred p) as [n d]. cbn in *.
  by destruct d.
Qed.

Definition fills_total (fills : list LedgerFill) : Z := foldr (fun f total => lf_Qty f + total) 0 fills.
(** A fill of the right side that is an execution. *)
Definition fill_ok (side : string) (f : LedgerFill) : Prop := lf_Side f = side /\ exists x, Execution f = Ok x.

Lemma checkFills_ok side fills : forall ids total ids' total',
  checkFills side fills ids total = Ok (ids', total') ->
  0 <= total -> total + 1000000 * Z.of_nat (length fills) <= max_int64 ->
  Forall (fill_ok side) fills /\ NoDup (lf_FillID <$> fills) /\
  (forall x, x ∈ lf_FillID <$> fills -> x ∉ ids) /\ ids' = list_to_set (lf_FillID <$> fills) ∪ ids /\
  total' = total + fills_total fills /\ total <= total' <= total + 1000000 * Z.of_nat (length fills).
Proof.
  induction fills as [|f fills IH]; intros ids total ids' total' H1 Ht Hb; cbn [checkFills] in H1.
  - injection H1 as <- <-. split; [done|]. split; [constructor|]. split; [set_solver|].
    split; [set_solver|]. cbn. split; lia.
  - split_if in H1; [done|]. destruct (Execution f) as [x|] eqn:Ex; [|done].
    repeat match goal with X : bool_decide _ = false |- _ => apply bool_decide_eq_false in X end. destruct (Execution_ok f x Ex) as (_ & _ & _ & _ & Hq & _).
    cbn [length] in Hb. assert (Hw : total +w lf_Qty f = total + lf_Qty f) by (apply wrap64_small; in64).
    rewrite Hw in H1. destruct (IH _ _ _ _ H1) as (I1 & I2 & I3 & I4 & I5 & I6); [lia|lia|].
    split; [constructor; [|done]; split; [done|by exists x]|]. cbn [fmap list_fmap].
    split; [constructor; [|done]; intros Hin; apply I3 in Hin; set_solver|].
    split; [intros y [->|Hy]%elem_of_cons; [done|]; apply I3 in Hy; set_solver|].
    split; [rewrite I4; cbn; set_solver|]. cbn [fills_total foldr length]. fold (fills_total fills). lia.
Qed.

Lemma orders_fills_cons o os : orders_fills (o :: os) = default [] (lo_Fills o) ++ orders_fills os.
Proof. done. Qed.

(** An order of a snapshot: its fills account for its quantity. *)
Definition order_ok (side : string) (o : LedgerOrder) : Prop :=
  NormalizeOrderNumber (lo_BrokerOrderID o) <> "" /\ 0 <= lo_CumulativeQty o /\
  exists fills, lo_Fills o = Some fills /\ Forall (fill_ok side) fills /\ fills_total fills = lo_CumulativeQty o.
Definition order_number (o : LedgerOrder) : string := NormalizeOrderNumber (lo_BrokerOrderID o).

Lemma checkOrders_ok side os : forall ids orders, checkOrders side os ids orders = None ->
  1000000 * Z.of_nat (length (orders_fills os)) <= max_int64 ->
  Forall (order_ok side) os /\ NoDup (order_number <$> os) /\ (forall x, x ∈ order_number <$> os -> x ∉ orders) /\
  NoDup (lf_FillID <$> orders_fills os) /\ (forall x, x ∈ lf_FillID <$> orders_fills os -> x ∉ ids).
Proof.
  induction os as [|o os IH]; intros ids orders H1 Hb; cbn [checkOrders] in H1.
  { split; [done|]. split; [constructor|]. split; [set_solver|]. split; [constructor|]. set_solver. }
  rewrite orders_fills_cons in *. destruct (lo_Fills o) as [fills|] eqn:Ef; [|done].
  cbn [default] in *. unfold id in *. rewrite length_app in Hb.
  split_if in H1; [done|]. destruct (checkFills side fills ids 0) as [[ids1 total]|] eqn:Ec; [|done].
  split_if in H1; [done|].
  repeat match goal with X : bool_decide _ = false |- _ => apply bool_decide_eq_false in X end.
  destruct (checkFills_ok _ _ _ _ _ _ Ec) as (I1 & I2 & I3 & -> & I5 & _); [lia|lia|].
  destruct (IH _ _ H1) as (J1 & J2 & J3 & J4 & J5); [lia|].
  split; [constructor; [|done]|split; [constructor; [|done]|split; [|split]]].
  - split; [done|]. split; [done|]. exists fills. split; [done|]. split; [done|]. lia.
  - intros Hin%J3. set_solver.
  - intros x [->|Hx]%elem_of_cons; [done|]. apply J3 in Hx. set_solver.
  - rewrite fmap_app. apply NoDup_app. split; [done|]. split; [|done]. intros x Hx Hy%J5. set_solver.
  - intros x. rewrite fmap_app, elem_of_app. intros [Hx|Hx]; [by apply I3|]. apply J5 in Hx. set_solver.
Qed.

(** C32: A snapshot is consistent evidence: [Fills] asks at most once, for this
    intent, with the token; and a snapshot it returns is the answer, is for the
    intent, names every order once, in broker order numbers without zeros in
    front, and every fill once over all orders; every fill is of the intent's
    side and a whole-won execution; and the fills of an order add up to its
    quantity exactly, without overflow. *)
Theorem Fills_sound c tr res : performs (Fills c) tr res ->
  exists r, res = Some r /\ one_read c "/fills" tr /\ tokens tr = [] /\
    forall s, r = Ok s -> was_read c "/fills" tr s /\ fs_IntentID s = IntentID (cl_intent c) /\
      exists orders, fs_Orders s = Some orders /\ Forall (order_ok (in_Side (cl_intent c))) orders /\
        NoDup (order_number <$> orders) /\ NoDup (lf_FillID <$> snapshot_fills s).
Proof.
  intros Hp. apply (performs_history _ (fun tr r => one_read c "/fills" tr /\ tokens tr = [] /\ forall s, r = Ok s ->
    was_read c "/fills" tr s /\ fs_IntentID s = IntentID (cl_intent c) /\
    exists orders, fs_Orders s = Some orders /\ Forall (order_ok (in_Side (cl_intent c))) orders /\
      NoDup (order_number <$> orders) /\ NoDup (lf_FillID <$> snapshot_fills s)) _ _ Hp).
  unfold Fills. eapply wp_use; [apply read_history|]. cbv beta.
  intros tr' [s|e] (H1 & H2 & H3); wp_step; [|by split; [|split]].
  split; [done|]. split; [done|]. destruct (checkSnapshot c s) as [err|] eqn:Ec; [done|]. intros ? [= <-].
  pose proof (H3 s eq_refl) as Hread. split; [done|].
  unfold checkSnapshot in Ec. destruct (fs_Orders s) as [orders|] eqn:Eo; [|done].
  destruct (fs_IntentID s <>s _) eqn:Ei; [done|]. bool_simpl. split; [done|]. exists orders. split; [done|].
  assert (Hs : snapshot_fills s = orders_fills orders) by (unfold snapshot_fills; by rewrite Eo).
  destruct Hread as (b & _ & _ & Hl & Hd). unfold DecodeStrict in Hd.
  destruct (decode_value (bd_bytes b)) as [[s' rest]|] eqn:Ev; [|done].
  destruct (str_forall json_space rest); [|done]. injection Hd as ->.
  pose proof (snapshot_sized _ _ _ Ev) as Hn. rewrite Hs in *.
  destruct (checkOrders_ok _ _ _ _ Ec) as (J1 & J2 & _ & J4 & _); [unfold maxReadBytes, max_int64 in *; lia|]. done.
Qed.
End Reads.

(** ** Sample runs *)

Definition e1_quote (s : string) : string := s.
Definition e1_url : string := "https://e1.test/execution-intents/children".
#[export] Instance sample_net : NetURL := {|
  url_Parse s := if s =s e1_url then Some (mkURL "https" "" None "e1.test" "/execution-intents/children" "" false false "" "" "") else None;
  url_ParseRequestURI s := None;
  Hostname := u_Host;
  url_String u := u_Scheme u +:+ "://" +:+ u_Host u +:+ u_Path u
|}.
Definition sample_outcome : E1Outcome := mkE1Outcome StatusAccepted None (Some 5) (Some " 0077 ") "null" false false.
Definition sample_fills : FillsSnapshot :=
  mkFillsSnapshot (IntentID sample_buy)
    (Some [mkLedgerOrder "0077" 3 (Some [mkLedgerFill "f1" Buy 1 "70000" 1000 2000; mkLedgerFill "f2" Buy 2 "70000" 1500 2000])]).
Definition sample_read : IntentRead := mkIntentRead (IntentID sample_buy) true (Some (mkView None 3)) [] [].
#[export, refine] Instance sample_e1 : E1Codec := {|
  marshal_child ch := Ok ("child " +:+ c_Key ch);
  encode_line l := Ok (dl_Body l);
  outcome_decoder := {| decode_value s := if s =s "outcome" then Ok (sample_outcome, " ") else Err "bad" |};
  snapshot_decoder := {| decode_value s := if s =s "fills" then Ok (sample_fills, "") else Err "bad" |};
  intent_decoder := {| decode_value s := if s =s "intent" then Ok (sample_read, "") else Err "bad" |};
  parse_rat s := inject_Z <$> ParseInt s
|}.
Proof.
  intros data s rest. cbn [decode_value]. destruct (data =s "fills") eqn:E; [|done].
  apply String.eqb_eq in E as ->. intros [= <- <-]. cbn. lia.
Defined.

(** E1 answers each request by what it asks for. *)
Definition e1_env (s : unit) {R : Set} (o : op R) : unit * R :=
  match o in op R return unit * R with
  | AskToken => (s, Ok "secret")
  | NewRequest _ _ => (s, None)
  | Do rq =>
      (s, Response 200 (mkBody (if rq_Method rq =s "POST" then "outcome"
                                else if HasSuffix (rq_URL rq) "/fills" then "fills" else "intent") None))
  | WriteLog _ => (s, None)
  | AskAnswer _ => (s, Ok sample_outcome)
  end.
Definition e1_cfg : E1Config := mkE1Config MockAccount true false e1_url "" 0.
Definition e1_new := run (@e1_env) tt (New e1_quote e1_cfg sample_buy (mkOptions true None false false)).
Definition e1_client : Client :=
  mkClient SendMode MockAccount sample_buy e1_url DefaultTokenHeader "secret" (Some (10 * second_ns)) false.


Definition e1_child : Child := mkChild ActSubmit (IntentID sample_buy) "key:1" "" 3 70000.
Definition e1_sent := run (@e1_env) tt (Send e1_quote e1_client e1_child).
Lemma Send_honest_witness :
  exists o e, e1_sent.2 = Some (Ok o) /\ oc_Status o = StatusAccepted /\ e1_said e1_child e1_sent.1.2 e /\
    ot_Status e = StatusAccepted.
Proof.
  assert (E : e1_sent.2 = Some (Ok (mkOutcome "key:1" StatusAccepted "" "0077"))) by (vm_compute; reflexivity).
  destruct (Send_honest e1_quote e1_client e1_child _ _ (run_performs (@e1_env) _ tt)) as (r & Er & _ & _ & Ho).
  change (e1_sent.2 = Some r) in Er. rewrite E in Er. injection Er as <-.
  destruct (Ho _ eq_refl) as (_ & Ha & _). destruct (Ha eq_refl) as (e & He & Hs & _).
  exists (mkOutcome "key:1" StatusAccepted "" "0077"), e. split; [exact E|]. split; [reflexivity|]. split; [exact He|exact Hs].
Defined.

Definition e1_query := run (@e1_env) tt (Query e1_client (IntentID sample_buy)).
Lemma Query_sound_witness : e1_query.2 = Some (Ok (mkView None 3)) /\
  exists s, was_read e1_client "" e1_query.1.2 s /\ ir_Unresolved s = [].
Proof.
  assert (E : e1_query.2 = Some (Ok (mkView None 3))) by (vm_compute; reflexivity). split; [exact E|].
  destruct (Query_sound e1_client (IntentID sample_buy) _ _ (run_performs (@e1_env) _ tt)) as (r & Er & _ & _ & Hv).
  change (e1_query.2 = Some r) in Er. rewrite E in Er. injection Er as <-.
  destruct (Hv _ eq_refl) as (_ & s & H1 & _ & _ & _ & H2 & _). exists s. split; [exact H1|exact H2].
Defined.

Definition e1_fills := run (@e1_env) tt (Fills e1_client).
Lemma Fills_sound_witness : e1_fills.2 = Some (Ok sample_fills) /\ NoDup (lf_FillID <$> snapshot_fills sample_fills).
Proof.
  assert (E : e1_fills.2 = Some (Ok sample_fills)) by (vm_compute; reflexivity). split; [exact E|].
  destruct (Fills_sound e1_client _ _ (run_performs (@e1_env) _ tt)) as (r & Er & _ & _ & Hs).
  change (e1_fills.2 = Some r) in Er. rewrite E in Er. injection Er as <-.
  destruct (Hs _ eq_refl) as (_ & _ & orders & _ & _ & _ & H). exact H.
Defined.
