(* ===== verification/E1World.v ===== *)
(** The executor over the E1 client: [src/internal/exec/executor.go] with
    [src/internal/exec/e1] as its gateway.

    The client is an instance of the executor's interface [World]: [Send] and
    [Query] run the client's programs against an environment [h] that answers
    their calls, and the trace of what travelled is kept.  What holds of the
    executor over any world then holds of the requests on the wire. *)

From S2P Require Import Prelude GoStr Wire KST Tick Intent E1 Machine Exposure Decide Journal Executor Prog.
Local Open Scope Z_scope.

(** ** Predicates of the world that the executor keeps *)

Section kept.
Context `{LineCodec} (Digest : State -> string) (quote : string -> string).
Context {W : Type} `{World W} (P : W -> Prop).
Hypothesis Hsend : forall w c, P w -> P (fst (Send w c)).
Hypothesis Hquery : forall w id, P w -> P (fst (Query w id)).
Hypothesis Hdisk : forall w, P w -> P (fst (disk w)).

Lemma commit_kept w e r : P w -> P (commit Digest w e r).1.1.
Proof using Hdisk.
  intros Hw. unfold commit. destruct (x_err e); [done|]. destruct (_ <>s ""); [done|].
  destruct (Apply (x_state e) r); [|done]. pose proof (Hdisk w Hw) as Hd. destruct (disk w) as [w1 f].
  destruct (append _ _ _ _ _) as [j [ae|]]; done.
Qed.
Lemma commit_kept_as w e r w' e' res : P w -> commit Digest w e r = (w', e', res) -> P w'.
Proof using Hdisk. intros Hw Hc. pose proof (commit_kept w e r Hw) as H1. by rewrite Hc in H1. Qed.

Lemma tick_step_kept w e t w' e' ctl : P w -> tick_step Digest quote w e t = Some (w', e', ctl) -> P w'.
Proof using Hsend Hquery Hdisk.
  intros Hw Ht. unfold tick_step in Ht. destruct (x_err e); [by simplify_eq|].
  destruct (Decide _ _) as [d|]; [|done]. cbn [mbind option_bind] in Ht. destruct d as [| |r]; [by simplify_eq| |].
  - pose proof (Hquery w (IntentID (s_Intent (x_state e))) Hw) as Hq. destruct (Query w _) as [w1 [v|]]; [|by simplify_eq].
    destruct (commit Digest w1 e _) as [[w2 e2] res] eqn:Ec. pose proof (commit_kept_as _ _ _ _ _ _ Hq Ec).
    destruct res; by simplify_eq.
  - destruct (_ && _); [by simplify_eq|]. destruct (commit Digest w e r) as [[w1 e1] res] eqn:Ec.
    pose proof (commit_kept_as _ _ _ _ _ _ Hw Ec) as Hw1.
    destruct res; [by simplify_eq|]. destruct (r_Child r) as [c|]; [|by simplify_eq].
    destruct (_ =s RecSend); [|by simplify_eq]. unfold send in Ht. pose proof (Hsend w1 c Hw1) as Hs.
    destruct (Send w1 c) as [w2 out]. destruct (commit Digest w2 e1 _) as [[w3 e3] res] eqn:Ec2.
    pose proof (commit_kept_as _ _ _ _ _ _ Hs Ec2). destruct res; [by simplify_eq|].
    destruct (RequireLedgerComplete (x_cfg e3)); by simplify_eq.
Qed.
Lemma tick_loop_kept n : forall w e t w' e' res, P w -> tick_loop Digest quote n w e t = Some (w', e', res) -> P w'.
Proof using Hsend Hquery Hdisk.
  induction n as [|n IH]; intros w e t w' e' res Hw Ht; cbn [tick_loop] in Ht; [by simplify_eq|].
  destruct (tick_step Digest quote w e t) as [[[w1 e1] ctl]|] eqn:E; [|done]. cbn [mbind option_bind] in Ht.
  pose proof (tick_step_kept _ _ _ _ _ _ Hw E). destruct ctl; [by eapply IH|by simplify_eq].
Qed.
Lemma sys_run_kept os : forall w e w' e', P w -> sys_run Digest quote w e os = Some (w', e') -> P w'.
Proof using Hsend Hquery Hdisk.
  induction os as [|o os IH]; intros w e w' e' Hw Hr; cbn [sys_run] in Hr; [by simplify_eq|].
  destruct (sys_step Digest quote w e o) as [[w1 e1]|] eqn:E; [|done]. cbn [mbind option_bind] in Hr.
  refine (IH _ _ _ _ _ Hr). clear Hr IH. destruct o as [i t|t|f|t|b|cfg]; cbn [sys_step] in E.
  - unfold Start in E. destruct (commit _ _ _ _) as [[w2 e2] res] eqn:Ec. simplify_eq. by eapply commit_kept_as.
  - by simplify_eq.
  - destruct (OnFill Digest w e f) as [[w2 e2] res] eqn:Ef. simplify_eq. unfold OnFill in Ef.
    destruct (negb _); [by simplify_eq|]. destruct (is_some _); [by simplify_eq|].
    destruct (is_none _); [by simplify_eq|]. destruct (commit _ _ _ _) as [[w2 e2] r2] eqn:Ec.
    pose proof (commit_kept_as _ _ _ _ _ _ Hw Ec). destruct r2; [by simplify_eq|].
    destruct (_ >? 0); by simplify_eq.
  - destruct (Tick Digest quote w e t) as [[[w2 e2] res]|] eqn:Et; [|done]. cbn in E. simplify_eq.
    unfold Tick in Et. by eapply tick_loop_kept.
  - by simplify_eq.
  - destruct (openJournal _ _ _) as [? [[j s]|]]; [|done]. by simplify_eq.
Qed.
End kept.

(** ** The client as the executor's gateway *)

Section Edge.
Context `{LineCodec} (Digest : State -> string) `{E1Codec, NetURL} (quote : string -> string).
Context (ecfg : E1Config) (i : Intent) (c : Client) (Hc : client_ok quote ecfg i c).
(** The environment of the client's calls, the kill switch and the disk. *)
Context {E : Type} (h : E -> forall R : Set, E1.op R -> E * R) (kills : E -> KillSwitch)
  (disks : E -> E * disk_fault).

(** The environment, what the executor handed over, and what travelled. *)
Record edge := mkEdge { ed_env : E; ed_handed : list Child; ed_trace : list (event E1.op) }.

Definition edge_run {A} (w : edge) (p : prog E1.op (result A string)) (more : list Child) : edge * result A string :=
  let '(env, tr, r) := run h (ed_env w) p in
  (mkEdge env (ed_handed w ++ more) (ed_trace w ++ tr), default (Err "") r).

#[refine] Instance edge_world : World edge := {
  Send w ch := edge_run w (E1.Send quote c ch) [ch];
  Query w id := edge_run w (E1.Query c id) [];
  kill_switch w := kills (ed_env w);
  disk w := let '(env, f) := disks (ed_env w) in (mkEdge env (ed_handed w) (ed_trace w), f);
  handed := ed_handed
}.
Proof using E H0 c disks h kills quote.
  - intros w ch. unfold edge_run. by destruct (run h (ed_env w) _) as [[? ?] ?].
  - intros w id. unfold edge_run. destruct (run h (ed_env w) _) as [[? ?] ?]. cbn. apply app_nil_r.
  - intros w. by destruct (disks (ed_env w)).
Defined.

(** ** What is on the wire *)

Definition is_post (rq : Request) : bool := rq_Method rq =s "POST".
Definition posts (tr : list (event E1.op)) : list Request := List.filter is_post (requests tr).
Definition posted (rq : Request) (ch : Child) : Prop :=
  c_IntentID ch = IntentID i /\ exists data, marshal_child ch = Ok data /\ rq = childRequest c ch data.

(** The requests are those of children that were handed over, in order, and
    reads of this intent; without send mode there are none. *)
Definition wired (w : edge) : Prop :=
  (exists l, sublist l (ed_handed w) /\ Forall2 posted (posts (ed_trace w)) l) /\
  Forall (fun rq => is_post rq = true \/ exists suffix, rq = readRequest c suffix) (requests (ed_trace w)) /\
  (cl_mode c <> SendMode -> requests (ed_trace w) = []) /\ tokens (ed_trace w) = [].

Lemma requests_app a b : requests (a ++ b) = requests a ++ requests b.
Proof. apply omap_app. Qed.
Lemma tokens_app a b : tokens (a ++ b) = tokens a ++ tokens b.
Proof. apply omap_app. Qed.

Lemma wired_Send w ch : wired w -> wired (fst (Send w ch)).
Proof using Hc.
  intros ((l & Hl & Hp) & Hq & Hm & Ht). cbn [Send edge_world]. unfold edge_run.
  destruct (Send_honest quote c ch _ _ (run_performs h (E1.Send quote c ch) (ed_env w))) as (r & _ & Hr & Htok & _).
  destruct (run h (ed_env w) (E1.Send quote c ch)) as [[env tr] a]. cbn [fst snd] in *.
  unfold wired, posts. cbn [ed_handed ed_trace]. rewrite requests_app, tokens_app, Ht, Htok.
  destruct Hr as [-> |(data & -> & Hd & Hs & _ & _ & Hi)].
  - rewrite app_nil_r. split; [|done]. exists l. split; [by apply sublist_inserts_r|done].
  - split; [|split; [|split]].
    + exists (l ++ [ch]). split; [by apply sublist_app|]. rewrite List.filter_app. apply Forall2_app; [done|].
      cbn. constructor; [|constructor]. split; [by rewrite Hi, (co_intent _ _ _ _ Hc)|by exists data].
    + apply Forall_app. split; [done|]. constructor; [by left|constructor].
    + intros Hn. by destruct Hn.
    + done.
Qed.
Lemma wired_Query w id : wired w -> wired (fst (Query w id)).
Proof.
  intros ((l & Hl & Hp) & Hq & Hm & Ht). cbn [Query edge_world]. unfold edge_run.
  destruct (Query_sound c id _ _ (run_performs h (E1.Query c id) (ed_env w))) as (r & _ & Hr & Htok & _).
  destruct (run h (ed_env w) (E1.Query c id)) as [[env tr] a]. cbn [fst snd] in *.
  unfold wired, posts. cbn [ed_handed ed_trace]. rewrite requests_app, tokens_app, Ht, Htok, app_nil_r.
  destruct Hr as [-> |(-> & Hs & _)].
  - rewrite app_nil_r. split; [by exists l|done].
  - split; [|split; [|split]].
    + exists l. split; [done|]. rewrite List.filter_app. cbn. by rewrite app_nil_r.
    + apply Forall_app. split; [done|]. constructor; [|constructor]. right. by eexists.
    + intros Hn. by destruct Hn.
    + done.
Qed.
Lemma wired_disk w : wired w -> wired (fst (disk w)).
Proof. intros Hw. cbn [disk edge_world]. by destruct (disks (ed_env w)). Qed.

(** The confirmation a request carries. *)
Definition confirmation (rq : Request) : option string := rq_Header rq !! ConfirmHeader.
Lemma posted_confirmations rqs l : Forall2 posted rqs l -> confirmation <$> rqs = Some <$> (c_Key <$> l).
Proof using Hc.
  induction 1 as [|rq ch rqs l (_ & data & _ & ->) _ IH]; [done|]. cbn. f_equal; [|done].
  apply (childRequest_headers _ _ _ _ ch data Hc).
Qed.

(** The texts the executor journals are valid UTF-8. *)
Hypothesis Hfaithful : forall l b, marshal l = Some b -> faithful l.
(** E1 reports whole, positive prices and 64-bit numbers. *)
Hypothesis Hsane : forall data (s : IntentRead) rest v, decode_value data = Ok (s, rest) -> ir_View s = Some v ->
  int64_view v /\ forall o, v_Order v = Some o -> order_sane o.

Lemma edge_sane (w : edge) id w' v : Query w id = (w', Ok v) ->
  int64_view v /\ forall o, v_Order v = Some o -> order_sane o.
Proof using Hsane.
  cbn [Query edge_world]. unfold edge_run.
  destruct (Query_sound c id _ _ (run_performs h (E1.Query c id) (ed_env w))) as (r & Er & _ & _ & Hv).
  destruct (run h (ed_env w) (E1.Query c id)) as [[env tr] a]. cbn [fst snd] in *. subst a. intros [= _ ->].
  destruct (Hv v eq_refl) as (_ & s & (b & _ & _ & _ & Hd) & _ & _ & Hview & _).
  unfold DecodeStrict in Hd. destruct (decode_value (bd_bytes b)) as [[s' rest]|] eqn:Ed; [|done].
  destruct (str_forall json_space rest); [|done]. injection Hd as ->. by eapply Hsane.
Qed.

End Edge.

(** ** A sample run *)

Lemma e1_client_ok : client_ok e1_quote e1_cfg sample_buy e1_client.
Proof.
  constructor; try reflexivity; intros; try (split; [discriminate|]); try (split; [reflexivity|]).
  - apply (bool_decide_unpack _). vm_compute. exact Logic.I.
  - exists (10 * second_ns). split; reflexivity.
  - by destruct H.
Qed.
Lemma sample_read_sane : forall data (s : IntentRead) rest v, decode_value data = Ok (s, rest) -> ir_View s = Some v ->
  int64_view v /\ forall o, v_Order v = Some o -> order_sane o.
Proof.
  intros data s rest v. cbn [decode_value intent_decoder sample_e1]. destruct (data =s "intent"); [|done].
  intros [= <- <-] [= <-]. split; [split; [cbn; in64|done]|done].
Qed.
Definition edge_start : edge (E := unit) := mkEdge tt [] [].
(** The run posts one child. *)
Example edge_posts :
  match sys_run (W := edge) (H0 := edge_world e1_quote e1_client (@e1_env) (fun _ => Some false) (fun s => (s, DiskOk)))
      sample_digest e1_quote edge_start (fresh sample_cfg) sample_ops with
  | Some (w', _) => length (posts (ed_trace w')) = 1%nat
  | None => False
  end.
Proof. vm_compute. reflexivity. Qed.
