(* ===== verification/Kisread.v ===== *)
(** [src/internal/kisread/client.go]: the two reads of the broker's REST
    interface, as a program over the clock, the token and HTTP.

    go-kis's hosts and its envelope are parameters; contexts are left out: when
    one ends, the sleep or the request fails. *)

From Stdlib Require Import Ascii.
From S2P Require Import Prelude GoStr Wire KST UrlEnc Limits E1 Prog.
Local Open Scope Z_scope.

Definition quotationPath : string := "/uapi/domestic-stock/v1/quotations/inquire-asking-price-exp-ccn".
Definition quotationTR : string := "FHKST01010200".
Definition historyPath : string := "/uapi/domestic-stock/v1/trading/inquire-daily-ccld".
Definition historyTR : string := "VTTC0081R".
Definition maxReadBody : Z := 1048576.

(** [Client]; [kc_Token] says whether there is a token source, [kc_HTTP] is the
    timeout of the HTTP client given. *)
Record KisClient := mkKisClient {
  kc_next : Z; kc_Mock : bool; kc_AppKey : string; kc_AppSecret : string; kc_Token : bool; kc_HTTP : option Z
}.
Definition reserve_until (t : Z) (c : KisClient) : KisClient :=
  mkKisClient t (kc_Mock c) (kc_AppKey c) (kc_AppSecret c) (kc_Token c) (kc_HTTP c).

(** The calls; [Get] never follows a redirect. *)
Inductive kis_op : Set -> Type :=
| Until (t : Z) : kis_op Z
| SleepFor (d : Z) : kis_op (option string)
| TimeNow : kis_op Z
| MakeRequest (url : string) : kis_op bool
| CallToken : kis_op string
| Get (rq : Request) (timeout : Z) : kis_op http_answer.
Notation program := (prog kis_op).

Section Kisread.
(** [kis.HostLive], [kis.HostVTS], and the [rt_cd] of an envelope. *)
Context (HostLive HostVTS : string) (rt_code : string -> option string).
(** The decoding into [out]. *)
Context {A : Type} (decode_out : string -> option A).

Definition line_break (c : ascii) : bool := Ascii.eqb c (ascii_of_nat 10) || Ascii.eqb c (ascii_of_nat 13).
Definition has_line_break (s : string) : bool := negb (str_forall (fun c => negb (line_break c)) s).

(** The endpoints that are allowed. *)
Definition quotation (path tr : string) : bool := (path =s quotationPath) && (tr =s quotationTR).
Definition history_read (c : KisClient) (path tr : string) : bool := kc_Mock c && (path =s historyPath) && (tr =s historyTR).

(** The pacing of a mock client: the client with its next reservation. *)
Definition pace_read (c : KisClient) : program (result KisClient string) :=
  if kc_Mock c then
    delay ← call (Until (kc_next c));
    failed ← (if delay >? 0 then call (SleepFor delay) else mret None);
    match failed with
    | Some e => mret (Err e)
    | None => now ← call TimeNow; mret (Ok (reserve_until (now + second_ns) c))
    end
  else mret (Ok c).

Definition readURL (c : KisClient) (path : string) (query : gmap string string) : string :=
  (if kc_Mock c then HostVTS else HostLive) +:+ path +:+ "?" +:+ Encode query.
Definition readRequest (c : KisClient) (path tr : string) (query : gmap string string) (token : string) : Request :=
  mkRequest "GET" (readURL c path query)
    (set_header "custtype" "P" (set_header "tr_id" tr (set_header "appsecret" (kc_AppSecret c)
      (set_header "appkey" (kc_AppKey c) (set_header "authorization" ("Bearer " +:+ token) ∅))))) "".
Definition readTimeout (c : KisClient) : Z :=
  match kc_HTTP c with Some t => if t <=? 0 then second_ns else t | None => second_ns end.

(** What becomes of the answer. *)
Definition readAnswer (a : http_answer) : result A string :=
  match a with
  | DoFailed _ _ => Err "kisread: read transport failed"
  | Response code b =>
      if negb (code =? 200) then Err "kisread: read HTTP failure"
      else match ReadLimited maxReadBody b with
           | Err _ => Err "kisread: read response unreadable"
           | Ok data =>
               match rt_code data with
               | Some code =>
                   if negb (code =s "0") then Err "kisread: read refused"
                   else match decode_out data with Some v => Ok v | None => Err "kisread: read response invalid" end
               | None => Err "kisread: read refused"
               end
           end
  end.

(** [Read]: the client after the call, and the result. *)
Definition Read (c : KisClient) (path tr : string) (query : gmap string string) : program (KisClient * result A string) :=
  if negb (quotation path tr) && negb (history_read c path tr) then mret (c, Err "kisread: read endpoint refused")
  else
    paced ← pace_read c;
    match paced with
    | Err e => mret (c, Err e)
    | Ok c =>
        made ← call (MakeRequest (readURL c path query));
        if negb made then mret (c, Err "kisread: invalid read request")
        else if negb (kc_Token c) then mret (c, Err "kisread: cached token required")
        else
          token ← call CallToken;
          if (token =s "") || (kc_AppKey c =s "") || (kc_AppSecret c =s "")
             || has_line_break (token +:+ kc_AppKey c +:+ kc_AppSecret c)
          then mret (c, Err "kisread: credentials unavailable")
          else
            answer ← call (Get (readRequest c path tr query token) (readTimeout c));
            mret (c, readAnswer answer)
    end.

(** ** What a read can do *)

Definition get_of (e : event kis_op) : option Request := match e with Event o _ => match o with Get rq _ => Some rq | _ => None end end.
Definition gets_of (tr : list (event kis_op)) : list Request := omap get_of tr.
(** The token source gave this token. *)
Definition token_given (tr : list (event kis_op)) (token : string) : Prop := Event CallToken token ∈ tr.
Definition kis_messages : list string :=
  ["kisread: read endpoint refused"; "kisread: invalid read request"; "kisread: cached token required";
   "kisread: credentials unavailable"; "kisread: read transport failed"; "kisread: read HTTP failure";
   "kisread: read response unreadable"; "kisread: read refused"; "kisread: read response invalid"].

(** What [Read] has done. *)
Record read_done (c : KisClient) (path tr : string) (query : gmap string string) (h : list (event kis_op))
  (r : KisClient * result A string) : Prop := {
  rd_client : kc_Mock (fst r) = kc_Mock c /\ kc_AppKey (fst r) = kc_AppKey c /\ kc_AppSecret (fst r) = kc_AppSecret c;
  rd_gets : gets_of h = [] \/ exists token, gets_of h = [readRequest c path tr query token] /\ token_given h token /\ token <> "" /\
    has_line_break (token +:+ kc_AppKey c +:+ kc_AppSecret c) = false /\
    (quotation path tr = true \/ history_read c path tr = true);
  rd_error : forall e, snd r = Err e -> e ∈ kis_messages \/ exists d, Event (SleepFor d) (Some e) ∈ h;
  rd_value : forall v, snd r = Ok v -> exists rq t b, Event (Get rq t) (Response 200 b) ∈ h /\
    exists data, ReadLimited maxReadBody b = Ok data /\ rt_code data = Some "0" /\ decode_out data = Some v
}.

#[local] Ltac listed := unfold kis_messages; repeat first [apply list_elem_of_here | apply list_elem_of_further].

Lemma readAnswer_error a e : readAnswer a = Err e -> e ∈ kis_messages.
Proof.
  unfold readAnswer. destruct a as [|code b]; [intros [= <-]; listed|].
  destruct (negb _); [intros [= <-]; listed|]. destruct (ReadLimited _ _) as [data|]; [|intros [= <-]; listed].
  destruct (rt_code data) as [code'|]; [|intros [= <-]; listed].
  destruct (negb _); [intros [= <-]; listed|]. destruct (decode_out data); [done|intros [= <-]; listed].
Qed.

Lemma readAnswer_value a v : readAnswer a = Ok v -> exists b data, a = Response 200 b /\ ReadLimited maxReadBody b = Ok data /\
  rt_code data = Some "0" /\ decode_out data = Some v.
Proof.
  unfold readAnswer. destruct a as [|code b]; [done|]. destruct (negb (code =? 200)) eqn:Ec; [done|]. bool_simpl. subst code.
  destruct (ReadLimited _ b) as [data|] eqn:Er; [|done]. destruct (rt_code data) as [code|] eqn:Et; [|done].
  destruct (negb (code =s "0")) eqn:E0; [done|]. bool_simpl. subst code.
  destruct (decode_out data) as [v'|] eqn:Ed; [|done]. intros [= <-]. by exists b, data.
Qed.

Lemma gets_of_app a b : gets_of (a ++ b) = gets_of a ++ gets_of b.
Proof. apply omap_app. Qed.

(** The pacing asks for nothing, and keeps the client's secrets. *)
Definition paced_ok (c : KisClient) (h : list (event kis_op)) (r : result KisClient string) : Prop :=
  gets_of h = [] /\
  match r with
  | Ok c' => kc_Mock c' = kc_Mock c /\ kc_AppKey c' = kc_AppKey c /\ kc_AppSecret c' = kc_AppSecret c
  | Err e => exists d, Event (SleepFor d) (Some e) ∈ h
  end.
Lemma pace_read_done c : wp history [] (pace_read c) (paced_ok c).
Proof.
  unfold pace_read. wp_step; [|by split]. wp_step; [done|]. cbn [update history app].
  destruct (r >? 0).
  - wp_step; [done|]. cbn [update history app]. destruct r0 as [e|].
    + wp_step. split; [done|]. exists r. right. left.
    + wp_step; [done|]. wp_step. by split.
  - wp_step. cbv iota. wp_step; [done|]. wp_step. by split.
Qed.

Lemma Read_done c path tr query : wp history [] (Read c path tr query) (read_done c path tr query).
Proof.
  unfold Read. destruct (negb (quotation path tr) && negb (history_read c path tr)) eqn:Ep.
  { split; [done|by left| |done]. intros e [= <-]. left. listed. }
  assert (Hp : quotation path tr = true \/ history_read c path tr = true).
  { destruct (quotation path tr); [by left|]. right. by destruct (history_read c path tr). }
  eapply wp_use; [apply pace_read_done|]. cbv beta. intros h [c'|e] [Hg Hpa].
  2: { split; [done|by left| |done]. intros e' [= <-]. by right. }
  destruct Hpa as (Hm & Hk & Hs).
  assert (Hq : forall h' text, gets_of h' = [] -> text ∈ kis_messages -> read_done c path tr query h' (c', Err text)).
  { intros h' text Hh Ht. split; [done|by left| |done]. intros e [= <-]. by left. }
  assert (Hg1 : forall (R : Set) (o : kis_op R) (x : R), get_of (Event o x) = None -> gets_of (h ++ [Event o x]) = []).
  { intros R o x Ho. rewrite gets_of_app, Hg. unfold gets_of. cbn [omap list_omap app]. by rewrite Ho. }
  wp_step; [done|]. cbn [update history]. destruct (negb r); [apply Hq; [by apply Hg1|listed]|].
  destruct (negb (kc_Token c')); [apply Hq; [by apply Hg1|listed]|].
  wp_step; [done|]. cbn [update history]. rename r0 into token.
  assert (Hg2 : gets_of ((h ++ [Event (MakeRequest (readURL c' path query)) r]) ++ [Event CallToken token]) = []).
  { rewrite gets_of_app, Hg1 by done. done. }
  destruct (_ || _) eqn:Ec; [apply Hq; [done|listed]|]. bool_simpl.
  wp_step; [done|]. cbn [update history]. wp_step. rename r0 into a.
  assert (Hrq : readRequest c' path tr query token = readRequest c path tr query token).
  { unfold readRequest, readURL. by rewrite Hm, Hk, Hs. }
  split; [done| | |].
  - right. exists token. rewrite gets_of_app, Hg2. cbn. rewrite Hrq. split; [done|]. split; [unfold token_given; apply elem_of_app; left; apply elem_of_app; right; left|].
    split; [done|]. by rewrite <- Hk, <- Hs.
  - intros e He. left. by eapply readAnswer_error.
  - intros v Hv. destruct (readAnswer_value _ _ Hv) as (b & data & -> & Hr & Ht & Hd).
    eexists _, _, b. split; [apply elem_of_app; right; left|]. by exists data.
Qed.


(** ** The pace of a mock client *)

(** A lower bound of the clock, the reservations so far, latest first, and
    whether the last of them is unused. *)
Record pacing := mkPacing { kp_now : Z; kp_reserved : list Z; kp_open : bool }.
Definition pacing_answers (g : pacing) (R : Set) (o : kis_op R) : R -> Prop :=
  match o in kis_op R return R -> Prop with
  | Until t => fun d => exists now, kp_now g <= now /\ d = time_sub t now
  | TimeNow => fun now => kp_now g <= now
  | _ => fun _ => True
  end.
Definition pacing_step (g : pacing) {R : Set} (o : kis_op R) : R -> pacing :=
  match o in kis_op R return R -> pacing with
  | Until t => fun d => mkPacing (if d <? max_int64 then Z.max (kp_now g) (t - d) else kp_now g) (kp_reserved g) (kp_open g)
  | SleepFor d => fun failed => match failed with
      | None => mkPacing (kp_now g + d) (kp_reserved g) (kp_open g) | Some _ => g end
  | TimeNow => fun now => mkPacing now (now :: kp_reserved g) true
  | Get _ _ => fun _ => mkPacing (kp_now g) (kp_reserved g) false
  | _ => fun _ => g
  end.
Definition pacing_spec : spec kis_op pacing := {|
  allowed g R o := match o with Get _ _ => kp_open g = true | _ => True end;
  answers := pacing_answers;
  update g e := let 'Event o r := e in pacing_step g o r;
  may_run_out := False
|}.

Inductive spaced : list Z -> Prop :=
| spaced_nil : spaced []
| spaced_one t : spaced [t]
| spaced_more t u l : u + second_ns <= t -> spaced (u :: l) -> spaced (t :: u :: l).

(** The client knows its last reservation. *)
Definition on_pace (c : KisClient) (g : pacing) : Prop :=
  kc_Mock c = true /\ spaced (kp_reserved g) /\
  match kp_reserved g with [] => True | t :: _ => kc_next c = t + second_ns /\ t <= kp_now g end.

Lemma pace_read_paced c g : on_pace c g ->
  wp pacing_spec g (pace_read c) (fun g' r => match r with Ok c' => on_pace c' g' /\ kp_open g' = true | Err _ => on_pace c g' end).
Proof.
  intros (Hm & Hs & Hl). unfold pace_read. rewrite Hm. wp_step; [done|]. cbn [update pacing_spec pacing_step].
  rename r into d. destruct H as (now & Hnow & Hd). set (g1 := mkPacing _ _ _).
  assert (Hlow : match kp_reserved g with [] => True | t :: _ => t <= kp_now g1 /\ (d <= 0 -> t + second_ns <= kp_now g1) /\
    t + second_ns <= kp_now g1 + d end).
  { destruct (kp_reserved g) as [|t l]; [done|]. destruct Hl as [Hn Ht]. unfold g1. cbn [kp_now]. rewrite Hn in *.
    unfold time_sub in Hd. assert (second_ns = 1000000000) by done. assert (max_int64 = 9223372036854775807) by done.
    assert (min_int64 = -9223372036854775808) by done. destruct (Z.ltb_spec d max_int64); lia. }
  assert (Hnow2 : forall g2 t, kp_reserved g2 = kp_reserved g -> (match kp_reserved g with [] => True | u :: _ => u + second_ns <= kp_now g2 end) ->
    kp_now g2 <= t -> on_pace (reserve_until (t + second_ns) c) (mkPacing t (t :: kp_reserved g2) true)).
  { intros g2 t Hr Hu Ht. split; [done|]. cbn [kp_reserved kp_now]. rewrite Hr. split; [|by split; [|lia]].
    destruct (kp_reserved g) as [|u l]; constructor; [lia|done]. }
  destruct (d >? 0) eqn:Ed; rewrite Z.gtb_ltb in Ed; bool_simpl.
  - wp_step; [done|]. cbn [update pacing_spec pacing_step]. destruct r as [e|].
    + wp_step. split; [done|]. split; [done|]. cbn [g1 kp_reserved kp_now] in *. destruct (kp_reserved g) as [|t l]; [done|].
      split; [apply Hl|apply Hlow].
    + wp_step; [done|]. cbn [update pacing_spec pacing_step]. wp_step. split; [|done].
      apply (Hnow2 (mkPacing (kp_now g1 + d) (kp_reserved g1) (kp_open g1))); [done| |exact H0].
      cbn [kp_now]. destruct (kp_reserved g); [done|apply Hlow].
  - wp_step. cbv iota. wp_step; [done|]. cbn [update pacing_spec pacing_step]. wp_step. split; [|done].
    apply (Hnow2 g1); [done| |exact H]. destruct (kp_reserved g); [done|]. apply Hlow. lia.
Qed.
Lemma Read_paced c path tr query g : on_pace c g ->
  wp pacing_spec g (Read c path tr query) (fun g' res => on_pace (fst res) g').
Proof.
  intros Hc. unfold Read. destruct (_ && _); [exact Hc|].
  eapply wp_use; [by apply pace_read_paced|]. cbv beta. intros g1 [c1|e]; [|auto]. intros [H1 Ho].
  wp_step; [done|]. destruct (negb r); [exact H1|]. destruct (negb (kc_Token c1)); [exact H1|].
  wp_step; [done|]. destruct (_ || _); [exact H1|]. wp_step; [exact Ho|]. wp_step. exact H1.
Qed.

(** The calls of one client; its mutex makes them follow each other. *)
Fixpoint Reads (c : KisClient) (l : list (string * string * gmap string string)) : program KisClient :=
  match l with
  | [] => mret c
  | (path, tr, query) :: l => res ← Read c path tr query; Reads (fst res) l
  end.
Lemma Reads_paced l : forall c g, on_pace c g -> wp pacing_spec g (Reads c l) (fun g' c' => on_pace c' g').
Proof.
  induction l as [|[[path tr] query] l IH]; intros c g Hc; cbn [Reads]; [exact Hc|].
  eapply wp_use; [by apply Read_paced|]. cbv beta. intros g1 res H1. by apply IH.
Qed.

(** The readings of the clock in a trace: its reservations. *)
Definition time_of (e : event kis_op) : option Z :=
  let 'Event o r := e in match o in kis_op R return R -> option Z with TimeNow => fun now => Some now | _ => fun _ => None end r.
Definition times_of (tr : list (event kis_op)) : list Z := omap time_of tr.
(** Its last reservation is not used yet. *)
Definition reserved_last (pre : list (event kis_op)) : Prop :=
  exists pre1 now mid, pre = pre1 ++ Event TimeNow now :: mid /\ gets_of mid = [].

Lemma pacing_reserved tr : forall g, kp_reserved (fold_left (update pacing_spec) tr g) = rev (times_of tr) ++ kp_reserved g.
Proof.
  induction tr as [|[R o r] tr IH]; intros g; [done|]. cbn [fold_left]. rewrite IH.
  destruct o; cbn; try done; try (by destruct r). by rewrite <- app_assoc.
Qed.
Lemma reserved_last_snoc pre e : get_of e = None -> reserved_last pre -> reserved_last (pre ++ [e]).
Proof.
  intros He (pre1 & now & mid & -> & Hm). exists pre1, now, (mid ++ [e]). rewrite <- app_assoc. split; [done|].
  rewrite gets_of_app, Hm. cbn. by rewrite He.
Qed.
Lemma pacing_open pre : forall g, kp_open g = false -> kp_open (fold_left (update pacing_spec) pre g) = true -> reserved_last pre.
Proof.
  induction pre as [|[R o r] pre IH] using rev_ind; intros g Hg; [cbn; congruence|].
  rewrite fold_left_app. specialize (IH g Hg). set (g1 := fold_left _ pre g) in *.
  destruct o; cbn; try (intros Ho; apply reserved_last_snoc; [done|by apply IH]); [|intros _; by exists pre, r, []].
  destruct r; intros Ho; apply reserved_last_snoc; (done || by apply IH).
Qed.
Lemma spaced_ordered l : spaced l -> forall l1 t l2 u l3, l = l1 ++ t :: l2 ++ u :: l3 -> u + second_ns <= t.
Proof.
  induction 1 as [|x|x y l Hxy Hs IH]; intros l1 t l2 u l3 E.
  - by destruct l1.
  - destruct l1 as [|? [|]]; [|done..]. destruct l2; done.
  - destruct l1 as [|x' l1]; cbn in E; injection E as <- E.
    + destruct l2 as [|z l2]; cbn in E; injection E as <- E; [exact Hxy|].
      assert (u + second_ns <= y) by (eapply (IH [] _ l2 _ l3); cbn; by rewrite E). unfold second_ns in *. lia.
    + by eapply IH.
Qed.

(** C11: A mock client's reads are paced: whatever the calls, their order and
    their answers, while the clock does not go back and a sleep lasts as long as
    it was asked to, every request follows
    a reservation of its own, and every reservation is at least a second after
    every earlier one. *)
Theorem reads_are_paced c l now tr res : kc_Mock c = true ->
  performs (Reads c l) tr res -> expected pacing_spec (mkPacing now [] false) tr ->
  (exists c', res = Some c') /\
  (forall pre rq t a post, tr = pre ++ Event (Get rq t) a :: post -> reserved_last pre) /\
  (forall l1 t l2 u l3, times_of tr = l1 ++ t :: l2 ++ u :: l3 -> t + second_ns <= u).
Proof.
  intros Hm Hp He. set (g0 := mkPacing now [] false) in *.
  assert (H0 : on_pace c g0) by (split; [done|]; split; [constructor|done]).
  destruct (wp_performs _ _ _ _ _ Hp g0 (Reads_paced l c g0 H0) He) as [Hall Hr].
  destruct res as [c'|]; [|by destruct Hr]. split; [by exists c'|]. destruct Hr as (_ & Hs & _). split.
  - intros pre rq t a post ->. by apply (pacing_open pre g0 eq_refl), (all_allowed_at _ _ _ _ _ _ _ Hall).
  - rewrite pacing_reserved in Hs. cbn [kp_reserved g0] in Hs. rewrite app_nil_r in Hs. intros l1 t l2 u l3 E.
    apply (spaced_ordered _ Hs (rev l3) u (rev l2) t (rev l1)). rewrite E, !rev_app_distr. cbn [rev].
    rewrite rev_app_distr. cbn [rev]. by rewrite <- !app_assoc.
Qed.
End Kisread.

(** ** A mock client reading its history *)

Module Reading.
Definition HostLive : string := "https://live".
Definition HostVTS : string := "https://vts".
Definition rt (s : string) : option string := if HasPrefix s "ok" then Some "0" else None.
Definition out (s : string) : option string := Some s.
Definition client : KisClient := mkKisClient zero_time true "key" "secret" true None.
Definition query : gmap string string := <["INQR_STRT_DT" := "20240102"]> ∅.

(** A world whose clock moves by a tenth of a second per reading. *)
Definition tenth : Z := 100000000.
Definition world (now : Z) (R : Set) (o : kis_op R) : Z * R :=
  match o in kis_op R return Z * R with
  | Until t => (now, time_sub t now)
  | SleepFor d => (now + Z.max 0 d, None)
  | TimeNow => (now + tenth, now + tenth)
  | MakeRequest _ => (now, true)
  | CallToken => (now, "token")
  | Get _ _ => (now, Response 200 (mkBody "ok" None))
  end.
Definition start : Z := 1704150000000000000.

Notation one := (Prog.run world start (Read HostLive HostVTS rt out client historyPath historyTR query)).
Lemma one_gives : (one).2 = Some (reserve_until (start + tenth + second_ns) client, Ok "ok").
Proof. vm_compute. reflexivity. Qed.
Lemma one_asks : length (gets_of (one).1.2) = 1%nat.
Proof. vm_compute. reflexivity. Qed.

Definition two_reads : list (string * string * gmap string string) :=
  [(historyPath, historyTR, query); (quotationPath, quotationTR, ∅)].
Notation two := (Prog.run world start (Reads HostLive HostVTS rt out client two_reads)).
Lemma two_times : times_of (two).1.2 = [start + tenth; start + 2 * tenth + second_ns].
Proof. vm_compute. reflexivity. Qed.
(** What this world answers is always expected. *)
Lemma reading_lawful {A} (p : program A) : forall now g, kp_now g <= now -> expected pacing_spec g (Prog.run world now p).1.2.
Proof.
  induction p as [a|R o k IH|]; intros now g Hg; cbn [Prog.run]; [done| |done].
  destruct (world now R o) as [now' r] eqn:Ew. specialize (IH r now').
  destruct (Prog.run world now' (k r)) as [[s tr] x]. cbn [fst snd expected] in *.
  assert (Ha : answers pacing_spec g o r /\ kp_now (update pacing_spec g (Event o r)) <= now').
  { destruct o; cbn in Ew; injection Ew as <- <-; cbn; try (by split); unfold tenth.
    - split; [by exists now|]. unfold time_sub. assert (max_int64 = 9223372036854775807) by done.
      assert (min_int64 = -9223372036854775808) by done. destruct (Z.ltb_spec (Z.max min_int64 (Z.min max_int64 (t - now))) max_int64); lia.
    - split; [done|lia].
    - lia. }
  split; [apply Ha|]. by apply IH, Ha.
Qed.
End Reading.


Lemma reads_are_paced_witness : exists t u, t + second_ns <= u.
Proof.
  pose proof (run_performs Reading.world (Reads Reading.HostLive Reading.HostVTS Reading.rt Reading.out Reading.client Reading.two_reads)
    Reading.start) as H.
  destruct (reads_are_paced _ _ _ _ Reading.client _ Reading.start _ _ eq_refl H
    (Reading.reading_lawful _ _ _ (Z.le_refl _))) as (_ & _ & Ht).
  exists (Reading.start + Reading.tenth), (Reading.start + 2 * Reading.tenth + second_ns).
  apply (Ht [] _ [] _ []). exact Reading.two_times.
Defined.
