(* ===== verification/Live.v ===== *)
(** The live mode of [src/cmd/execmock]: [broker.go], and [refreshLedger] and
    [driveLive] of [live.go].

    Each routine is a [stM] over what the run owns: the gateway behind the
    executor, the kill switch, the executor, the memory of terminal broker
    views, and, for the theorems, the broker's answers so far.  The reads of
    the ledger and of the broker, the contexts, the ticker and whether the
    journal can be read back are the class [LiveWorld]; the book is [Latest]
    over [FeedWorld]. *)

From Stdlib Require Import Ascii.
From stdpp Require Import gmap.
From S2P Require Import Prelude GoStr KST StErr Tick Intent E1 Machine Exposure Decide Journal Executor Ledger Stream Frame Feed.
Local Open Scope Z_scope.

#[export] Instance BrokerOrder_eq_dec : EqDecision BrokerOrder. Proof. solve_decision. Defined.
#[export] Instance BrokerOrder_countable : Countable BrokerOrder.
Proof.
  refine (inj_countable' (fun o => (bo_BrokerOrderID o, bo_Key o, bo_TradingDay o, bo_Qty o))
    (fun '(a, b, c, d) => mkBrokerOrder a b c d) _). by intros [].
Defined.

(** ** The broker's view of an order *)

Record brokerView := mkBrokerView { bv_Filled : Z; bv_Terminal : bool }.

(** The answer to the history read, decoded. *)
Record HistoryRow := mkHistoryRow {
  hr_ID : string; hr_Day : string; hr_Symbol : string; hr_Side : string; hr_Qty : string; hr_Filled : string;
  hr_Cancelled : string; hr_Rejected : string
}.
Record HistoryResponse := mkHistoryResponse { hi_Rows : list HistoryRow; hi_Next : string }.

(** [historyRead], without its client. *)
Record historyRead := mkHistoryRead { hs_Account : string; hs_Product : string; hs_Symbol : string; hs_Side : string }.

(** [strings.ReplaceAll] of one byte by nothing. *)
Fixpoint remove_byte (c : ascii) (s : string) : string :=
  match s with
  | "" => ""
  | String d s => if Ascii.eqb d c then remove_byte c s else String d (remove_byte c s)
  end.
Definition historyDay (o : BrokerOrder) : string := remove_byte "-" (bo_TradingDay o).

Definition historyQuery (r : historyRead) (o : BrokerOrder) : list (string * string) :=
  [("CANO", hs_Account r); ("ACNT_PRDT_CD", hs_Product r); ("INQR_STRT_DT", historyDay o); ("INQR_END_DT", historyDay o);
   ("SLL_BUY_DVSN_CD", "00"); ("INQR_DVSN", "00"); ("INQR_DVSN_3", "00"); ("INQR_DVSN_1", ""); ("CTX_AREA_FK100", "");
   ("CTX_AREA_NK100", ""); ("ORD_GNO_BRNO", ""); ("ODNO", bo_BrokerOrderID o); ("PDNO", hs_Symbol r);
   ("CCLD_DVSN", "00"); ("EXCG_ID_DVSN_CD", "KRX")].

Inductive history_error := HUnavailable | HPaginated | HAmbiguous | HQuantities | HRejection | HAbsent.

Definition side_code (side : string) : string := if side =s Sell then "01" else "02".

(** The numbers of a row, for an order of [qty]. *)
Definition rowView (qty : Z) (row : HistoryRow) : result brokerView history_error :=
  match ParseInt (hr_Qty row), ParseInt (hr_Filled row) with
  | Some q, Some filled =>
      if negb (q =? qty) || (filled <? 0) || (filled >? q) then Err HQuantities
      else
        match (if hr_Rejected row <>s "" then ParseInt (hr_Rejected row) else Some 0) with
        | None => Err HRejection
        | Some rejected =>
            if (hr_Rejected row <>s "") && ((rejected <? 0) || (rejected >? q)) then Err HRejection
            else Ok (mkBrokerView filled ((filled =? q) || (hr_Cancelled row =s "Y") || (rejected =? q)))
        end
  | _, _ => Err HQuantities
  end.

(** Whether a row is one of the order's. *)
Definition row_of (o : BrokerOrder) (row : HistoryRow) : bool :=
  (NormalizeOrderNumber (hr_ID row) =s bo_BrokerOrderID o) && (hr_Day row =s historyDay o).

(** The loop over the rows. *)
Fixpoint findRow (r : historyRead) (o : BrokerOrder) (rows : list HistoryRow) (found : option brokerView)
  : result (option brokerView) history_error :=
  match rows with
  | [] => Ok found
  | row :: rows =>
      if negb (row_of o row) then findRow r o rows found
      else if (hr_Symbol row <>s hs_Symbol r) || (hr_Side row <>s side_code (hs_Side r)) || is_some found
      then Err HAmbiguous
      else match rowView (bo_Qty o) row with Err e => Err e | Ok v => findRow r o rows (Some v) end
  end.

(** [historyRead.read], from the answer on. *)
Definition historyView (r : historyRead) (o : BrokerOrder) (response : option HistoryResponse)
  : result brokerView history_error :=
  match response with
  | None => Err HUnavailable
  | Some response =>
      if TrimSpace (hi_Next response) <>s "" then Err HPaginated
      else match findRow r o (hi_Rows response) None with
           | Err e => Err e
           | Ok None => Err HAbsent
           | Ok (Some v) => Ok v
           end
  end.

(** ** The outside and the run *)

Inductive ctx_end := CtxCanceled | CtxDeadline.
Inductive tick_signal := TickDone | TickGo | TickClosed.

(** [child_over] is the error of the context made for the last read. *)
Class LiveWorld (W : Type) `{World W, FeedWorld W} := {
  read_fills : W -> W * result FillsSnapshot string;
  read_history : W -> list (string * string) -> W * option HistoryResponse;
  child_over : W -> W * option ctx_end;
  ctx_over : W -> W * bool;
  next_tick : W -> W * tick_signal;
  journal_readable : W -> W * bool;
  wraps_deadline : string -> bool;
  handed_fills w : handed (fst (read_fills w)) = handed w;
  handed_history w q : handed (fst (read_history w q)) = handed w;
  handed_child w : handed (fst (child_over w)) = handed w;
  handed_ctx w : handed (fst (ctx_over w)) = handed w;
  handed_tick w : handed (fst (next_tick w)) = handed w;
  handed_journal w : handed (fst (journal_readable w)) = handed w;
  handed_now w : handed (fst (time_now w)) = handed w;
  handed_last w k : handed (fst (feed_last w k)) = handed w
}.

(** What stops the run; [exec]'s two sentinels with what is said of them. *)
Inductive live_error :=
| LRead (text : string)
| LHistory (e : history_error)
| LContext (e : ctx_end)
| LExec (e : exec_error)
| LBrokerOrders (e : broker_error)
| LIncomplete (why : string)
| LAttribution (why : string)
| LFeed (e : feed_error)
| LWrongSymbol
| LInterrupted
| LPollDeadline (e : live_error)
| LClockStopped
| LFinished
| LJoin (reason tick : live_error).

(** The gateway with the run's own kill switch. *)
Record outer (W : Type) := mkOuter { ow_world : W; ow_kill : bool }.
#[global] Arguments mkOuter {W}.
#[global] Arguments ow_world {W}.
#[global] Arguments ow_kill {W}.

#[global, refine] Instance outer_world `{World W} : World (outer W) := {
  Send w c := let '(i, r) := Send (ow_world w) c in (mkOuter i (ow_kill w), r);
  Query w id := let '(i, r) := Query (ow_world w) id in (mkOuter i (ow_kill w), r);
  kill_switch w := Some (ow_kill w);
  disk w := let '(i, r) := disk (ow_world w) in (mkOuter i (ow_kill w), r);
  handed w := handed (ow_world w)
}.
Proof.
  - intros w c. pose proof (handed_Send (ow_world w) c). by destruct (Send (ow_world w) c).
  - intros w id. pose proof (handed_Query (ow_world w) id). by destruct (Query (ow_world w) id).
  - intros w. pose proof (handed_disk (ow_world w)). by destruct (disk (ow_world w)).
Defined.

(** [lv_asked]: the broker's answers so far. *)
Record live (W : Type) := mkLive {
  lv_out : outer W; lv_exec : Executor; lv_terminal : gmap BrokerOrder brokerView;
  lv_asked : list (BrokerOrder * brokerView)
}.
#[global] Arguments mkLive {W}.
#[global] Arguments lv_out {W}.
#[global] Arguments lv_exec {W}.
#[global] Arguments lv_terminal {W}.
#[global] Arguments lv_asked {W}.

Definition set_out {W} (o : outer W) (s : live W) : live W := mkLive o (lv_exec s) (lv_terminal s) (lv_asked s).
Definition set_exec {W} (e : Executor) (s : live W) : live W := mkLive (lv_out s) e (lv_terminal s) (lv_asked s).
Definition set_terminal {W} (o : BrokerOrder) (v : brokerView) (s : live W) : live W :=
  mkLive (lv_out s) (lv_exec s) (<[o := v]> (lv_terminal s)) (lv_asked s).
Definition log_asked {W} (o : BrokerOrder) (v : brokerView) (s : live W) : live W :=
  mkLive (lv_out s) (lv_exec s) (lv_terminal s) (lv_asked s ++ [(o, v)]).
Definition live_state {W} (s : live W) : State := x_state (lv_exec s).

(** ** The routines *)

Section Live.
Context `{LineCodec} (Digest : State -> string) (quote : string -> string) {codec : StampCodec}.
Context {W : Type} `{LiveWorld W}.
Notation M := (stM (live W) live_error).

(** Asking the outside, and calls of the executor. *)
Definition outside {A} (f : W -> W * A) : M A :=
  asks (fun s => let '(w, a) := f (ow_world (lv_out s)) in (set_out (mkOuter w (ow_kill (lv_out s))) s, a)).
Definition executor (f : outer W -> Executor -> outer W * Executor * option exec_error) : M unit := fun s =>
  let '(w, e, res) := f (lv_out s) (lv_exec s) in
  Some (set_exec e (set_out w s), match res with None => Ok tt | Some err => Err (LExec err) end).
Definition execTick (t : Z) : M unit := fun s =>
  match Tick Digest quote (lv_out s) (lv_exec s) t with
  | None => None
  | Some (w, e, res) => Some (set_exec e (set_out w s), match res with None => Ok tt | Some err => Err (LExec err) end)
  end.
Definition onLedgerFill (number : string) (f : Fill) : M unit :=
  readable ← outside journal_readable;
  executor (fun w e => OnLedgerFill Digest readable w e number f).
Definition brokerOrders : M (list BrokerOrder) :=
  readable ← outside journal_readable;
  e ← gets lv_exec;
  checks (match BrokerOrders readable e with Ok orders => Ok orders | Err err => Err (LBrokerOrders err) end).
Definition setLedgerComplete (complete : bool) : M unit :=
  modifies (fun s => set_exec (SetLedgerComplete complete (lv_exec s)) s).
Definition onBook (t : Top) : M unit := modifies (fun s => set_exec (OnBook t (lv_exec s)) s).
(** [kill.Engage]. *)
Definition engage : M unit := modifies (fun s => set_out (mkOuter (ow_world (lv_out s)) true) s).

(** A read under a context of its own: the context's error goes first. *)
Definition under_context {A} (m : M A) : M A :=
  r ← attempt m;
  over ← outside child_over;
  match over with Some e => fails (LContext e) | None => checks r end.

(** [historyRead.read], and the reader [cacheTerminalBrokerViews] makes of it. *)
Definition readBroker (hs : historyRead) (o : BrokerOrder) : M brokerView :=
  response ← outside (fun w => read_history w (historyQuery hs o));
  v ← checks (match historyView hs o response with Ok v => Ok v | Err e => Err (LHistory e) end);
  modifies (log_asked o v);;
  mret v.
Definition cachedBroker (hs : historyRead) (o : BrokerOrder) : M brokerView :=
  known ← gets (fun s => lv_terminal s !! o);
  match known with
  | Some v => mret v
  | None =>
      v ← readBroker hs o;
      (if bv_Terminal v then modifies (set_terminal o v) else mret tt);;
      mret v
  end.

(** *** [refreshLedger] *)

(** The loop over the fills of an order. *)
Fixpoint applyFills (side number : string) (fills : list LedgerFill) (seen : gset string) (total : Z)
  : M (gset string * Z) :=
  match fills with
  | [] => mret (seen, total)
  | f :: fills =>
      if (lf_Side f <>s side) || bool_decide (lf_FillID f ∈ seen) then fails (LAttribution "")
      else
        fill ← checks (match Execution f with Ok x => Ok x | Err text => Err (LRead text) end);
        onLedgerFill number fill;;
        applyFills side number fills ({[ lf_FillID f ]} ∪ seen) (total +w f_Qty fill)
  end.

Definition verifyOrder (broker : BrokerOrder -> M brokerView) (known : BrokerOrder) (cumulative : Z) : M bool :=
  view ← under_context (broker known);
  if negb (bv_Filled view =? cumulative) then fails (LIncomplete "exact broker order has unaccounted fills")
  else mret (bv_Terminal view).

(** The loop over the orders of the snapshot. *)
Fixpoint checkRows (broker : BrokerOrder -> M brokerView) (side : string) (expected : gmap string BrokerOrder)
    (rows : list LedgerOrder) (seen seenOrders : gset string) (complete : bool) : M (gset string * bool) :=
  match rows with
  | [] => mret (seen, complete)
  | o :: rows =>
      let number := NormalizeOrderNumber (lo_BrokerOrderID o) in
      match expected !! number with
      | None => fails (LAttribution "")
      | Some known =>
          if bool_decide (number ∈ seenOrders) then fails (LAttribution "")
          else
            '(seen, total) ← applyFills side number (default [] (lo_Fills o)) seen 0;
            if negb (total =? lo_CumulativeQty o) then fails (LAttribution "")
            else
              terminal ← verifyOrder broker known (lo_CumulativeQty o);
              checkRows broker side expected rows seen ({[ number ]} ∪ seenOrders) (complete && terminal)
      end
  end.

(** The map of the expected orders, and the working order among them. *)
Fixpoint expectedOrders (orders : list BrokerOrder) (expected : gmap string BrokerOrder)
  : option (gmap string BrokerOrder) :=
  match orders with
  | [] => Some expected
  | o :: orders =>
      if is_some (expected !! bo_BrokerOrderID o) then None
      else expectedOrders orders (<[bo_BrokerOrderID o := o]> expected)
  end.
Definition working_known (st : State) (orders : list BrokerOrder) : bool :=
  match s_Order st with
  | Some w => existsb (fun o => bo_Key o =s o_Key w) orders
  | None => true
  end.

Definition refreshLedger (broker : BrokerOrder -> M brokerView) : M unit :=
  s ← under_context (r ← outside read_fills; checks (match r with Ok s => Ok s | Err text => Err (LRead text) end));
  st ← gets live_state;
  if is_some (s_InFlight st) then fails (LIncomplete "")
  else if fs_IntentID s <>s IntentID (s_Intent st) then fails (LAttribution "")
  else
    orders ← brokerOrders;
    let rows := default [] (fs_Orders s) in
    if negb (length orders =? length rows)%nat then fails (LAttribution "ledger/journal order set differs")
    else if negb (working_known st orders) then fails (LAttribution "working order has no journal broker identity")
    else
      match expectedOrders orders ∅ with
      | None => fails (LAttribution "")
      | Some expected =>
          '(seen, complete) ← checkRows broker (in_Side (s_Intent st)) expected rows ∅ ∅ true;
          if negb (bool_decide (dom (s_Fills st) ⊆ seen))
          then fails (LAttribution "effective ledger fill removed or superseded")
          else setLedgerComplete complete
      end.

(** *** [driveLive] *)

(** [errors.Is] for [context.DeadlineExceeded]. *)
Fixpoint is_deadline (e : live_error) : bool :=
  match e with
  | LContext CtxDeadline => true
  | LRead text => wraps_deadline text
  | LExec (EReconcile text) => wraps_deadline text
  | LPollDeadline e => is_deadline e
  | LJoin a b => is_deadline a || is_deadline b
  | _ => false
  end.

Definition stopForReconcile {A} (reason : live_error) : M A :=
  engage;;
  t ← outside time_now;
  r ← attempt (execTick (UnixNano t));
  match r with
  | Err e => fails (LJoin reason e)
  | Ok _ => fails reason
  end.

(** The top [step] prices from: the first level of a snapshot. *)
Definition live_top (s : Snapshot) (now : Z) : Top :=
  mkTop (lv_Price (level (sn_Bids s) 0)) (lv_Price (level (sn_Asks s) 0)) (UnixNano (SnapshotAt s))
    (negb (now <? Exchange s) && negb (now <? sn_Received s)).
Definition readBook (symbol : string) : M (option Snapshot) :=
  under_context
    (r ← outside (fun w => Latest w symbol);
     checks (match r with Ok s => Ok s | Err e => Err (LFeed e) end)).
Definition takeBook (book : option Snapshot) (now : Z) : M unit :=
  match book with
  | None => mret tt
  | Some s =>
      st ← gets live_state;
      if sn_Symbol s <>s Symbol (s_Intent st) then fails LWrongSymbol else onBook (live_top s now)
  end.

(** The configuration of a run: dry, its end when dry, the symbol of the book
    and the broker reader. *)
Section drive.
Context (dry : bool) (until : Z) (symbol : string) (hs : historyRead).

Definition liveStep : M unit :=
  (if dry then mret tt else refreshLedger (cachedBroker hs));;
  book ← readBook symbol;
  now ← outside time_now;
  takeBook book now;;
  execTick (UnixNano now).

(** A run ends with [nil], or has used the rounds it was given. *)
Inductive live_end := Ended | Running.

(** What a failed [step] ends the run with. *)
Definition stepFailed (e : live_error) : M live_end :=
  over ← outside ctx_over;
  if (over : bool) then stopForReconcile LInterrupted
  else if is_deadline e then stopForReconcile (LPollDeadline e)
  else fails e.

Fixpoint driveLive (n : nat) : M live_end :=
  match n with
  | O => mret Running
  | S n =>
      now ← outside time_now;
      if dry && negb (now <? until) then engage;; execTick (UnixNano now);; mret Ended
      else
        r ← attempt liveStep;
        match r with
        | Err e => stepFailed e
        | Ok _ =>
            st ← gets live_state;
            if s_Done st <>s "" then mret Ended
            else
              t ← outside next_tick;
              match t with
              | TickDone => stopForReconcile LInterrupted
              | TickClosed => fails LClockStopped
              | TickGo => driveLive n
              end
        end
  end.
End drive.
End Live.
