(* ===== verification/LiveRefresh.v ===== *)
(** A refresh that succeeds settles the executor with the broker: what the
    routines of [Live] keep, and [refresh_settles].

    A refresh hands nothing over.  When it returns no error, the executor's
    filled quantity is the sum of what the broker itself says of every order of
    the journal, and the evidence is complete exactly when all are terminal. *)

From stdpp Require Import gmap.
From S2P Require Import Prelude GoStr KST StErr Tick Intent E1 Machine Exposure Decide Journal Executor Ledger Stream Frame Feed E1World Live.
Local Open Scope Z_scope.

Section reads.
Context `{LineCodec} (Digest : State -> string) (quote : string -> string) {codec : StampCodec}.
Context {W : Type} `{LiveWorld W}.
(** ** What every routine keeps *)

(** The executor's invariant, and the memory of terminal views is what the
    broker said. *)
Definition remembered (s : live W) : Prop :=
  forall o v, lv_terminal s !! o = Some v -> bv_Terminal v = true /\ (o, v) ∈ lv_asked s.
Definition good (s : live W) : Prop := inv Digest (lv_out s) (lv_exec s) /\ remembered s.

(** From [s] to [s'] nothing was handed over. *)
Record kept (s s' : live W) : Prop := {
  kp_good : good s';
  kp_handed : handed (lv_out s') = handed (lv_out s);
  kp_kill : ow_kill (lv_out s') = ow_kill (lv_out s);
  kp_cfg : x_cfg (lv_exec s') = x_cfg (lv_exec s);
  kp_done : s_Done (live_state s') = s_Done (live_state s);
  kp_asked : lv_asked s `prefix_of` lv_asked s'
}.
(** Nor did the executor change. *)
Definition looked (s s' : live W) : Prop := kept s s' /\ lv_exec s' = lv_exec s.

Lemma kept_refl s : good s -> kept s s.
Proof. by constructor. Qed.
Lemma kept_trans a b c : kept a b -> kept b c -> kept a c.
Proof. intros [] []. constructor; [done|congruence..|by etrans]. Qed.
Lemma looked_refl s : good s -> looked s s.
Proof. intros. split; [by apply kept_refl|done]. Qed.
Lemma looked_trans a b c : looked a b -> looked b c -> looked a c.
Proof. intros [] []. split; [by eapply kept_trans|congruence]. Qed.
Lemma looked_good s s' : looked s s' -> good s'.
Proof. by intros [[]]. Qed.

(** Asking the outside. *)
Lemma outside_ok {A} s (f : W -> W * A) (Q : live W -> result A live_error -> Prop) :
  good s -> (forall w, handed (fst (f w)) = handed w) ->
  (forall s' a, looked s s' -> lv_asked s' = lv_asked s -> lv_terminal s' = lv_terminal s -> Q s' (Ok a)) -> does s (outside f) Q.
Proof.
  intros [Hi Hm] Hh HQ. unfold outside, asks, does. pose proof (Hh (ow_world (lv_out s))) as Hw.
  destruct (f (ow_world (lv_out s))) as [w' a]. cbn [fst] in Hw. apply HQ; [|done..]. split; [|done].
  constructor; cbn; try done. split; [|done]. by apply (inv_ext Digest (lv_out s) (lv_exec s)).
Qed.

(** A read under its context gives the read's own value, if any. *)
Lemma under_context_ok {A} s (m : stM (live W) live_error A) (Q : live W -> result A live_error -> Prop) :
  does s m (fun s1 r => good s1 /\ forall s2, looked s1 s2 -> lv_asked s2 = lv_asked s1 ->
    (forall e, Q s2 (Err e)) /\ Q s2 r) -> does s (under_context m) Q.
Proof.
  intros Hm. unfold under_context. does_step. eapply does_mono; [exact Hm|]. cbv beta. intros s1 r [Hg HQ].
  does_step. apply outside_ok; [done|apply handed_child|]. intros s2 over Hl Ha _. destruct (HQ s2 Hl Ha) as [He Hr].
  destruct over; [apply He|]. by destruct r.
Qed.

(** ** The broker's answers *)

(** What a reader of orders may answer: a view the broker gave in this run,
    terminal or new. *)
Definition answers_of (s s' : live W) (o : BrokerOrder) (v : brokerView) : Prop :=
  (o, v) ∈ lv_asked s' /\ (bv_Terminal v = true \/ exists old new, lv_asked s' = old ++ new /\
    lv_asked s `prefix_of` old /\ (o, v) ∈ new).

Definition reads_orders (broker : BrokerOrder -> stM (live W) live_error brokerView) : Prop :=
  forall s o, good s -> does s (broker o) (fun s' r => looked s s' /\ forall v, r = Ok v -> answers_of s s' o v).

Lemma readBroker_ok hs s o (Q : live W -> result brokerView live_error -> Prop) : good s ->
  (forall s' r, looked s s' -> lv_terminal s' = lv_terminal s -> (forall v, r = Ok v -> lv_asked s' = lv_asked s ++ [(o, v)]) -> Q s' r) ->
  does s (readBroker hs o) Q.
Proof.
  intros Hg HQ. unfold readBroker. does_step.
  apply (outside_ok s (fun w => read_history w (historyQuery hs o))); [done|intros; apply handed_history|].
  intros s1 response Hl Ha Ht. does_step; [|by apply HQ]. does_step. does_step. apply HQ; [|done|intros ? [= <-]; cbn; by rewrite Ha].
  destruct Hl as [[[Hi Hm] K2 K3 K4 Kd K5] K6]. split; [|done]. constructor; try done.
  - split; [done|]. intros o' v' Ho. destruct (Hm o' v' Ho). split; [done|]. cbn. apply elem_of_app. by left.
  - cbn. rewrite Ha. by eexists.
Qed.

Lemma cachedBroker_ok hs : reads_orders (cachedBroker hs).
Proof.
  intros s o Hg. unfold cachedBroker. does_step. destruct (lv_terminal s !! o) as [v|] eqn:Et.
  - does_step. split; [by apply looked_refl|]. intros ? [= <-]. destruct Hg as [_ Hm]. destruct (Hm _ _ Et).
    split; [done|by left].
  - does_step. apply readBroker_ok; [done|]. intros s1 [v|e] Hl Ht Ha; [|by split].
    specialize (Ha v eq_refl).
    assert (Hin : answers_of s s1 o v).
    { split; [rewrite Ha; set_solver|]. right. exists (lv_asked s), [(o, v)]. split; [done|]. split; [done|]. set_solver. }
    does_step. destruct (bv_Terminal v) eqn:Ev; does_step; does_step; [|by split; [|intros ? [= <-]]].
    split; [|by intros ? [= <-]]. destruct Hl as [[[Hi Hm] K2 K3 K4 Kd K5] K6]. split; [|done].
    constructor; try done. split; [done|]. intros o' v' Ho. cbn [lv_terminal set_terminal lv_asked] in *.
    apply lookup_insert_Some in Ho as [[<- <-]|[_ Ho]]; [by split; [|apply Hin]|by apply Hm].
Qed.
End reads.

(** ** A ledger fill *)

Section fills.
Context `{LineCodec} (Digest : State -> string).
Context {W : Type} `{World W}.
Hypothesis Hfaithful : forall l b, marshal l = Some b -> faithful l.

(** A fill binds no broker order. *)
Lemma keys_after_fill j st rs j' st' f : written Digest j st rs -> written Digest j' st' (rs ++ [fill_rec f]) ->
  brokerKeys true j' = brokerKeys true j.
Proof.
  intros Hw Hw'. rewrite (brokerKeys_fold Digest _ _ _ Hw), (brokerKeys_fold Digest _ _ _ Hw'), fold_keys_snoc.
  destruct (fold_keys rs (∅, ∅)) as [[sends keys]|]; done.
Qed.

(** What recording a fill does to the executor. *)
Record fill_post (e : Executor) (f : Fill) (e' : Executor) : Prop := {
  fp_state : x_state e' = add_fill f (x_state e);
  fp_err : x_err e = None /\ x_err e' = None;
  fp_keys : brokerKeys true (x_j e') = brokerKeys true (x_j e);
  fp_complete : x_ledgerComplete e' = x_ledgerComplete e;
  fp_top : x_top e' = x_top e
}.

Lemma commit_fill w e f w' e' : inv Digest w e -> int64_fill f ->
  commit Digest w e (fill_rec f) = (w', e', None) -> fill_post e f e'.
Proof using Hfaithful.
  intros Hi Hf Hc.
  destruct (commit_spec Digest Hfaithful w e _ w' e' None Hi (pre_ok_simple (x_state e) (fill_rec f)
    (int64_fill_rec f Hf) ltac:(done) ltac:(done)) Hc) as [_ _ _ _ Hok].
  destruct (Hok eq_refl) as (He' & Ha & Hx & _). unfold commit in Hc. destruct (x_err e) eqn:Ee; [done|].
  cbn [fill_rec r_Child] in Hc. destruct ("" <>s ""); [done|].
  destruct (Apply (x_state e) (fill_rec f)) as [next|] eqn:En; [|done]. destruct (disk w) as [w1 fault].
  destruct (append Digest fault (x_j e) (fill_rec f) next) as [j [ae|]] eqn:Eapp; [done|]. simplify_eq.
  destruct (i_journal Digest w e Hi) as [rs Hw]; [unfold halted; by rewrite Ee|]. cbn in Hx.
  destruct (append_outcome Digest Hfaithful _ _ _ _ _ _ _ _ Hw (i_state _ _ _ Hi) (or_intror Hx) En Eapp)
    as [[_ Hw']|(? & ? & _)]; [|done].
  constructor; try done; cbn; [|by eapply keys_after_fill].
  destruct (Apply_cases _ _ _ En) as [Hk|Hk|Hk|Hk|_ _ Hk|Hk]; try discriminate Hk.
  by apply apply_fill_iff in Hk as (_ & _ & _ & _ & _ & ->).
Qed.

Lemma OnFill_post w e f w' e' : inv Digest w e -> int64_fill f -> Started (x_state e) = true ->
  is_none (sentKey (x_state e) (f_Key f)) = false -> OnFill Digest w e f = (w', e', None) ->
  (e' = e /\ is_Some (s_Fills (x_state e) !! f_FillID f)) \/ fill_post e f e'.
Proof using Hfaithful.
  intros Hi Hf Hs Hk Ho. unfold OnFill in Ho. rewrite Hs, Hk in Ho. cbn [negb] in Ho.
  destruct (s_Fills _ !! _) as [g|]; cbn [is_some is_none negb] in Ho; [simplify_eq; left; eauto|]. right.
  destruct (commit Digest w e (fill_rec f)) as [[w1 e1] [err|]] eqn:Ec; [done|].
  assert (e' = e1) as -> by (by destruct (_ >? 0); simplify_eq). by eapply commit_fill.
Qed.

Lemma OnFill_kept w e f w' e' res : inv Digest w e -> int64_fill f -> OnFill Digest w e f = (w', e', res) ->
  inv Digest w' e' /\ handed w' = handed w /\ x_cfg e' = x_cfg e /\ s_Done (x_state e') = s_Done (x_state e).
Proof using Hfaithful.
  intros Hi Hf Ho. destruct (OnFill_inv Digest Hfaithful w e f w' e' res Hi Hf Ho) as [Hi' Hh]. split; [done|]. split; [done|].
  unfold OnFill in Ho. destruct (negb _); [by simplify_eq|]. destruct (is_some _); [by simplify_eq|].
  destruct (is_none _); [by simplify_eq|]. destruct (commit Digest w e (fill_rec f)) as [[w1 e1] r] eqn:Ec.
  destruct (commit_spec Digest Hfaithful w e _ w1 e1 r Hi (pre_ok_simple (x_state e) (fill_rec f)
    (int64_fill_rec f Hf) ltac:(done) ltac:(done)) Ec) as [_ _ Hc Hfail Hok].
  assert (Hd : s_Done (x_state e1) = s_Done (x_state e)).
  { destruct r as [err|]; [by rewrite (Hfail err)|]. destruct (Hok eq_refl) as (_ & Ha & _).
    destruct (Apply_cases _ _ _ Ha) as [Hk|Hk|Hk|Hk|_ _ Hk|Hk]; try discriminate Hk.
    apply apply_fill_iff in Hk as (_ & _ & _ & _ & _ & Hk). by rewrite Hk. }
  destruct r; [by simplify_eq|]. destruct (_ >? 0); by simplify_eq.
Qed.

Lemma OnLedgerFill_kept readable w e number f w' e' res : inv Digest w e -> int64_fill f ->
  OnLedgerFill Digest readable w e number f = (w', e', res) ->
  inv Digest w' e' /\ handed w' = handed w /\ x_cfg e' = x_cfg e /\ s_Done (x_state e') = s_Done (x_state e).
Proof using Hfaithful.
  intros Hi Hf Ho. unfold OnLedgerFill in Ho. destruct (x_err e) as [err|] eqn:Ee; [by simplify_eq|].
  assert (Hfail : forall why, inv Digest w (set_err (EAttribution why) e)).
  { intros why. apply (inv_ext Digest w e); try done. unfold halted. by rewrite Ee. }
  destruct (_ || _); [by simplify_eq|]. destruct (brokerKeys _ _) as [keys|]; [|by simplify_eq].
  destruct (keys !! _) as [k|]; [|by simplify_eq]. destruct (_ && _); [by simplify_eq|].
  assert (Hon : OnFill Digest w e (mkFill (f_FillID f) k (f_Qty f) (f_Price f) (f_AtNS f)) = (w', e', res) ->
    inv Digest w' e' /\ handed w' = handed w /\ x_cfg e' = x_cfg e /\ s_Done (x_state e') = s_Done (x_state e)) by (by apply OnFill_kept).
  destruct (s_Fills _ !! _) as [previous|]; [|by apply Hon]. destruct (decide _); [by apply Hon|by simplify_eq].
Qed.

(** A ledger fill that is taken: it is recorded with its quantity, now or
    already. *)
Lemma OnLedgerFill_taken readable w e number f w' e' keys : inv Digest w e -> int64_fill f ->
  (x_err e = None -> brokerKeys true (x_j e) = Ok keys) ->
  (forall id k, keys !! id = Some k -> is_none (sentKey (x_state e) k) = false) ->
  OnLedgerFill Digest readable w e number f = (w', e', None) ->
  x_err e = None /\
  ((e' = e /\ exists g, s_Fills (x_state e) !! f_FillID f = Some g /\ f_Qty g = f_Qty f) \/
   exists k, s_Fills (x_state e) !! f_FillID f = None /\
     fill_post e (mkFill (f_FillID f) k (f_Qty f) (f_Price f) (f_AtNS f)) e').
Proof using Hfaithful.
  intros Hi Hf Hkeys Hknown Ho. unfold OnLedgerFill in Ho. destruct (x_err e) as [err|] eqn:Ee; [done|]. split; [done|].
  destruct (negb (Started (x_state e))) eqn:Es; cbn [orb] in Ho; [done|]. destruct (_ || _); [done|].
  destruct readable; [|done]. rewrite Hkeys in Ho by done.
  destruct (keys !! _) as [k|] eqn:Ek; [|done]. destruct (_ && _); [done|]. cbn [f_FillID] in Ho.
  pose proof (OnFill_post w e (mkFill (f_FillID f) k (f_Qty f) (f_Price f) (f_AtNS f)) w' e' Hi Hf
    ltac:(by apply negb_false_iff) (Hknown _ _ Ek)) as Hp. cbn [f_FillID] in Hp.
  destruct (s_Fills _ !! _) as [previous|] eqn:Ef.
  - destruct (decide _) as [->|]; [|done]. left. destruct (Hp Ho) as [[-> _]|[Hst _ _ _ _]]; [by eauto|].
    split; [|by eauto]. unfold OnFill in Ho. cbn [f_FillID] in Ho. rewrite Ef in Ho.
    destruct (negb (Started _)); [by simplify_eq|]. cbn [is_some is_none negb] in Ho. by simplify_eq.
  - right. exists k. split; [done|]. destruct (Hp Ho) as [[_ [? ?]]|?]; done.
Qed.

(** What the disk keeps, a ledger fill keeps. *)
Lemma OnLedgerFill_holds (P : W -> Prop) : (forall w, P w -> P (fst (disk w))) ->
  forall readable w e number f w' e' res, P w -> OnLedgerFill Digest readable w e number f = (w', e', res) -> P w'.
Proof.
  intros Hd readable w e number f w' e' res Hw Ho. unfold OnLedgerFill in Ho. destruct (x_err e); [by simplify_eq|].
  destruct (_ || _); [by simplify_eq|]. destruct (brokerKeys _ _) as [keys|]; [|by simplify_eq].
  destruct (keys !! _) as [k|]; [|by simplify_eq]. destruct (_ && _); [by simplify_eq|].
  assert (Hon : forall g, OnFill Digest w e g = (w', e', res) -> P w').
  { intros g Hg. unfold OnFill in Hg. destruct (negb _); [by simplify_eq|]. destruct (is_some _); [by simplify_eq|].
    destruct (is_none _); [by simplify_eq|]. destruct (commit Digest w e (fill_rec g)) as [[w1 e1] r] eqn:Ec.
    pose proof (commit_kept_as Digest P Hd _ _ _ _ _ _ Hw Ec). destruct r; [by simplify_eq|].
    destruct (_ >? 0); by simplify_eq. }
  destruct (s_Fills _ !! _) as [previous|]; [|by eapply Hon]. destruct (decide _); [by eapply Hon|by simplify_eq].
Qed.
End fills.

Lemma outer_disk_kill `{World W} b (w : outer W) : ow_kill w = b -> ow_kill (fst (disk w)) = b.
Proof. cbn. by destruct (disk (ow_world w)). Qed.

(** ** A refresh *)

Section refresh.
Context `{LineCodec} (Digest : State -> string) {codec : StampCodec}.
Context {W : Type} `{LiveWorld W}.
Hypothesis Hfaithful : forall l b, marshal l = Some b -> faithful l.
Notation good := (good Digest).
Notation kept := (kept Digest).
Notation looked := (looked Digest).

(** The parts of a state that a fill leaves alone. *)
Definition same_orders (a b : State) : Prop :=
  s_Intent b = s_Intent a /\ s_Sent b = s_Sent a /\ s_Order b = s_Order a /\ s_InFlight b = s_InFlight a /\ s_Done b = s_Done a.

(** How far a refresh that began in [s0] has got: the fills of the snapshot so
    far, with their quantities, are recorded, and there are no others but those
    of the start. *)
Record tallied (s0 s : live W) (keys : gmap orderDay string) (ids : list (string * Z)) : Prop := {
  ta_kept : kept s0 s;
  ta_same : same_orders (live_state s0) (live_state s);
  ta_keys : x_err (lv_exec s) = None -> brokerKeys true (x_j (lv_exec s)) = Ok keys;
  ta_nodup : NoDup ids.*1;
  ta_have : forall id q, (id, q) ∈ ids -> exists g, s_Fills (live_state s) !! id = Some g /\ f_Qty g = q;
  ta_new : forall id, is_Some (s_Fills (live_state s) !! id) -> is_Some (s_Fills (live_state s0) !! id) \/ id ∈ ids.*1
}.

Section tally.
Context (s0 : live W) (keys : gmap orderDay string).
Hypothesis Hknown : forall id k, keys !! id = Some k -> is_none (sentKey (live_state s0) k) = false.

Lemma tallied_looked s s' ids : tallied s0 s keys ids -> looked s s' -> tallied s0 s' keys ids.
Proof.
  intros [] [Hk He]. unfold live_state in *. constructor; unfold live_state; rewrite ?He; try done. by eapply kept_trans.
Qed.

Lemma tallied_fill s o f e' k ids : tallied s0 s keys ids -> f_FillID f ∉ ids.*1 ->
  kept s (set_exec e' (set_out o s)) -> x_err (lv_exec s) = None -> s_Fills (live_state s) !! f_FillID f = None ->
  fill_post (lv_exec s) (mkFill (f_FillID f) k (f_Qty f) (f_Price f) (f_AtNS f)) e' ->
  tallied s0 (set_exec e' (set_out o s)) keys (ids ++ [(f_FillID f, f_Qty f)]).
Proof.
  intros [] Hid Hk He Hn [Hst [_ Herr] Hkeys _ _]. unfold live_state in *.
  constructor; unfold live_state; cbn [lv_exec set_exec set_out]; rewrite ?Hst.
  - by eapply kept_trans.
  - by destruct ta_same0 as (? & ? & ? & ? & ?).
  - intros _. rewrite Hkeys. by apply ta_keys0.
  - rewrite fmap_app. by apply NoDup_snoc.
  - cbn [s_Fills add_fill f_FillID]. intros id q [Hin|Hin]%elem_of_app.
    + destruct (ta_have0 _ _ Hin) as (g & Hg & Hq). exists g. split; [|done]. rewrite lookup_insert_ne; [done|].
      intros E. rewrite E in Hn. congruence.
    + apply list_elem_of_singleton in Hin. injection Hin as -> ->. eexists. by rewrite lookup_insert_eq.
  - cbn [s_Fills add_fill f_FillID]. intros id Hid'. rewrite fmap_app, elem_of_app. destruct (decide (id = f_FillID f)) as [->|Hne].
    + right. right. left.
    + rewrite lookup_insert_ne in Hid' by done. destruct (ta_new0 _ Hid'); auto.
Qed.

Lemma onLedgerFill_ok s number f ids (Q : live W -> result unit live_error -> Prop) :
  tallied s0 s keys ids -> int64_fill f -> f_FillID f ∉ ids.*1 ->
  (forall s' r, kept s s' -> (r = Ok tt -> tallied s0 s' keys (ids ++ [(f_FillID f, f_Qty f)])) -> Q s' r) ->
  does s (onLedgerFill Digest number f) Q.
Proof using Hfaithful Hknown.
  intros Ht Hf Hid HQ. unfold onLedgerFill. does_step. apply (outside_ok Digest); [by apply Ht|apply handed_journal|].
  intros s1 readable Hl _ _. pose proof (tallied_looked _ _ _ Ht Hl) as Ht1. clear Ht. destruct Hl as [Hl _].
  unfold executor, does. destruct (OnLedgerFill _ _ _ _ _ _) as [[w' e'] res] eqn:Eo.
  pose proof Ht1 as [[[Hi Hm] K2 K3 K4 Kd K5] (Hs1 & Hs2 & Hs3) Hkeys Hn Hhave Hnew].
  destruct (OnLedgerFill_kept Digest Hfaithful _ _ _ _ _ _ _ _ Hi Hf Eo) as (Hi' & Hh' & Hc' & Hd').
  assert (Hkill : ow_kill w' = ow_kill (lv_out s1)).
  { exact (OnLedgerFill_holds Digest (fun w => ow_kill w = ow_kill (lv_out s1)) (outer_disk_kill _) _ _ _ _ _ _ _ _ eq_refl Eo). }
  assert (Hk : kept s1 (set_exec e' (set_out w' s1))) by (by constructor).
  assert (Hknown1 : forall id k, keys !! id = Some k -> is_none (sentKey (x_state (lv_exec s1)) k) = false).
  { intros id k Hk'. unfold sentKey, live_state in *. rewrite Hs2. by eapply Hknown. }
  pose proof (kept_trans Digest _ _ _ (ta_kept _ _ _ _ Ht1) Hk) as Hk0.
  apply HQ; [exact (kept_trans Digest _ _ _ Hl Hk)|]. destruct res; [done|]. intros _.
  destruct (OnLedgerFill_taken Digest Hfaithful _ _ _ _ _ _ _ keys Hi Hf Hkeys Hknown1 Eo)
    as [He [[-> (g & Hg & Hq)]|(k & Hg & Hp)]]; [|by eapply tallied_fill].
  constructor; try done.
  - rewrite fmap_app. by apply NoDup_snoc.
  - intros id q [Hin|Hin]%elem_of_app; [by apply Hhave|]. apply list_elem_of_singleton in Hin.
    injection Hin as -> ->. by exists g.
  - intros id Hx. rewrite fmap_app, elem_of_app. destruct (Hnew id Hx); auto.
Qed.

(** The loop over the fills of an order. *)
Lemma applyFills_ok side number fills : forall s ids total (Q : live W -> result (gset string * Z) live_error -> Prop),
  tallied s0 s keys ids -> in_int64 total ->
  (forall s' r, kept s s' -> (forall seen total', r = Ok (seen, total') -> exists more,
     tallied s0 s' keys (ids ++ more) /\ seen = list_to_set (ids ++ more).*1 /\ total' = wrap64 (total + Zsum more.*2)) -> Q s' r) ->
  does s (applyFills Digest side number fills (list_to_set ids.*1) total) Q.
Proof using Hfaithful Hknown.
  induction fills as [|f fills IH]; intros s ids total Q Ht Hr HQ; cbn [applyFills].
  { does_step. apply HQ; [by apply kept_refl, Ht|]. intros seen total' [= <- <-]. exists []. rewrite app_nil_r. split; [done|].
    split; [done|]. cbn. by rewrite Z.add_0_r, wrap64_small. }
  does_step; [does_step; apply HQ; [by apply kept_refl, Ht|done]|].
  apply orb_false_iff in Heqb as [_ Hid%bool_decide_eq_false]. rewrite elem_of_list_to_set in Hid.
  does_step; [|apply HQ; [by apply kept_refl, Ht|done]]. destruct (Execution f) as [x|] eqn:Ex; [|done]. injection Heqr as ->.
  destruct (Execution_ok _ _ Ex) as (Hi & _ & _ & Hq & Hqb & Hp & _ & Ha). does_step.
  eapply (onLedgerFill_ok s number); [exact Ht| |by rewrite Hi|].
  { unfold int64_fill. rewrite Hq, Ha. split; [in64|]. split; [in64|]. apply wrap64_range. }
  intros s1 [[]|e] Hk1 Ht1; [|by apply HQ].
  replace ({[lf_FillID f]} ∪ list_to_set ids.*1 : gset string) with (list_to_set (C := gset string) (ids ++ [(f_FillID a, f_Qty a)]).*1).
  2: { rewrite fmap_app, list_to_set_app_L, Hi. cbn. by rewrite union_empty_r_L, union_comm_L. }
  apply (IH s1 (ids ++ [(f_FillID a, f_Qty a)])); [by apply Ht1|apply wrap64_range|].
  intros s' r Hk Hrr. apply HQ; [exact (kept_trans Digest _ _ _ Hk1 Hk)|]. intros seen total' E. destruct (Hrr seen total' E) as (more & Hm & -> & ->).
  exists ((f_FillID a, f_Qty a) :: more). rewrite <- app_assoc in Hm. rewrite <- app_assoc. split; [done|]. split; [done|].
  rewrite wrap64_add_l. cbn. f_equal. unfold Zsum. lia.
Qed.

(** An order whose view agrees with the ledger. *)
Lemma answers_mono (a s s' : live W) o v : answers_of a s o v -> kept s s' -> answers_of a s' o v.
Proof.
  intros [Hin Hor] [_ _ _ _ _ [l Hl]]. split; [rewrite Hl; apply elem_of_app; by left|].
  destruct Hor as [?|(old & new & E & Hp & Hn)]; [by left|]. right. exists old, (new ++ l).
  rewrite Hl, E, app_assoc. split; [done|]. split; [done|]. apply elem_of_app. by left.
Qed.

Lemma answers_from (a b s : live W) o v : lv_asked a `prefix_of` lv_asked b -> answers_of b s o v -> answers_of a s o v.
Proof.
  intros Hab [Hin Hor]. split; [done|]. destruct Hor as [?|(old & new & E & Hp & Hn)]; [by left|].
  right. exists old, new. split; [done|]. split; [|done]. by etrans.
Qed.

Lemma verifyOrder_ok broker s o cumulative (Q : live W -> result bool live_error -> Prop) :
  reads_orders Digest broker -> good s ->
  (forall s' r, looked s s' -> (forall b, r = Ok b -> exists v, answers_of s s' o v /\ bv_Filled v = cumulative /\ b = bv_Terminal v) -> Q s' r) ->
  does s (verifyOrder broker o cumulative) Q.
Proof using Hfaithful Hknown.
  intros Hb Hg HQ. unfold verifyOrder. does_step. apply (under_context_ok Digest). eapply does_mono; [by apply Hb|].
  cbv beta. intros s1 r [Hl Hv]. split; [by apply (looked_good Digest s s1)|]. intros s2 Hl2 _.
  pose proof (looked_trans Digest _ _ _ Hl Hl2) as Hl'. split; [intros e; by apply HQ|].
  destruct r as [v|e]; [|by apply HQ]. specialize (Hv v eq_refl).
  does_step; does_step; apply HQ; try done. intros b [= <-]. exists v. split; [by eapply answers_mono; [|apply Hl2]|].
  split; [|done]. apply negb_false_iff in Heqb. by apply Z.eqb_eq in Heqb.
Qed.

(** The loop over the orders: the pairs of orders and views it saw. *)
Definition filled_of (pairs : list (BrokerOrder * brokerView)) : Z := Zsum (bv_Filled <$> pairs.*2).
Record checked (s : live W) (expected : gmap string BrokerOrder) (seenOrders : gset string)
  (pairs : list (BrokerOrder * brokerView)) : Prop := {
  ch_known : forall o v, (o, v) ∈ pairs -> (exists n, expected !! n = Some o /\ n ∉ seenOrders) /\ answers_of s0 s o v;
  ch_once : NoDup pairs.*1
}.

Lemma checkRows_ok broker side expected rows : reads_orders Digest broker ->
  (forall n o, expected !! n = Some o -> n = bo_BrokerOrderID o) ->
  forall s ids seenOrders complete (Q : live W -> result (gset string * bool) live_error -> Prop),
  tallied s0 s keys ids ->
  (forall s' r, kept s s' -> (forall seen b, r = Ok (seen, b) -> exists more pairs,
     tallied s0 s' keys (ids ++ more) /\ seen = list_to_set (ids ++ more).*1 /\
     checked s' expected seenOrders pairs /\ length pairs = length rows /\
     wrap64 (Zsum more.*2) = wrap64 (filled_of pairs) /\ b = complete && forallb bv_Terminal pairs.*2) -> Q s' r) ->
  does s (checkRows Digest broker side expected rows (list_to_set ids.*1) seenOrders complete) Q.
Proof using Hfaithful Hknown.
  intros Hb He. induction rows as [|o rows IH]; intros s ids seenOrders complete Q Ht HQ; cbn [checkRows].
  { does_step. apply HQ; [by apply kept_refl, Ht|]. intros seen b [= <- <-]. exists [], []. rewrite app_nil_r. split; [done|].
    split; [done|]. split; [constructor; [intros ? ? Hx; by apply elem_of_nil in Hx|constructor]|].
    split; [done|]. split; [done|]. by rewrite andb_true_r. }
  cbv zeta. set (number := NormalizeOrderNumber (lo_BrokerOrderID o)) in *.
  destruct (expected !! number) as [known|] eqn:Ek; [|does_step; apply HQ; [by apply kept_refl, Ht|done]].
  does_step; [does_step; apply HQ; [by apply kept_refl, Ht|done]|]. apply bool_decide_eq_false in Heqb. does_step.
  apply applyFills_ok; [done|in64|]. intros s1 [[seen total]|e] Hk1 Hr1; [|by apply HQ].
  destruct (Hr1 _ _ eq_refl) as (m1 & Ht1 & -> & ->). clear Hr1. does_step; [does_step; by apply HQ|].
  apply negb_false_iff, Z.eqb_eq in Heqb0. does_step.
  apply verifyOrder_ok; [done|by apply Hk1|]. intros s2 [terminal|e] Hl2 Hv.
  2: { apply HQ; [|done]. eapply (kept_trans Digest); [exact Hk1|apply Hl2]. }
  destruct (Hv _ eq_refl) as (v & Hans & Hfill & ->). clear Hv.
  pose proof (tallied_looked _ _ _ Ht1 Hl2) as Ht2. apply (IH s2 (ids ++ m1)); [done|].
  intros s3 r Hk3 Hr3. destruct Hl2 as [Hk2 _]. apply HQ; [by eapply (kept_trans Digest); [exact Hk1|eapply (kept_trans Digest)]|]. intros seen b E.
  destruct (Hr3 seen b E) as (m2 & pairs & Ht3 & -> & [Hc1 Hc2] & Hlen & Hsum & ->).
  exists (m1 ++ m2), ((known, v) :: pairs). rewrite <- app_assoc in Ht3. rewrite <- app_assoc. split; [done|]. split; [done|].
  split; [constructor|split; [cbn; by rewrite Hlen|split]].
  - intros o' v' [[= -> ->]|Hin]%elem_of_cons.
    + split; [by exists number|]. eapply answers_mono; [|exact Hk3]. eapply answers_from; [|exact Hans].
      etrans; [apply Ht|apply Hk1].
    + destruct (Hc1 _ _ Hin) as [(n & Hn & Hs) Ha]. split; [|done]. exists n. set_solver.
  - cbn. apply NoDup_cons. split; [|done]. intros ([o' v'] & -> & Hin)%list_elem_of_fmap.
    destruct (Hc1 _ _ Hin) as [(n & Hn & Hs) _]. apply Hs. cbn in Ek, Hn. rewrite (He _ _ Hn), <- (He _ _ Ek). set_solver.
  - rewrite fmap_app, Zsum_app, <- wrap64_add_r, Hsum, wrap64_add_r, <- (wrap64_add_l (Zsum m1.*2)).
    change (filled_of ((known, v) :: pairs)) with (bv_Filled v + filled_of pairs). by rewrite Hfill, <- Heqb0, Z.add_0_l.
  - cbn. by rewrite andb_assoc.
Qed.
End tally.

Lemma broker_orders_known st ids : forall out id k, broker_orders st ids = Some out -> (id, k) ∈ ids ->
  is_none (sentKey st k) = false.
Proof.
  induction ids as [|[id' k'] ids IH]; intros out id k Ho Hin; [by apply elem_of_nil in Hin|]. cbn [broker_orders] in Ho.
  destruct (sentKey st k') as [c|] eqn:Ec; [|discriminate Ho]. cbn [mbind option_bind] in Ho.
  destruct (broker_orders st ids) as [out'|] eqn:Eo; [|discriminate Ho].
  apply elem_of_cons in Hin as [E|Hin]; [|by eapply IH]. injection E as -> ->. by rewrite Ec.
Qed.

Lemma BrokerOrders_known readable e orders : BrokerOrders readable e = Ok orders ->
  readable = true /\ exists keys, brokerKeys true (x_j e) = Ok keys /\
    forall id k, keys !! id = Some k -> is_none (sentKey (x_state e) k) = false.
Proof.
  unfold BrokerOrders. destruct readable; [|discriminate]. destruct (brokerKeys true (x_j e)) as [keys|]; [|discriminate].
  destruct (broker_orders _ _) as [out|] eqn:Eo; [|discriminate]. intros _. split; [reflexivity|]. exists keys.
  split; [reflexivity|]. intros id k Hk. eapply broker_orders_known; [exact Eo|]. by apply elem_of_map_to_list.
Qed.

Lemma expectedOrders_known orders : forall m expected, expectedOrders orders m = Some expected ->
  forall n o, expected !! n = Some o -> m !! n = Some o \/ (o ∈ orders /\ n = bo_BrokerOrderID o).
Proof.
  induction orders as [|o' orders IH]; intros m expected He n o Hn; cbn [expectedOrders] in He; [injection He as <-; by left|].
  destruct (is_some _); [discriminate|]. destruct (IH _ _ He _ _ Hn) as [Hi|[Hi ->]].
  - apply lookup_insert_Some in Hi as [[<- <-]|[_ Hi]]; [right; split; [left|done]|by left].
  - right. split; [by right|done].
Qed.

(** What a refresh from [s0] that returned no error leaves: for every broker
    order of the journal the broker gave a view in this run, now or a terminal
    one; what the executor counts as filled is the sum of the views; the
    evidence is complete exactly when all are terminal; nothing is in flight;
    and the working order, if any, is one of the orders. *)
Definition settled (s0 s : live W) : Prop := exists orders pairs,
  BrokerOrders true (lv_exec s0) = Ok orders /\ pairs.*1 ≡ₚ orders /\
  (forall o v, (o, v) ∈ pairs -> answers_of s0 s o v) /\
  s_Filled (live_state s) = wrap64 (filled_of pairs) /\
  x_ledgerComplete (lv_exec s) = forallb bv_Terminal pairs.*2 /\
  s_InFlight (live_state s) = None /\
  (forall w, s_Order (live_state s) = Some w -> exists o, o ∈ orders /\ bo_Key o = o_Key w).

Lemma good_filled s : good s -> s_Filled (live_state s) = wrap64 (map_sum fill_qty (s_Fills (live_state s))).
Proof.
  intros [Hi _]. unfold live_state. destruct (i_state _ _ _ Hi) as [->|Hs]; [cbn; by rewrite map_sum_empty|].
  rewrite (wf_filled _ (eo_wf _ Hs)). apply map_sum64_eq.
Qed.

Lemma good_complete s b : good s -> kept s (set_exec (SetLedgerComplete b (lv_exec s)) s).
Proof. intros [Hi Hm]. constructor; try done. split; [|done]. by apply (inv_ext Digest (lv_out s) (lv_exec s)). Qed.

(** The whole snapshot was gone through. *)
Lemma checked_settles s0 s keys orders expected more pairs rows :
  tallied s0 s keys more -> dom (s_Fills (live_state s0)) ⊆ (list_to_set more.*1 : gset string) ->
  BrokerOrders true (lv_exec s0) = Ok orders -> is_some (s_InFlight (live_state s0)) = false ->
  working_known (live_state s0) orders = true -> expectedOrders orders ∅ = Some expected -> length orders = length rows ->
  checked s0 s expected ∅ pairs -> length pairs = length (A := LedgerOrder) rows ->
  wrap64 (Zsum more.*2) = wrap64 (filled_of pairs) ->
  settled s0 (set_exec (SetLedgerComplete (forallb bv_Terminal pairs.*2) (lv_exec s)) s).
Proof.
  intros Ht Hdom Ho Hfl Hw He Hlen [Hc1 Hc2] Hlp Hsum. exists orders, pairs. unfold live_state. cbn [lv_exec set_exec x_state SetLedgerComplete].
  destruct (ta_same _ _ _ _ Ht) as (_ & _ & Hso & Hsf & _). unfold live_state in *.
  assert (Hin : forall o v, (o, v) ∈ pairs -> o ∈ orders).
  { intros o v Hov. destruct (Hc1 _ _ Hov) as [(n & Hn & _) _].
    destruct (expectedOrders_known _ _ _ He _ _ Hn) as [Hx|[Hx _]]; [|exact Hx]. by rewrite lookup_empty in Hx. }
  split; [exact Ho|]. split; [|split; [|split; [|split; [reflexivity|split]]]].
  - apply submseteq_length_Permutation; [apply NoDup_submseteq; [exact Hc2|]|].
    + intros o ([o' v] & -> & Hov)%list_elem_of_fmap. by eapply Hin.
    + rewrite length_fmap, Hlp, Hlen. reflexivity.
  - intros o v Hov. by apply Hc1 in Hov as [_ ?].
  - pose proof (good_filled s (kp_good _ _ _ (ta_kept _ _ _ _ Ht))) as Hf. unfold live_state in Hf. rewrite Hf, <- Hsum. f_equal.
    apply map_sum_list; [apply Ht| |].
    + intros id q Hx. by apply (ta_have _ _ _ _ Ht) in Hx.
    + intros id Hx. destruct (ta_new _ _ _ _ Ht _ Hx) as [Hy|?]; [|assumption].
      apply elem_of_dom in Hy. apply Hdom in Hy. by apply elem_of_list_to_set in Hy.
  - rewrite Hsf. by destruct (s_InFlight (x_state (lv_exec s0))).
  - intros w Hwo. rewrite Hso in Hwo. unfold working_known in Hw. rewrite Hwo in Hw.
    apply existsb_exists in Hw as (o & Hin' & Hk). exists o. split; [by apply list_elem_of_In|by bool_simpl].
Qed.

Lemma refresh_ok broker s : reads_orders Digest broker -> good s ->
  does s (refreshLedger Digest broker) (fun s' r => kept s s' /\ (r = Ok tt -> exists s0, looked s s0 /\ settled s0 s')).
Proof using Hfaithful.
  intros Hb Hg. unfold refreshLedger. does_step. apply (under_context_ok Digest). does_step.
  apply (outside_ok Digest); [done|apply handed_fills|]. intros s1 r Hl1 _ _.
  set (row := checks _). assert (Hrow : does s1 row (fun s' r => s' = s1)) by (by destruct r).
  eapply does_mono; [exact Hrow|]. cbv beta. intros ? res ->. clear Hrow row.
  split; [by apply (looked_good Digest s)|]. intros s2 Hl2 _.
  pose proof (looked_trans Digest _ _ _ Hl1 Hl2) as Hl. clear Hl1 Hl2 s1 r. split; [by split; [apply Hl|]|].
  destruct res as [snap|]; [|by split; [apply Hl|]]. does_step.
  does_step; [does_step; by split; [apply Hl|]|]. rename Heqb into Efl. does_step; [does_step; by split; [apply Hl|]|].
  does_step. unfold brokerOrders. does_step. apply (outside_ok Digest); [by apply (looked_good Digest s)|apply handed_journal|].
  intros s3 readable Hl3 _ _. pose proof (looked_trans Digest _ _ _ Hl Hl3) as Hs3.
  assert (Est : live_state s2 = live_state s3) by (unfold live_state; by rewrite (proj2 Hl3)). rewrite Est in *. clear Est.
  does_step. does_step; does_step; [|by split; [apply Hs3|]]. destruct (BrokerOrders readable (lv_exec s3)) as [orders|] eqn:Eo; [|done].
  injection Heqr as ->. destruct (BrokerOrders_known _ _ _ Eo) as (-> & keys & Hkeys & Hknown).
  cbv zeta. does_step; [does_step; by split; [apply Hs3|]|]. apply negb_false_iff, Nat.eqb_eq in Heqb0.
  does_step; [does_step; by split; [apply Hs3|]|]. apply negb_false_iff in Heqb1.
  destruct (expectedOrders a ∅) as [expected|] eqn:Ee; [|does_step; by split; [apply Hs3|]]. does_step.
  change (∅ : gset string) with (list_to_set (C := gset string) (A := string) (([] : list (string * Z)).*1)) at 1.
  eapply (checkRows_ok s3 keys Hknown broker); [done| | |].
  { intros n o Hn. destruct (expectedOrders_known _ _ _ Ee _ _ Hn) as [Hx|[_ ?]]; [by rewrite lookup_empty in Hx|done]. }
  { constructor; [apply kept_refl; apply Hs3|done|by intros _|constructor|intros ? ? Hx; by apply elem_of_nil in Hx|by left]. }
  intros s4 res Hk4 Hr4. pose proof (kept_trans Digest _ _ _ (proj1 Hs3) Hk4) as Hk. destruct res as [[seen complete]|]; [|by split].
  destruct (Hr4 _ _ eq_refl) as (more & pairs & Ht & -> & Hc & Hlp & Hsum & ->). does_step; [by does_step; split|].
  apply negb_false_iff, bool_decide_eq_true in Heqb2. unfold setLedgerComplete. does_step. cbn [app andb] in *.
  split; [eapply (kept_trans Digest); [exact Hk|apply good_complete; by apply Hk]|]. intros _. exists s3. split; [exact Hs3|].
  by eapply (checked_settles s3 s4 keys a expected more pairs).
Qed.
End refresh.
