(* ===== verification/LiveSafe.v ===== *)
(** The live mode sends only what is settled: [driveLive] over every outside.

    In send mode every child but the last cancel is handed over right after a
    refresh that settled the executor with the broker, one per round; and a run
    that ends with [nil] finished its intent when the broker called every order
    terminal, with what the executor counts as filled. *)

From stdpp Require Import gmap.
From S2P Require Import Prelude GoStr KST StErr Tick Intent E1 Machine Exposure Decide Journal Executor Ledger Stream Frame Feed E1World Live LiveRefresh.
Local Open Scope Z_scope.

(** ** The book *)

Lemma ParseIntValue_range s : in_int64 (fst (ParseIntValue s)).
Proof.
  unfold ParseIntValue.
  match goal with |- context [let '(neg, digits) := ?m in _] => destruct m as [neg digits] end.
  destruct (_ || _); [cbn; in64|]. cbv zeta. set (n := if neg then _ else _).
  destruct (Z.ltb_spec n min_int64); [cbn; in64|]. destruct (Z.ltb_spec max_int64 n); cbn; in64.
Qed.

Definition level64 (l : Level) : Prop := in_int64 (lv_Price l) /\ in_int64 (lv_Qty l).
Definition levels64 (s : Snapshot) : Prop := Forall level64 (sn_Bids s) /\ Forall level64 (sn_Asks s).

Lemma level64_at l i : Forall level64 l -> level64 (level l i).
Proof.
  intros Hl. unfold level. destruct (nth_in_or_default i l no_level) as [Hin| ->]; [|split; cbn; in64].
  by eapply Forall_forall; [exact Hl|apply list_elem_of_In].
Qed.

Lemma store_number_64 s i field z : levels64 s -> in_int64 z -> levels64 (store_number s i field z).
Proof.
  intros [Hb Ha] Hz. pose proof (level64_at _ i Hb) as [? ?]. pose proof (level64_at _ i Ha) as [? ?].
  unfold store_number. destruct field as [|[|[|field]]]; cbv zeta; split; cbn; apply Forall_insert; done.
Qed.

Lemma read_fields_64 get keys : forall s i field, levels64 s -> levels64 (read_fields get s i field keys).1.
Proof.
  induction keys as [|k keys IH]; intros s i field Hs; cbn [read_fields]; [done|].
  pose proof (ParseIntValue_range (get k)) as Hr. destruct (ParseIntValue (get k)) as [z ok]. cbn [fst] in Hr.
  pose proof (store_number_64 s i field z Hs Hr). destruct ok; [by apply IH|done].
Qed.

Lemma read_levels_64 get keys n : forall s i, levels64 s -> levels64 (read_levels get keys s i n).1.
Proof.
  induction n as [|n IH]; intros s i Hs; cbn [read_levels]; [done|].
  pose proof (read_fields_64 get (keys i) s i 0 Hs) as Hf. destruct (read_fields get s i 0 (keys i)) as [s' ok].
  destruct ok; [by apply IH|done].
Qed.

Lemma Latest_64 {codec : StampCodec} `{FeedWorld W} (w w' : W) symbol s : Latest w symbol = (w', Ok (Some s)) -> levels64 s.
Proof.
  unfold Latest. destruct (negb _); [done|]. destruct (feed_last w _) as [w1 [[|row rows]|]]; [done| |done].
  unfold DecodeSnapshot. destruct (parse_stamp _) as [e|]; [|done]. destruct (parse_stamp _) as [r|]; [|done].
  match goal with |- context [read_levels ?g ?k ?s0 0 5] => pose proof (read_levels_64 g k 5 s0 0) as Hl; destruct (read_levels g k s0 0 5) as [s' ok] end.
  cbn [fst] in Hl. destruct ok; [|done]. destruct (ValidateSnapshot s'); [done|]. destruct (_ <>s symbol); [done|].
  intros [= _ <-]. apply Hl. split; repeat constructor; cbn; in64.
Qed.

Lemma Latest_handed {codec : StampCodec} `{LiveWorld W} (w : W) symbol : handed (fst (Latest w symbol)) = handed w.
Proof.
  unfold Latest. destruct (negb _); [done|]. pose proof (handed_last w ("book:kis:" +:+ symbol)) as Hl.
  destruct (feed_last w _) as [w1 [[|row rows]|]]; [done| |done]. destruct (DecodeSnapshot row) as [s [e|]]; [done|].
  by destruct (_ <>s symbol).
Qed.

Lemma live_top_64 s now : levels64 s -> int64_top (live_top s now).
Proof.
  intros [Hb Ha]. destruct (level64_at _ 0 Hb), (level64_at _ 0 Ha). split; [done|]. split; [done|]. apply wrap64_range.
Qed.

(** ** A tick that needs the ledger complete *)

(** The part of a state that only fills and finishes change. *)
Definition progress (s : State) : Z * string := (s_Filled s, s_Done s).

Lemma send_progress s r s' : apply_send s r = Ok s' -> progress s' = progress s.
Proof.
  unfold apply_send. destruct (r_Child r) as [c|]; [|done]. intros Ha.
  repeat (split_if in Ha; try done); by simplify_eq.
Qed.
Lemma outcome_progress s r s' : r_DeferFinish r = true -> apply_outcome s r = Ok s' -> progress s' = progress s.
Proof.
  intros Hd. unfold apply_outcome, resolveCancel. rewrite Hd. destruct (r_Outcome r), (s_InFlight s); try done. intros Ha.
  repeat (split_if in Ha; try done); by simplify_eq.
Qed.
Lemma reconcile_progress s r s' : r_DeferFinish r = true -> apply_reconcile s r = Ok s' -> progress s' = progress s.
Proof.
  intros Hd. unfold apply_reconcile, resolveCancel. rewrite Hd. destruct (r_View r) as [v|]; [|done].
  destruct (v_Order v) as [o|]; [destruct (is_none _); [done|]; destruct (worse _ _ _); [done|]|].
  all: destruct (s_InFlight s) as [c|]; [destruct (_ && _)|]; intros [= <-]; done.
Qed.
Lemma finish_filled s r s' : apply_finish s r = Ok s' -> s_Filled s' = s_Filled s.
Proof. unfold apply_finish. intros Ha. repeat (split_if in Ha; try done); by simplify_eq. Qed.

Section ticks.
Context `{LineCodec} (Digest : State -> string) (quote : string -> string).
Context {W : Type} `{World W}.
Hypothesis Hfaithful : forall l b, marshal l = Some b -> faithful l.
Hypothesis Hsane : forall (w : W) id w' v, Query w id = (w', Ok v) ->
  int64_view v /\ forall o, v_Order v = Some o -> order_sane o.

Lemma commit_progress w e r w' e' res : commit Digest w e r = (w', e', res) ->
  x_ledgerComplete e' = x_ledgerComplete e /\ x_cfg e' = x_cfg e /\
  (x_state e' = x_state e \/ Apply (x_state e) r = Ok (x_state e')).
Proof.
  unfold commit. destruct (x_err e); [intros; simplify_eq; auto|]. destruct (_ <>s ""); [intros; simplify_eq; auto|].
  destruct (Apply (x_state e) r) as [s'|]; [|intros; simplify_eq; auto]. destruct (disk w) as [w1 f].
  destruct (append _ _ _ _ _) as [j [ae|]]; intros; simplify_eq; cbn; auto.
Qed.

(** A record that is no start, no fill and no finish leaves the progress. *)
Lemma commit_keeps_progress w e r w' e' res : commit Digest w e r = (w', e', res) ->
  (r_Kind r = RecSend \/ ((r_Kind r = RecOutcome \/ r_Kind r = RecReconcile) /\ r_DeferFinish r = true)) ->
  progress (x_state e') = progress (x_state e).
Proof.
  intros Hc Hk. destruct (commit_progress _ _ _ _ _ _ Hc) as (_ & _ & [->|Ha]); [done|].
  destruct (Apply_cases _ r _ Ha) as [E Hs|E ? Hs|E ? Hs|E ? Hs|E ? Hs|E ? Hs]; rewrite E in Hk.
  - by destruct Hk as [Hk|[[Hk|Hk] _]]; discriminate Hk.
  - by eapply send_progress.
  - destruct Hk as [Hk|[_ Hd]]; [discriminate Hk|by eapply outcome_progress].
  - destruct Hk as [Hk|[_ Hd]]; [discriminate Hk|by eapply reconcile_progress].
  - by destruct Hk as [Hk|[[Hk|Hk] _]]; discriminate Hk.
  - by destruct Hk as [Hk|[[Hk|Hk] _]]; discriminate Hk.
Qed.

(** One iteration of a tick: it finishes the intent only on complete evidence,
    and does not touch the fills. *)
Record step_effect (w : W) (e : Executor) (w' : W) (e' : Executor) (ctl : control) : Prop := {
  se_filled : s_Filled (x_state e') = s_Filled (x_state e);
  se_cfg : x_cfg e' = x_cfg e;
  se_complete : x_ledgerComplete e' = true -> x_ledgerComplete e = true;
  se_done : s_Done (x_state e') = s_Done (x_state e) \/ (x_ledgerComplete e = true /\ handed w' = handed w)
}.
Lemma step_effect_progress w e w' e' ctl : progress (x_state e') = progress (x_state e) -> x_cfg e' = x_cfg e ->
  (x_ledgerComplete e' = true -> x_ledgerComplete e = true) -> step_effect w e w' e' ctl.
Proof. intros [= ? ?] ? ?. constructor; auto. Qed.

Lemma tick_step_effect w e t w' e' ctl : inv Digest w e -> in_int64 t -> RequireLedgerComplete (x_cfg e) = true ->
  tick_step Digest quote w e t = Some (w', e', ctl) -> step_effect w e w' e' ctl.
Proof using Hfaithful.
  intros Hi Ht Hr Hs. unfold tick_step in Hs. destruct (x_err e) eqn:Ee; [simplify_eq; by apply step_effect_progress|].
  destruct (Decide_step Digest w e t Hi Ht) as (d & Hd & Hok). unfold step_inputs in Hd. rewrite Hd in Hs.
  cbn [mbind option_bind] in Hs. rewrite Hr in Hs. destruct d as [| |r]; [simplify_eq; by apply step_effect_progress| |].
  - destruct (Query w _) as [w1 [v|err]]; [|simplify_eq; by apply step_effect_progress].
    destruct (commit Digest w1 e _) as [[w2 e2] res] eqn:Ec. destruct (commit_progress _ _ _ _ _ _ Ec) as (Hl & Hc & _).
    pose proof (commit_keeps_progress _ _ _ _ _ _ Ec ltac:(right; split; [right|]; reflexivity)).
    destruct res; simplify_eq; apply step_effect_progress; unfold progress in *; intros; congruence.
  - destruct Hok as [?|[Hex Hok]]; [discriminate|]. destruct ((r_Kind r =s RecFinish) && true && negb (x_ledgerComplete e)) eqn:Ef.
    { simplify_eq. by apply step_effect_progress. }
    destruct (commit Digest w e r) as [[w1 e1] res] eqn:Ec. destruct (commit_progress _ _ _ _ _ _ Ec) as (Hl & Hc & Hst).
    destruct (decision_child _ _ r Hok) as [[Hch Hk]|(c & [Hk Hch] & _)].
    + assert (step_effect w e w1 e1 ctl) as He.
      { rewrite Hk, string_eqb_refl in Ef. cbn in Ef. apply negb_false_iff in Ef.
        pose proof (commit_spec Digest Hfaithful w e r w1 e1 res Hi (decision_pre_ok _ (step_inputs w e t) r (eo_wf _ Hex) Ht Hok) Ec) as [_ Hh _ _ _].
        constructor; [|done|congruence|by right]. destruct Hst as [->|Ha]; [done|].
        destruct (Apply_cases _ r _ Ha) as [E Hx|E ? Hx|E ? Hx|E ? Hx|E ? Hx|E ? Hx]; try (rewrite Hk in E; discriminate E).
        by eapply finish_filled. }
      rewrite Hch in Hs. destruct res; simplify_eq; done.
    + pose proof (commit_keeps_progress _ _ _ _ _ _ Ec ltac:(by left)) as Hp. rewrite Hch, Hk, string_eqb_refl in Hs.
      destruct res; [simplify_eq; apply step_effect_progress; unfold progress in *; intros; congruence|].
      destruct (send Digest quote w1 e1 c t) as [[w2 e2] res2] eqn:Es. unfold send in Es. destruct (Send w1 c) as [w3 out].
      destruct (commit_progress _ _ _ _ _ _ Es) as (Hl2 & Hc2 & _).
      pose proof (commit_keeps_progress _ _ _ _ _ _ Es ltac:(right; split; [by left|cbn; congruence])) as Hp2.
      destruct res2; [simplify_eq; apply step_effect_progress; unfold progress in *; intros; congruence|].
      destruct (RequireLedgerComplete (x_cfg e2)); simplify_eq; apply step_effect_progress;
        unfold progress in *; cbn [x_state x_cfg x_ledgerComplete SetLedgerComplete]; intros; congruence.
Qed.

(** After the end of an intent a tick does nothing. *)
Lemma tick_step_over w e t : s_Done (x_state e) <> "" ->
  exists res, tick_step Digest quote w e t = Some (w, e, Return res).
Proof.
  intros Hd. unfold tick_step. destruct (x_err e) as [err|]; [by eexists|]. unfold Decide.
  rewrite (string_eqb_ne _ _ Hd), orb_true_r. by eexists.
Qed.
Lemma tick_loop_over w e t n : s_Done (x_state e) <> "" -> exists res, tick_loop Digest quote n w e t = Some (w, e, res).
Proof.
  intros Hd. destruct n; cbn [tick_loop]; [by eexists|]. destruct (tick_step_over w e t Hd) as [res ->].
  cbn [mbind option_bind]. by eexists.
Qed.

(** The whole tick. *)
Lemma tick_loop_effect n : forall w e t w' e' res, inv Digest w e -> in_int64 t -> RequireLedgerComplete (x_cfg e) = true ->
  tick_loop Digest quote n w e t = Some (w', e', res) ->
  s_Filled (x_state e') = s_Filled (x_state e) /\
  (s_Done (x_state e') = s_Done (x_state e) \/ (x_ledgerComplete e = true /\ handed w' = handed w)).
Proof using Hfaithful Hsane.
  induction n as [|n IH]; intros w e t w' e' res Hi Ht Hr Hl; [cbn in Hl; simplify_eq; auto|].
  destruct (decide (s_Done (x_state e) = "")) as [Hz|Hz].
  2: { destruct (tick_loop_over w e t (S n) Hz) as [r2 E2]. rewrite E2 in Hl. simplify_eq. auto. }
  cbn [tick_loop] in Hl. destruct (tick_step_ok Digest quote Hfaithful Hsane w e t Hi Ht) as (w1 & e1 & ctl & Es & [Hi1 Hc1 (l & Hh1 & _ & Hl1)]).
  rewrite Es in Hl. cbn [mbind option_bind] in Hl.
  destruct (tick_step_effect _ _ _ _ _ _ Hi Ht Hr Es) as [Hf1 _ Hcm1 Hd1]. destruct ctl as [|r]; [|simplify_eq; auto].
  assert (Hh : handed w1 = handed w) by (by rewrite Hh1, (Hl1 Hr eq_refl), app_nil_r).
  destruct (decide (s_Done (x_state e1) = s_Done (x_state e))) as [Hs|Hs].
  - destruct (IH w1 e1 t w' e' res Hi1 Ht ltac:(congruence) Hl) as [Hf2 Hd2]. split; [congruence|].
    destruct Hd2 as [Hd2|[Hc2 Hh2]]; [left; congruence|right]. split; [by apply Hcm1|congruence].
  - destruct Hd1 as [?|[Hc2 _]]; [done|]. rewrite Hz in Hs.
    destruct (tick_loop_over w1 e1 t n Hs) as [r2 E2]. rewrite E2 in Hl. simplify_eq. split; [done|]. right. by split.
Qed.
End ticks.

(** A killed tick hands over cancels only. *)
Section killed.
Context `{LineCodec} (Digest : State -> string) (quote : string -> string).
Context {W : Type} `{World W}.
Hypothesis Hfaithful : forall l b, marshal l = Some b -> faithful l.
Hypothesis Hsane : forall (w : outer W) id w' v, Query w id = (w', Ok v) ->
  int64_view v /\ forall o, v_Order v = Some o -> order_sane o.

Lemma outer_send_kill b (w : outer W) c : ow_kill w = b -> ow_kill (fst (Send w c)) = b.
Proof. cbn. by destruct (Send (ow_world w) c). Qed.
Lemma outer_query_kill b (w : outer W) id : ow_kill w = b -> ow_kill (fst (Query w id)) = b.
Proof. cbn. by destruct (Query (ow_world w) id). Qed.

Lemma tick_loop_killed n : forall (w : outer W) e t w' e' res, inv Digest w e -> in_int64 t -> ow_kill w = true ->
  tick_loop Digest quote n w e t = Some (w', e', res) ->
  exists l, handed w' = handed w ++ l /\ Forall (fun c => c_Action c = ActCancel) l.
Proof using Hfaithful Hsane.
  induction n as [|n IH]; intros w e t w' e' res Hi Ht Hk Hl; cbn [tick_loop] in Hl.
  { simplify_eq. exists []. by rewrite app_nil_r. }
  destruct (tick_step_ok Digest quote Hfaithful Hsane w e t Hi Ht) as (w1 & e1 & ctl & Es & [Hi1 _ (l & Hh1 & Hj & _)]).
  rewrite Es in Hl. cbn [mbind option_bind] in Hl.
  assert (Hc : Forall (fun c => c_Action c = ActCancel) l).
  { destruct Hj as [->|(c & -> & _ & [Hc|Hop])]; [done|by constructor|]. pose proof (op_killed _ _ Hop) as Hx.
    cbn in Hx. rewrite Hk in Hx. discriminate Hx. }
  destruct ctl as [|r]; [|simplify_eq; by eexists].
  pose proof (tick_step_kept Digest quote (fun w => ow_kill w = true) (outer_send_kill _) (outer_query_kill _)
    (outer_disk_kill _) w e t w1 e1 _ Hk Es) as Hk1. cbv beta in Hk1.
  destruct (IH w1 e1 t w' e' res Hi1 Ht Hk1 Hl) as (l2 & Hh2 & Hc2). exists (l ++ l2).
  rewrite Hh2, Hh1, app_assoc. split; [done|]. by apply Forall_app.
Qed.

Lemma tick_loop_kill n (w : outer W) e t w' e' res b : ow_kill w = b ->
  tick_loop Digest quote n w e t = Some (w', e', res) -> ow_kill w' = b.
Proof.
  intros Hk Hl. exact (tick_loop_kept Digest quote (fun w => ow_kill w = b) (outer_send_kill _) (outer_query_kill _)
    (outer_disk_kill _) n w e t w' e' res Hk Hl).
Qed.
End killed.

(** ** The run *)

Section drive.
Context `{LineCodec} (Digest : State -> string) (quote : string -> string) {codec : StampCodec}.
Context {W : Type} `{lworld : LiveWorld W} (until : Z) (symbol : string) (hs : historyRead).
Hypothesis Hfaithful : forall l b, marshal l = Some b -> faithful l.
Hypothesis Hsane : forall (w : W) id w' v, Query w id = (w', Ok v) ->
  int64_view v /\ forall o, v_Order v = Some o -> order_sane o.
Notation good := (good Digest).
Notation kept := (kept Digest).
Notation looked := (looked Digest).
Notation needs_ledger s := (RequireLedgerComplete (x_cfg (lv_exec s)) = true).
Notation cancels := (Forall (fun c => c_Action c = ActCancel)).

Lemma outer_sane (w : outer W) id w' v : Query w id = (w', Ok v) ->
  int64_view v /\ forall o, v_Order v = Some o -> order_sane o.
Proof using Hsane.
  cbn. destruct (Query (ow_world w) id) as [i r] eqn:E. intros [= <- ->]. exact (Hsane _ _ _ _ E).
Qed.

(** What one tick does. *)
Record ticked (s s' : live W) (l : list Child) : Prop := {
  tk_good : good s';
  tk_handed : handed (lv_out s') = handed (lv_out s) ++ l;
  tk_one : (length l <= 1)%nat;
  tk_kill : ow_kill (lv_out s') = ow_kill (lv_out s);
  tk_cfg : x_cfg (lv_exec s') = x_cfg (lv_exec s);
  tk_cancels : ow_kill (lv_out s) = true -> cancels l;
  tk_filled : s_Filled (live_state s') = s_Filled (live_state s);
  tk_done : s_Done (live_state s') = s_Done (live_state s) \/ (x_ledgerComplete (lv_exec s) = true /\ l = [])
}.

Lemma execTick_ok s t (Q : live W -> result unit live_error -> Prop) : good s -> needs_ledger s -> in_int64 t ->
  (forall s' r l, ticked s s' l -> Q s' r) -> does s (execTick Digest quote t) Q.
Proof using Hfaithful Hsane.
  intros [Hi Hm] Hr Ht HQ. unfold execTick, does.
  destruct (tick_loop_ok Digest quote Hfaithful outer_sane maxStepsPerTick _ _ t Hi Ht)
    as (w' & e' & res & E & [Hi' Hc (l & Hh & _ & _ & _ & Hone)]).
  unfold Tick. rewrite E. apply (HQ _ _ l).
  destruct (tick_loop_effect Digest quote Hfaithful outer_sane _ _ _ _ _ _ _ Hi Ht Hr E) as [Hf Hd].
  constructor; try done.
  - by apply Hone.
  - exact (tick_loop_kill Digest quote _ _ _ _ _ _ _ _ eq_refl E).
  - intros Hk. destruct (tick_loop_killed Digest quote Hfaithful outer_sane _ _ _ _ _ _ _ Hi Ht Hk E) as (l' & Hh' & Hl').
    rewrite Hh in Hh'. by apply app_inv_head in Hh' as ->.
  - destruct Hd as [?|[? Hx]]; [by left|right]. split; [done|]. cbn [lv_out set_exec set_out] in *. rewrite Hh in Hx.
    rewrite <- (app_nil_r (handed (lv_out s))) in Hx at 2. by apply app_inv_head in Hx.
Qed.

(** The stop: the kill switch, and a tick. *)
Lemma stopForReconcile_ok {A} s reason (Q : live W -> result A live_error -> Prop) : good s -> needs_ledger s ->
  (forall s' e l, good s' -> handed (lv_out s') = handed (lv_out s) ++ l -> (length l <= 1)%nat -> cancels l -> Q s' (Err e)) ->
  does s (stopForReconcile Digest quote reason) Q.
Proof using Hfaithful Hsane lworld.
  intros [Hi Hm] Hr HQ. unfold stopForReconcile, engage. does_step. does_step.
  apply (outside_ok Digest); [split; [by apply (inv_ext Digest (lv_out s) (lv_exec s))|done]|apply handed_now|].
  intros s1 t [[Hg K2 K3 K4 _ _] K6] _ _. does_step.
  apply execTick_ok; [done|rewrite K4; exact Hr|apply wrap64_range|]. intros s2 r l [T1 T2 T3 _ _ T6 _ _].
  assert (Hout : forall e, Q s2 (Err e)).
  { intros e. apply (HQ s2 e l); [done|rewrite T2, K2; reflexivity|done|]. apply T6. by rewrite K3. }
  does_step; does_step; apply Hout.
Qed.

(** The book, and what the tick prices from. *)
Lemma readBook_ok s (Q : live W -> result (option Snapshot) live_error -> Prop) : good s ->
  (forall s' r, looked s s' -> (forall b, r = Ok (Some b) -> levels64 b) -> Q s' r) -> does s (readBook symbol) Q.
Proof.
  intros Hg HQ. unfold readBook. apply (under_context_ok Digest). does_step. unfold outside, asks, does.
  destruct (Latest (ow_world (lv_out s)) symbol) as [w' r] eqn:El.
  assert (Hh : handed w' = handed (ow_world (lv_out s))).
  { pose proof (Latest_handed (ow_world (lv_out s)) symbol) as Hx. by rewrite El in Hx. }
  set (s1 := set_out _ s). assert (Hl1 : looked s s1).
  { destruct Hg as [Hi Hm]. split; [|done]. constructor; cbn; try done. split; [|done].
    by apply (inv_ext Digest (lv_out s) (lv_exec s)). }
  assert (Hfin : forall r', (forall b, r' = Ok (Some b) -> levels64 b) ->
    good s1 /\ forall s2, looked s1 s2 -> lv_asked s2 = lv_asked s1 -> (forall e, Q s2 (Err e)) /\ Q s2 r').
  { intros r' Hb. split; [by apply (looked_good Digest s)|]. intros s2 Hl2 _.
    pose proof (looked_trans Digest _ _ _ Hl1 Hl2) as Hl. split; [intros e; by apply HQ|by apply HQ]. }
  cbn [checks]. destruct r as [b|e]; cbn; apply Hfin; [|done]. intros b' [= ->]. by eapply Latest_64.
Qed.

Lemma takeBook_ok s book now (Q : live W -> result unit live_error -> Prop) : good s ->
  (forall b, book = Some b -> levels64 b) ->
  (forall s' r, kept s s' -> live_state s' = live_state s -> x_ledgerComplete (lv_exec s') = x_ledgerComplete (lv_exec s) -> Q s' r) ->
  does s (takeBook book now) Q.
Proof.
  intros [Hi Hm] Hb HQ. unfold takeBook. destruct book as [b|]; [|does_step; apply HQ; [by apply kept_refl|done..]].
  does_step. does_step; [does_step; apply HQ; [by apply kept_refl|done..]|]. unfold onBook. does_step. apply HQ; [|done..].
  constructor; cbn; try done. split; [|done]. destruct Hi. constructor; try done. intros ? [= <-]. by apply live_top_64, Hb.
Qed.

(** One poll, in send mode: either nothing was handed over, or a refresh
    settled the executor, nothing was handed over until then, and one tick
    followed. *)
Definition polled (s s' : live W) : Prop := exists a b l,
  settled a b /\ kept s b /\ good s' /\ handed (lv_out s') = handed (lv_out s) ++ l /\ (length l <= 1)%nat /\
  x_cfg (lv_exec s') = x_cfg (lv_exec s) /\ s_Filled (live_state s') = s_Filled (live_state b) /\
  (s_Done (live_state s') = s_Done (live_state s) \/ (x_ledgerComplete (lv_exec b) = true /\ l = [])).

Lemma liveStep_ok s (Q : live W -> result unit live_error -> Prop) : good s -> needs_ledger s ->
  (forall s' e, kept s s' -> Q s' (Err e)) -> (forall s' r, polled s s' -> Q s' r) ->
  does s (liveStep Digest quote false symbol hs) Q.
Proof using Hfaithful Hsane.
  intros Hg Hr Hfail HQ. unfold liveStep. does_step. eapply does_mono; [by apply (refresh_ok Digest Hfaithful); [apply cachedBroker_ok|]|].
  cbv beta. intros b r [Hk Hs]. destruct r as [[]|e]; [|by apply Hfail]. destruct (Hs eq_refl) as (a & _ & Hset). clear Hs.
  does_step. apply readBook_ok; [by apply Hk|]. intros s1 r [Hk1 He1] Hb.
  pose proof (kept_trans Digest _ _ _ Hk Hk1) as Hk01. destruct r as [book|e]; [|by apply Hfail].
  does_step. apply (outside_ok Digest); [by apply Hk1|apply handed_now|]. intros s2 now [Hk2 He2] _ _.
  pose proof (kept_trans Digest _ _ _ Hk01 Hk2) as Hk02. does_step.
  apply takeBook_ok; [by apply Hk2|by intros x ->; apply Hb|]. intros s3 r Hk3 Hst Hlc.
  pose proof (kept_trans Digest _ _ _ Hk02 Hk3) as Hk03. destruct r as [[]|e]; [|by apply Hfail].
  apply execTick_ok; [by apply Hk3|rewrite (kp_cfg _ _ _ Hk03); exact Hr|apply wrap64_range|].
  intros s4 r l [T1 T2 T3 T4 T5 T6 T7 T8]. apply HQ. exists a, b, l.
  assert (Hst' : live_state s3 = live_state b) by (rewrite Hst; unfold live_state; by rewrite He2, He1).
  assert (Hlc' : x_ledgerComplete (lv_exec s3) = x_ledgerComplete (lv_exec b)) by (by rewrite Hlc, He2, He1).
  split; [exact Hset|]. split; [exact Hk|]. split; [exact T1|]. split; [by rewrite T2, (kp_handed _ _ _ Hk03)|]. split; [exact T3|].
  split; [by rewrite T5, (kp_cfg _ _ _ Hk03)|]. split; [by rewrite T7, Hst'|]. rewrite <- (kp_done _ _ _ Hk03), <- Hlc'. exact T8.
Qed.

(** Rounds of a run: [h] was handed over before, [h'] after; each child right
    after a refresh that settled the executor. *)
Inductive settled_rounds : list Child -> list Child -> Prop :=
| rounds_none h : settled_rounds h h
| rounds_more h h' a b l : settled_rounds h h' -> settled a b -> handed (lv_out b) = h' -> (length l <= 1)%nat ->
    settled_rounds h (h' ++ l).

(** What a run in send mode may have done by its end. *)
Definition run_ok (s : live W) (s' : live W) (r : result live_end live_error) : Prop :=
  good s' /\ exists h last, settled_rounds (handed (lv_out s)) h /\ handed (lv_out s') = h ++ last /\
    (length last <= 1)%nat /\ cancels last /\
    (r = Ok Ended -> last = [] /\ s_Done (live_state s') <> "" /\ exists a b, settled a b /\ handed (lv_out b) = h /\
      x_ledgerComplete (lv_exec b) = true /\ s_Filled (live_state s') = s_Filled (live_state b)).

(** Where the loop stands: the rounds so far. *)
Definition at_round (s0 s : live W) : Prop :=
  good s /\ needs_ledger s /\ s_Done (live_state s) = "" /\ settled_rounds (handed (lv_out s0)) (handed (lv_out s)).

Lemma run_stopped s0 s (s' : live W) (e : live_error) l h : settled_rounds (handed (lv_out s0)) h -> handed (lv_out s) = h ->
  good s' -> handed (lv_out s') = handed (lv_out s) ++ l -> (length l <= 1)%nat -> cancels l -> run_ok s0 s' (Err e).
Proof.
  intros Hr Hh Hg Hl Hone Hc. split; [exact Hg|]. exists h, l. rewrite Hl, Hh.
  split; [exact Hr|]. split; [reflexivity|]. split; [exact Hone|]. split; [exact Hc|]. discriminate.
Qed.
Lemma run_failed s0 (s' : live W) (e : live_error) : settled_rounds (handed (lv_out s0)) (handed (lv_out s')) -> good s' -> run_ok s0 s' (Err e).
Proof. intros Hr Hg. apply (run_stopped s0 s' s' e [] _ Hr eq_refl Hg); [by rewrite app_nil_r|cbn; lia|constructor]. Qed.

(** A failed poll. *)
Lemma stepFailed_ok s0 s e : good s -> needs_ledger s -> settled_rounds (handed (lv_out s0)) (handed (lv_out s)) ->
  does s (stepFailed Digest quote e) (run_ok s0).
Proof using Hfaithful Hsane.
  intros Hg Hr Hs. unfold stepFailed. does_step. apply (outside_ok Digest); [done|apply handed_ctx|].
  intros s1 over [Hk He] _ _. assert (Hr1 : needs_ledger s1) by (by rewrite He). pose proof (kp_handed _ _ _ Hk) as Hh.
  assert (Hstop : forall reason, does s1 (stopForReconcile Digest quote reason) (run_ok s0)).
  { intros reason. apply stopForReconcile_ok; [by apply Hk|done|]. intros s2 e' l Hg2 Hl Hone Hc.
    by eapply (run_stopped s0 s1 s2 e' l). }
  destruct over; [apply Hstop|]. destruct (is_deadline e); [apply Hstop|]. does_step.
  apply run_failed; [by rewrite Hh|by apply Hk].
Qed.

Lemma polled_round s0 s s' : at_round s0 s -> polled s s' -> good s' /\ needs_ledger s' /\ settled_rounds (handed (lv_out s0)) (handed (lv_out s')).
Proof.
  intros (_ & Hr & _ & Hs) (a & b & l & Hset & Hk & Hg & Hh & Hone & Hc & _ & _). split; [exact Hg|]. split; [by rewrite Hc|].
  rewrite Hh. eapply rounds_more; [exact Hs|exact Hset|apply (kp_handed _ _ _ Hk)|exact Hone].
Qed.

Lemma polled_ended s0 s s' : at_round s0 s -> polled s s' -> s_Done (live_state s') <> "" -> run_ok s0 s' (Ok Ended).
Proof.
  intros Hat Hp Hd. destruct (polled_round _ _ _ Hat Hp) as (Hg & _ & _). destruct Hat as (_ & _ & Hz & Hs).
  destruct Hp as (a & b & l & Hset & Hk & _ & Hh & Hone & _ & Hf & [Hx|[Hc ->]]); [congruence|].
  split; [exact Hg|]. exists (handed (lv_out s)), []. split; [exact Hs|]. split; [exact Hh|]. split; [cbn; lia|]. split; [constructor|].
  intros _. split; [reflexivity|]. split; [exact Hd|]. exists a, b. split; [exact Hset|]. split; [apply (kp_handed _ _ _ Hk)|]. by split.
Qed.

Lemma driveLive_ok n : forall s0 s, at_round s0 s -> does s (driveLive Digest quote false until symbol hs n) (run_ok s0).
Proof using Hfaithful Hsane.
  induction n as [|n IH]; intros s0 s Hat; cbn [driveLive].
  { does_step. split; [by apply Hat|]. exists (handed (lv_out s)), []. destruct Hat as (_ & _ & _ & Hs). rewrite app_nil_r.
    split; [exact Hs|]. split; [done|]. split; [cbn; lia|]. split; [constructor|discriminate]. }
  does_step. apply (outside_ok Digest); [by apply Hat|apply handed_now|]. intros s1 now [Hk He] _ _. cbn [andb].
  assert (Hat1 : at_round s0 s1).
  { destruct Hat as (_ & Hr & Hd & Hs). split; [apply Hk|]. rewrite He, (kp_handed _ _ _ Hk), (kp_done _ _ _ Hk). done. }
  clear Hat Hk He s. does_step. apply liveStep_ok; [apply Hat1|apply Hat1| |].
  - intros s2 e Hk. destruct Hat1 as (_ & Hr & _ & Hs). apply stepFailed_ok; [apply Hk|by rewrite (kp_cfg _ _ _ Hk)|].
    by rewrite (kp_handed _ _ _ Hk).
  - intros s2 r Hp. destruct (polled_round _ _ _ Hat1 Hp) as (Hg2 & Hr2 & Hs2). destruct r as [[]|e]; [|by apply stepFailed_ok].
    does_step. destruct (s_Done (live_state s2) <>s "") eqn:Ed; [does_step; bool_simpl; by eapply polled_ended|]. bool_simpl.
    does_step. apply (outside_ok Digest); [done|apply handed_tick|]. intros s3 t [Hk3 He3] _ _.
    assert (Hat3 : at_round s0 s3).
    { split; [apply Hk3|]. rewrite He3, (kp_handed _ _ _ Hk3), (kp_done _ _ _ Hk3). done. }
    destruct t; [|by apply IH|does_step; by apply run_failed; apply Hat3].
    apply stopForReconcile_ok; [apply Hat3..|]. intros s4 e l Hg4 Hl Hone Hc.
    eapply (run_stopped s0 s3 s4 e l); [apply Hat3|reflexivity|done..].
Qed.


End drive.

(** ** A sample run *)

(** The gateway accepts under number 77; the ledger and the broker follow. *)
Record sample_live := mkSampleLive { sl_gw : SimpleWorld; sl_now : Z; sl_fills : list FillsSnapshot }.
#[local, refine] Instance sample_live_world : World sample_live := {
  Send w c := let '(g, r) := Send (sl_gw w) c in (mkSampleLive g (sl_now w) (sl_fills w), r);
  Query w id := let '(g, r) := Query (sl_gw w) id in (mkSampleLive g (sl_now w) (sl_fills w), r);
  kill_switch w := kill_switch (sl_gw w);
  disk w := let '(g, r) := disk (sl_gw w) in (mkSampleLive g (sl_now w) (sl_fills w), r);
  handed w := handed (sl_gw w)
}.
Proof.
  - intros [[] ? ?] c. reflexivity.
  - intros [[] ? ?] id. reflexivity.
  - intros [[? ? [|]] ? ?]; reflexivity.
Defined.

Definition sample_book : Snapshot :=
  mkSnapshot "005930" 1000 1001 (sample_levels 69900 (-100)) (sample_levels 70000 100) "ws".
#[local] Instance live_stamps : StampCodec.
Proof.
  refine {|
    parse_stamp s := if s =s "0" then Some 1000 else if s =s "1" then Some 1001 else None;
    format_stamp t := if t =? 1000 then "0" else "1";
    stamp_ok t := t = 1000 \/ t = 1001
  |}.
  intros t [-> | ->]; vm_compute; reflexivity.
Defined.
#[local] Instance sample_live_feed : FeedWorld sample_live := {|
  feed_add w _ _ _ := (w, true);
  feed_last w _ := (w, Some [VString <$> Values sample_book]);
  rest_read w _ := (w, None);
  time_now w := (mkSampleLive (sl_gw w) (sl_now w + 1000) (sl_fills w), sl_now w)
|}.
#[local, refine] Instance sample_live_inputs : LiveWorld sample_live := {|
  read_fills w :=
    match sl_fills w with
    | s :: rest => (mkSampleLive (sl_gw w) (sl_now w) rest, Ok s)
    | [] => (w, Err "no answer")
    end;
  read_history w _ := (w, Some (mkHistoryResponse [mkHistoryRow "0077" "19700101" "005930" "02" "10" "10" "N" ""] ""));
  child_over w := (w, None);
  ctx_over w := (w, false);
  next_tick w := (w, TickGo);
  journal_readable w := (w, true);
  wraps_deadline _ := false
|}.
Proof. all: try reflexivity. intros [? ? [|]]; reflexivity. Defined.

Definition live_cfg : Config := mkConfig true true 5000000000 2000000000.
Definition live_hs : historyRead := mkHistoryRead "1" "01" "005930" Buy.
Definition filled_snapshot : FillsSnapshot :=
  mkFillsSnapshot (IntentID sample_buy)
    (Some [mkLedgerOrder "77" 10 (Some [mkLedgerFill "f1" Buy 4 "69900" 2500 2600; mkLedgerFill "f2" Buy 6 "69900" 2500 2600])]).
Definition live_world : sample_live := mkSampleLive (mkSimple [] false []) 2000
  [mkFillsSnapshot (IntentID sample_buy) None; filled_snapshot; filled_snapshot].
Definition live_start := Start sample_digest (mkOuter live_world false) (fresh live_cfg) sample_buy 1.
Definition live_w : sample_live := ow_world live_start.1.1.
Definition live_e : Executor := live_start.1.2.
Notation live_run n := (driveLive sample_digest sample_quote false 0 "005930" live_hs n
  (mkLive (mkOuter live_w false) live_e ∅ [])).

(** It opens an order, sees it filled by the ledger and the broker, cancels what
    is left of it and ends. *)
Lemma live_run_is :
  match live_run 5 with
  | Some (s, Ok Ended) => map c_Action (handed (lv_out s)) = [ActSubmit; ActCancel] /\ s_Filled (live_state s) = 10
  | _ => False
  end.
Proof. vm_compute. repeat split. Qed.
Lemma live_sane (w : sample_live) id w' v : Query w id = (w', Ok v) ->
  int64_view v /\ forall o, v_Order v = Some o -> order_sane o.
Proof. cbn. intros [= _ <-]. split; [split; [cbn; in64|done]|done]. Qed.
Lemma live_start_inv : inv sample_digest (mkOuter live_w false) live_e.
Proof.
  assert (Hf : inv sample_digest (mkOuter live_world false) (fresh live_cfg)) by (apply inv_fresh; [reflexivity|cbn; in64]).
  destruct (sys_step_inv sample_digest sample_quote simple_faithful (outer_sane live_sane) _ _ (OpStart sample_buy 1) Hf
    ltac:(cbn; in64)) as (w' & e' & E & Hi & _).
  assert (Es : sys_step sample_digest sample_quote (mkOuter live_world false) (fresh live_cfg) (OpStart sample_buy 1) =
    Some (mkOuter live_w false, live_e)) by (vm_compute; reflexivity).
  rewrite Es in E. injection E as <- <-. exact Hi.
Qed.
Lemma live_start_facts : RequireLedgerComplete (x_cfg live_e) = true /\ s_Done (x_state live_e) = "".
Proof. vm_compute. by split. Qed.


Definition live_first : live sample_live := mkLive (mkOuter live_w false) live_e ∅ [].
Lemma live_first_refresh :
  match refreshLedger sample_digest (cachedBroker live_hs) live_first with
  | Some (s, Ok _) => x_ledgerComplete (lv_exec s) = true
  | _ => False
  end.
Proof. vm_compute. reflexivity. Qed.
