(* ===== verification/Config.v ===== *)
(** The configuration of the daemon: [src/cmd/fillwire/config.go], the settings
    of the quote lane and the guards of the book feed in [quotes.go] and
    [books.go], and [LoadSymbols] of [src/internal/quote/symbols.go].

    go-toml is the class [Toml]; files and the environment of the process are
    the class [Process]. *)

From Stdlib Require Import SpecFloat.
From S2P Require Import Prelude GoStr GoFloat Duration Wire Decode Stream Sink Limits Session Quotes Feed Approval Runner.
Local Open Scope Z_scope.

(** ** The file *)

Record bookSettings := mkBookSettings { bk_Enabled : bool; bk_Symbol : string; bk_AccessTokenEnv : string }.
Record kisSettings := mkKisSettings {
  ks_Broker : string; ks_Endpoint : string; ks_AccountMode : string; ks_ApprovalMode : string; ks_RefreshMargin : string;
  ks_Venue : string; ks_HTSID : string; ks_AppKeyEnv : string; ks_AppSecretEnv : string; ks_EventBuffer : Z; ks_DupTrackMax : Z
}.
Record streamSettings := mkStreamSettings {
  ss_Key : string; ss_MaxLen : Z; ss_Group : string; ss_Consumer : string; ss_ClaimMinIdle : string; ss_ReadBlock : string
}.
Record ingestSettings := mkIngestSettings {
  is_URL : string; is_TokenEnv : string; is_TokenHeader : string; is_Batch : Z; is_Timeout : string
}.
Record retrySettings := mkRetrySettings { rt_Min : string; rt_Max : string; rt_Factor : spec_float }.
Record fileConfig := mkFileConfig {
  fc_Books : bookSettings; fc_KIS : kisSettings; fc_Redis : string; fc_Stream : streamSettings; fc_Ingest : ingestSettings;
  fc_Buffer : Z; fc_DrainTimeout : string; fc_Retry : retrySettings; fc_RateLimit : string
}.
Record quoteFileConfig := mkQuoteFileConfig {
  qf_Enabled : bool; qf_Provider : string; qf_SymbolsFile : string; qf_TokenKey : string; qf_StreamKey : string;
  qf_MaxLen : Z; qf_Buffer : Z
}.

(** A TOML value, as far as the program looks at one. *)
Inductive toml_value := TomlBool (b : bool) | TomlTable (t : list (string * toml_value)) | TomlOther.
Definition toml_get (t : list (string * toml_value)) (k : string) : option toml_value := snd <$> find (fun p => fst p =s k) t.

(** [toml.Unmarshal] into the file's struct and into a map; [toml.Marshal] of a
    table followed by the strict decoding of the [quotes] struct. *)
Class Toml := {
  toml_config : string -> option fileConfig;
  toml_document : string -> option (list (string * toml_value));
  toml_marshal : list (string * toml_value) -> option string;
  toml_quotes : string -> option quoteFileConfig
}.

(** [os.ReadFile], [os.Stat] (regular, and its size) and [os.LookupEnv]. *)
Class Process := {
  ReadFile : string -> option string;
  Stat : string -> option (bool * Z);
  LookupEnv : string -> option string
}.
(** [os.Getenv]. *)
Definition Getenv `{Process} (name : string) : string := default "" (LookupEnv name).

(** ** What is refused *)

Inductive load_error :=
| CfgRead | CfgToml | CfgBroker | CfgApprovalMode | CfgEndpoint | CfgAccountMode | CfgVenue | CfgCredentials | CfgBuffers
| CfgStreamFields | CfgRedis (e : redis_url_error) | CfgRanges | CfgIngest | CfgIngestURL | CfgTokenHeader | CfgBooks
| CfgDuration (what : string) | CfgFactor | CfgUnset (name : string).

(** [alert.DefaultRateLimit.String()]. *)
Definition DefaultRateLimit : Z := 600000000000.
Definition DefaultRateLimitString : string := "10m0s".

Section Config.
Context `{NetURL, Toml, Process}.

(** [validateStatic]. *)
Definition blank (s : string) : bool := TrimSpace s =s "".
Definition validateStatic (cfg : fileConfig) : option load_error :=
  let kis := fc_KIS cfg in let st := fc_Stream cfg in let ing := fc_Ingest cfg in
  if ks_Broker kis <>s "kis" then Some CfgBroker
  else if (ks_ApprovalMode kis <>s "") && (ks_ApprovalMode kis <>s "cache-only") then Some CfgApprovalMode
  else if (ks_Endpoint kis <>s "live") && (ks_Endpoint kis <>s "mock") then Some CfgEndpoint
  else if ks_AccountMode kis <>s ks_Endpoint kis then Some CfgAccountMode
  else if blank (ks_Venue kis) || blank (ks_HTSID kis) then Some CfgVenue
  else if blank (ks_AppKeyEnv kis) || blank (ks_AppSecretEnv kis) then Some CfgCredentials
  else if (ks_EventBuffer kis <=? 0) || (ks_DupTrackMax kis <=? 0) || (fc_Buffer cfg <=? 0) then Some CfgBuffers
  else if blank (fc_Redis cfg) || blank (ss_Key st) || blank (ss_Group st) || blank (ss_Consumer st) then Some CfgStreamFields
  else
    match ValidateRedisURL (fc_Redis cfg) with
    | Some e => Some (CfgRedis e)
    | None =>
        if (ss_MaxLen st <=? 0) || (is_Batch ing <? 1) || (is_Batch ing >? 200) then Some CfgRanges
        else if blank (is_URL ing) || blank (is_TokenEnv ing) then Some CfgIngest
        else if negb (ValidateIngestURL (is_URL ing)) then Some CfgIngestURL
        else if negb (ValidateIngestTokenHeader (is_TokenHeader ing)) then Some CfgTokenHeader
        else if bk_Enabled (fc_Books cfg) && (negb (SymbolOK (bk_Symbol (fc_Books cfg))) || blank (bk_AccessTokenEnv (fc_Books cfg)))
        then Some CfgBooks
        else None
    end.

(** The defaults [loadConfig] fills in. *)
Definition or_default (is_default : bool) (s d : string) : string := if is_default then d else s.
Definition set_defaults (cfg : fileConfig) : fileConfig :=
  let 'mkFileConfig books (mkKisSettings br ep am apm rm ve ht ak as_ eb dt) redis st
    (mkIngestSettings url te th ba ti) buffer drain retry rate := cfg in
  mkFileConfig books (mkKisSettings br ep am apm (or_default (rm =s "") rm "1h") (or_default (blank ve) ve "krx") ht ak as_ eb dt)
    redis st (mkIngestSettings url te (or_default (th =s "") th DefaultIngestTokenHeader) ba ti) buffer
    (or_default (blank drain) drain "5s") retry (or_default (rate =s "") rate DefaultRateLimitString).

(** A duration that must satisfy [ok]. *)
Definition duration (what s : string) (ok : Z -> bool) : result Z load_error :=
  match ParseDuration s with
  | Some d => if ok d then Ok d else Err (CfgDuration what)
  | None => Err (CfgDuration what)
  end.
(** An environment variable that must be set. *)
Definition required (name : string) : result string load_error :=
  match LookupEnv name with
  | Some v => if v =s "" then Err (CfgUnset name) else Ok v
  | None => Err (CfgUnset name)
  end.

(** ** The quote lane *)

Inductive quote_refusal :=
| QNotTable | QEnabled | QTable | QUnknownKey | QProvider | QSymbolsFile | QUnreadable | QNotRegular | QSymbols (e : symbols_error)
| QTokenKey | QStreamKey | QNegative | QBuffer.

(** [LoadSymbols]. *)
Definition LoadSymbols (path : string) : result (list QSymbol) quote_refusal :=
  match Stat path with
  | None => Err QUnreadable
  | Some (regular, size) =>
      if negb regular || (size >? maxSymbolsFileBytes) then Err QNotRegular
      else match ReadFile path with
           | None => Err QUnreadable
           | Some contents =>
               match ParseSymbols contents with Ok symbols => Ok symbols | Err e => Err (QSymbols e) end
           end
  end.

Definition defaultQuoteMaxLen : Z := 100000.
Definition quoteStreamPrefix : string := "quotes:".
Definition defaultQuoteBuffer : Z := 1024.
Definition maxQuoteBuffer : Z := 65536.

Record quoteLane := mkQuoteLane {
  ql_symbols : list QSymbol; ql_tokenKey : string; ql_streamKey : string; ql_maxLen : Z; ql_buffer : Z
}.
(** [quoteSettings]: absent, refused, or resolved. *)
Inductive quoteSettings := QuotesOff | QuotesRefused (e : quote_refusal) | QuotesOn (l : quoteLane).

(** The checks on the decoded table; [fillsKey] is the stream of the fills. *)
Definition resolveTable (q : quoteFileConfig) (fillsKey : string) : quoteSettings :=
  if qf_Provider q <>s "toss" then QuotesRefused QProvider
  else if blank (qf_SymbolsFile q) then QuotesRefused QSymbolsFile
  else
    match LoadSymbols (qf_SymbolsFile q) with
    | Err e => QuotesRefused e
    | Ok symbols =>
        if negb (ValidTokenKey (qf_TokenKey q)) then QuotesRefused QTokenKey
        else
          let streamKey := if qf_StreamKey q =s "" then DefaultStreamKey else qf_StreamKey q in
          if negb (HasPrefix streamKey quoteStreamPrefix) || (String.length streamKey =? String.length quoteStreamPrefix)%nat
             || (TrimSpace streamKey <>s streamKey) || (streamKey =s fillsKey) then QuotesRefused QStreamKey
          else
            let maxLen := if qf_MaxLen q =? 0 then defaultQuoteMaxLen else qf_MaxLen q in
            let buffer := if qf_Buffer q =? 0 then defaultQuoteBuffer else qf_Buffer q in
            if (maxLen <? 0) || (buffer <? 0) then QuotesRefused QNegative
            else if buffer >? maxQuoteBuffer then QuotesRefused QBuffer
            else QuotesOn (mkQuoteLane symbols (qf_TokenKey q) streamKey maxLen buffer)
    end.

(** [resolveQuoteSettings]. *)
Definition resolveQuoteSettings (contents fillsKey : string) : quoteSettings :=
  match toml_document contents with
  | None => QuotesOff
  | Some document =>
      match toml_get document "quotes" with
      | None => QuotesOff
      | Some (TomlTable table) =>
          let resolve :=
            match toml_marshal table with
            | None => QuotesRefused QTable
            | Some encoded =>
                match toml_quotes encoded with
                | None => QuotesRefused QUnknownKey
                | Some q => resolveTable q fillsKey
                end
            end in
          match toml_get table "enabled" with
          | None | Some (TomlBool false) => QuotesOff
          | Some (TomlBool true) => resolve
          | Some _ => QuotesRefused QEnabled
          end
      | Some _ => QuotesRefused QNotTable
      end
  end.

(** ** [loadConfig] *)

Record runtimeConfig := mkRuntimeConfig {
  rc_file : fileConfig; rc_claimMinIdle : Z; rc_readBlock : Z; rc_timeout : Z; rc_retryMin : Z; rc_retryMax : Z;
  rc_drainTimeout : Z; rc_ingestToken : string; rc_appKey : string; rc_appSecret : string; rc_refreshMargin : Z;
  rc_alertRateLimit : Z; rc_quotes : quoteSettings
}.

Notation "x <~ m ; k" := (match m with Ok x => k | Err e => Err e end) (at level 100, m at level 99, right associativity).

Definition loadConfig (path : string) : result runtimeConfig load_error :=
  match ReadFile path with
  | None => Err CfgRead
  | Some contents =>
      match toml_config contents with
      | None => Err CfgToml
      | Some cfg =>
          let cfg := set_defaults cfg in
          match validateStatic cfg with
          | Some e => Err e
          | None =>
              claimMinIdle <~ duration "stream claim_min_idle" (ss_ClaimMinIdle (fc_Stream cfg)) (fun d => 0 <=? d);
              readBlock <~ duration "stream read_block" (ss_ReadBlock (fc_Stream cfg)) (fun d => 0 <=? d);
              timeout <~ duration "ingest timeout" (is_Timeout (fc_Ingest cfg)) (fun d => 0 <? d);
              drainTimeout <~ duration "channel drain_timeout" (fc_DrainTimeout cfg) (fun d => 0 <? d);
              rmin <~ duration "retry min" (rt_Min (fc_Retry cfg)) (fun d => 0 <? d);
              rmax <~ duration "retry max" (rt_Max (fc_Retry cfg)) (fun d => rmin <=? d);
              if SFltb (rt_Factor (fc_Retry cfg)) float_one then Err CfgFactor
              else
                refreshMargin <~ duration "KIS approval_refresh_margin" (ks_RefreshMargin (fc_KIS cfg))
                  (fun d => (0 <? d) && (d <=? MaxRefreshMargin));
                alertRateLimit <~ duration "alerts rate_limit" (fc_RateLimit cfg) (fun d => 0 <? d);
                ingestToken <~ required (is_TokenEnv (fc_Ingest cfg));
                appKey <~ required (ks_AppKeyEnv (fc_KIS cfg));
                appSecret <~ required (ks_AppSecretEnv (fc_KIS cfg));
                Ok (mkRuntimeConfig cfg claimMinIdle readBlock timeout rmin rmax drainTimeout ingestToken appKey appSecret
                      refreshMargin alertRateLimit (resolveQuoteSettings contents (ss_Key (fc_Stream cfg))))
          end
      end
  end.
End Config.
