(* ===== verification/Startup.v ===== *)
(** What [src/cmd/fillwire/main.go] builds from its configuration before any
    goroutine starts, with [startBooks] and [startQuoteLane]: every
    configuration [loadConfig] accepts starts.

    [redis.ParseURL] and [kis.NewClient] are parameters. *)

From Stdlib Require Import SpecFloat.
From S2P Require Import Prelude GoStr GoFloat Duration Wire Decode Stream Sink Limits Session Quotes Feed Approval Runner Kisread Config.
Local Open Scope Z_scope.

(** ** Construction *)

Inductive start_error :=
| StartRedis | StartKIS | StartApproval (e : approval_error) | StartBooks (redis : bool) | StartQueue (e : stream_error)
| StartClient | StartRunner.

(** What is built: the approval provider, the symbol of the book feed, the
    decoder, the queue and the sink, and the room of the two channels. *)
Record parts := mkParts {
  pt_approval : provider; pt_books : option string; pt_decoder : Decoder; pt_queue : StreamConfig; pt_sink : Sink.Runner; pt_buffer : Z
}.

Section Startup.
Context `{NetURL} (redis_ParseURL : string -> bool) (kis_NewClient : string -> string -> string -> bool).

(** The guards of [startBooks]: the symbol it polls, if enabled. *)
Definition startBooks (cfg : runtimeConfig) : result (option string) start_error :=
  let books := fc_Books (rc_file cfg) in
  if negb (bk_Enabled books) then Ok None
  else if negb (SymbolOK (bk_Symbol books)) || (bk_AccessTokenEnv books =s "") then Err (StartBooks false)
  else if negb (redis_ParseURL (fc_Redis (rc_file cfg))) then Err (StartBooks true)
  else Ok (Some (bk_Symbol books)).

(** [runWithDependencies], up to its channels. *)
Definition startup (cfg : runtimeConfig) : result parts start_error :=
  let file := rc_file cfg in
  let kis := fc_KIS file in
  if negb (redis_ParseURL (fc_Redis file)) then Err StartRedis
  else if negb (kis_NewClient (ks_Endpoint kis) (rc_appKey cfg) (rc_appSecret cfg)) then Err StartKIS
  else
    let margin := if rc_refreshMargin cfg =? 0 then DefaultRefreshMargin else rc_refreshMargin cfg in
    match NewApprovalProviderConfig true true (ks_ApprovalMode kis) (ks_AccountMode kis) margin with
    | Err e => Err (StartApproval e)
    | Ok approval =>
        match startBooks cfg with
        | Err e => Err e
        | Ok books =>
            let st := fc_Stream file in
            match NewQueue (mkStreamConfig (ss_Key st) (ss_MaxLen st) (ss_Group st) (ss_Consumer st)
                    (is_Batch (fc_Ingest file)) (rc_readBlock cfg) (rc_claimMinIdle cfg)) with
            | Err e => Err (StartQueue e)
            | Ok queue =>
                match Sink.NewClient (mkHTTPConfig (is_URL (fc_Ingest file)) (rc_ingestToken cfg)
                        (is_TokenHeader (fc_Ingest file)) (rc_timeout cfg)) with
                | None => Err StartClient
                | Some client =>
                    match Sink.NewRunner (Some queue) (Some client) (rc_retryMin cfg) (rc_retryMax cfg)
                            (rt_Factor (fc_Retry file)) with
                    | None => Err StartRunner
                    | Some runner =>
                        Ok (mkParts approval books (NewDecoder (ks_AccountMode kis) (ks_Venue kis) (ks_DupTrackMax kis))
                              queue runner (fc_Buffer file))
                    end
                end
            end
        end
    end.

(** [startQuoteLane], up to its goroutine: the runner of the lane, if it starts. *)
Definition startQuoteLane (cfg : runtimeConfig) : option Runner.runner :=
  match rc_quotes cfg with
  | QuotesOff | QuotesRefused _ => None
  | QuotesOn l =>
      if negb (redis_ParseURL (fc_Redis (rc_file cfg))) then None
      else
        match NewCachedToken true (ql_tokenKey l) with
        | None => None
        | Some _ =>
            match Runner.NewRunner (ql_symbols l) true (ql_streamKey l) (ql_maxLen l) (ql_buffer l) 0 0 0 with
            | Err _ => None
            | Ok r => Some r
            end
        end
  end.

(** [kisApprovalIssuer.Issue]: [answer] is what go-kis answers ([None] an error),
    [over] the error of the context by then.  go-kis's own error is not passed on. *)
Definition kisIssue (answer : option string) (over : option approval_error) : result string approval_error :=
  match answer with
  | Some key => if key =s "" then Err (default ErrApprovalUnavailable over) else Ok key
  | None => Err (default ErrApprovalUnavailable over)
  end.

Lemma kisIssue_key answer over key : kisIssue answer over = Ok key -> answer = Some key /\ key <> "".
Proof. destruct answer as [k|]; [|done]. cbn. destruct (k =s "") eqn:E; [done|]. intros [= ->]. split; [done|]. by bool_simpl. Qed.
Lemma kisIssue_error answer over e : kisIssue answer over = Err e -> e = ErrApprovalUnavailable \/ over = Some e.
Proof. destruct answer as [k|]; cbn; [destruct (k =s "")|]; try done; intros [= <-]; destruct over; auto. Qed.

(** The REST client of [startBooks]; its token is read from the environment. *)
Definition bookClient (cfg : runtimeConfig) : KisClient :=
  mkKisClient zero_time (ks_Endpoint (fc_KIS (rc_file cfg)) =s "mock") (rc_appKey cfg) (rc_appSecret cfg) true None.

(** The callback of [startBooks]: a book event is given up when the channel is full. *)
Definition bookRoom : nat := 32.
Definition offerBook {A} (e : A) (events : list A) : list A :=
  if (length events <? bookRoom)%nat then events ++ [e] else events.
Lemma offerBook_bounded {A} (e : A) events : (length events <= bookRoom)%nat -> (length (offerBook e events) <= bookRoom)%nat.
Proof. unfold offerBook. destruct (Nat.ltb_spec (length events) bookRoom); [rewrite length_app; cbn; lia|done]. Qed.

(** The order history, which only exists on the mock host, is refused before any
    request unless the feed runs against it. *)
Lemma bookClient_history cfg : ks_Endpoint (fc_KIS (rc_file cfg)) <> "mock" ->
  history_read (bookClient cfg) historyPath historyTR = false.
Proof. intros Hm. unfold history_read, bookClient. cbn [kc_Mock]. by rewrite (proj2 (String.eqb_neq _ _) Hm). Qed.

(** ** Every accepted configuration starts *)

Context `{Toml, Process}.

Lemma duration_ok what s ok d : duration what s ok = Ok d -> ok d = true.
Proof. unfold duration. destruct (ParseDuration s) as [d'|]; [|done]. destruct (ok d') eqn:E; [|done]. by intros [= <-]. Qed.
Lemma required_ok name v : required name = Ok v -> v <> "".
Proof. unfold required. destruct (LookupEnv name) as [v'|]; [|done]. destruct (v' =s "") eqn:E; [done|]. intros [= <-]. by bool_simpl. Qed.

(** What [validateStatic] accepts. *)
Record static_ok (cfg : fileConfig) : Prop := {
  so_mode : ks_ApprovalMode (fc_KIS cfg) = "" \/ ks_ApprovalMode (fc_KIS cfg) = "cache-only";
  so_account : ks_AccountMode (fc_KIS cfg) = "live" \/ ks_AccountMode (fc_KIS cfg) = "mock";
  so_buffers : 0 < ks_EventBuffer (fc_KIS cfg) /\ 0 < ks_DupTrackMax (fc_KIS cfg) /\ 0 < fc_Buffer cfg;
  so_stream : blank (ss_Key (fc_Stream cfg)) = false /\ blank (ss_Group (fc_Stream cfg)) = false /\ blank (ss_Consumer (fc_Stream cfg)) = false;
  so_ranges : 0 < ss_MaxLen (fc_Stream cfg) /\ 1 <= is_Batch (fc_Ingest cfg) <= 200;
  so_ingest : ValidateIngestURL (is_URL (fc_Ingest cfg)) = true /\ ValidateIngestTokenHeader (is_TokenHeader (fc_Ingest cfg)) = true;
  so_redis : ValidateRedisURL (fc_Redis cfg) = None;
  so_books : bk_Enabled (fc_Books cfg) = true -> SymbolOK (bk_Symbol (fc_Books cfg)) = true /\ bk_AccessTokenEnv (fc_Books cfg) <> ""
}.

Lemma blank_nonempty s : blank s = false -> s <> "".
Proof. unfold blank. intros Hb ->. discriminate Hb. Qed.

Lemma one_of_two s a b : (s <>s a) && (s <>s b) = false -> s = a \/ s = b.
Proof. intros [Hs|Hs]%andb_false_iff; bool_simpl; auto. Qed.

Lemma validateStatic_ok cfg : validateStatic cfg = None -> static_ok cfg.
Proof.
  unfold validateStatic. cbv zeta. intros Hv.
  repeat match goal with
  | H : (if ?b then Some _ else _) = None |- _ => destruct b eqn:?; [discriminate H|]
  | H : match ValidateRedisURL ?r with _ => _ end = None |- _ => destruct (ValidateRedisURL r) eqn:?; [discriminate H|]
  end.
  bool_simpl. rewrite ?Z.gtb_ltb in *. bool_simpl. constructor; try done; try lia.
  - by apply one_of_two.
  - apply one_of_two. by rewrite Heqb2.
  - intros He. rewrite He in Heqb11. cbn in Heqb11. bool_simpl. split; [done|]. by apply blank_nonempty.
Qed.

(** What [loadConfig] accepts. *)
Record config_ok (cfg : runtimeConfig) : Prop := {
  cg_static : static_ok (rc_file cfg);
  cg_stream : 0 <= rc_claimMinIdle cfg /\ 0 <= rc_readBlock cfg;
  cg_timeouts : 0 < rc_timeout cfg /\ 0 < rc_drainTimeout cfg;
  cg_retry : 0 < rc_retryMin cfg <= rc_retryMax cfg;
  cg_factor : SFltb (rt_Factor (fc_Retry (rc_file cfg))) float_one = false;
  cg_margin : 0 < rc_refreshMargin cfg <= MaxRefreshMargin;
  cg_alerts : 0 < rc_alertRateLimit cfg;
  cg_token : rc_ingestToken cfg <> "";
  cg_quotes : exists contents, rc_quotes cfg = resolveQuoteSettings contents (ss_Key (fc_Stream (rc_file cfg)))
}.

Lemma loadConfig_ok path cfg : loadConfig path = Ok cfg -> config_ok cfg.
Proof.
  unfold loadConfig. destruct (ReadFile path) as [contents|]; [|done]. destruct (toml_config contents) as [file|]; [|done].
  cbv zeta. destruct (validateStatic (set_defaults file)) eqn:Ev; [done|]. apply validateStatic_ok in Ev.
  repeat match goal with
  | |- context [match duration ?w ?s ?ok with _ => _ end] =>
      let E := fresh "Ed" in destruct (duration w s ok) eqn:E; [apply duration_ok in E|discriminate]
  | |- context [match required ?n with _ => _ end] =>
      let E := fresh "Er" in destruct (required n) eqn:E; [apply required_ok in E|discriminate]
  | |- context [if SFltb ?f float_one then _ else _] => destruct (SFltb f float_one) eqn:?; [discriminate|]
  end.
  intros [= <-]. bool_simpl. constructor; cbn [rc_file rc_claimMinIdle rc_readBlock rc_timeout rc_drainTimeout rc_retryMin
    rc_retryMax rc_refreshMargin rc_alertRateLimit rc_ingestToken rc_quotes]; try done; try lia. by exists contents.
Qed.

(** What [resolveQuoteSettings] accepts. *)
Lemma resolve_ok contents fillsKey l : resolveQuoteSettings contents fillsKey = QuotesOn l ->
  (exists text, ParseSymbols text = Ok (ql_symbols l)) /\ ValidTokenKey (ql_tokenKey l) = true /\
  HasPrefix (ql_streamKey l) "quotes:" = true /\ ql_streamKey l <> fillsKey /\ 0 < ql_maxLen l /\ 0 < ql_buffer l <= maxQuoteBuffer.
Proof.
  unfold resolveQuoteSettings. destruct (toml_document contents) as [document|]; [|done].
  destruct (toml_get document "quotes") as [[b|table|]|]; [done| |done..]. cbv zeta.
  assert (Hr : match toml_marshal table with
    | None => QuotesRefused QTable
    | Some encoded => match toml_quotes encoded with None => QuotesRefused QUnknownKey | Some q => resolveTable q fillsKey end
    end = QuotesOn l -> exists q, resolveTable q fillsKey = QuotesOn l).
  { destruct (toml_marshal table) as [encoded|]; [|done]. destruct (toml_quotes encoded) as [q|]; [|done]. by exists q. }
  destruct (toml_get table "enabled") as [[[|]| |]|]; try done. intros Hq%Hr. clear Hr. destruct Hq as [q Hq].
  unfold resolveTable in Hq. destruct (_ <>s "toss"); [done|]. destruct (blank _); [done|].
  destruct (LoadSymbols _) as [symbols|] eqn:El; [|done]. destruct (ValidTokenKey _) eqn:Et; [|done]. cbn [negb] in Hq. cbv zeta in Hq.
  set (streamKey := if qf_StreamKey q =s "" then _ else _) in Hq. set (maxLen := if qf_MaxLen q =? 0 then _ else _) in Hq.
  set (buffer := if qf_Buffer q =? 0 then _ else _) in Hq. destruct (_ || _) eqn:Ek in Hq; [done|].
  destruct ((maxLen <? 0) || _) eqn:Em; [done|]. destruct (buffer >? _) eqn:Eb; [done|]. injection Hq as <-. cbn.
  rewrite Z.gtb_ltb in Eb. bool_simpl. assert (maxLen <> 0).
  { unfold maxLen, defaultQuoteMaxLen. destruct (Z.eqb_spec (qf_MaxLen q) 0); lia. }
  assert (buffer <> 0).
  { unfold buffer, defaultQuoteBuffer. destruct (Z.eqb_spec (qf_Buffer q) 0); lia. }
  split; [|repeat split; try done; lia]. unfold LoadSymbols in El. destruct (Stat _) as [[regular size]|]; [|done].
  destruct (_ || _); [done|]. destruct (ReadFile _) as [text|]; [|done]. exists text.
  destruct (ParseSymbols text); [by injection El as ->|done].
Qed.

(** A list the parser accepts is one the runner accepts. *)
Lemma symbols_accepted_ok symbols : forall seen, NoDup symbols -> Forall (fun s => ValidSymbol s = true) symbols ->
  (forall s, s ∈ symbols -> s ∉ seen) -> symbols_accepted seen symbols = true.
Proof.
  induction symbols as [|s symbols IH]; intros seen Hn Hv Hs; [done|]. cbn [symbols_accepted].
  apply NoDup_cons in Hn as [Hs1 Hn]. apply Forall_cons in Hv as [Hv1 Hv]. rewrite Hv1, bool_decide_eq_false_2 by (apply Hs; left).
  apply IH; [done|done|]. intros x Hx. apply not_elem_of_union. split; [|apply Hs; by right].
  apply not_elem_of_singleton. by intros ->.
Qed.

Lemma lane_starts l cfg : rc_quotes cfg = QuotesOn l -> redis_ParseURL (fc_Redis (rc_file cfg)) = true ->
  (exists text, ParseSymbols text = Ok (ql_symbols l)) -> ValidTokenKey (ql_tokenKey l) = true ->
  HasPrefix (ql_streamKey l) "quotes:" = true -> 0 < ql_maxLen l -> 0 < ql_buffer l ->
  exists r, startQuoteLane cfg = Some r /\ Runner.StreamKey r = ql_streamKey l /\ Runner.Buffer r = ql_buffer l.
Proof.
  intros Hq Hredis Hsym Htok Hpre Hmax Hbuf. unfold startQuoteLane. rewrite Hq, Hredis. cbn [negb].
  unfold NewCachedToken. rewrite Htok. cbn [negb orb]. unfold Runner.NewRunner.
  apply ParseSymbols_exact in Hsym as [Hok Hne]. pose proof Hok as (Hn & Hv & Hlen).
  destruct ((length (ql_symbols l) =? 0)%nat || (MaxSymbols <? length (ql_symbols l))%nat) eqn:E.
  { exfalso. apply orb_true_iff in E as [E|E]; [apply Nat.eqb_eq in E; by destruct (ql_symbols l)|apply Nat.ltb_lt in E; lia]. }
  rewrite symbols_accepted_ok by (try done; intros; apply not_elem_of_empty). cbn [negb]. rewrite Hpre.
  rewrite (proj2 (Z.leb_gt _ _) Hmax), (proj2 (Z.leb_gt _ _) Hbuf). cbn [negb orb]. cbv zeta.
  destruct (declaration_complete _ Hok) as (d & markets & -> & _). eexists. split; [reflexivity|]. split; reflexivity.
Qed.

(** A key with the prefix of the quote lane is not one of the approval cache. *)
Lemma quotes_not_approval p s : HasPrefix s "quotes:" = true -> s <> cacheKey p /\ s <> lockKey p.
Proof.
  intros Hs. unfold lockKey, cacheKey. split; intros ->; destruct (accountMode p =s "mock"); discriminate Hs.
Qed.

(** Construction succeeds on what the checks of the file accept. *)
Lemma startup_ok cfg : config_ok cfg -> redis_ParseURL (fc_Redis (rc_file cfg)) = true ->
  kis_NewClient (ks_Endpoint (fc_KIS (rc_file cfg))) (rc_appKey cfg) (rc_appSecret cfg) = true ->
  exists p, startup cfg = Ok p /\ margin (pt_approval p) = rc_refreshMargin cfg /\
    pt_books p = (if bk_Enabled (fc_Books (rc_file cfg)) then Some (bk_Symbol (fc_Books (rc_file cfg))) else None) /\
    Key (pt_queue p) = ss_Key (fc_Stream (rc_file cfg)) /\ BatchSize (pt_queue p) = is_Batch (fc_Ingest (rc_file cfg)) /\
    pt_buffer p = fc_Buffer (rc_file cfg).
Proof.
  intros [Hs [Hc1 Hc2] [Ht Hdt] Hr Hf Hm _ Hk _] Hredis Hkis.
  destruct Hs as [Hmode Hacc (Hb1 & Hb2 & Hb3) (Hk1 & Hk2 & Hk3) [Hlen Hbatch] [Hu Hh] _ Hbooks].
  unfold startup. cbv zeta. rewrite Hredis, Hkis. cbn [negb].
  assert (Hmz : (rc_refreshMargin cfg =? 0) = false) by (apply Z.eqb_neq; lia). rewrite Hmz.
  unfold NewApprovalProviderConfig. cbn [negb orb].
  assert (Hma : ((ks_ApprovalMode (fc_KIS (rc_file cfg)) <>s "") && (ks_ApprovalMode (fc_KIS (rc_file cfg)) <>s ApprovalModeCacheOnly)
    || (ks_AccountMode (fc_KIS (rc_file cfg)) <>s "live") && (ks_AccountMode (fc_KIS (rc_file cfg)) <>s "mock")
    || (rc_refreshMargin cfg <=? 0) || (rc_refreshMargin cfg >? MaxRefreshMargin)) = false).
  { rewrite Z.gtb_ltb. repeat (apply orb_false_iff; split); try (apply Z.leb_gt; lia); try (apply Z.ltb_ge; lia).
    - by destruct Hmode as [-> | ->].
    - by destruct Hacc as [-> | ->]. }
  rewrite Hma. unfold startBooks. cbv zeta. rewrite Hredis. cbn [negb].
  assert (Hbk : exists b, (if negb (bk_Enabled (fc_Books (rc_file cfg))) then Ok None
    else if negb (SymbolOK (bk_Symbol (fc_Books (rc_file cfg)))) || (bk_AccessTokenEnv (fc_Books (rc_file cfg)) =s "")
         then Err (StartBooks false) else Ok (Some (bk_Symbol (fc_Books (rc_file cfg))))) = Ok b /\
    b = (if bk_Enabled (fc_Books (rc_file cfg)) then Some (bk_Symbol (fc_Books (rc_file cfg))) else None)).
  { destruct (bk_Enabled _); [|by eexists]. destruct (Hbooks eq_refl) as [-> Hne]. cbn [negb orb].
    apply String.eqb_neq in Hne. rewrite Hne. by eexists. }
  destruct Hbk as (b & -> & Hb). unfold NewQueue. cbn [Key Group Consumer Stream.MaxLen BatchSize Block ClaimMinIdle].
  unfold blank in Hk1, Hk2, Hk3. rewrite Hk1, Hk2, Hk3. cbn [orb].
  rewrite !Z.gtb_ltb, (proj2 (Z.leb_gt _ _) Hlen), (proj2 (Z.ltb_ge _ 1)), (proj2 (Z.ltb_ge 200 _)),
    (proj2 (Z.ltb_ge _ _) Hc2), (proj2 (Z.ltb_ge _ _) Hc1) by lia. cbn [orb].
  unfold Sink.NewClient. cbn [h_URL h_Token h_TokenHeader h_Timeout]. rewrite Hu. cbn [negb].
  apply String.eqb_neq in Hk. rewrite Hk. cbv zeta.
  assert (Hth : ValidateIngestTokenHeader (if is_TokenHeader (fc_Ingest (rc_file cfg)) =s "" then DefaultIngestTokenHeader
    else is_TokenHeader (fc_Ingest (rc_file cfg))) = true) by (destruct (is_TokenHeader (fc_Ingest (rc_file cfg)) =s ""); [done|exact Hh]).
  rewrite Hth. cbn [negb]. rewrite (proj2 (Z.leb_gt _ _) Ht). unfold Sink.NewRunner.
  rewrite (proj2 (Z.leb_gt _ _)) by lia. rewrite (proj2 (Z.ltb_ge _ _)) by lia. cbn [orb]. rewrite Hf.
  eexists. split; [reflexivity|]. cbn. by rewrite Hb.
Qed.

End Startup.

(** ** A sample configuration *)

Module Sample.
Definition file : fileConfig := mkFileConfig (mkBookSettings true "005930" "KIS_MOCK_ACCESS_TOKEN")
  (mkKisSettings "kis" "live" "live" "" "1h" "krx" "HTS" "KIS_APP_KEY" "KIS_APP_SECRET" 256 10000)
  "redis://localhost:6379/0" (mkStreamSettings "fills:kis" 100000 "fillwire-ingest" "fillwire-example" "1m" "5s")
  (mkIngestSettings "https://ledger.example/fills" "INGEST_TOKEN" "" 200 "10s") 256 "5s" (mkRetrySettings "1s" "30s" float_one) "10m".
Definition table : list (string * toml_value) := [("enabled", TomlBool true); ("provider", TomlOther)].
Definition quotes : quoteFileConfig :=
  mkQuoteFileConfig true "toss" "symbols.txt" "toss:oauth:0000000000000000:access_token" "" 0 0.
#[local] Instance toml : Toml := {|
  toml_config s := if s =s "config" then Some file else None;
  toml_document s := if s =s "config" then Some [("quotes", TomlTable table)] else None;
  toml_marshal _ := Some "table";
  toml_quotes s := if s =s "table" then Some quotes else None
|}.
#[local] Instance process : Process := {|
  ReadFile p := if p =s "fillwire.toml" then Some "config" else if p =s "symbols.txt" then Some "kr 005930" else None;
  Stat p := if p =s "symbols.txt" then Some (true, 9) else None;
  LookupEnv n := Some "secret"
|}.
#[local] Instance net : NetURL := {|
  url_Parse _ := None;
  url_ParseRequestURI s :=
    if HasPrefix s "redis:" then Some (mkURL "redis" "" None "localhost:6379" "/0" "" false false "" "" "")
    else Some (mkURL "https" "" None "ledger.example" "/fills" "" false false "" "" "");
  Hostname u := if u_Host u =s "localhost:6379" then "localhost" else u_Host u;
  url_String u := u_Host u
|}.
Definition redis (_ : string) : bool := true.
Definition client (_ _ _ : string) : bool := true.

Notation loaded := (loadConfig "fillwire.toml").
Definition config : runtimeConfig :=
  Eval vm_compute in match loaded with Ok c => c | Err _ => mkRuntimeConfig file 0 0 0 0 0 0 "" "" "" 0 0 QuotesOff end.
Lemma loads : loaded = Ok config.
Proof. vm_compute. reflexivity. Qed.

(** Its quote lane is on, with the default stream and buffer. *)
Lemma lane_on : exists l, rc_quotes config = QuotesOn l /\ ql_streamKey l = "quotes:toss" /\ ql_buffer l = defaultQuoteBuffer.
Proof. eexists. vm_compute. repeat split. Qed.

(** The stream of the fills cannot be the stream of the quotes. *)
Lemma same_stream_refused : resolveTable quotes "quotes:toss" = QuotesRefused QStreamKey.
Proof. vm_compute. reflexivity. Qed.
End Sample.

