(* ===== verification/Flags.v ===== *)
(** Go's [flag]: [FlagSet.Parse] with [ContinueOnError], byte for byte.  What a
    command line sets is a map from flag names to the text last given. *)

From Stdlib Require Import Ascii.
From S2P Require Import Prelude GoStr GoFloat Duration.
Local Open Scope Z_scope.

Inductive flag_kind := StringFlag | BoolFlag | DurationFlag.
Inductive flag_error := FlagSyntax | FlagUndefined | FlagHelp | FlagNeedsArgument | FlagValue.
Definition flag_set : Type := list (string * flag_kind).
Definition flag_values : Type := gmap string string.

(** [Value.Set] accepts the text. *)
Definition accepts (k : flag_kind) (v : string) : bool :=
  match k with
  | StringFlag => true
  | BoolFlag => is_some (ParseBool v)
  | DurationFlag => is_some (ParseDuration v)
  end.
Definition formal (fs : flag_set) (name : string) : option flag_kind := snd <$> find (fun p => fst p =s name) fs.

(** The text before and after the first [=]. *)
Fixpoint cut_equals (s : string) : string * option string :=
  match s with
  | "" => ("", None)
  | String c rest =>
      if Ascii.eqb c "=" then ("", Some rest)
      else let '(name, v) := cut_equals rest in (String c name, v)
  end.

(** What [parseOne] makes of an argument: the rest is positional, it is the
    terminator, it is malformed, or it names a flag, maybe with its value. *)
Inductive flag_arg := Positional | Terminator | Malformed | Named (name : string) (value : option string).
Definition flag_body (name : string) : flag_arg :=
  match name with
  | "" => Malformed
  | String c _ =>
      if Ascii.eqb c "-" || Ascii.eqb c "=" then Malformed
      else let '(n, v) := cut_equals name in Named n v
  end.
Definition flag_arg_of (s : string) : flag_arg :=
  match s with
  | String "-" "" => Positional
  | String "-" (String "-" "") => Terminator
  | String "-" (String "-" name) => flag_body name
  | String "-" name => flag_body name
  | _ => Positional
  end.

(** [Parse]: what was set, and the arguments that remain. *)
Fixpoint Parse (fs : flag_set) (args : list string) (m : flag_values) : result (flag_values * list string) flag_error :=
  match args with
  | [] => Ok (m, [])
  | s :: args =>
      match flag_arg_of s with
      | Positional => Ok (m, s :: args)
      | Terminator => Ok (m, args)
      | Malformed => Err FlagSyntax
      | Named name value =>
          match formal fs name with
          | None => Err (if (name =s "help") || (name =s "h") then FlagHelp else FlagUndefined)
          | Some BoolFlag =>
              let v := default "true" value in
              if accepts BoolFlag v then Parse fs args (<[name := v]> m) else Err FlagValue
          | Some k =>
              match value, args with
              | Some v, _ => if accepts k v then Parse fs args (<[name := v]> m) else Err FlagValue
              | None, v :: args => if accepts k v then Parse fs args (<[name := v]> m) else Err FlagValue
              | None, [] => Err FlagNeedsArgument
              end
          end
      end
  end.

(** The flag's variable after [Parse]. *)
Definition string_flag (m : flag_values) (name d : string) : string := default d (m !! name).
Definition bool_flag (m : flag_values) (name : string) : bool :=
  default false (m !! name ≫= ParseBool).
Definition duration_flag (m : flag_values) (name : string) (d : Z) : Z := default d (m !! name ≫= ParseDuration).

(** Every value set is one its flag accepts. *)
Definition well_set (fs : flag_set) (m : flag_values) : Prop :=
  forall name v, m !! name = Some v -> exists k, formal fs name = Some k /\ accepts k v = true.
Lemma well_set_insert fs m name v k : well_set fs m -> formal fs name = Some k -> accepts k v = true ->
  well_set fs (<[name := v]> m).
Proof. intros Hm Hk Ha n v' [[<- <-]|[_ Hn]]%lookup_insert_Some; [by exists k|by apply Hm]. Qed.

Lemma Parse_well_set_aux fs n : forall args m m' rest, (length args <= n)%nat -> well_set fs m ->
  Parse fs args m = Ok (m', rest) -> well_set fs m' /\ suffix rest args.
Proof.
  induction n as [|n IH]; intros [|s args] m m' rest Hn Hm; cbn [length Parse] in *; try lia; try (by intros [= <- <-]).
  destruct (flag_arg_of s) as [| | |name value]; [by intros [= <- <-]| |done|].
  { intros [= <- <-]. split; [done|by apply suffix_cons_r]. }
  assert (Hgo : forall k v a, formal fs name = Some k -> suffix a args ->
    (if accepts k v then Parse fs a (<[name := v]> m) else Err FlagValue) = Ok (m', rest) -> well_set fs m' /\ suffix rest (s :: args)).
  { intros k v a Hk Ha. destruct (accepts k v) eqn:E; [|done]. intros Hp.
    destruct (IH a _ _ _ (Nat.le_trans _ _ _ (suffix_length _ _ Ha) (le_S_n _ _ Hn)) (well_set_insert _ _ _ _ _ Hm Hk E) Hp) as [Hw Hs].
    split; [done|]. apply suffix_cons_r. by etrans. }
  assert (Ht : forall v args', args = v :: args' -> suffix args' args) by (intros v args' ->; by apply suffix_cons_r).
  destruct (formal fs name) as [[]|] eqn:Ek; [..|done]; cbv zeta.
  - destruct value as [v|]; [by apply (Hgo StringFlag)|]. destruct args as [|v args]; [done|].
    apply (Hgo StringFlag); [done|by eapply Ht].
  - by apply (Hgo BoolFlag).
  - destruct value as [v|]; [by apply (Hgo DurationFlag)|]. destruct args as [|v args]; [done|].
    apply (Hgo DurationFlag); [done|by eapply Ht].
Qed.

(** What is left is the end of the command line, and what was set reads. *)
Lemma Parse_well_set fs args m rest : Parse fs args ∅ = Ok (m, rest) -> well_set fs m /\ suffix rest args.
Proof. apply (Parse_well_set_aux fs (length args)); [done|]. intros n v Hn. exfalso. exact (lookup_empty_Some n v Hn). Qed.

(** A boolean flag is on only if an argument named it. *)
Lemma bool_flag_set m name : bool_flag m name = true -> exists v, m !! name = Some v /\ ParseBool v = Some true.
Proof. unfold bool_flag. destruct (m !! name) as [v|]; [|done]. cbn. intros Hb. exists v. split; [done|]. destruct (ParseBool v); [cbn in Hb; by rewrite Hb|done]. Qed.

Lemma duration_flag_int64 m name d : in_int64 d -> in_int64 (duration_flag m name d).
Proof.
  intros Hd. unfold duration_flag. destruct (m !! name) as [v|]; [|done]. cbn [mbind option_bind].
  destruct (ParseDuration v) eqn:E; [|done]. exact (ParseDuration_int64 _ _ E).
Qed.

Definition sample_flags : flag_set := [("out", StringFlag); ("stale", DurationFlag); ("send", BoolFlag)].
Example parse_some : Parse sample_flags ["-out"; "f"; "--stale=2s"; "-send"; "x"; "-send"] ∅
  = Ok (<["send" := "true"]> (<["stale" := "2s"]> {["out" := "f"]}), ["x"; "-send"]).
Proof. vm_compute. reflexivity. Qed.
Example parse_bad : Parse sample_flags ["-send"; "-stale"; "soon"] ∅ = Err FlagValue /\ Parse sample_flags ["-h"] ∅ = Err FlagHelp /\
  Parse sample_flags ["--=x"] ∅ = Err FlagSyntax /\ Parse sample_flags ["-out"] ∅ = Err FlagNeedsArgument /\
  Parse sample_flags ["--"; "-out"] ∅ = Ok (∅, ["-out"]).
Proof. vm_compute. repeat split. Qed.
