(* ===== verification/Scanner.v ===== *)
(** Go's [bufio.Scanner] with [ScanLines], as the commands read their inputs
    with. *)

From Stdlib Require Import Ascii.
From S2P Require Import Prelude GoStr Quotes.
Local Open Scope Z_scope.

Inductive scan_end := ScanEOF | ScanTooLong | ScanFailed.

(** The lines a scanner with a buffer of [max] bytes yields, and how it ends;
    [failed] says whether reading ends with an error. *)
Fixpoint scanned (max : Z) (failed : bool) (lines : list string) : list string * scan_end :=
  match lines with
  | [] => ([], if failed then ScanFailed else ScanEOF)
  | l :: lines =>
      if max <=? Z.of_nat (String.length l) then ([], ScanTooLong)
      else let '(out, e) := scanned max failed lines in (drop_cr l :: out, e)
  end.
Definition Scan (max : Z) (failed : bool) (text : string) : list string * scan_end :=
  scanned max failed (complete_lines (Split newline_char text)).

(** [bufio.MaxScanTokenSize]. *)
Definition MaxScanTokenSize : Z := 65536.

Example scan_some : Scan 5 false ("ab" +:+ String newline_char ("" +:+ String newline_char "c")) = (["ab"; ""; "c"], ScanEOF) /\
  Scan 5 true ("abcd" +:+ String newline_char "abcde") = (["abcd"], ScanTooLong).
Proof. vm_compute. by split. Qed.
