(* ===== verification/Ingress.v ===== *)
(** The ingress of the fill lane: [src/internal/reader/reader.go] and, of
    [src/cmd/fillwire/main.go], [ingressPipeline] and the life of
    [runWithDependencies] from the start of its goroutines to its return.

    Each goroutine is a program over the calls it makes: contexts, channels,
    the KIS connection, and the queue's [XADD].  The decoder is [Decode] of the
    library, called by the goroutine that owns it.  The loops run until a
    context ends or a channel is closed; they have as many [rounds] as asked
    for.  Logging is left out. *)

From S2P Require Import Prelude GoStr Decode Stream Approval Prog.
Local Open Scope Z_scope.

(** ** Errors *)

(** What the websocket client fails with: its text, and which of the errors
    the program asks for it wraps. *)
Record conn_error : Set := mkConnError {
  ce_text : string; ce_session_occupied : bool; ce_cache_only : bool; ce_approval_config : bool
}.

(** [ws.ReconnectInfo]. *)
Record ReconnectInfo : Set := mkReconnectInfo { ri_Stopped : bool; ri_Err : option conn_error }.

(** The errors of [Reader.Run]. *)
Inductive reader_error : Set :=
| ErrEndpoint | ErrHTSID
| RdConn (e : conn_error)
| RdTerminal
| ErrEventsClosed (cause : option conn_error).

(** The errors of the pipeline: its contexts' ends, or a failed [XADD]. *)
Inductive ingress_error : Set := IngDependencies | IngCanceled | IngDeadline | IngXAdd (text : string).

(** What [runWithDependencies] returns; the sink and the refresh loop fail
    with an error of their own. *)
Inductive stop_error : Set :=
| SEventsClosed
| SReader (e : reader_error)
| SIngress (e : ingress_error)
| SRunner (text : string) (canceled : bool)
| SRefresh (cache_only config : bool).

(** ** [exitcode] and [ProcessExitCode] *)

Definition exitOK : Z := 0.
Definition exitFailure : Z := 1.
Definition exitUsage : Z := 2.
Definition exitSessionOccupied : Z := 42.
Definition exitConfig : Z := 78.
Definition ExitCodeSessionOccupied : Z := exitSessionOccupied.
Definition ExitCodeCacheOnlyApprovalUnavailable : Z := exitConfig.
Definition ExitCodeConfiguration : Z := exitConfig.

(** [errors.Is] for the three errors [ProcessExitCode] asks for. *)
Definition reader_conn (e : reader_error) : option conn_error :=
  match e with RdConn e => Some e | ErrEventsClosed cause => cause | _ => None end.
Definition stop_conn (e : stop_error) : option conn_error :=
  match e with SReader e => reader_conn e | _ => None end.
Definition is_cache_only (e : stop_error) : bool :=
  match e with
  | SReader RdTerminal => true
  | SRefresh cache_only _ => cache_only
  | e => match stop_conn e with Some c => ce_cache_only c | None => false end
  end.
Definition is_approval_config (e : stop_error) : bool :=
  match e with
  | SRefresh _ config => config
  | e => match stop_conn e with Some c => ce_approval_config c | None => false end
  end.
Definition is_session_occupied (e : stop_error) : bool :=
  match stop_conn e with Some c => ce_session_occupied c | None => false end.

Definition ProcessExitCode (e : stop_error) : Z :=
  if is_cache_only e then ExitCodeCacheOnlyApprovalUnavailable
  else if is_approval_config e then ExitCodeConfiguration
  else if is_session_occupied e then ExitCodeSessionOccupied
  else exitFailure.

(** ** What reconnects left behind *)

(** [reconnectState]; [record] answers whether the outcome was taken over. *)
Record reconnectState : Set := mkReconnectState { rc_info : ReconnectInfo; rc_seen : bool }.
Definition no_reconnect : reconnectState := mkReconnectState (mkReconnectInfo false None) false.
Definition record (info : ReconnectInfo) (s : reconnectState) : reconnectState * bool :=
  if rc_seen s && ri_Stopped (rc_info s) && negb (ri_Stopped info) then (s, false)
  else (mkReconnectState info true, true).
Definition stoppedError (s : reconnectState) : reader_error :=
  match ri_Err (rc_info s) with
  | Some e => if rc_seen s then ErrEventsClosed (Some e) else ErrEventsClosed None
  | None => ErrEventsClosed None
  end.

(** ** The calls *)

(** What a [select] found ready. *)
Inductive read_signal : Type := RdDone | RdFailure | RdEvent (e : KisEvent) | RdClosed.
Inductive send_signal : Set := Sent | SendDone | SendFailure.
Inductive event_signal : Type := EvDone | EvClosed | EvGot (e : KisEvent).
Inductive record_signal : Type := RecDone | RecClosed | RecGot (r : LedgerRecord).
Inductive main_signal : Set :=
| MSignal | MReader (e : option reader_error) | MIngress (e : option ingress_error)
| MRunner (e : option stop_error) | MRefresh (e : stop_error).
Inductive drain_signal : Set := DrIngress (e : option ingress_error) | DrExpired.
Inductive runner_signal : Set := RnDone (e : option stop_error) | RnTimeout.

(** The context of an [XADD]. *)
Inductive queue_ctx : Set := WorkerCtx | DrainCtx.

Inductive op : Set -> Type :=
(* the reader *)
| ReaderErr : op bool
| Dial (endpoint : string) : op (option conn_error)
| CacheOnlyFailure : op bool
| Subscribe (tr key : string) : op (option conn_error)
| SelectReader : op read_signal
| GetReconnect : op reconnectState
| OnBook (e : KisEvent) : op unit
| SelectSend (e : KisEvent) : op send_signal
| CloseConn : op unit
| PutReaderDone (e : option reader_error) : op unit
| CloseEvents : op unit
(* the decoder and the queue's goroutine *)
| WorkerErr : op bool
| SelectEvents : op event_signal
| Panic : op Empty_set
| SelectRecord (r : LedgerRecord) : op bool
| CloseRecords : op unit
| CloseDecoderDone : op unit
| GoDecoder : op unit
| AwaitGo : op unit
| SelectRecords : op record_signal
| EnqueueContext : op queue_ctx
| Enqueue (c : queue_ctx) (r : LedgerRecord) : op (option string)
| CtxErr (c : queue_ctx) : op (option ingress_error)
| WaitDecoder : op unit
| StopWorker : op unit
| PutIngressDone (e : option ingress_error) : op unit
(* the main goroutine *)
| SelectMain : op main_signal
| HaltQuotes : op unit
| StopReader : op unit
| StopRunner : op unit
| RecvReaderDone : op (option reader_error)
| NewDrain : op unit
| BeginDrain : op unit
| ArmStop : op unit
| AwaitDrain : op bool
| SelectIngress : op drain_signal
| LenEvents : op nat
| LenRecords : op nat
| DrainDropped (n : Z) : op unit
| DisarmStop : op unit
| CancelDrain : op unit
| SelectRunner : op runner_signal
| WaitQuotes : op unit
| Returned (e : option stop_error) : op unit.
Notation program := (prog op).

(** ** The configuration *)

(** go-kis's endpoints and execution subscriptions. *)
Class KisSocket := {
  EndpointLive : string; EndpointVTS : string; TRExecutionLive : string; TRExecutionVTS : string
}.
Definition bookTR : string := "H0STASP0".

(** [reader.Config], as far as [Run] reads it; [rd_observes]: the approval
    provider reports a permanent loss of its key. *)
Record reader_config := mkReaderConfig {
  rd_Endpoint : string; rd_HTSID : string; rd_BookSymbols : list string; rd_OnBook : bool; rd_observes : bool
}.

Section Ingress.
Context {kis : GoKis} {socket : KisSocket} (cfg : reader_config) (decoder : Decoder) (rounds : nat).

(** ** The reader *)

Definition endpointAndTR (endpoint : string) : option (string * string) :=
  if endpoint =s "live" then Some (EndpointLive, TRExecutionLive)
  else if endpoint =s "mock" then Some (EndpointVTS, TRExecutionVTS)
  else None.

(** [observer.cacheOnlyFailure() != nil]. *)
Definition terminalFailure : program bool := if rd_observes cfg then call CacheOnlyFailure else mret false.

(** A failed dial or subscription. *)
Definition connectionFailed (e : conn_error) : program (option reader_error) :=
  over ← call ReaderErr;
  if (over : bool) then mret None
  else
    terminal ← terminalFailure;
    mret (Some (if (terminal : bool) then RdTerminal else RdConn e)).

Fixpoint subscribeBooks (symbols : list string) : program unit :=
  match symbols with
  | [] => mret tt
  | symbol :: symbols => call (Subscribe bookTR symbol);; subscribeBooks symbols
  end.

(** The [for] of [Run]. *)
Fixpoint readerLoop (n : nat) : program (option reader_error) :=
  match n with
  | O => OutOfFuel
  | S n =>
      over ← call ReaderErr;
      if (over : bool) then mret None
      else
        s ← call SelectReader;
        match s with
        | RdDone => mret None
        | RdFailure =>
            terminal ← terminalFailure;
            if (terminal : bool) then call CloseConn;; mret (Some RdTerminal) else readerLoop n
        | RdClosed =>
            over ← call ReaderErr;
            if (over : bool) then mret None
            else reconnect ← call GetReconnect; mret (Some (stoppedError reconnect))
        | RdEvent event =>
            if ev_TR event =s bookTR then
              (if rd_OnBook cfg then call (OnBook event) else mret tt);; readerLoop n
            else
              s ← call (SelectSend event);
              match s with
              | Sent => readerLoop n
              | SendDone => mret None
              | SendFailure =>
                  terminal ← terminalFailure;
                  if (terminal : bool) then call CloseConn;; mret (Some RdTerminal) else readerLoop n
              end
        end
  end.

(** [Run], for an output channel that is not nil. *)
Definition readerSubscribed (tr : string) : program (option reader_error) :=
  failed ← call (Subscribe tr (rd_HTSID cfg));
  match failed with
  | Some e => connectionFailed e
  | None => subscribeBooks (rd_BookSymbols cfg);; readerLoop rounds
  end.
Definition readerRun : program (option reader_error) :=
  match endpointAndTR (rd_Endpoint cfg) with
  | None => mret (Some ErrEndpoint)
  | Some (endpoint, tr) =>
      if TrimSpace (rd_HTSID cfg) =s "" then mret (Some ErrHTSID)
      else
        failed ← call (Dial endpoint);
        match failed with
        | Some e => connectionFailed e
        | None => e ← readerSubscribed tr; call CloseConn;; mret e
        end
  end.
(** The reader's goroutine. *)
Definition readerThread : program unit :=
  e ← readerRun; call (PutReaderDone e);; call CloseEvents.

(** ** The pipeline *)

(** [sendRecord]. *)
Definition sendRecord (r : LedgerRecord) : program bool :=
  over ← call WorkerErr;
  if (over : bool) then mret false else call (SelectRecord r).

(** The decoding goroutine of [run]; the counters are the ones it adds to. *)
Fixpoint decodeLoop (n : nat) (d : Decoder) (c : option Counters) : program unit :=
  match n with
  | O => OutOfFuel
  | S n =>
      over ← call WorkerErr;
      if (over : bool) then mret tt
      else
        s ← call SelectEvents;
        match s with
        | EvDone | EvClosed => mret tt
        | EvGot event =>
            match Decode d c event with
            | None => crash ← call Panic; match (crash : Empty_set) with end
            | Some (d, c, None) => decodeLoop n d c
            | Some (d, c, Some r) =>
                sent ← sendRecord r;
                if (sent : bool) then decodeLoop n d c else mret tt
            end
        end
  end.
(** The goroutine: it waits for the [go] statement that starts it. *)
Definition decodeThread : program unit :=
  call AwaitGo;;
  decodeLoop rounds decoder (Some NewCounters);; call CloseRecords;; call CloseDecoderDone.

(** [run], for dependencies that are there. *)
Fixpoint ingressLoop (n : nat) : program (option ingress_error) :=
  match n with
  | O => OutOfFuel
  | S n =>
      over ← call WorkerErr;
      if (over : bool) then call WaitDecoder;; mret (Some IngCanceled)
      else
        s ← call SelectRecords;
        match s with
        | RecDone => call WaitDecoder;; mret (Some IngCanceled)
        | RecClosed => call WaitDecoder;; mret None
        | RecGot r =>
            c ← call EnqueueContext;
            failed ← call (Enqueue c r);
            match failed with
            | None => ingressLoop n
            | Some text =>
                call StopWorker;;
                call WaitDecoder;;
                over ← call (CtxErr c);
                mret (Some (match over with Some e => e | None => IngXAdd text end))
            end
        end
  end.
Definition pipelineRun : program (option ingress_error) :=
  call GoDecoder;;
  e ← ingressLoop rounds;
  call StopWorker;;
  mret e.
Definition ingressThread : program unit := e ← pipelineRun; call (PutIngressDone e).

(** ** The life of [runWithDependencies] *)

(** The first [select]: why it stops, and which goroutine has ended. *)
Definition firstStop (s : main_signal) : option stop_error :=
  match s with
  | MSignal => None
  | MReader None => Some SEventsClosed
  | MReader (Some e) => Some (SReader e)
  | MIngress e => SIngress <$> e
  | MRunner e => e
  | MRefresh e => Some e
  end.
(** A later error counts when there is none yet. *)
Definition orElse (stopErr later : option stop_error) : option stop_error :=
  match stopErr with Some e => Some e | None => later end.

Definition ended_by_context (e : ingress_error) : bool :=
  match e with IngCanceled | IngDeadline => true | _ => false end.
Definition runner_error (e : stop_error) : option stop_error :=
  match e with SRunner _ true => None | e => Some e end.

(** The drain, while the ingress has not ended. *)
Definition drain (stopErr : option stop_error) : program (option stop_error) :=
  s ← call SelectIngress;
  match s with
  | DrIngress None => mret stopErr
  | DrIngress (Some e) => mret (if ended_by_context e then stopErr else orElse stopErr (Some (SIngress e)))
  | DrExpired =>
      call StopWorker;;
      events ← call LenEvents;
      records ← call LenRecords;
      call (DrainDropped (Z.of_nat events + Z.of_nat records));;
      mret stopErr
  end.
Definition awaitRunner (stopErr : option stop_error) : program (option stop_error) :=
  s ← call SelectRunner;
  match s with
  | RnDone (Some e) => mret (orElse stopErr (runner_error e))
  | RnDone None | RnTimeout => mret stopErr
  end.
Definition awaitReader (stopErr : option stop_error) : program (option stop_error) :=
  e ← call RecvReaderDone;
  mret (orElse stopErr (match e with Some e => Some (SReader e) | None => None end)).
Definition mainRun : program (option stop_error) :=
  s ← call SelectMain;
  let stopErr := firstStop s in
  call HaltQuotes;;
  call StopReader;;
  call StopRunner;;
  stopErr ← match s with
            | MReader _ => mret stopErr
            | _ => awaitReader stopErr
            end;
  call NewDrain;;
  call BeginDrain;;
  call ArmStop;;
  stopErr ← match s with MIngress _ => mret stopErr | _ => drain stopErr end;
  call DisarmStop;;
  call CancelDrain;;
  call StopWorker;;
  stopErr ← match s with MRunner _ => mret stopErr | _ => awaitRunner stopErr end;
  call WaitQuotes;;
  mret stopErr.
Definition mainThread : program unit := e ← mainRun; call (Returned e).

(** What [context.AfterFunc] runs once the drain is over, unless it was
    disarmed before. *)
Definition afterDrain : program unit :=
  expired ← call AwaitDrain;
  if (expired : bool) then call StopWorker else mret tt.
End Ingress.
