(* ===== verification/IngressLane.v ===== *)
(** The ingress is in order and loses nothing silently, up to its shutdown:
    the goroutines of [Ingress], interleaved.

    The world is what they share: contexts, channels, and what the queue
    acknowledged.  Each goroutine has a role, a ghost state that says what it
    holds; [ingress_spec] says which calls a role may make; the invariant
    relates the events taken from the socket with the records in the stream. *)

From S2P Require Import Prelude GoStr Decode Stream Approval Prog Ingress.
Local Open Scope Z_scope.

(** ** The decoder does not panic *)

Section decoder.
Context {kis : GoKis}.

Lemma Decode_total d c event : tracker_ok (duplicates d) ->
  exists d' c' r, Decode d c event = Some (d', c', r) /\ tracker_ok (duplicates d').
Proof.
  intros Ht. unfold Decode. destruct (ev_Execution event) as [e|]; [|by eexists _, _, _]. cbv zeta.
  split_if_goal; [by eexists _, _, _|]. split_if_goal; [by eexists _, _, _|]. split_if_goal; [by eexists _, _, _|].
  split_if_goal; [by eexists _, _, _|]. destruct (QtyInt e); [|by eexists _, _, _].
  split_if_goal; [by eexists _, _, _|]. destruct (PriceRat e); [|by eexists _, _, _].
  split_if_goal; [by eexists _, _, _|]. split_if_goal; [by eexists _, _, _|].
  destruct (combineKSTDate _ _) as [t|]; [|by eexists _, _, _].
  destruct (observe_spec (duplicates d) (mkDuplicateKey (TrimSpace (ex_OrderNo e))
    (DeriveFillSeq (ev_Fields event))) Ht) as (dups & k & -> & Hd' & _). cbn [mbind option_bind].
  by eexists _, _, _.
Qed.

Lemma Decode_all_snoc events event : forall d c d1 c1 rs d2 c2 r,
  Decode_all d c events = Some (d1, c1, rs) -> Decode d1 c1 event = Some (d2, c2, r) ->
  Decode_all d c (events ++ [event]) = Some (d2, c2, rs ++ option_list r).
Proof.
  induction events as [|e events IH]; intros d c d1 c1 rs d2 c2 r Ha Hd; cbn [Decode_all app] in *.
  - injection Ha as <- <- <-. rewrite Hd. cbn. by rewrite app_nil_r.
  - destruct (Decode d c e) as [[[d3 c3] r3]|]; [|done]. cbn [mbind option_bind] in *.
    destruct (Decode_all d3 c3 events) as [[[d4 c4] rs4]|] eqn:E; [|done]. cbn [mbind option_bind] in Ha.
    injection Ha as <- <- <-. rewrite (IH _ _ _ _ _ _ _ _ E Hd). cbn. by rewrite app_assoc.
Qed.

(** A longer run extends the records of a shorter one. *)
Lemma Decode_all_app xs : forall ys d c d1 c1 rs, Decode_all d c (xs ++ ys) = Some (d1, c1, rs) ->
  exists d2 c2 rs1 rs2, Decode_all d c xs = Some (d2, c2, rs1) /\ Decode_all d2 c2 ys = Some (d1, c1, rs2) /\ rs = rs1 ++ rs2.
Proof.
  induction xs as [|e xs IH]; intros ys d c d1 c1 rs H; cbn [Decode_all app] in *; [by exists d, c, [], rs|].
  destruct (Decode d c e) as [[[d3 c3] r3]|]; [|done]. cbn [mbind option_bind] in *.
  destruct (Decode_all d3 c3 (xs ++ ys)) as [[[d4 c4] rs4]|] eqn:E; [|done]. cbn [mbind option_bind] in H.
  injection H as <- <- <-. destruct (IH _ _ _ _ _ _ E) as (d2 & c2 & rs1 & rs2 & -> & H2 & ->). cbn.
  exists d2, c2, (option_list r3 ++ rs1), rs2. by rewrite app_assoc.
Qed.
End decoder.

(** ** The shared world *)

(** The contexts: the signal's, the reader's, the runner's and the worker's,
    the drain with whether it is over, whether [XADD] uses it, and whether the
    stop at its end is armed or disarmed. *)
Record flags := mkFlags {
  fl_signal : bool; fl_reader : bool; fl_runner : bool; fl_worker : bool; fl_drain : option bool; fl_begun : bool;
  fl_armed : bool; fl_disarmed : bool
}.
(** The channels; a channel of one error is an [option]. *)
Record pipes := mkPipes {
  p_events : list KisEvent; p_events_closed : bool;
  p_records : list LedgerRecord; p_records_closed : bool; p_started : bool; p_decoder_done : bool;
  p_reader_done : option (option reader_error); p_ingress_done : option (option ingress_error)
}.
(** For the theorems: the events other than books that the reader took from
    the socket, those the decoder received, the records an [XADD] was tried
    with, and those it was acknowledged for. *)
Record flow := mkFlow {
  fw_taken : list KisEvent; fw_received : list KisEvent; fw_tried : list LedgerRecord; fw_added : list LedgerRecord
}.
Record ingress_world := mkIngressWorld {
  iw_flags : flags; iw_pipes : pipes; iw_flow : flow;
  iw_reconnect : reconnectState; iw_terminal : bool; iw_dropped : Z; iw_returned : option (option stop_error)
}.

(** What the environment chooses: which ready case a [select] takes, what the
    socket, the queue and the other goroutines answer, and, on its own moves,
    a signal, the end of the drain, a reconnect, the loss of the key. *)
Record ingress_choice := mkIngressChoice {
  ic_case : nat; ic_event : KisEvent; ic_conn : option conn_error; ic_failed : option string;
  ic_stop : option stop_error; ic_signal : bool; ic_expire : bool; ic_reconnect : option ReconnectInfo; ic_terminal : bool
}.

Definition set_flags (f : flags) (w : ingress_world) : ingress_world :=
  let 'mkIngressWorld _ p fw rc t d r := w in mkIngressWorld f p fw rc t d r.
Definition set_pipes (p : pipes) (fw : flow) (w : ingress_world) : ingress_world :=
  let 'mkIngressWorld f _ _ rc t d r := w in mkIngressWorld f p fw rc t d r.
Definition stop_reader (f : flags) : flags :=
  let 'mkFlags s _ rn wk dr bg ar di := f in mkFlags s true rn wk dr bg ar di.
Definition stop_runner (f : flags) : flags :=
  let 'mkFlags s r _ wk dr bg ar di := f in mkFlags s r true wk dr bg ar di.
Definition stop_worker (f : flags) : flags :=
  let 'mkFlags s r rn _ dr bg ar di := f in mkFlags s r rn true dr bg ar di.
Definition set_drain (over : bool) (f : flags) : flags :=
  let 'mkFlags s r rn wk _ bg ar di := f in mkFlags s r rn wk (Some over) bg ar di.
Definition begin_drain (f : flags) : flags :=
  let 'mkFlags s r rn wk dr _ ar di := f in mkFlags s r rn wk dr true ar di.
Definition arm_stop (f : flags) : flags :=
  let 'mkFlags s r rn wk dr bg _ di := f in mkFlags s r rn wk dr bg true di.
Definition drain_over (f : flags) : bool := match fl_drain f with Some over => over | None => false end.
(** A stop whose drain is over runs already, and can not be disarmed. *)
Definition disarm_stop (f : flags) : flags :=
  let 'mkFlags s r rn wk dr bg ar _ := f in mkFlags s r rn wk dr bg ar (negb (drain_over f)).
Definition environment_flags (c : ingress_choice) (f : flags) : flags :=
  let 'mkFlags s r rn wk dr bg ar di := f in
  mkFlags (s || ic_signal c) r rn wk (match dr with Some over => Some (over || ic_expire c) | None => None end) bg ar di.

Definition take_from_socket (e : KisEvent) (fw : flow) : flow :=
  if ev_TR e =s bookTR then fw
  else let 'mkFlow t r tr ad := fw in mkFlow (t ++ [e]) r tr ad.
Definition receive (e : KisEvent) (fw : flow) : flow :=
  let 'mkFlow t r tr ad := fw in mkFlow t (r ++ [e]) tr ad.
Definition try_add (r : LedgerRecord) (failed : bool) (fw : flow) : flow :=
  let 'mkFlow t rc tr ad := fw in mkFlow t rc (tr ++ [r]) (if failed then ad else ad ++ [r]).

Definition set_events (es : list KisEvent) (closed : bool) (p : pipes) : pipes :=
  let 'mkPipes _ _ rs rc st dd rd ig := p in mkPipes es closed rs rc st dd rd ig.
Definition set_records (rs : list LedgerRecord) (closed : bool) (p : pipes) : pipes :=
  let 'mkPipes es ec _ _ st dd rd ig := p in mkPipes es ec rs closed st dd rd ig.
Definition set_started (st dd : bool) (p : pipes) : pipes :=
  let 'mkPipes es ec rs rc _ _ rd ig := p in mkPipes es ec rs rc st dd rd ig.
Definition set_reader_done (rd : option (option reader_error)) (p : pipes) : pipes :=
  let 'mkPipes es ec rs rc st dd _ ig := p in mkPipes es ec rs rc st dd rd ig.
Definition set_ingress_done (ig : option (option ingress_error)) (p : pipes) : pipes :=
  let 'mkPipes es ec rs rc st dd rd _ := p in mkPipes es ec rs rc st dd rd ig.

Section world.
Context {kis : GoKis} (cfg : reader_config) (buffer : nat).

(** The world's answers; [None] blocks the goroutine. *)
Definition ingress_answer (w : ingress_world) (c : ingress_choice) (R : Set) (o : op R) : option (ingress_world * R) :=
  let f := iw_flags w in let p := iw_pipes w in let fw := iw_flow w in
  match o in op R return option (ingress_world * R) with
  | ReaderErr => Some (w, fl_reader f)
  | Dial _ | Subscribe _ _ => Some (w, ic_conn c)
  | CacheOnlyFailure => Some (w, iw_terminal w)
  | SelectReader =>
      match ic_case c with
      | 0%nat => if fl_reader f then Some (w, RdDone) else None
      | 1%nat => if rd_observes cfg && iw_terminal w then Some (w, RdFailure) else None
      | 2%nat => Some (set_pipes p (take_from_socket (ic_event c) fw) w, RdEvent (ic_event c))
      | _ => Some (w, RdClosed)
      end
  | GetReconnect => Some (w, iw_reconnect w)
  | OnBook _ | CloseConn | HaltQuotes | WaitQuotes => Some (w, tt)
  | SelectSend e =>
      match ic_case c with
      | 0%nat => if (length (p_events p) <? buffer)%nat
                 then Some (set_pipes (set_events (p_events p ++ [e]) (p_events_closed p) p) fw w, Sent) else None
      | 1%nat => if fl_reader f then Some (w, SendDone) else None
      | _ => if rd_observes cfg && iw_terminal w then Some (w, SendFailure) else None
      end
  | PutReaderDone e =>
      match p_reader_done p with
      | None => Some (set_pipes (set_reader_done (Some e) p) fw w, tt)
      | Some _ => None
      end
  | CloseEvents => Some (set_pipes (set_events (p_events p) true p) fw w, tt)
  | WorkerErr => Some (w, fl_worker f)
  | SelectEvents =>
      match ic_case c, p_events p with
      | 0%nat, _ => if fl_worker f then Some (w, EvDone) else None
      | _, e :: es => Some (set_pipes (set_events es (p_events_closed p) p) (receive e fw) w, EvGot e)
      | _, [] => if p_events_closed p then Some (w, EvClosed) else None
      end
  | Panic => None
  | SelectRecord r =>
      match ic_case c with
      | 0%nat => if (length (p_records p) <? buffer)%nat
                 then Some (set_pipes (set_records (p_records p ++ [r]) (p_records_closed p) p) fw w, true) else None
      | _ => if fl_worker f then Some (w, false) else None
      end
  | CloseRecords => Some (set_pipes (set_records (p_records p) true p) fw w, tt)
  | CloseDecoderDone => Some (set_pipes (set_started (p_started p) true p) fw w, tt)
  | GoDecoder => Some (set_pipes (set_started true (p_decoder_done p) p) fw w, tt)
  | AwaitGo => if p_started p then Some (w, tt) else None
  | SelectRecords =>
      match ic_case c, p_records p with
      | 0%nat, _ => if fl_worker f then Some (w, RecDone) else None
      | _, r :: rs => Some (set_pipes (set_records rs (p_records_closed p) p) fw w, RecGot r)
      | _, [] => if p_records_closed p then Some (w, RecClosed) else None
      end
  | EnqueueContext => Some (w, if fl_begun f then DrainCtx else WorkerCtx)
  | Enqueue _ r => Some (set_pipes p (try_add r (bool_decide (ic_failed c <> None)) fw) w, ic_failed c)
  | CtxErr WorkerCtx => Some (w, if fl_worker f then Some IngCanceled else None)
  | CtxErr DrainCtx =>
      Some (w, if drain_over f then Some (if ic_signal c then IngCanceled else IngDeadline) else None)
  | WaitDecoder => if p_decoder_done p then Some (w, tt) else None
  | StopWorker => Some (set_flags (stop_worker f) w, tt)
  | PutIngressDone e =>
      match p_ingress_done p with
      | None => Some (set_pipes (set_ingress_done (Some e) p) fw w, tt)
      | Some _ => None
      end
  | SelectMain =>
      match ic_case c, ic_stop c with
      | 0%nat, _ => if fl_signal f then Some (w, MSignal) else None
      | 1%nat, _ => match p_reader_done p with
                    | Some e => Some (set_pipes (set_reader_done None p) fw w, MReader e)
                    | None => None
                    end
      | 2%nat, _ => match p_ingress_done p with
                    | Some e => Some (set_pipes (set_ingress_done None p) fw w, MIngress e)
                    | None => None
                    end
      | 3%nat, Some e => Some (w, MRefresh e)
      | _, e => Some (w, MRunner e)
      end
  | StopReader => Some (set_flags (stop_reader f) w, tt)
  | StopRunner => Some (set_flags (stop_runner f) w, tt)
  | RecvReaderDone =>
      match p_reader_done p with
      | Some e => Some (set_pipes (set_reader_done None p) fw w, e)
      | None => None
      end
  | NewDrain => Some (set_flags (set_drain false f) w, tt)
  | BeginDrain => Some (set_flags (begin_drain f) w, tt)
  | ArmStop => Some (set_flags (arm_stop f) w, tt)
  | AwaitDrain =>
      if negb (fl_armed f) then None
      else if fl_disarmed f then Some (w, false)
      else if drain_over f then Some (w, true) else None
  | SelectIngress =>
      match ic_case c with
      | 0%nat => match p_ingress_done p with
                 | Some e => Some (set_pipes (set_ingress_done None p) fw w, DrIngress e)
                 | None => None
                 end
      | _ => if drain_over f then Some (w, DrExpired) else None
      end
  | LenEvents => Some (w, length (p_events p))
  | LenRecords => Some (w, length (p_records p))
  | DrainDropped n =>
      let 'mkIngressWorld f p fw rc t d r := w in
      Some (mkIngressWorld f p fw rc t (wrapu64 (d + n)) r, tt)
  | DisarmStop => Some (set_flags (disarm_stop f) w, tt)
  | CancelDrain => Some (set_flags (set_drain true f) w, tt)
  | SelectRunner => Some (w, match ic_case c with 0%nat => RnDone (ic_stop c) | _ => RnTimeout end)
  | Returned e =>
      let 'mkIngressWorld f p fw rc t d _ := w in
      Some (mkIngressWorld f p fw rc t d (Some e), tt)
  end.

(** A move of the environment. *)
Definition ingress_environment (w : ingress_world) (c : ingress_choice) : option ingress_world :=
  let 'mkIngressWorld f p fw rc t d r := w in
  Some (mkIngressWorld (environment_flags c f) p fw
          (match ic_reconnect c with Some info => fst (record info rc) | None => rc end) (t || ic_terminal c) d r).
End world.

(** ** Roles *)

(** What the queue's goroutine has in hand, or the record whose [XADD]
    failed. *)
Inductive holding : Type := Idle | Holding (r : LedgerRecord) | Failed (r : LedgerRecord).

(** The reader: the event it has in hand or gave up, whether the key was
    reported lost, and whether it closed its channel.  The decoder: its state,
    the record in hand or given up, whether it saw its worker stopped, the
    events' end, and whether it closed its channel. *)
Inductive role : Type :=
| RMain
| RReader (tail : option KisEvent) (failing closed : bool)
| RIngress (st : holding)
| RDecoder (d : Decoder) (c : option Counters) (hand : option LedgerRecord) (over ended closed : bool)
| RHelper.

Section roles.
Context {kis : GoKis} {socket : KisSocket} (cfg : reader_config) (decoder : Decoder) (rounds buffer : nat).

Definition ingress_may (g : role) (R : Set) (o : op R) : Prop :=
  match g with
  | RMain =>
      match o with
      | SelectMain | HaltQuotes | StopReader | StopRunner | RecvReaderDone | NewDrain | BeginDrain | ArmStop
      | SelectIngress | LenEvents | LenRecords | DrainDropped _ | DisarmStop | CancelDrain | StopWorker
      | SelectRunner | WaitQuotes | Returned _ => True
      | _ => False
      end
  | RHelper => match o with AwaitDrain | StopWorker => True | _ => False end
  | RReader tail _ closed =>
      match o with
      | SelectReader => tail = None /\ closed = false
      | SelectSend e => tail = Some e /\ closed = false
      | CloseEvents => closed = false
      | ReaderErr | Dial _ | Subscribe _ _ | CacheOnlyFailure | GetReconnect | OnBook _ | CloseConn
      | PutReaderDone _ => True
      | _ => False
      end
  | RIngress st =>
      match o with
      | SelectRecords => st = Idle
      | Enqueue _ r => st = Holding r
      | WorkerErr | EnqueueContext | CtxErr _ | WaitDecoder | StopWorker | GoDecoder | PutIngressDone _ => True
      | _ => False
      end
  | RDecoder _ _ hand over ended closed =>
      match o with
      | SelectEvents => hand = None /\ closed = false
      | SelectRecord r => hand = Some r /\ closed = false
      | CloseRecords => closed = false /\ (over = true \/ ended = true)
      | AwaitGo | WorkerErr | CloseDecoderDone => True
      | _ => False
      end
  end.
Definition ingress_answers (g : role) (R : Set) (o : op R) : R -> Prop :=
  match g with
  | RReader _ failing _ =>
      match o in op R return R -> Prop with
      | CacheOnlyFailure => fun b => failing = true -> b = true
      | SelectReader => fun s => match s with RdFailure => rd_observes cfg = true | _ => True end
      | SelectSend _ => fun s => match s with SendFailure => rd_observes cfg = true | _ => True end
      | _ => fun _ => True
      end
  | _ => fun _ => True
  end.

Definition reader_step (tail : option KisEvent) (failing closed : bool) {R : Set} (o : op R) : R -> role :=
  match o in op R return R -> role with
  | SelectReader => fun s =>
      match s with
      | RdEvent e => RReader (if ev_TR e =s bookTR then tail else Some e) failing closed
      | RdFailure => RReader tail true closed
      | _ => RReader tail failing closed
      end
  | SelectSend _ => fun s =>
      match s with
      | Sent => RReader None failing closed
      | SendFailure => RReader tail true closed
      | SendDone => RReader tail failing closed
      end
  | CloseEvents => fun _ => RReader tail failing true
  | _ => fun _ => RReader tail failing closed
  end.
Definition queue_step (st : holding) {R : Set} (o : op R) : R -> role :=
  match o in op R return R -> role with
  | SelectRecords => fun s => match s with RecGot r => RIngress (Holding r) | _ => RIngress st end
  | Enqueue _ r => fun failed => RIngress (match failed with None => Idle | Some _ => Failed r end)
  | _ => fun _ => RIngress st
  end.
Definition decoder_step (d : Decoder) (c : option Counters) (hand : option LedgerRecord) (over ended closed : bool)
  {R : Set} (o : op R) : R -> role :=
  match o in op R return R -> role with
  | WorkerErr => fun b => RDecoder d c hand (over || b) ended closed
  | SelectEvents => fun s =>
      match s with
      | EvDone => RDecoder d c hand true ended closed
      | EvClosed => RDecoder d c hand over true closed
      | EvGot e =>
          match Decode d c e with
          | Some (d, c, r) => RDecoder d c r over ended closed
          | None => RDecoder d c hand over ended closed
          end
      end
  | SelectRecord _ => fun sent =>
      if sent : bool then RDecoder d c None over ended closed else RDecoder d c hand true ended closed
  | CloseRecords => fun _ => RDecoder d c hand over ended true
  | _ => fun _ => RDecoder d c hand over ended closed
  end.
Definition ingress_step (g : role) {R : Set} (o : op R) (x : R) : role :=
  match g with
  | RMain => RMain
  | RHelper => RHelper
  | RReader tail failing closed => reader_step tail failing closed o x
  | RIngress st => queue_step st o x
  | RDecoder d c hand over ended closed => decoder_step d c hand over ended closed o x
  end.
Definition ingress_spec : spec op role := {|
  allowed := ingress_may;
  answers := ingress_answers;
  update g e := let 'Event o x := e in ingress_step g o x;
  may_run_out := True
|}.
Notation follows := (Prog.follows ingress_spec).
Notation keeps g p Q := (wp ingress_spec g p Q).

Ltac step := wp_step; [first [done | split; done | idtac]|cbn [update ingress_spec ingress_step reader_step queue_step decoder_step] in *].

(** *** The main goroutine and its helper *)

Lemma main_follows : follows RMain mainThread.
Proof.
  unfold mainThread, Prog.follows. eapply wp_use with (P := fun g _ => g = RMain).
  2: { cbv beta. intros g e ->. by step. }
  unfold mainRun. step. cbv zeta. step. step. step.
  eapply wp_use with (P := fun g _ => g = RMain).
  { destruct r; try (by wp_step); unfold awaitReader; step; by wp_step. }
  cbv beta. intros g e1 ->. step. step. step.
  eapply wp_use with (P := fun g _ => g = RMain).
  { destruct r; try (by wp_step); unfold drain; step; repeat first [by wp_step|step|wp_step]. }
  cbv beta. intros g e2 ->. step. step. step.
  eapply wp_use with (P := fun g _ => g = RMain).
  { destruct r; try (by wp_step); unfold awaitRunner; step; repeat first [by wp_step|step|wp_step]. }
  cbv beta. intros g e3 ->. step. by wp_step.
Qed.
Lemma helper_follows : follows RHelper afterDrain.
Proof. unfold afterDrain, Prog.follows. step. wp_step; [by step|by wp_step]. Qed.

(** *** The reader *)

Definition reading (g : role) : Prop := exists tail failing, g = RReader tail failing false.
Lemma terminal_reading tail failing : keeps (RReader tail failing false) (terminalFailure cfg) (fun g b =>
  g = RReader tail failing false /\ (failing = true -> rd_observes cfg = true -> b = true)).
Proof.
  unfold terminalFailure. destruct (rd_observes cfg); [|by wp_step; split].
  step. cbn in *. split; [done|]. intros Hf _. auto.
Qed.
Lemma failed_reading tail failing e :
  keeps (RReader tail failing false) (connectionFailed cfg e) (fun g _ => reading g).
Proof.
  unfold connectionFailed. step. wp_step; [wp_step; by eexists _, _|].
  eapply wp_use; [apply terminal_reading|]. cbv beta. intros g b [-> _]. wp_step. by eexists _, _.
Qed.
Lemma books_reading symbols : keeps (RReader None false false) (subscribeBooks symbols)
  (fun g _ => g = RReader None false false).
Proof. induction symbols as [|s symbols IH]; cbn [subscribeBooks]; [done|]. by step. Qed.

(** The stop after a failure that was reported. *)
Lemma stop_reading tail (k : program (option reader_error)) :
  rd_observes cfg = true ->
  keeps (RReader tail true false)
    (terminal ← terminalFailure cfg; if (terminal : bool) then call CloseConn;; mret (Some RdTerminal) else k)
    (fun g _ => reading g).
Proof.
  intros Ho. eapply wp_use; [apply terminal_reading|]. cbv beta. intros g b [-> Hb]. rewrite (Hb eq_refl Ho).
  step. wp_step. by eexists _, _.
Qed.
Lemma readerLoop_reading n : forall failing,
  keeps (RReader None failing false) (readerLoop cfg n) (fun g _ => reading g).
Proof.
  induction n as [|n IH]; intros failing; cbn [readerLoop]; [done|]. step. wp_step; [wp_step; by eexists _, _|].
  step. wp_step.
  - wp_step. by eexists _, _.
  - cbn in *. by apply stop_reading.
  - wp_step.
    + wp_step. wp_step; [step; apply IH|wp_step; apply IH].
    + step. wp_step; [apply IH|wp_step; by eexists _, _|]. cbn in *. by apply stop_reading.
  - step. wp_step; [wp_step; by eexists _, _|]. step. wp_step. by eexists _, _.
Qed.
Lemma socket_follows : follows (RReader None false false) (readerThread cfg rounds).
Proof.
  unfold readerThread, Prog.follows. eapply wp_use with (P := fun g _ => reading g).
  2: { cbv beta. intros g e (tail & failing & ->). step. by step. }
  unfold readerRun. destruct (endpointAndTR _) as [[endpoint tr]|]; [|wp_step; by eexists _, _].
  wp_step; [wp_step; by eexists _, _|]. step. wp_step; [apply failed_reading|].
  eapply wp_use with (P := fun g _ => reading g).
  - unfold readerSubscribed. step. wp_step; [apply failed_reading|].
    eapply wp_use; [apply books_reading|]. cbv beta. intros g _ ->. apply readerLoop_reading.
  - cbv beta. intros g e (tail & failing & ->). step. wp_step. by eexists _, _.
Qed.

(** *** The queue's goroutine *)

Lemma ingressLoop_keeps n : keeps (RIngress Idle) (ingressLoop n) (fun g _ => exists st, g = RIngress st).
Proof.
  induction n as [|n IH]; cbn [ingressLoop]; [done|]. step. wp_step; [step; wp_step; by eexists|]. step.
  wp_step; [step; wp_step; by eexists|step; wp_step; by eexists|]. step. step.
  wp_step; [|done]. step. step. step. wp_step. by eexists.
Qed.
Lemma ingress_follows : follows (RIngress Idle) (ingressThread rounds).
Proof.
  unfold ingressThread, pipelineRun, Prog.follows. eapply wp_use with (P := fun g _ => exists st, g = RIngress st).
  - step. eapply wp_use; [apply ingressLoop_keeps|]. cbv beta. intros g e [st ->]. step. wp_step. by eexists.
  - cbv beta. intros g e [st ->]. by step.
Qed.

(** *** The decoder *)

Definition decoding_over (g : role) : Prop :=
  exists d c hand over ended, g = RDecoder d c hand over ended false /\ (over = true \/ ended = true).
Lemma decodeLoop_keeps n : forall d c, tracker_ok (duplicates d) ->
  keeps (RDecoder d c None false false false) (decodeLoop n d c) (fun g _ => decoding_over g).
Proof.
  induction n as [|n IH]; intros d c Ht; cbn [decodeLoop]; [done|]. step.
  wp_step; [wp_step; eexists _, _, _, _, _; split; [done|by left]|]. step. wp_step.
  - wp_step. eexists _, _, _, _, _. split; [done|by left].
  - wp_step. eexists _, _, _, _, _. split; [done|by right].
  - destruct (Decode_total d c e Ht) as (d' & c' & x & E & Ht'). rewrite E. destruct x as [x|]; [|by apply IH].
    unfold sendRecord. wp_step. step.
    wp_step; [wp_step; wp_step; eexists _, _, _, _, _; split; [done|by left]|]. step.
    wp_step; [by apply IH|wp_step; eexists _, _, _, _, _; split; [done|by left]].
Qed.
Lemma decode_follows : tracker_ok (duplicates decoder) ->
  follows (RDecoder decoder (Some NewCounters) None false false false) (decodeThread decoder rounds).
Proof.
  intros Ht. unfold decodeThread, Prog.follows. step. eapply wp_use; [by apply decodeLoop_keeps|]. cbv beta.
  intros g _ (d & c & hand & over & ended & -> & Ho). step. by step.
Qed.

(** ** The invariant *)

Definition held (st : holding) : list LedgerRecord := match st with Holding r => [r] | _ => [] end.
Definition failed (st : holding) : list LedgerRecord := match st with Failed r => [r] | _ => [] end.

(** What the world and the roles say of each other. *)
Record accounted (w : ingress_world) (tail : option KisEvent) (failing rclosed : bool) (st : holding)
  (d : Decoder) (c : option Counters) (hand : option LedgerRecord) (over ended dclosed : bool) : Prop := {
  ac_events : fw_taken (iw_flow w) = fw_received (iw_flow w) ++ p_events (iw_pipes w) ++ option_list tail;
  ac_records : Decode_all decoder (Some NewCounters) (fw_received (iw_flow w)) =
    Some (d, c, fw_tried (iw_flow w) ++ held st ++ p_records (iw_pipes w) ++ option_list hand);
  ac_tried : fw_tried (iw_flow w) = fw_added (iw_flow w) ++ failed st;
  ac_room : (length (p_events (iw_pipes w)) <= buffer)%nat /\ (length (p_records (iw_pipes w)) <= buffer)%nat;
  ac_failing : failing = true -> iw_terminal w = true;
  ac_over : over = true -> fl_worker (iw_flags w) = true;
  ac_ended : ended = true -> p_events_closed (iw_pipes w) = true /\ p_events (iw_pipes w) = [] /\ hand = None;
  ac_closed : p_events_closed (iw_pipes w) = rclosed;
  ac_rclosed : p_records_closed (iw_pipes w) = dclosed /\ (dclosed = true -> over = true \/ ended = true)
}.

(** What none of the conditions reads may change. *)
Lemma accounted_same w w' tail failing rclosed st d c hand over ended dclosed :
  accounted w tail failing rclosed st d c hand over ended dclosed ->
  iw_flow w' = iw_flow w -> p_events (iw_pipes w') = p_events (iw_pipes w) ->
  p_events_closed (iw_pipes w') = p_events_closed (iw_pipes w) ->
  p_records (iw_pipes w') = p_records (iw_pipes w) ->
  p_records_closed (iw_pipes w') = p_records_closed (iw_pipes w) ->
  (iw_terminal w = true -> iw_terminal w' = true) ->
  (fl_worker (iw_flags w) = true -> fl_worker (iw_flags w') = true) ->
  accounted w' tail failing rclosed st d c hand over ended dclosed.
Proof. intros [] E1 E2 E3 E4 E5 Ht Hw. constructor; rewrite ?E1, ?E2, ?E3, ?E4, ?E5; auto. Qed.

Ltac same_world := repeat match goal with
  | w : ingress_world |- _ => destruct w
  | f : flags |- _ => destruct f
  | p : pipes |- _ => destruct p
  end; by eapply accounted_same.

(** The main goroutine and the helper touch none of it. *)
Lemma quiet_answer w tail failing rclosed st d c hand over ended dclosed g ch R (o : op R) w' x :
  accounted w tail failing rclosed st d c hand over ended dclosed ->
  g = RMain \/ g = RHelper -> ingress_may g R o -> ingress_answer cfg buffer w ch R o = Some (w', x) ->
  accounted w' tail failing rclosed st d c hand over ended dclosed.
Proof.
  intros Ha Hg Ho Hx. destruct Hg as [-> | ->]; destruct o; try done; cbn in Hx;
    repeat match goal with
    | H : (match ?b with _ => _ end) = Some _ |- _ => destruct b eqn:?; try done
    | H : (if ?b then _ else _) = Some _ |- _ => destruct b eqn:?; try done
    end; simplify_eq; same_world.
Qed.

Ltac world_parts := repeat match goal with
  | w : ingress_world |- _ => destruct w
  | f : flags |- _ => destruct f
  | p : pipes |- _ => destruct p
  | f : flow |- _ => destruct f
  end; cbn in *.
Ltac cases H := repeat match type of H with
  | (match ?b with _ => _ end) = Some _ => destruct b eqn:?; try done
  | (if ?b then _ else _) = Some _ => destruct b eqn:?; try done
  end.

Lemma socket_answer w tail failing rclosed st d c hand over ended dclosed ch R (o : op R) w' x :
  accounted w tail failing rclosed st d c hand over ended dclosed ->
  ingress_may (RReader tail failing rclosed) R o -> ingress_answer cfg buffer w ch R o = Some (w', x) ->
  ingress_answers (RReader tail failing rclosed) R o x /\
  exists tail' failing' rclosed', reader_step tail failing rclosed o x = RReader tail' failing' rclosed' /\
    accounted w' tail' failing' rclosed' st d c hand over ended dclosed.
Proof.
  intros Ha Ho Hx.
  destruct o; try done; cbn in Ho, Hx; cases Hx; simplify_eq;
    try (split; [done|]; eexists _, _, _; split; [done|]; same_world).
  all: try (split; [done|]; eexists _, _, _; split; [done|]).
  - (* CacheOnlyFailure *) split; [|by eexists _, _, _]. cbn. intros Hf. by apply (ac_failing _ _ _ _ _ _ _ _ _ _ _ Ha).
  - (* RdFailure *) apply andb_true_iff in Heqb as [H1 H2]. split; [done|]. eexists _, _, _. split; [done|].
    destruct Ha. by constructor.
  - (* RdEvent *) destruct Ho as [-> ->]. destruct Ha as [A1 A2 A3 A4 A5 A6 A7 A8 A9]. unfold take_from_socket.
    destruct (ev_TR (ic_event ch) =s bookTR); world_parts; constructor; try done.
    cbn. rewrite A1. by rewrite !app_nil_r, app_assoc.
  - (* Sent *) destruct Ho as [-> ->]. apply Nat.ltb_lt in Heqb. destruct Ha as [A1 A2 A3 A4 A5 A6 A7 A8 A9].
    world_parts. constructor; cbn; try done.
    + by rewrite A1, !app_nil_r.
    + rewrite length_app. cbn. lia.
    + intros He. destruct (A7 He) as (Hc & _ & _). congruence.
  - (* SendFailure *) apply andb_true_iff in Heqb as [H1 H2]. split; [done|]. eexists _, _, _. split; [done|].
    destruct Ha. by constructor.
  - (* CloseEvents *) destruct Ha as [A1 A2 A3 A4 A5 A6 A7 A8 A9]. world_parts. constructor; cbn; try done.
    intros He. by destruct (A7 He).
Qed.

Lemma queue_answer w tail failing rclosed st d c hand over ended dclosed ch R (o : op R) w' x :
  accounted w tail failing rclosed st d c hand over ended dclosed ->
  ingress_may (RIngress st) R o -> ingress_answer cfg buffer w ch R o = Some (w', x) ->
  exists st', queue_step st o x = RIngress st' /\
    accounted w' tail failing rclosed st' d c hand over ended dclosed.
Proof.
  intros Ha Ho Hx. destruct o; try done; cbn in Ho, Hx; cases Hx; simplify_eq;
    try (eexists; split; [done|]; same_world); (eexists; split; [done|]).
  all: destruct Ha as [A1 A2 A3 A4 A5 A6 A7 A8 A9]; world_parts; simplify_eq.
  - constructor; cbn in *; try done; try (by rewrite app_nil_r). lia.
  - destruct (ic_failed ch) as [text|]; constructor; cbn in *; try done.
    all: rewrite ?app_nil_r in *; try rewrite A2; by rewrite <- ?app_assoc.
Qed.

Lemma decoder_answer w tail failing rclosed st d c hand over ended dclosed ch R (o : op R) w' x :
  accounted w tail failing rclosed st d c hand over ended dclosed -> tracker_ok (duplicates d) ->
  ingress_may (RDecoder d c hand over ended dclosed) R o -> ingress_answer cfg buffer w ch R o = Some (w', x) ->
  exists d' c' hand' over' ended' dclosed', decoder_step d c hand over ended dclosed o x = RDecoder d' c' hand' over' ended' dclosed' /\
    accounted w' tail failing rclosed st d' c' hand' over' ended' dclosed' /\ tracker_ok (duplicates d').
Proof.
  intros Ha Ht Ho Hx. destruct o; try done; cbn in Ho, Hx; cases Hx; simplify_eq;
    try (eexists _, _, _, _, _, _; split; [done|]; split; [same_world|done]).
  all: destruct Ha as [A1 A2 A3 A4 A5 A6 A7 A8 A9].
  - (* WorkerErr *) eexists _, _, _, _, _, _. split; [done|]. split; [|done]. constructor; try done.
    + intros [?|?]%orb_true_iff; auto.
    + destruct A9 as [B1 B2]. split; [done|]. intros H. destruct (B2 H) as [->|?]; [by left|by right].
  - (* EvDone *) eexists _, _, _, _, _, _. split; [done|]. split; [|done]. constructor; try done; tauto.
  - (* EvClosed *) destruct Ho as [-> ->]. eexists _, _, _, _, _, _. split; [done|]. split; [|done]. constructor; try done; tauto.
  - (* EvGot *) destruct Ho as [-> ->]. destruct (Decode_total d c k Ht) as (d' & c' & x & E & Ht').
    eexists _, _, _, _, _, _. cbn [decoder_step]. rewrite E. split; [done|]. split; [|done].
    world_parts. subst. constructor; cbn; try done.
    + by rewrite <- app_assoc.
    + rewrite (Decode_all_snoc _ _ _ _ _ _ _ _ _ _ A2 E). by rewrite app_nil_r, <- !app_assoc.
    + cbn in A4. lia.
    + intros He. by destruct (A7 He) as (_ & ? & _).
  - (* sent *) destruct Ho as [-> ->]. apply Nat.ltb_lt in Heqb. eexists _, _, _, _, _, _. split; [done|]. split; [|done].
    world_parts. constructor; cbn in *; try done.
    + by rewrite app_nil_r.
    + rewrite length_app. cbn. lia.
    + intros He. by destruct (A7 He) as (? & ? & _).
  - (* given up *) eexists _, _, _, _, _, _. split; [done|]. split; [|done]. constructor; try done; tauto.
  - (* CloseRecords *) eexists _, _, _, _, _, _. split; [done|]. split; [|done]. world_parts.
    constructor; cbn; try done. by destruct Ho.
Qed.

(** The whole of it, for any thread. *)
Definition ingress_inv (w : ingress_world) (Gs : list role) : Prop :=
  exists tail failing rclosed st d c hand over ended dclosed,
    Gs = [RMain; RReader tail failing rclosed; RIngress st; RDecoder d c hand over ended dclosed; RHelper] /\
    tracker_ok (duplicates d) /\ accounted w tail failing rclosed st d c hand over ended dclosed.

Lemma ingress_call w Gs i g ch R (o : op R) w' x :
  ingress_inv w Gs -> Gs !! i = Some g -> allowed ingress_spec g o -> ingress_answer cfg buffer w ch R o = Some (w', x) ->
  answers ingress_spec g o x /\ ingress_inv w' (<[i := update ingress_spec g (Event o x)]> Gs).
Proof.
  intros (tail & failing & rclosed & st & d & c & hand & over & ended & dclosed & -> & Ht & Ha) Hi Ho Hx.
  cbn [allowed answers update ingress_spec] in *.
  destruct i as [|[|[|[|[|i]]]]]; cbn in Hi; [injection Hi as <-..|done].
  - split; [done|]. eexists _, _, _, _, _, _, _, _, _, _. split; [done|]. split; [done|].
    eapply quiet_answer; [exact Ha|by left|exact Ho|exact Hx].
  - destruct (socket_answer _ _ _ _ _ _ _ _ _ _ _ _ _ _ _ _ Ha Ho Hx) as [Hans (t' & f' & r' & E & Ha')].
    split; [done|]. cbn [ingress_step]. rewrite E. by eexists _, _, _, _, _, _, _, _, _, _.
  - destruct (queue_answer _ _ _ _ _ _ _ _ _ _ _ _ _ _ _ _ Ha Ho Hx) as (st' & E & Ha').
    split; [done|]. cbn [ingress_step]. rewrite E. by eexists _, _, _, _, _, _, _, _, _, _.
  - destruct (decoder_answer _ _ _ _ _ _ _ _ _ _ _ _ _ _ _ _ Ha Ht Ho Hx) as (d' & c' & h' & o' & e' & cl' & E & Ha' & Ht').
    split; [done|]. cbn [ingress_step]. rewrite E. by eexists _, _, _, _, _, _, _, _, _, _.
  - split; [done|]. eexists _, _, _, _, _, _, _, _, _, _. split; [done|]. split; [done|].
    eapply quiet_answer; [exact Ha|by right|exact Ho|exact Hx].
Qed.

(** ** The system *)

Definition ingress_start : ingress_world :=
  mkIngressWorld (mkFlags false false false false None false false false)
    (mkPipes [] false [] false false false None None) (mkFlow [] [] [] []) no_reconnect false 0 None.
(** [runWithDependencies] from the start of its goroutines.  No call starts a
    goroutine: each waits for its start. *)
Definition no_spawn {R : Set} (o : op R) (x : R) : option (program unit) := None.
Definition RunIngress : list (action ingress_choice) -> option (system op ingress_world) :=
  exec_all (ingress_answer cfg buffer) ingress_environment (@no_spawn)
    (mkSystem ingress_start [mainThread; readerThread cfg rounds; ingressThread rounds;
                             decodeThread decoder rounds; afterDrain]).

Lemma ingress_invariant acts s : tracker_ok (duplicates decoder) -> RunIngress acts = Some s ->
  exists tail failing rclosed st d c hand over ended dclosed,
    accounted (world s) tail failing rclosed st d c hand over ended dclosed.
Proof.
  intros Ht Hrun. assert (Hi : invariant ingress_spec ingress_inv s).
  { revert Hrun. apply invariant_exec_all.
    - intros w c w' Gs (tail & failing & rclosed & st & d & cc & hand & over & ended & dclosed & -> & Hd & Ha) He.
      eexists _, _, _, _, _, _, _, _, _, _. split; [done|]. split; [done|]. destruct w as [f p fw rc t dr rt].
      injection He as <-. eapply accounted_same; [exact Ha|done..| |].
      + cbn. intros ->. done.
      + by destruct f.
    - intros w Gs i g c R o w' x H1 H2 H3 H4. destruct (ingress_call _ _ _ _ _ _ _ _ _ H1 H2 H3 H4) as [Hx Hi].
      split; [done|]. exists []. split; [constructor|]. by rewrite app_nil_r.
    - eexists [RMain; RReader None false false; RIngress Idle;
        RDecoder decoder (Some NewCounters) None false false false; RHelper]. split.
      + eexists _, _, _, _, _, _, _, _, _, _. split; [done|]. split; [done|].
        constructor; cbn; try done; split; lia.
      + constructor; [apply main_follows|]. constructor; [apply socket_follows|].
        constructor; [apply ingress_follows|]. constructor; [by apply decode_follows|].
        constructor; [apply helper_follows|constructor]. }
  destruct Hi as (Gs & (tail & failing & rclosed & st & d & c & hand & over & ended & dclosed & _ & _ & Ha) & _).
  by eexists _, _, _, _, _, _, _, _, _, _.
Qed.
End roles.

(** ** What holds of every execution *)

Section promises.
Context {kis : GoKis} {socket : KisSocket} (cfg : reader_config) (mode venue : string) (max : Z) (rounds buffer : nat).
Notation decoder := (NewDecoder mode venue max).

Lemma Decode_all_total events : forall d c, tracker_ok (duplicates d) ->
  exists d' c' rs, Decode_all d c events = Some (d', c', rs).
Proof.
  induction events as [|e events IH]; intros d c Ht; cbn [Decode_all]; [by eexists _, _, _|].
  destruct (Decode_total d c e Ht) as (d1 & c1 & r & -> & Ht1). cbn [mbind option_bind].
  destruct (IH d1 c1 Ht1) as (d2 & c2 & rs & ->). by eexists _, _, _.
Qed.

(** C9: The stream gets the fills in order, without gaps.  However the goroutines
    interleave, and whenever the program is stopped: the events taken from the
    socket are, in order, those the decoder received, those in the channel and
    at most one in the reader's hand; the records of the received events are,
    in order, those acknowledged by the stream, at most one being added or
    failed, those in the channel and at most one in the decoder's hand; the
    channels keep their capacity; the stream holds a prefix of the records of
    all events taken; and unless the worker was stopped, the records end only
    after every event was decoded and every record sent. *)
Theorem stream_in_order acts s : RunIngress cfg decoder rounds buffer acts = Some s ->
  let w := world s in let p := iw_pipes w in let fw := iw_flow w in
  (exists tail, fw_taken fw = fw_received fw ++ p_events p ++ tail /\ (length tail <= 1)%nat) /\
  (exists d c queued hand,
    Decode_all decoder (Some NewCounters) (fw_received fw) = Some (d, c, fw_added fw ++ queued ++ p_records p ++ hand) /\
    (length queued <= 1)%nat /\ (length hand <= 1)%nat /\
    (fl_worker (iw_flags w) = false -> p_records_closed p = true ->
      p_events_closed p = true /\ p_events p = [] /\ hand = [])) /\
  (length (p_events p) <= buffer)%nat /\ (length (p_records p) <= buffer)%nat /\
  exists d c all, Decode_all decoder (Some NewCounters) (fw_taken fw) = Some (d, c, all) /\ fw_added fw `prefix_of` all.
Proof.
  intros Hrun. destruct (ingress_invariant cfg decoder rounds buffer acts s (newDuplicateTracker_ok max) Hrun)
    as (tail & failing & rclosed & st & d & c & hand & over & ended & dclosed & [A1 A2 A3 [A4 A4'] A5 A6 A7 A8 [A9 A9']]).
  cbv zeta. rewrite A3, <- app_assoc in A2. split; [|split; [|split; [done|split; [done|]]]].
  - eexists. split; [exact A1|]. destruct tail; cbn; lia.
  - exists d, c, (failed st ++ held st), (option_list hand). rewrite A2, <- app_assoc. split; [done|].
    split; [destruct st; cbn; lia|]. split; [destruct hand; cbn; lia|]. intros Hw Hc.
    destruct A9'; [congruence| |].
    + rewrite A6 in Hw; [discriminate Hw|done].
    + destruct A7 as (? & ? & ->); done.
  - destruct (Decode_all_total (fw_taken (iw_flow (world s))) decoder (Some NewCounters) (newDuplicateTracker_ok max))
      as (d' & c' & all & E). exists d', c', all. split; [done|]. rewrite A1 in E.
    destruct (Decode_all_app _ _ _ _ _ _ _ E) as (d2 & c2 & rs1 & rs2 & E1 & _ & ->). rewrite A2 in E1.
    injection E1 as _ _ <-. rewrite <- app_assoc. by eexists.
Qed.
End promises.

(** ** Sample runs *)

#[local] Existing Instance sample_kis.
#[local] Instance sample_socket : KisSocket := {|
  EndpointLive := "live"; EndpointVTS := "vts"; TRExecutionLive := "H0STCNI0"; TRExecutionVTS := "H0STCNI9"
|}.
Definition reader_cfg : reader_config := mkReaderConfig "mock" "hts" [] false true.
Definition a_fill : KisEvent := notice_event "2".
(** Goroutine [i] takes case [n]; the environment's moves. *)
Definition on (i n : nat) : action ingress_choice :=
  Go i (mkIngressChoice n a_fill None None None false false None false).
Definition sigterm : action ingress_choice := Env (mkIngressChoice 0 a_fill None None None true false None false).
Definition expire : action ingress_choice := Env (mkIngressChoice 0 a_fill None None None false true None false).

(** The reader takes a fill; the decoder and the queue pass it on. *)
Definition passed_on : list (action ingress_choice) :=
  replicate 3 (on 1 0) ++ [on 1 2; on 1 0; on 2 0; on 3 0; on 3 0; on 3 1; on 3 0; on 3 0; on 2 0; on 2 1; on 2 0; on 2 0].
Notation ingress_run acts := (RunIngress reader_cfg (NewDecoder "mock" "krx" 0) 9 2 acts).
Lemma passed_on_is :
  match ingress_run passed_on with
  | Some s => length (fw_added (iw_flow (world s))) = 1%nat /\ fw_taken (iw_flow (world s)) = [a_fill]
  | None => False
  end.
Proof. vm_compute. repeat split. Qed.
Lemma stream_in_order_witness :
  exists s, ingress_run passed_on = Some s /\ length (fw_added (iw_flow (world s))) = 1%nat /\
    fw_taken (iw_flow (world s)) = [a_fill] /\
    exists d c all, Decode_all (NewDecoder "mock" "krx" 0) (Some NewCounters) (fw_taken (iw_flow (world s))) = Some (d, c, all) /\
      fw_added (iw_flow (world s)) `prefix_of` all.
Proof.
  pose proof passed_on_is as H. destruct (ingress_run passed_on) as [s|] eqn:E; [|destruct H].
  destruct H as [H1 H2]. exists s. split; [reflexivity|]. split; [exact H1|]. split; [exact H2|].
  destruct (stream_in_order reader_cfg "mock" "krx" 0 9 2 passed_on s E) as (_ & _ & _ & _ & H). exact H.
Defined.

(** A signal arrives while the reader has a fill in hand, and its [select]
    takes the end of the context although the channel has room. *)
Definition lost_in_hand : list (action ingress_choice) :=
  replicate 3 (on 1 0) ++ [on 1 2; sigterm] ++ replicate 4 (on 0 0) ++ [on 1 1; on 1 0; on 1 0; on 1 0] ++
  replicate 4 (on 0 0) ++ [on 2 0; on 3 0; on 3 0; on 3 1; on 3 0; on 3 0; on 2 0; on 2 1; on 2 0; on 2 0; on 2 0] ++
  replicate 7 (on 0 0).
(** The drain expires while the queue's goroutine has a record in hand. *)
Definition expired_in_hand : list (action ingress_choice) :=
  replicate 3 (on 1 0) ++ [on 1 2; on 1 0; on 2 0; on 3 0; on 3 0; on 3 1; on 3 0; on 3 0; on 2 0; on 2 1; sigterm] ++
  replicate 4 (on 0 0) ++ [on 1 0; on 1 0; on 1 0; on 1 0] ++ replicate 4 (on 0 0) ++ [expire; on 0 1] ++
  replicate 10 (on 0 0).

(** What the end of a run shows: the program returned without an error, took
    one fill, which decodes to a record, added none and counted none. *)
Definition lost_uncounted (s : system op ingress_world) : bool :=
  let w := world s in
  match iw_returned w with Some None => true | _ => false end && (length (fw_taken (iw_flow w)) =? 1)%nat &&
  (length (fw_added (iw_flow w)) =? 0)%nat && (iw_dropped w =? 0) &&
  match Decode_all sample_decoder (Some NewCounters) (fw_taken (iw_flow w)) with
  | Some (_, _, rs) => (length rs =? 1)%nat
  | None => false
  end.

Lemma ran_to {A} (run : option A) (p : A -> bool) :
  match run with Some s => p s | None => false end = true -> exists s, run = Some s /\ p s = true.
Proof. destruct run; [eauto|done]. Qed.

