(* ===== verification/Bookrec.v ===== *)
(** The command [bookrec]: [src/cmd/bookrec/main.go], and what its evidence is
    worth over several sessions, crashes included.

    The standard input, the clock, the choices of the [select] and the ways in
    which files fail are arguments. *)

From Stdlib Require Import Ascii.
From S2P Require Import Prelude GoStr Duration Frame Detect Journal Scanner Recorder Replay Flags Ingress.
Local Open Scope Z_scope.
#[local] Arguments String.append !_ _ / : simpl nomatch.

(** ** [recordFrom] *)

Definition maxFrameLine : Z := 1048576.

(** What the [select] takes next, and the clock then. *)
Inductive arrival := FromStdin | FromTicker.

Inductive record_error :=
| RcHelp | RcFlags (e : flag_error) | RcOutRequired | RcStale | RcOpen | RcRecorder (e : recorder_error) | RcScan (e : scan_end)
| RcSync | RcClose.

Section Bookrec.
Context `{EvidenceCodec} (utf8_valid : string -> bool) (error_text : string -> frame_error -> string).
Notation RecFrame := (RecFrame utf8_valid error_text).
Notation rec_run := (rec_run utf8_valid error_text).

(** The loop, along the arrivals; the lines are those the reading goroutine
    still has to send, [end_] is what [scanner.Err] will say.  [None]: it goes
    on after these arrivals. *)
Fixpoint recordFrom (arrivals : list (arrival * Z)) (lines : list string) (end_ : scan_end) (r : Recorder)
  : Recorder * option (option record_error) :=
  match arrivals with
  | [] => (r, None)
  | (FromStdin, now) :: arrivals =>
      match lines with
      | [] => (r, Some match end_ with ScanEOF => None | e => Some (RcScan e) end)
      | line :: lines =>
          if line =s "" then recordFrom arrivals lines end_ r
          else match RecFrame line now r with
               | (r, Some e) => (r, Some (Some (RcRecorder e)))
               | (r, None) => recordFrom arrivals lines end_ r
               end
      end
  | (FromTicker, now) :: arrivals =>
      match RecTick now r with
      | (r, Some e) => (r, Some (Some (RcRecorder e)))
      | (r, None) => recordFrom arrivals lines end_ r
      end
  end.

(** ** [record] *)

Definition record_flags : flag_set := [("out", StringFlag); ("stale", DurationFlag)].

(** How the file behaves in a session: its opening, its writes, its end. *)
Record disk_session := mkDisk {
  ds_open : bool; ds_stat : bool; ds_read : bool; ds_newline : bool; ds_faults : list (option nat); ds_sync : bool; ds_close : bool
}.

(** [record]: what the evidence file holds afterwards, and the error; [None]
    while it goes on. *)
Definition record (args : list string) (file : string) (d : disk_session) (now : Z) (arrivals : list (arrival * Z))
  (stdin : string) (failed : bool) : string * option (option record_error) :=
  match Parse record_flags args ∅ with
  | Err FlagHelp => (file, Some (Some RcHelp))
  | Err e => (file, Some (Some (RcFlags e)))
  | Ok (m, _) =>
      let stale := duration_flag m "stale" DefaultStaleAfter in
      if string_flag m "out" "" =s "" then (file, Some (Some RcOutRequired))
      else if stale <? 1000000 then (file, Some (Some RcStale))
      else match OpenEvidence (ds_open d) (ds_stat d) (ds_read d) (ds_newline d) file with
           | (file, false) => (file, Some (Some RcOpen))
           | (file, true) =>
               let r := NewRecorder file (ds_faults d) stale now in
               match rc_err r with
               | Some e => (rc_file r, Some (Some (RcRecorder e)))
               | None =>
                   let '(lines, end_) := Scan maxFrameLine failed stdin in
                   match recordFrom arrivals lines end_ r with
                   | (r, None) => (rc_file r, None)
                   | (r, Some (Some e)) => (rc_file r, Some (Some e))
                   | (r, Some None) =>
                       (rc_file r, Some (if negb (ds_sync d) then Some RcSync else if negb (ds_close d) then Some RcClose else None))
                   end
               end
           end
  end.

(** ** [replay] *)

Definition replay_flags : flag_set := [("in", StringFlag); ("out", StringFlag)].

(** Files by identity: a path names a file, or nothing, or cannot be looked at. *)
Inductive path_stat := NamesFile (id : Z) | NoSuchFile | StatFailed.
Record files := mkFiles { path_of : string -> path_stat; data_of : Z -> string }.
Definition put_data (id : Z) (s : string) (f : files) : files :=
  mkFiles (path_of f) (fun i => if i =? id then s else data_of f i).

Inductive replay_error := RpHelp | RpFlags (e : flag_error) | RpInRequired | RpOpen | RpSameFile | RpStat | RpCreate
| RpReplay (e : replay_failure) | RpWrite.

(** [refuseSameFile]. *)
Definition refuseSameFile (f : files) (src : Z) (outPath : string) : option replay_error :=
  match path_of f outPath with
  | NoSuchFile => None
  | StatFailed => Some RpStat
  | NamesFile out => if src =? out then Some RpSameFile else None
  end.

(** [json.Marshal] of an event, a book and the summary, and the writer: whether
    it takes what was encoded so far, and the last flush. *)
Context (encode_event : Event -> string) (encode_book : BookState -> string)
  (writes : string -> bool) (flushes : string -> bool).

(** What the encoder has written for these events and books. *)
Definition rendered (evs : list Event) (books : list BookState) : string :=
  foldr (fun s acc => s +:+ String newline acc) "" ((encode_event <$> evs) ++ (encode_book <$> books)).

(** [writeReplay]: the text of its output, and the summary. *)
Definition writeReplay (file : string) : string * result Summary replay_error :=
  let emit evs ev := writes (rendered (evs ++ [ev]) []) in
  match Replay emit file with
  | Err (rp, e) => (rendered (rp_events rp) [], Err match e with EmitFailed => RpWrite | e => RpReplay e end)
  | Ok rp =>
      let text := rendered (rp_events rp) (SortedBooks rp) in
      if writes text && flushes text then (text, Ok (rp_Summary rp)) else (text, Err RpWrite)
  end.

(** [replay]: the files afterwards, what went to the standard output, and the
    result.  [os.Create] makes or truncates the file [created]; [kept text] is
    what of the output reaches it. *)
Definition replay (args : list string) (f : files) (created : option Z) (kept : string -> string) (closes : bool)
  : files * string * result Summary replay_error :=
  match Parse replay_flags args ∅ with
  | Err FlagHelp => (f, "", Err RpHelp)
  | Err e => (f, "", Err (RpFlags e))
  | Ok (m, _) =>
      let inPath := string_flag m "in" "" in
      let outPath := string_flag m "out" "" in
      if inPath =s "" then (f, "", Err RpInRequired)
      else match path_of f inPath with
           | NamesFile src =>
               if outPath =s "" then
                 let '(text, res) := writeReplay (data_of f src) in (f, text, res)
               else match refuseSameFile f src outPath with
                    | Some e => (f, "", Err e)
                    | None =>
                        match created with
                        | None => (f, "", Err RpCreate)
                        | Some id =>
                            let f := put_data id "" f in
                            let '(text, res) := writeReplay (data_of f src) in
                            (put_data id (kept text) f, "",
                             match res with Ok s => if closes then Ok s else Err RpWrite | Err e => Err e end)
                        end
                    end
           | _ => (f, "", Err RpOpen)
           end
  end.

(** ** [run] *)

(** The exit code of a subcommand that returned [err]. *)
Definition exit_record (err : option record_error) : Z :=
  match err with Some RcHelp => exitUsage | Some _ => exitFailure | None => exitOK end.
Definition exit_replay {A} (res : result A replay_error) : Z :=
  match res with Err RpHelp => exitUsage | Err _ => exitFailure | Ok _ => exitOK end.

Inductive subcommand := Usage | Record (args : list string) | Replays (args : list string).
Definition run (args : list string) : subcommand :=
  match args with
  | "record" :: args => Record args
  | "replay" :: args => Replays args
  | _ => Usage
  end.

(** ** What is recorded *)

Definition frame_of (o : rec_op) : option string := match o with OFrame raw _ => Some raw | _ => None end.
Definition frames_of (os : list rec_op) : list string := omap frame_of os.
Definition nonempty (lines : list string) : list string := filter (fun l => l <> "") lines.

Lemma RecFrame_err raw t r : (RecFrame raw t r).2 = rc_err (RecFrame raw t r).1.
Proof.
  unfold Recorder.RecFrame. destruct (ParseFrame raw) as [tr [f|e]].
  - destruct (rc_err r) eqn:E; [cbn; congruence|]. by destruct (track_frame _ _ _) as [[? ?] ?].
  - destruct (_ || _); [done|]. destruct (rc_err r) eqn:E; [cbn; congruence|done].
Qed.
Lemma RecTick_err t r : (RecTick t r).2 = rc_err (RecTick t r).1.
Proof. unfold RecTick. destruct (rc_err r) eqn:E; [cbn; congruence|done]. Qed.

(** The loop is a sequence of the recorder's operations whose frames are the
    lines, in order. *)
Lemma recordFrom_ops arrivals : forall lines end_ r r' res, rc_err r = None ->
  recordFrom arrivals lines end_ r = (r', res) ->
  exists os, r' = rec_run os r /\ frames_of os `prefix_of` nonempty lines /\
    (res = Some None -> frames_of os = nonempty lines /\ end_ = ScanEOF) /\
    (rc_err r' = None \/ exists e, res = Some (Some (RcRecorder e)) /\ rc_err r' = Some e).
Proof.
  induction arrivals as [|[[|] now] arrivals IH]; intros lines end_ r r' res Hr Hrec; cbn [recordFrom] in Hrec.
  - injection Hrec as <- <-. exists []. split; [done|]. split; [apply prefix_nil|]. split; [done|by left].
  - destruct lines as [|l lines].
    { injection Hrec as <- <-. exists []. split; [done|]. split; [apply prefix_nil|]. split; [|by left].
      by destruct end_. }
    destruct (l =s "") eqn:El.
    { bool_simpl. subst l. destruct (IH _ _ _ _ _ Hr Hrec) as (os & H1 & H2 & H3 & H4). by exists os. }
    bool_simpl. pose proof (RecFrame_err l now r) as Hf. assert (Hstep : rec_step utf8_valid error_text r (OFrame l now) = (RecFrame l now r).1) by done.
    destruct (RecFrame l now r) as [r1 e]. cbn [fst snd] in Hf, Hstep.
    assert (Hne : nonempty (l :: lines) = l :: nonempty lines) by (unfold nonempty; by rewrite filter_cons_True).
    destruct e as [e|].
    + injection Hrec as <- <-. exists [OFrame l now]. split; [unfold Replay.rec_run; cbn [fold_left]; by rewrite Hstep|]. rewrite Hne. split; [apply prefix_cons, prefix_nil|].
      split; [done|]. right. by exists e.
    + destruct (IH _ _ _ _ _ (eq_sym Hf) Hrec) as (os & H1 & H2 & H3 & H4). exists (OFrame l now :: os).
      split; [unfold Replay.rec_run; cbn [fold_left]; by rewrite Hstep|]. rewrite Hne. split; [by apply prefix_cons|]. split; [|done].
      intros Hres. destruct (H3 Hres) as [H5 H6]. split; [|done]. cbn. by rewrite <- H5.
  - pose proof (RecTick_err now r) as Hf. assert (Hstep : rec_step utf8_valid error_text r (OTick now) = (RecTick now r).1) by done.
    destruct (RecTick now r) as [r1 e]. cbn [fst snd] in Hf, Hstep. destruct e as [e|].
    + injection Hrec as <- <-. exists [OTick now]. split; [unfold Replay.rec_run; cbn [fold_left]; by rewrite Hstep|]. split; [apply prefix_nil|].
      split; [done|]. right. by exists e.
    + destruct (IH _ _ _ _ _ (eq_sym Hf) Hrec) as (os & H1 & H2 & H3 & H4). exists (OTick now :: os).
      split; [unfold Replay.rec_run; cbn [fold_left]; by rewrite Hstep|]. done.
Qed.

(** ** Evidence over several sessions *)

Lemma terminated_twice file : terminated (terminated file) = terminated file.
Proof.
  assert (Hc : terminated file = file \/ terminated file = file +:+ String newline "").
  { unfold terminated, terminateTornLine. cbn [negb]. destruct (file =s ""); [by left|].
    destruct (String.get _ file) as [c|]; [|by left]. destruct (Ascii.eqb c newline); [by left|by right]. }
  destruct Hc as [E | E]; [by rewrite !E|]. rewrite E. apply terminated_line.
Qed.

Lemma OpenEvidence_ok a b c d file file' ok : OpenEvidence a b c d file = (file', ok) ->
  if ok then file' = terminated file else file' = file.
Proof.
  unfold OpenEvidence, terminated, terminateTornLine. cbn [negb]. destruct a, b; cbn [negb]; try by intros [= <- <-].
  destruct (file =s ""); [by intros [= <- <-]|]. destruct c; cbn [negb]; [|by intros [= <- <-]].
  destruct (String.get _ file) as [x|]; [|by intros [= <- <-]]. destruct (Ascii.eqb x newline); [by intros [= <- <-]|].
  by destruct d; intros [= <- <-].
Qed.

(** The evidence replays without a mismatch and with at most [n] torn lines,
    and a new session can go on from it. *)
Definition sound (n : Z) (file : string) : Prop :=
  (exists rp, Replay accept_all file = Ok rp /\ su_VerdictMismatches (rp_Summary rp) = 0 /\ su_TornLines (rp_Summary rp) <= n) /\
  exists T rp, T <= n /\ Replay.replays (terminated file) rp /\ ready T rp.

Lemma sound_nil : sound 0 "".
Proof.
  split; [exists new_replayer; split; [reflexivity|done]|]. exists 0, new_replayer. split; [done|]. split; [apply replays_nil|done].
Qed.

(** The lines one run of [record] can tear. *)
Definition tears (res : option (option record_error)) : Z :=
  match res with Some (Some (RcRecorder _)) => 1 | _ => 0 end.

Hypothesis Hfaithful : forall l b, ev_marshal l = Some b -> ev_faithful l.

Lemma record_sound n args file d now arrivals stdin failed file' res : sound n file -> whole_next (ds_faults d) ->
  record args file d now arrivals stdin failed = (file', res) -> sound (n + tears res) file'.
Proof using Hfaithful.
  intros Hs Hw. assert (Hs0 : forall r, tears r = 0 -> sound (n + tears r) file) by (intros r ->; by rewrite Z.add_0_r).
  unfold record. destruct (Parse record_flags args ∅) as [[m rest]|[]]; try (intros [= <- <-]; by apply Hs0). cbv zeta.
  destruct (_ =s ""); [intros [= <- <-]; by apply Hs0|]. destruct (_ <? 1000000); [intros [= <- <-]; by apply Hs0|].
  destruct (OpenEvidence _ _ _ _ file) as [file1 ok] eqn:Eo. apply OpenEvidence_ok in Eo.
  destruct ok; [|subst file1; intros [= <- <-]; by apply Hs0]. destruct Hs as (_ & T & rp & HT & Hrp & Hready). rewrite <- Eo in Hrp.
  assert (Hend : terminated file1 = file1) by (subst file1; apply terminated_twice).
  set (r0 := NewRecorder file1 (ds_faults d) _ now).
  (* any operations from here *)
  assert (Hany : forall os, sound (n + (if is_some (rc_err (rec_run os r0)) then 1 else 0)) (rc_file (rec_run os r0))).
  { intros os. destruct (session_leaves utf8_valid error_text T Hfaithful os file1 rp (ds_faults d) (duration_flag m "stale" DefaultStaleAfter) now Hrp Hend Hready (or_intror Hw))
      as [[(rp1 & Hr1 & Hm1 & Ht1) (T' & rp2 & HT' & Hr2 & Hrd)] Hok].
    fold r0 in Hr1, Ht1, Hr2, Hok. destruct (rc_err (rec_run os r0)) as [e|].
    - split; [exists rp1; split; [done|]; split; [done|cbn; lia]|]. exists T', rp2. split; [cbn; lia|done].
    - destruct (Hok eq_refl) as (Hend' & rp3 & Hr3 & Hf3). cbn [is_some is_none negb]. rewrite Z.add_0_r.
      pose proof (follows_ready _ _ _ Hf3) as Hrd3. split; [|exists T, rp3; rewrite Hend'; done].
      destruct Hr3 as [k Hr3]. specialize (Hr3 ""). rewrite str_app_nil_r in Hr3. exists rp3. split; [exact Hr3|].
      destruct Hrd3 as (? & ? & _). split; [done|lia]. }
  destruct (rc_err r0) as [e|] eqn:Ee.
  { intros [= <- <-]. specialize (Hany []). cbn [Replay.rec_run fold_left] in Hany. rewrite Ee in Hany. exact Hany. }
  destruct (Scan maxFrameLine failed stdin) as [lines end_].
  destruct (recordFrom arrivals lines end_ r0) as [r1 out] eqn:Er.
  destruct (recordFrom_ops _ _ _ _ _ _ Ee Er) as (os & -> & _ & _ & Herr). specialize (Hany os).
  assert (Hfin : forall o, tears o = tears out -> sound (n + tears o) (rc_file (rec_run os r0))).
  { intros o ->. destruct Herr as [Hn|(e & -> & He)]; [|rewrite He in Hany; exact Hany].
    rewrite Hn in Hany. cbn [is_some is_none negb] in Hany. rewrite Z.add_0_r in Hany.
    assert (Hle : 0 <= tears out) by (destruct out as [[[]|]|]; cbn; lia). destruct Hany as [(rp1 & ? & ? & ?) (T1 & rp2 & ? & ?)].
    split; [exists rp1; split; [done|]; split; [done|lia]|exists T1, rp2; split; [lia|done]]. }
  destruct out as [[e|]|]; intros [= <- <-]; apply Hfin; [done| |done].
  destruct (negb (ds_sync d)); [done|]. by destruct (negb (ds_close d)).
Qed.

(** Runs of [record] on one file, and how many lines they tore. *)
Record invocation := mkInvocation {
  iv_args : list string; iv_disk : disk_session; iv_now : Z; iv_arrivals : list (arrival * Z); iv_stdin : string; iv_failed : bool
}.
Fixpoint recordings (file : string) (l : list invocation) : string * Z :=
  match l with
  | [] => (file, 0)
  | i :: l =>
      let '(file, res) := record (iv_args i) file (iv_disk i) (iv_now i) (iv_arrivals i) (iv_stdin i) (iv_failed i) in
      let '(file, n) := recordings file l in (file, tears res + n)
  end.

Lemma recordings_sound l : forall n file, sound n file -> Forall (fun i => whole_next (ds_faults (iv_disk i))) l ->
  sound (n + (recordings file l).2) (recordings file l).1.
Proof using Hfaithful.
  induction l as [|i l IH]; intros n file Hs Hw; cbn [recordings]; [by rewrite Z.add_0_r|].
  apply Forall_cons in Hw as [Hi Hw]. destruct (record _ file _ _ _ _ _) as [file1 res] eqn:E.
  pose proof (record_sound n _ _ _ _ _ _ _ _ _ Hs Hi E) as Hs1. specialize (IH _ _ Hs1 Hw).
  destruct (recordings file1 l) as [file2 k]. cbn [fst snd] in *. by rewrite Z.add_assoc.
Qed.


(** C17: A recording that ends without error is complete: every line of the
    standard input that is not empty was given to the recorder as a frame, once
    and in order, however the ticks fell between them, no write failed, and the
    input was read to its end. *)
Theorem record_complete args file d now arrivals stdin failed file' :
  record args file d now arrivals stdin failed = (file', Some None) ->
  exists os stale, let r := rec_run os (NewRecorder (terminated file) (ds_faults d) stale now) in
    file' = rc_file r /\ rc_err r = None /\ 1000000 <= stale /\
    frames_of os = nonempty (Scan maxFrameLine failed stdin).1 /\ (Scan maxFrameLine failed stdin).2 = ScanEOF.
Proof.
  unfold record. destruct (Parse record_flags args ∅) as [[m rest]|[]]; try done. cbv zeta.
  destruct (_ =s ""); [done|]. destruct (_ <? 1000000) eqn:Es; [done|].
  destruct (OpenEvidence _ _ _ _ file) as [file1 ok] eqn:Eo. apply OpenEvidence_ok in Eo. destruct ok; [|done].
  destruct (rc_err _) as [e|] eqn:Ee; [done|]. destruct (Scan maxFrameLine failed stdin) as [lines end_] eqn:El.
  destruct (recordFrom arrivals lines end_ _) as [r1 out] eqn:Er.
  destruct (recordFrom_ops _ _ _ _ _ _ Ee Er) as (os & -> & _ & Hall & Herr). destruct out as [[e|]|]; try done.
  destruct (Hall eq_refl) as [Hf ->]. intros [= <- Hend]. exists os, (duration_flag m "stale" DefaultStaleAfter). subst file1.
  split; [done|]. split; [|by bool_simpl]. destruct Herr as [Hn|(e & He & _)]; [exact Hn|discriminate He].
Qed.

(** C28: A replay never touches its evidence.  Whatever the flags name, through
    whatever links, the file [-in] names holds afterwards what it held. *)
Theorem replay_spares_evidence args f created kept closes m rest src :
  Parse replay_flags args ∅ = Ok (m, rest) -> path_of f (string_flag m "in" "") = NamesFile src ->
  (forall id, created = Some id -> match path_of f (string_flag m "out" "") with
    | NamesFile out => id = out | _ => forall p, path_of f p <> NamesFile id end) ->
  data_of (replay args f created kept closes).1.1 src = data_of f src.
Proof.
  intros Hp Hin Hcr. unfold replay. rewrite Hp. cbv zeta. destruct (_ =s ""); [done|]. rewrite Hin.
  destruct (string_flag m "out" "" =s ""); [by destruct (writeReplay _)|].
  destruct (refuseSameFile f src _) as [e|] eqn:Es; [done|]. destruct created as [id|]; [|done].
  assert (Hne : (src =? id) = false).
  { specialize (Hcr id eq_refl). unfold refuseSameFile in Es. apply Z.eqb_neq. intros ->.
    destruct (path_of f (string_flag m "out" "")) as [out| |]; [|by eapply Hcr|done].
    subst id. rewrite Z.eqb_refl in Es. done. }
  destruct (writeReplay _) as [text res]. cbn. by rewrite !Hne.
Qed.
End Bookrec.

(** ** Sample runs *)

Module Sample.
Definition good_disk (faults : list (option nat)) : disk_session := mkDisk true true true true faults true true.
Definition input : string := sample_frame_raw +:+ String newline (String newline sample_frame_raw).
Definition always : list (arrival * Z) := [(FromStdin, 1000); (FromTicker, 2000); (FromStdin, 3000); (FromStdin, 4000); (FromStdin, 5000)].
Definition run_with (faults : list (option nat)) : invocation :=
  mkInvocation ["-out"; "evidence"; "-stale=1s"] (good_disk faults) 0 always input false.
Notation recordings := (recordings (fun _ => true) (fun _ _ => "bad frame")).

(** A crash in the second frame, and a session after it. *)
Definition crashed : list invocation := [run_with [None; None; Some 9%nat]; run_with []].
Lemma crashed_whole : Forall (fun i => whole_next (ds_faults (iv_disk i))) crashed.
Proof. repeat constructor. Qed.
Lemma crashed_tears : (recordings "" crashed).2 = 1.
Proof. vm_compute. reflexivity. Qed.
Lemma complete : (record (fun _ => true) (fun _ _ => "bad frame") ["-out"; "e"] "" (good_disk []) 0 always input false).2 = Some None.
Proof. vm_compute. reflexivity. Qed.

(** The second session torn as well, in its first line, and a third one whole. *)
Definition twice : list invocation := [run_with [None; None; Some 9%nat]; run_with [Some 9%nat]; run_with []].
Lemma twice_tears : (recordings "" twice).2 = 2.
Proof. vm_compute. reflexivity. Qed.
Lemma twice_corrupt : match Replay accept_all (recordings "" twice).1 with Err (_, ErrCorruptLines) => true | _ => false end = true.
Proof. vm_compute. reflexivity. Qed.
End Sample.


Lemma record_complete_witness : exists os, frames_of os = [sample_frame_raw; sample_frame_raw].
Proof.
  destruct (record (fun _ => true) (fun _ _ => "bad frame") ["-out"; "e"] "" (Sample.good_disk []) 0 Sample.always Sample.input false)
    as [f res] eqn:Hf.
  assert (Hres : res = Some None) by (pose proof Sample.complete as Hc; rewrite Hf in Hc; exact Hc). rewrite Hres in Hf.
  destruct (record_complete (fun _ => true) (fun _ _ => "bad frame") _ _ _ _ _ _ _ _ Hf) as (os & stale & _ & _ & _ & Hos & _).
  exists os. rewrite Hos. vm_compute. reflexivity.
Defined.

(** ** A second torn line *)


(** Writing over the evidence through another name of it is refused. *)
Definition linked : files := mkFiles (fun p => if p =s "missing" then NoSuchFile else NamesFile 1) (fun _ => "evidence").
Lemma replay_spares_evidence_witness :
  data_of (replay (fun _ => "") (fun _ => "") (fun _ => true) (fun _ => true) ["-in"; "e"; "-out"; "missing"] linked (Some 2)
    (fun s => s) true).1.1 1 = "evidence".
Proof.
  apply (replay_spares_evidence (fun _ => "") (fun _ => "") (fun _ => true) (fun _ => true) ["-in"; "e"; "-out"; "missing"] linked
    (Some 2) (fun s => s) true (<["out" := "missing"]> {["in" := "e"]}) [] 1); [vm_compute; reflexivity..|].
  intros id [= <-].
  assert (Ho : path_of linked (string_flag (<["out" := "missing"]> {["in" := "e"]}) "out" "") = NoSuchFile) by (vm_compute; reflexivity).
  rewrite Ho. intros p. cbn. destruct (p =s "missing"); discriminate.
Defined.
