(* ===== verification/Execsim.v ===== *)
(** The command [execsim]: [src/cmd/execsim/main.go], which prints what the
    simulator reports for every intent under both fill rules. *)

From S2P Require Import Prelude GoStr Duration Tick Intent Machine Exposure Decide Journal Executor Recorder Replay Sim SimSafety Scanner Config Flags Ingress.
Local Open Scope Z_scope.

Section Execsim.
Context `{Process, LineCodec, EvidenceCodec} (Digest : State -> string) (quote : string -> string).
(** The JSON of an intent, and how the disk behaves under each journal. *)
Context (decode_intent : string -> option Intent) (disk_faults : Intent -> list disk_fault).

Inductive execsim_error :=
| SimEvidence | SimIntents | SimIntentLine (line : Z) (e : parse_error) | SimScan (e : scan_end) | SimNoIntents | SimFailed (e : sim_error).

(** The loop of [readIntents]; [n] is the number of the line. *)
Fixpoint intents_loop (lines : list string) (n : Z) (out : list Intent) : result (list Intent) execsim_error :=
  match lines with
  | [] => Ok out
  | text :: lines =>
      let line := TrimSpace text in
      if line =s "" then intents_loop lines (n + 1) out
      else match ParseIntent decode_intent line with
           | (_, Some e) => Err (SimIntentLine n e)
           | (in_, None) => intents_loop lines (n + 1) (out ++ [in_])
           end
  end.

Definition readIntents (path : string) : result (list Intent) execsim_error :=
  match ReadFile path with
  | None => Err SimIntents
  | Some data =>
      let '(lines, end_) := Scan MaxScanTokenSize false data in
      match intents_loop lines 1 [] with
      | Err e => Err e
      | Ok out =>
          match end_ with
          | ScanEOF => match out with [] => Err SimNoIntents | _ => Ok out end
          | e => Err (SimScan e)
          end
      end
  end.

(** The results printed: by intent, and by rule in the order of [sim.Rules]. *)
Definition by_intent (through touch : list SimResult) : list SimResult :=
  mjoin (zip_with (fun a b => [a; b]) through touch).

Definition simulate (evidencePath intentsPath : string) (cfg : Config) : result (list SimResult) execsim_error :=
  match ReadFile evidencePath with
  | None => Err SimEvidence
  | Some evidence =>
      match readIntents intentsPath with
      | Err e => Err e
      | Ok intents =>
          match SimRun Digest quote evidence intents cfg Through disk_faults with
          | Err e => Err (SimFailed e)
          | Ok through =>
              match SimRun Digest quote evidence intents cfg Touch disk_faults with
              | Err e => Err (SimFailed e)
              | Ok touch => Ok (by_intent through touch)
              end
          end
      end
  end.

Definition execsim_flags : flag_set :=
  [("in", StringFlag); ("intents", StringFlag); ("step", DurationFlag); ("stale", DurationFlag)].

(** [run]: the exit code, and what is printed. *)
Definition execsim (args : list string) : Z * list SimResult :=
  match Parse execsim_flags args ∅ with
  | Err _ => (exitUsage, [])
  | Ok (m, rest) =>
      let step := duration_flag m "step" (StepEvery DefaultConfig) in
      let stale := duration_flag m "stale" (StaleAfter DefaultConfig) in
      if (string_flag m "in" "" =s "") || (string_flag m "intents" "" =s "") || (0 <? length rest)%nat || (step <=? 0) || (stale <=? 0)
      then (exitUsage, [])
      else
        match simulate (string_flag m "in" "") (string_flag m "intents" "")
                (mkConfig true (RequireLedgerComplete DefaultConfig) step stale) with
        | Err _ => (exitFailure, [])
        | Ok out => (exitOK, out)
        end
  end.

(** ** What is printed *)

Lemma SimRun_each evidence cfg rule intents : forall out, SimRun Digest quote evidence intents cfg rule disk_faults = Ok out ->
  Forall2 (fun i r => RunOne Digest quote i cfg rule evidence "" (disk_faults i) env_ok = Ok r) intents out.
Proof.
  induction intents as [|i intents IH]; intros out Hs; cbn [SimRun] in Hs; (destruct (negb (ValidRule rule)); [done|]).
  - injection Hs as <-. constructor.
  - destruct (RunOne _ _ _ _ _ _ _ _ _) as [r|] eqn:Er; [|done].
    destruct (SimRun _ _ _ _ _ _ _) as [rs|] eqn:Es; [|done]. injection Hs as <-. constructor; [done|by apply IH].
Qed.

Lemma by_intent_lookup through : forall touch n a b, through !! n = Some a -> touch !! n = Some b ->
  by_intent through touch !! (2 * n)%nat = Some a /\ by_intent through touch !! (2 * n + 1)%nat = Some b.
Proof.
  unfold by_intent. induction through as [|x through IH]; intros [|y touch] [|n] a b Ha Hb; try done.
  cbn in Ha, Hb. destruct (IH touch n a b Ha Hb) as [Hx Hy].
  replace (2 * S n)%nat with (S (S (2 * n))) by lia. replace (S (S (2 * n)) + 1)%nat with (S (S (2 * n + 1))) by lia. done.
Qed.
Lemma by_intent_length through touch : length through = length touch -> length (by_intent through touch) = (2 * length through)%nat.
Proof.
  unfold by_intent. revert touch. induction through as [|x through IH]; intros [|y touch] Hl; cbn in *; try done.
  rewrite IH by lia. lia.
Qed.

Lemma simulate_each evidencePath intentsPath cfg out : simulate evidencePath intentsPath cfg = Ok out ->
  exists evidence intents, ReadFile evidencePath = Some evidence /\ readIntents intentsPath = Ok intents /\
    length out = (2 * length intents)%nat /\
    forall n i, intents !! n = Some i -> exists a b, out !! (2 * n)%nat = Some a /\ out !! (2 * n + 1)%nat = Some b /\
      RunOne Digest quote i cfg Through evidence "" (disk_faults i) env_ok = Ok a /\
      RunOne Digest quote i cfg Touch evidence "" (disk_faults i) env_ok = Ok b.
Proof.
  unfold simulate. destruct (ReadFile evidencePath) as [evidence|]; [|done]. destruct (readIntents intentsPath) as [intents|]; [|done].
  destruct (SimRun _ _ _ _ _ Through _) as [through|] eqn:E1; [|done]. destruct (SimRun _ _ _ _ _ Touch _) as [touch|] eqn:E2; [|done].
  intros [= <-]. exists evidence, intents. split; [done|]. split; [done|].
  pose proof (SimRun_each _ _ _ _ _ E1) as F1. pose proof (SimRun_each _ _ _ _ _ E2) as F2.
  pose proof (Forall2_length _ _ _ F1). pose proof (Forall2_length _ _ _ F2). split; [rewrite by_intent_length; lia|].
  intros n i Hi. destruct (Forall2_lookup_l _ _ _ _ _ F1 Hi) as (a & Ha & Ra). destruct (Forall2_lookup_l _ _ _ _ _ F2 Hi) as (b & Hb & Rb).
  destruct (by_intent_lookup _ _ _ _ _ Ha Hb) as [Hx Hy]. by exists a, b.
Qed.

(** Every intent that is worked is valid, and is a line of its file. *)
Lemma intents_loop_valid lines : forall n out intents, intents_loop lines n out = Ok intents ->
  Forall (fun i => Validate i = None) out -> Forall (fun i => Validate i = None) intents.
Proof.
  induction lines as [|text lines IH]; intros n out intents Hl Hv; cbn [intents_loop] in Hl; [by injection Hl as <-|].
  destruct (_ =s ""); [by eapply IH|]. unfold ParseIntent in Hl. destruct (decode_intent _) as [i|]; [|done].
  destruct (Validate i) eqn:Ei; [done|]. cbn in Hl. eapply IH; [exact Hl|]. apply Forall_app. split; [done|]. by constructor.
Qed.
Lemma readIntents_valid path intents : readIntents path = Ok intents -> intents <> [] /\ Forall (fun i => Validate i = None) intents.
Proof.
  unfold readIntents. destruct (ReadFile path) as [data|]; [|done]. destruct (Scan _ _ _) as [lines end_].
  destruct (intents_loop lines 1 []) as [out|] eqn:E; [|done]. destruct end_; try done. destruct out as [|i out]; [done|]. intros [= <-].
  split; [done|]. eapply intents_loop_valid; [exact E|constructor].
Qed.

(** The clock of an evidence line is an [int64]. *)
Hypothesis Hat : forall raw l, ev_unmarshal raw = Some l -> in_int64 (ln_AtNS l).

End Execsim.

(** ** A sample run *)

#[local] Existing Instance int64_codec.
#[local] Instance sim_files : Process := {|
  ReadFile p := if p =s "evidence" then Some sample_evidence else if p =s "intents" then Some ("buy" +:+ String newline " ") else None;
  Stat _ := None;
  LookupEnv _ := None
|}.
Definition sim_decode (s : string) : option Intent := if s =s "buy" then Some sample_buy else None.
Notation execsim_run := (execsim sample_digest sample_quote sim_decode (fun _ => []) ["-in"; "evidence"; "-intents=intents"]).
Lemma execsim_code : execsim_run.1 = exitOK /\ (rs_Filled <$> execsim_run.2) = [3; 10].
Proof. vm_compute. split; reflexivity. Qed.

