(* ===== verification/Execmock.v ===== *)
(** The command [execmock]: [src/cmd/execmock/main.go], its flags and its
    configuration, and the construction of the live run in [live.go].

    go-toml is the class [StrictToml], [redis.ParseURL], [reflect.DeepEqual] and
    the JSON of an intent are parameters, and so are the journal found under a
    name and the outside seen through a client. *)

From S2P Require Import Prelude GoStr Duration Wire KST Prog StErr Tick Intent E1 Machine Exposure Decide Journal Executor Ledger Stream Frame Feed Sim Live LiveRefresh LiveSafe Config Flags Ingress.
Local Open Scope Z_scope.

(** ** The configuration *)

Record fileConfig := mkFileConfig {
  xf_Account : string; xf_TokenEnv : string; xf_SendEnabled : bool; xf_URL : string; xf_TokenHeader : string;
  xf_Timeout : string; xf_URLEnv : string; xf_AppKeyEnv : string; xf_AppSecretEnv : string;
  xf_AccessTokenEnv : string; xf_AccountEnv : string; xf_ProductEnv : string
}.

(** The strict decoding of a file. *)
Class StrictToml := { toml_exec : string -> option fileConfig }.

Inductive config_failure := FileUnreadable | FileInvalid | FileTimeout.

Section Execmock.
Context `{StrictToml, Process, NetURL}.

(** [loadConfig]. *)
Definition loadConfig (path : string) (dryRun : bool) : result (fileConfig * E1Config) config_failure :=
  match ReadFile path with
  | None => Err FileUnreadable
  | Some data =>
      match toml_exec data with
      | None => Err FileInvalid
      | Some fc =>
          let cfg t := mkE1Config (xf_Account fc) (xf_SendEnabled fc) dryRun (xf_URL fc) (xf_TokenHeader fc) t in
          if xf_Timeout fc =s "" then Ok (fc, cfg 0)
          else match ParseDuration (xf_Timeout fc) with
               | Some t => if t <=? 0 then Err FileTimeout else Ok (fc, cfg t)
               | None => Err FileTimeout
               end
      end
  end.

(** ** [runWithLive] *)

Definition execmock_flags : flag_set :=
  [("config", StringFlag); ("intent", StringFlag); ("in", StringFlag); ("live-book", BoolFlag); ("send", BoolFlag);
   ("journal", StringFlag); ("duration", DurationFlag); ("dry-run", BoolFlag); ("rule", StringFlag);
   ("step", DurationFlag); ("stale", DurationFlag)].

(** What the live runner is called with. *)
Record live_call := mkLiveCall {
  lc_file : fileConfig; lc_cfg : E1Config; lc_exec : Config; lc_intent : string; lc_journal : string; lc_duration : Z
}.
Inductive plan :=
| Exit (code : Z)
| RunLive (l : live_call)
| RunReplay (cfg : E1Config) (ecfg : Config) (intent evidence rule : string).

Definition runWithLive (args : list string) : plan :=
  match Parse execmock_flags args ∅ with
  | Err _ => Exit exitUsage
  | Ok (m, rest) =>
      let inPath := string_flag m "in" "" in
      let live := bool_flag m "live-book" in
      let send := bool_flag m "send" in
      let rule := string_flag m "rule" Through in
      let step := duration_flag m "step" (StepEvery DefaultConfig) in
      let stale := duration_flag m "stale" (StaleAfter DefaultConfig) in
      let ecfg := mkConfig (SendEnabled DefaultConfig) (RequireLedgerComplete DefaultConfig) step stale in
      if (string_flag m "config" "" =s "") || (string_flag m "intent" "" =s "") || (0 <? length rest)%nat
         || (step <=? 0) || (stale <=? 0)
      then Exit exitUsage
      else if negb (ValidRule rule) then Exit exitUsage
      else match loadConfig (string_flag m "config" "") (bool_flag m "dry-run") with
           | Err _ => Exit exitConfig
           | Ok (fc, cfg) =>
               let go :=
                 if live then
                   if (inPath <>s "") || (duration_flag m "duration" minute_ns <=? 0) then Exit exitUsage
                   else RunLive (mkLiveCall fc cfg ecfg (string_flag m "intent" "") (string_flag m "journal" "")
                                   (duration_flag m "duration" minute_ns))
                 else if inPath =s "" then Exit exitUsage
                 else RunReplay cfg ecfg (string_flag m "intent" "") inPath rule in
               match Config_Mode cfg with
               | Err _ => Exit exitConfig
               | Ok Off => if send then Exit exitUsage else Exit exitOK
               | Ok SendMode => if negb send || negb live || (inPath <>s "") then Exit exitUsage else go
               | Ok DryRun => go
               end
           end
  end.

(** ** [liveRun] *)

Inductive live_refusal :=
| RIntentFile | RIntent (e : parse_error) | RAccount | RRedis | RSendNeeds | RUnset (name : string) | RTempDir
| RJournalFile | RJournal (e : open_error) | ROtherIntent | RClient (e : refusal) | RBrokerRead | RStart (e : exec_error).

(** [fail]: [configErrorf] marks what the operator fixes. *)
Definition fail (e : live_refusal) : Z :=
  match e with
  | RRedis | RSendNeeds | RUnset _ | RBrokerRead => exitConfig
  | _ => exitFailure
  end.

Context `{LineCodec} (Digest : State -> string) `{E1Codec} (quote : string -> string) {codec : StampCodec}.
Context {W : Type} `{lworld : LiveWorld W}.
Context (decode_intent : string -> option Intent) (DeepEqual : Intent -> Intent -> bool) (redis_ParseURL : string -> bool).
(** The journal under a name, as [os.OpenFile] leaves it; the path in a new
    temporary directory. *)
Context (journal_at : string -> option (open_env * string)) (temp_journal : option string).
(** The environment of the client's calls, and the outside through a client. *)
Context {E : Type} (h : E -> forall R : Set, E1.op R -> E * R) (env : E) (connect : Client -> W).


(** The options' token source reads the environment of the process. *)
Definition token_env (name : string) (s : E) {R : Set} (o : E1.op R) : E * R :=
  match o in E1.op R return E * R with
  | AskToken => (s, Ok (Getenv name))
  | o => h s _ o
  end.
Definition newClient (cfg : E1Config) (i : Intent) (tokenEnv : string) : option (result Client refusal) :=
  (Prog.run (op := E1.op) (fun s R o => token_env tokenEnv s o) env (E1.New quote cfg i (mkOptions true None true true))).2.

Definition credentials (fc : fileConfig) : bool :=
  forallb (fun name => (name <>s "") && (Getenv name <>s ""))
    [xf_AppKeyEnv fc; xf_AppSecretEnv fc; xf_AccessTokenEnv fc; xf_AccountEnv fc; xf_ProductEnv fc].

(** What the run is started with; [su_finished] is the journal's state. *)
Record setup := mkSetup {
  su_dry : bool; su_until : Z; su_hs : historyRead; su_client : Client; su_finished : bool; su_live : live W
}.

(** [liveRun], up to its drive. *)
Definition liveSetup (l : live_call) : result setup live_refusal :=
  let fc := lc_file l in
  let cfg := lc_cfg l in
  let dry := cf_DryRun cfg in
  match ReadFile (lc_intent l) with
  | None => Err RIntentFile
  | Some data =>
      match ParseIntent decode_intent (TrimSpace data) with
      | (_, Some e) => Err (RIntent e)
      | (intent, None) =>
          if Account intent <>s MockAccount then Err RAccount
          else if is_some (ValidateRedisURL (Getenv (xf_URLEnv fc))) || negb (redis_ParseURL (Getenv (xf_URLEnv fc)))
          then Err RRedis
          else if negb dry && ((lc_journal l =s "") || (xf_TokenEnv fc =s "")
                  || negb (HasSuffix (cf_URL cfg) "/execution-intents/children"))
          then Err RSendNeeds
          else if negb dry && (Getenv (xf_TokenEnv fc) =s "") then Err (RUnset (xf_TokenEnv fc))
          else
            match (if dry then temp_journal else Some (lc_journal l)) with
            | None => Err RTempDir
            | Some path =>
                match journal_at path with
                | None => Err RJournalFile
                | Some (oenv, file) =>
                    match openJournal Digest oenv file with
                    | (_, Err e) => Err (RJournal e)
                    | (_, Ok (j, st)) =>
                        if Started st && negb (DeepEqual (s_Intent st) intent) then Err ROtherIntent
                        else match newClient cfg intent (xf_TokenEnv fc) with
                             | None => Err (RClient (E1.ErrConfig ""))
                             | Some (Err e) => Err (RClient e)
                             | Some (Ok client) =>
                                 if negb dry && negb (credentials fc) then Err RBrokerRead
                                 else
                                   let hs := mkHistoryRead (Getenv (xf_AccountEnv fc)) (Getenv (xf_ProductEnv fc))
                                               (Symbol intent) (in_Side intent) in
                                   let ecfg := mkConfig true (negb dry) (StepEvery (lc_exec l)) (StaleAfter (lc_exec l)) in
                                   let e := Executor.New ecfg j st in
                                   let '(w, now) := time_now (connect client) in
                                   let done_ w e :=
                                     Ok (mkSetup dry (now + lc_duration l) hs client (s_Done st <>s "") (mkLive w e ∅ [])) in
                                   if Started st then done_ (mkOuter w false) e
                                   else match Start Digest (mkOuter w false) e intent (UnixNano now) with
                                        | (_, _, Some err) => Err (RStart err)
                                        | (w, e, None) => done_ w e
                                        end
                             end
                    end
                end
            end
      end
  end.

(** The rest of [liveRun]: a finished journal is verified, and not driven. *)
Definition runLive (n : nat) (su : setup) : stM (live W) live_error live_end :=
  if su_finished su && negb (su_dry su) then
    refreshLedger Digest (readBroker (su_hs su));;
    fails LFinished
  else
    driveLive Digest quote (su_dry su) (su_until su) (hs_Symbol (su_hs su)) (su_hs su) n.

Definition liveRun (n : nat) (l : live_call) : result (option (live W * result live_end live_error)) live_refusal :=
  match liveSetup l with
  | Err e => Err e
  | Ok su => Ok (runLive n su (su_live su))
  end.

(** [run] of the command: how the process ends.  A run that has used its rounds
    goes on; a replay ends as [exit_dryRun] of [DryRun] says. *)
Inductive command_end := Exited (code : Z) | Panicked | StillRunning | Replays.
Definition execmock (n : nat) (args : list string) : command_end :=
  match runWithLive args with
  | Exit code => Exited code
  | RunReplay _ _ _ _ _ => Replays
  | RunLive l =>
      match liveRun n l with
      | Err e => Exited (fail e)
      | Ok None => Panicked
      | Ok (Some (_, Ok Ended)) => Exited exitOK
      | Ok (Some (_, Ok Running)) => StillRunning
      | Ok (Some (_, Err _)) => Exited exitFailure
      end
  end.

(** ** What a live run is allowed *)

(** Every way to a live run. *)
Record live_plan (args : list string) (l : live_call) : Prop := {
  lp_flags : exists m, Parse execmock_flags args ∅ = Ok (m, []) /\ bool_flag m "live-book" = true /\
    string_flag m "in" "" = "" /\ bool_flag m "dry-run" = cf_DryRun (lc_cfg l) /\ lc_journal l = string_flag m "journal" "" /\
    (Config_Mode (lc_cfg l) = Ok SendMode -> bool_flag m "send" = true);
  lp_file : cf_SendEnabled (lc_cfg l) = xf_SendEnabled (lc_file l) /\ cf_Account (lc_cfg l) = xf_Account (lc_file l);
  lp_mode : exists mode, Config_Mode (lc_cfg l) = Ok mode /\ mode <> Off;
  lp_exec : in_int64 (StepEvery (lc_exec l)) /\ in_int64 (StaleAfter (lc_exec l))
}.

Lemma loadConfig_facts path dryRun fc cfg : loadConfig path dryRun = Ok (fc, cfg) ->
  cf_DryRun cfg = dryRun /\ cf_SendEnabled cfg = xf_SendEnabled fc /\ cf_Account cfg = xf_Account fc.
Proof.
  unfold loadConfig. destruct (ReadFile path) as [data|]; [|done]. destruct (toml_exec data) as [f|]; [|done]. cbv zeta.
  destruct (_ =s ""); [by intros [= <- <-]|]. destruct (ParseDuration _) as [t|]; [|done]. destruct (t <=? 0); [done|].
  by intros [= <- <-].
Qed.

Lemma runWithLive_plan args l : runWithLive args = RunLive l -> live_plan args l.
Proof.
  unfold runWithLive. destruct (Parse execmock_flags args ∅) as [[m rest]|] eqn:Ep; [|done]. cbv zeta.
  destruct (_ || _) eqn:Eu; [done|]. bool_simpl. destruct (negb (ValidRule _)); [done|].
  destruct (loadConfig _ _) as [[fc cfg]|] eqn:El; [|done]. apply loadConfig_facts in El as (Hd & Hs & Ha).
  assert (rest = []) as -> by (destruct rest; [done|discriminate]).
  destruct (Config_Mode cfg) as [mode|] eqn:Em; [|done].
  set (go := if bool_flag m "live-book" then _ else _).
  assert (Hgo : go = RunLive l -> (mode = SendMode -> bool_flag m "send" = true) -> mode <> Off -> live_plan args l).
  { unfold go. intros Hg Hsend Hoff. destruct (bool_flag m "live-book") eqn:Elive; [|by destruct (_ =s "")].
    destruct (_ || _) eqn:Ei in Hg; [done|]. bool_simpl. injection Hg as <-. constructor; cbn [lc_cfg lc_file lc_exec lc_journal StepEvery StaleAfter].
    - exists m. repeat (split; [done|]). rewrite Em. intros [= ->]. by apply Hsend.
    - done.
    - by exists mode.
    - split; apply duration_flag_int64; cbn; in64. }
  destruct mode; [by destruct (bool_flag m "send")|by intros Hg; apply Hgo|].
  destruct (negb (bool_flag m "send") || negb (bool_flag m "live-book") || (string_flag m "in" "" <>s "")) eqn:Eg; [done|].
  bool_simpl. intros Hg. by apply Hgo.
Qed.

Lemma newClient_ok cfg i name c : newClient cfg i name = Some (Ok c) -> client_ok quote cfg i c.
Proof.
  unfold newClient. intros Hr.
  match type of Hr with (Prog.run ?f ?s ?p).2 = _ => pose proof (Prog.run_performs f p s) as Hp end.
  rewrite Hr in Hp. destruct (performs_history _ _ _ _ Hp (New_history quote cfg i _)) as (r & [= <-] & _ & _ & _ & Hc). by apply Hc.
Qed.

(** ** What [liveRun] starts with *)

(** [reflect.DeepEqual] on intents, which also compares the zones of their
    deadlines; and the journal under any name was left by an earlier run of the
    executor, or is new: what went to the gateway is in it. *)
Definition left_by_executor (file : string) (c : Client) : Prop :=
  exists (w : outer W) e, inv Digest w e /\ j_file (x_j e) = file /\ handed w = handed (connect c).
Hypothesis Hequal : forall a b, DeepEqual a b = true -> a = b.
Hypothesis Hleft : forall path oenv file c, journal_at path = Some (oenv, file) -> left_by_executor file c.
Hypothesis Hfaithful : forall l b, marshal l = Some b -> faithful l.

Record started_with (l : live_call) (su : setup) : Prop := {
  sw_client : client_ok quote (lc_cfg l) (cl_intent (su_client su)) (su_client su);
  sw_dry : su_dry su = cf_DryRun (lc_cfg l);
  sw_inv : good Digest (su_live su);
  sw_handed : handed (lv_out (su_live su)) = handed (connect (su_client su));
  sw_ledger : RequireLedgerComplete (x_cfg (lv_exec (su_live su))) = negb (su_dry su);
  sw_finished : su_finished su = (s_Done (live_state (su_live su)) <>s "");
  sw_intent : s_Intent (live_state (su_live su)) = cl_intent (su_client su);
  sw_reads : hs_Symbol (su_hs su) = Symbol (cl_intent (su_client su)) /\ hs_Side (su_hs su) = in_Side (cl_intent (su_client su));
  sw_durable : su_dry su = false -> lc_journal l <> "" /\ Getenv (xf_TokenEnv (lc_file l)) <> "" /\ credentials (lc_file l) = true
}.

Lemma openJournal_any oenv file file' j st : openJournal Digest oenv file = (file', Ok (j, st)) ->
  openJournal Digest env_ok file = (file', Ok (j, st)).
Proof.
  unfold openJournal. destruct (flock oenv); [|done..]. destruct (negb (read_ok oenv)); [done|].
  destruct ((file =s "") && negb (dir_ok oenv)); [done|]. cbn [flock env_ok read_ok negb dir_ok andb]. rewrite andb_false_r.
  destruct (replay Digest file) as [[[st' n] end_] err]. destruct err; [done|].
  destruct (_ && negb (truncate_ok oenv)); [done|]. rewrite andb_false_r. destruct (negb (seek_ok oenv)); [done|]. done.
Qed.

(** The executor [New] makes of an opened journal. *)
Lemma opened_inv oenv file file' j st ecfg c (w : outer W) : left_by_executor file c ->
  openJournal Digest oenv file = (file', Ok (j, st)) -> handed w = handed (connect c) ->
  in_int64 (StepEvery ecfg) /\ in_int64 (StaleAfter ecfg) -> inv Digest w (Executor.New ecfg j st).
Proof.
  intros (w0 & e0 & Hi & <- & Hh) Ho%openJournal_any Hw Hcfg.
  destruct (reopen_inv Digest w0 e0 ecfg Hi Hcfg) as (j' & s' & Ho' & Hi'). rewrite Ho in Ho'. injection Ho' as _ -> ->.
  by apply (inv_ext Digest w0 (Executor.New ecfg j' s')); try done; rewrite Hw, Hh.
Qed.

(** What [Start] leaves. *)
Lemma Start_ok (w : outer W) e i t w' e' : inv Digest w e -> Start Digest w e i (UnixNano t) = (w', e', None) ->
  inv Digest w' e' /\ handed w' = handed w /\ x_cfg e' = x_cfg e /\ x_state e' = started_state i.
Proof using Hfaithful.
  intros Hi Hs. unfold Start in Hs.
  assert (Hr : int64_rec (start_rec (UnixNano t) i)) by (constructor; try done; apply wrap64_range).
  destruct (commit_spec Digest Hfaithful w e _ w' e' None Hi (pre_ok_simple _ _ Hr ltac:(done) ltac:(done)) Hs) as [Hi' Hh Hc _ Hok].
  destruct (Hok eq_refl) as (_ & Ha & _). repeat (split; [done|]).
  unfold Apply in Ha. cbn in Ha. unfold apply_start in Ha. cbn in Ha.
  destruct (Started (x_state e)); [done|]. destruct (Validate i); [done|]. by injection Ha as <-.
Qed.

Lemma liveSetup_ok l su : in_int64 (StepEvery (lc_exec l)) /\ in_int64 (StaleAfter (lc_exec l)) ->
  liveSetup l = Ok su -> started_with l su.
Proof using Hequal Hleft Hfaithful lworld.
  intros Hcfg. unfold liveSetup. cbv zeta. destruct (ReadFile (lc_intent l)) as [data|]; [|done].
  destruct (ParseIntent decode_intent (TrimSpace data)) as [intent [e|]] eqn:Epi; [done|].
  destruct (Account intent <>s MockAccount); [done|]. destruct (is_some _ || _); [done|].
  destruct (negb (cf_DryRun (lc_cfg l)) && _) eqn:En; [done|].
  destruct (negb (cf_DryRun (lc_cfg l)) && (Getenv _ =s "")) eqn:Et; [done|].
  destruct (if cf_DryRun (lc_cfg l) then _ else _) as [path|]; [|done].
  destruct (journal_at path) as [[oenv file]|] eqn:Ej; [|done].
  destruct (openJournal Digest oenv file) as [file' [[j st]|]] eqn:Eo; [|done].
  destruct (Started st && negb (DeepEqual (s_Intent st) intent)) eqn:Eq; [done|].
  destruct (newClient (lc_cfg l) intent _) as [[client|]|] eqn:Ec; [|done..]. apply newClient_ok in Ec.
  destruct (negb (cf_DryRun (lc_cfg l)) && negb (credentials (lc_file l))) eqn:Eb; [done|].
  pose proof (handed_now (connect client)) as Hh. destruct (time_now (connect client)) as [w now]. cbn [fst] in Hh.
  set (ecfg := mkConfig true _ _ _).
  assert (Hi : inv Digest (mkOuter w false) (Executor.New ecfg j st)) by (eapply opened_inv; [by eapply (Hleft path oenv file client)|exact Eo|exact Hh|exact Hcfg]).
  assert (Hci : cl_intent client = intent) by apply Ec.
  assert (Hdur : cf_DryRun (lc_cfg l) = false -> lc_journal l <> "" /\ Getenv (xf_TokenEnv (lc_file l)) <> "" /\ credentials (lc_file l) = true).
  { intros Hd. rewrite Hd in En, Et, Eb. cbn [negb andb] in *. bool_simpl. done. }
  assert (Hgo : forall w' e', inv Digest w' e' -> handed w' = handed (connect client) -> x_cfg e' = ecfg ->
    s_Intent (x_state e') = intent -> s_Done st = s_Done (x_state e') ->
    started_with l (mkSetup (cf_DryRun (lc_cfg l)) (now + lc_duration l)
      (mkHistoryRead (Getenv (xf_AccountEnv (lc_file l))) (Getenv (xf_ProductEnv (lc_file l))) (Symbol intent) (in_Side intent))
      client (s_Done st <>s "") (mkLive w' e' ∅ []))).
  { intros w' e' Hi' Hh' Hx Hint Hd. constructor; cbn [su_client su_dry su_live su_finished su_hs lv_out lv_exec hs_Symbol hs_Side]; rewrite ?Hci.
    - done.
    - done.
    - split; [done|]. intros o v Hov. cbn in Hov. exfalso. exact (lookup_empty_Some o v Hov).
    - done.
    - by rewrite Hx.
    - unfold live_state. cbn [lv_exec]. by rewrite Hd.
    - done.
    - done.
    - done. }
  destruct (Started st) eqn:Es.
  - intros [= <-]. cbn [andb] in Eq. bool_simpl. by apply Hgo; [| |reflexivity|apply Hequal|].
  - destruct (Start Digest (mkOuter w false) (Executor.New ecfg j st) intent (UnixNano now)) as [[w' e'] [err|]] eqn:Est; [done|].
    intros [= <-]. destruct (Start_ok _ _ _ _ _ _ Hi Est) as (Hi' & Hh' & Hc' & Hst).
    apply Hgo; [done|by rewrite Hh'|done|by rewrite Hst|]. rewrite Hst. cbn [s_Done started_state].
    destruct (i_state _ _ _ Hi) as [Hz|Hz]; cbn [x_state Executor.New] in Hz; [by rewrite Hz|].
    pose proof (Started_wf st (eo_wf st Hz)) as Hx. congruence.
Qed.

(** ** The command *)

Section drive.
Hypothesis Hsane : forall (w : W) id w' v, Query w id = (w', Ok v) ->
  int64_view v /\ forall o, v_Order v = Some o -> order_sane o.

(** A reader of the history answers what the broker says. *)
Lemma readBroker_reads hs : reads_orders Digest (readBroker hs).
Proof.
  intros s o Hg. apply (readBroker_ok Digest); [done|]. intros s' r Hl Ht Ha. split; [done|]. intros v ->.
  specialize (Ha v eq_refl). split; [rewrite Ha; apply elem_of_app; right; left|]. right.
  exists (lv_asked s), [(o, v)]. split; [done|]. split; [done|left].
Qed.

(** A live run in send mode, finished or not. *)
Lemma runLive_ok l su n : started_with l su -> su_dry su = false ->
  does (su_live su) (runLive n su) (fun s' r => run_ok Digest (su_live su) s' r /\
    (su_finished su = true -> (exists e, r = Err e) /\ handed (lv_out s') = handed (lv_out (su_live su)))).
Proof using Hfaithful Hsane lworld.
  intros Hs Hd. pose proof (sw_inv _ _ Hs) as Hg. unfold runLive. rewrite Hd. cbn [negb]. rewrite andb_true_r.
  destruct (su_finished su) eqn:Ef.
  - does_step. eapply does_mono; [apply (refresh_ok Digest Hfaithful); [apply readBroker_reads|exact Hg]|]. cbv beta.
    intros s1 r [Hk _]. assert (Hrun : forall e, run_ok Digest (su_live su) s1 (Err e)).
    { intros e. split; [apply Hk|]. exists (handed (lv_out (su_live su))), []. rewrite app_nil_r, (kp_handed _ _ _ Hk).
      split; [apply rounds_none|]. split; [done|]. split; [cbn; lia|]. split; [constructor|discriminate]. }
    destruct r as [[]|e]; [does_step|]; (split; [apply Hrun|]); intros _; (split; [by eexists|apply Hk]).
  - eapply does_mono; [apply (driveLive_ok Digest quote _ _ (su_hs su) Hfaithful Hsane n (su_live su) (su_live su))|].
    + split; [exact Hg|]. split; [by rewrite (sw_ledger _ _ Hs), Hd|]. split; [|apply rounds_none].
      pose proof (sw_finished _ _ Hs) as Hf. rewrite Ef in Hf. symmetry in Hf. by bool_simpl.
    + cbv beta. intros s' r Hr. by split.
Qed.

(** C2: The command sends only what was authorized and settled.  Whenever the
    flags and the file lead to a live run that is set up, its client is either
    a dry run's, with no token and no HTTP client, or the operator gave [-send]
    and [-live-book] and neither [-dry-run] nor [-in], the file enables sending
    on the mock account, a journal is named, and client, executor and readback
    work the same valid intent.  Then the run never panics, whatever the
    outside does, each child it hands over, but for one last cancel at the
    stop, follows a settled refresh, and a journal that is already finished is
    only verified. *)
Theorem execmock_sends_settled args l su n : runWithLive args = RunLive l -> liveSetup l = Ok su ->
  let c := su_client su in
  (cl_mode c = DryRun /\ cl_token c = "" /\ cl_http c = None) \/
  (cl_mode c = SendMode /\
    (exists m, Parse execmock_flags args ∅ = Ok (m, []) /\ bool_flag m "send" = true /\ bool_flag m "live-book" = true /\
      bool_flag m "dry-run" = false /\ string_flag m "in" "" = "") /\
    xf_SendEnabled (lc_file l) = true /\ xf_Account (lc_file l) = MockAccount /\ lc_journal l <> "" /\
    Validate (cl_intent c) = None /\ s_Intent (live_state (su_live su)) = cl_intent c /\
    hs_Symbol (su_hs su) = Symbol (cl_intent c) /\ hs_Side (su_hs su) = in_Side (cl_intent c) /\
    exists s' r, runLive n su (su_live su) = Some (s', r) /\ inv Digest (lv_out s') (lv_exec s') /\
      (su_finished su = true -> (exists e, r = Err e) /\ handed (lv_out s') = handed (connect c)) /\
      exists sent last, settled_rounds (handed (connect c)) sent /\ handed (lv_out s') = sent ++ last /\
        (length last <= 1)%nat /\ Forall (fun ch => c_Action ch = ActCancel) last /\
        (r = Ok Ended -> last = [] /\ s_Done (live_state s') <> "")).
Proof using Hequal Hleft Hfaithful Hsane lworld.
  intros Hp Hs. cbv zeta. apply runWithLive_plan in Hp. pose proof (liveSetup_ok _ _ (lp_exec _ _ Hp) Hs) as Hw. clear Hs.
  pose proof (sw_client _ _ Hw) as Hc. destruct (lp_mode _ _ Hp) as (mode & Hm & Hoff).
  pose proof (co_mode _ _ _ _ Hc) as Hmc. rewrite Hm in Hmc. injection Hmc as ->.
  destruct (cl_mode (su_client su)) eqn:Em; [done| |].
  { left. destruct (co_secret _ _ _ _ Hc) as [Ht Hh]; [by rewrite Em|]. done. }
  right. split; [done|]. destruct (lp_flags _ _ Hp) as (m & Hpm & Hl & Hin & Hdry & _ & Hsend). destruct (lp_file _ _ Hp) as [Hfe Hfa].
  assert (Hd : cf_DryRun (lc_cfg l) = false /\ cf_SendEnabled (lc_cfg l) = true /\ cf_Account (lc_cfg l) = MockAccount).
  { unfold Config_Mode in Hm. destruct (cf_Account (lc_cfg l) <>s MockAccount) eqn:Ea; [done|]. bool_simpl.
    destruct (cf_DryRun (lc_cfg l)); [done|]. by destruct (cf_SendEnabled (lc_cfg l)). }
  destruct Hd as (Hd & He & Ha). pose proof (sw_dry _ _ Hw) as Hsd. rewrite Hd in Hsd.
  split; [exists m; repeat (split; [done|]); split; [by apply Hsend|]; split; [done|]; split; [by rewrite Hdry|done]|].
  split; [by rewrite <- Hfe|]. split; [by rewrite <- Hfa|]. split; [by apply (sw_durable _ _ Hw)|].
  split; [apply Hc|]. split; [apply Hw|]. split; [apply Hw|]. split; [apply Hw|].
  pose proof (runLive_ok l su n Hw Hsd) as Hrun. apply does_run in Hrun as (s' & r & Hr & [Hg (h' & last & R1 & R2 & R3 & R4 & R5)] & Hf).
  rewrite (sw_handed _ _ Hw) in R1, Hf. exists s', r. split; [exact Hr|]. split; [apply Hg|]. split; [exact Hf|].
  exists h', last. repeat (split; [done|]). intros Hend. by destruct (R5 Hend) as (-> & Hdone & _).
Qed.
End drive.

End Execmock.

(** ** The answers of a dry run *)

Section Answers.
Context `{E1Codec} (quote : string -> string).

(** [fakeAnswer]; a simulated kill is a panic of the fake. *)
Definition answer_of (o : Outcome) : E1Outcome :=
  mkE1Outcome (oc_Status o) (if oc_Reason o =s "" then None else Some (oc_Reason o)) None
    (if oc_BrokerOrderID o =s "" then None else Some (oc_BrokerOrderID o)) "" false false.
Definition fakeAnswer (g : Gateway) (c : Child) : Gateway * result E1Outcome string :=
  match GSend c g with
  | (g, Sim.Sent o) => (g, if oc_Key o <>s c_Key c then Err "fake answered another key" else Ok (answer_of o))
  | (g, LinkDown) => (g, Err "exectest: disconnected")
  | (g, Killed) => (g, Err "exectest: killed")
  end.

(** A dry run's calls: its log takes every line, the fake answers. *)
Definition dry_env (g : Gateway) {R : Set} (o : E1.op R) : Gateway * R :=
  match o in E1.op R return Gateway * R with
  | AskToken => (g, Err "")
  | NewRequest _ _ => (g, None)
  | Do _ => (g, DoFailed None "")
  | WriteLog _ => (g, None)
  | AskAnswer c => fakeAnswer g c
  end.

(** An outcome E1's shape carries unchanged. *)
Definition carried (c : Child) (o : Outcome) : Prop :=
  oc_Key o = c_Key c /\ TrimSpace (oc_BrokerOrderID o) = oc_BrokerOrderID o /\
  (oc_Status o = StatusAccepted /\ oc_BrokerOrderID o <> "" \/ oc_Status o = StatusRefused \/ oc_Status o = StatusUncertain).

Lemma carried_back c o : carried c o -> ToExec quote (answer_of o) c = o.
Proof.
  intros (Hk & Ht & Hs). unfold ToExec, answer_of. cbn [ot_Reason ot_BrokerOrderID ot_Status].
  assert (Hr : default "" (if oc_Reason o =s "" then None else Some (oc_Reason o)) = oc_Reason o).
  { destruct (oc_Reason o =s "") eqn:E; [|done]. apply String.eqb_eq in E. by rewrite E. }
  assert (Hid : match (if oc_BrokerOrderID o =s "" then None else Some (oc_BrokerOrderID o)) with
    | Some id => TrimSpace id | None => "" end = oc_BrokerOrderID o).
  { destruct (oc_BrokerOrderID o =s "") eqn:E; [|done]. apply String.eqb_eq in E. by rewrite E. }
  rewrite Hr, Hid, <- Hk. destruct o as [k s r id]. cbn in *. destruct Hs as [[-> Hn]|[-> | ->]]; cbn.
  - apply String.eqb_neq in Hn. by rewrite Hn.
  - done.
  - done.
Qed.

Lemma gapply_carried c g : TrimSpace ("fake-" +:+ c_Key c) = "fake-" +:+ c_Key c -> carried c (gapply c g).2.
Proof.
  intros Ht. unfold gapply. cbv zeta.
  assert (Hok : carried c (mkOutcome (c_Key c) StatusAccepted "" ("fake-" +:+ c_Key c))) by (split; [done|]; split; [done|by left]).
  assert (Hun : forall r, carried c (mkOutcome (c_Key c) StatusUncertain r "")) by (intros; split; [done|]; split; [done|by right; right]).
  destruct (c_Action c =s ActSubmit); [done|]. destruct (_ || _).
  - destruct (g_live g) as [o|]; [|apply Hun]. destruct (bo_key o <>s c_TargetKey c); [apply Hun|].
    by destruct (c_Action c =s ActCancel).
  - split; [done|]. split; [done|]. by right; left.
Qed.

(** What the fake says of a key it has not answered. *)
Lemma GSend_carried c g g' o : TrimSpace ("fake-" +:+ c_Key c) = "fake-" +:+ c_Key c -> g_answers g !! c_Key c = None ->
  GSend c g = (g', Sim.Sent o) -> carried c o.
Proof.
  intros Ht Hn. unfold GSend. cbv zeta. destruct (Down (g_faults g)); [done|].
  set (g1 := if g_unanswered (push_send c g) then _ else _).
  assert (Hg1 : g_answers g1 = g_answers g) by (unfold g1; by destruct (g_unanswered _)). rewrite Hg1, Hn.
  set (g2 := if _ && gworse _ _ _ then _ else g1). destruct (DropRequest (g_faults g2)); [done|].
  destruct (KillBefore (g_faults g2)); [done|].
  destruct (RefuseNext (g_faults g2) <>s ""); [intros [= _ <-]; split; [done|]; split; [done|by right; left]|].
  pose proof (gapply_carried c g2 Ht) as Hc. destruct (gapply c g2) as [g3 out]. cbn [snd] in Hc.
  destruct (DropResponse _); [done|]. destruct (KillAfter _); [done|].
  destruct (Uncertain _); [intros [= _ <-]; split; [done|]; split; [done|by right; right]|].
  destruct (oc_Status out =s StatusUncertain); by intros [= _ <-].
Qed.

(** A dry run's client is transparent: over the fake gateway, behind
    [fakeAnswer], [Send] of a child the fake has not seen hands the executor
    exactly the outcome or the error of the fake, and leaves the fake as the
    child would have left it without the client. *)
Theorem dry_run_transparent c ch data line g : cl_mode c = DryRun -> cl_answer c = true ->
  cl_account c = MockAccount -> Account (cl_intent c) = MockAccount -> c_IntentID ch = IntentID (cl_intent c) ->
  marshal_child ch = Ok data -> encode_line (dryLine c ch data) = Ok line ->
  TrimSpace ("fake-" +:+ c_Key ch) = "fake-" +:+ c_Key ch -> g_answers g !! c_Key ch = None ->
  let '(g', tr, r) := Prog.run (op := E1.op) (fun s R o => dry_env s o) g (E1.Send quote c ch) in
  requests tr = [] /\ g' = (GSend ch g).1 /\
  r = Some match (GSend ch g).2 with
           | Sim.Sent o => Ok o | LinkDown => Err "exectest: disconnected" | Killed => Err "exectest: killed"
           end.
Proof.
  intros Hm Ha Hc1 Hc2 Hi Hd Hl Ht Hn. unfold E1.Send.
  rewrite Hc1, Hc2, Hi, !(proj2 (String.eqb_eq _ _) eq_refl). cbn [negb orb]. rewrite Hm, Hd. unfold dryRun. rewrite Hl, Ha.
  cbn [negb mbind prog_bind call Prog.run dry_env]. unfold fakeAnswer.
  destruct (GSend ch g) as [g' [o| |]] eqn:Eg; [|by cbn..].
  pose proof (GSend_carried _ _ _ _ Ht Hn Eg) as Hc. pose proof Hc as (Hk & _).
  rewrite Hk, (proj2 (String.eqb_eq _ _) eq_refl). cbn. by rewrite carried_back.
Qed.
End Answers.

(** ** A sample run *)

Module Sample.
#[local] Existing Instance sample_live_world.
#[local] Existing Instance sample_live_feed.
#[local] Existing Instance sample_live_inputs.
#[local] Existing Instance live_stamps.

Definition file : fileConfig := mkFileConfig MockAccount "TOKEN" true e1_url "" "" "REDIS" "KEY" "SECRET" "ACCESS" "ACCOUNT" "PRODUCT".
#[local] Instance toml : StrictToml := {| toml_exec s := if s =s "toml" then Some file else None |}.
#[local] Instance process : Process := {|
  ReadFile p := if p =s "c.toml" then Some "toml" else if p =s "intent.json" then Some " intent" else None;
  Stat _ := None;
  LookupEnv n := if n =s "REDIS" then Some "redis://localhost" else if n =s "UNSET" then None else Some "secret"
|}.
#[local] Instance net : NetURL := {|
  url_Parse s := if s =s e1_url then Some (mkURL "https" "" None "e1.test" "/execution-intents/children" "" false false "" "" "") else None;
  url_ParseRequestURI s := if s =s "redis://localhost" then Some (mkURL "redis" "" None "localhost" "" "" false false "" "" "") else None;
  Hostname := u_Host;
  url_String u := u_Scheme u +:+ "://" +:+ u_Host u +:+ u_Path u
|}.
Definition decode (s : string) : option Intent := if s =s "intent" then Some sample_buy else None.
Definition equal (a b : Intent) : bool := bool_decide (a = b).
Definition journals (p : string) : option (open_env * string) := if p =s "exec.journal" then Some (env_ok, "") else None.
Definition connect (_ : Client) : sample_live := live_world.
Definition args : list string :=
  ["-config"; "c.toml"; "--intent=intent.json"; "-live-book"; "-send"; "-journal"; "exec.journal"].
Notation setup_of l := (liveSetup sample_digest sample_quote decode equal (fun _ => true) journals None (@e1_env) tt connect l).
Notation run_of n args := (execmock sample_digest sample_quote decode equal (fun _ => true) journals None (@e1_env) tt connect n args).

(** It sends, is filled, and exits with 0. *)
Lemma run_is : run_of 5 args = Exited exitOK.
Proof. vm_compute. reflexivity. Qed.
(** Without [-send], with [-dry-run] and no journal directory, with a flag that
    does not exist. *)
Lemma refusals : run_of 5 (filter (fun s => s <> "-send") args) = Exited exitUsage /\
  run_of 5 (args ++ ["-dry-run"]) = Exited exitFailure /\ run_of 5 (args ++ ["-force"]) = Exited exitUsage /\
  run_of 5 (args ++ ["-in"; "evidence"]) = Exited exitUsage.
Proof. vm_compute. repeat split. Qed.

Lemma journals_left path oenv f c : journals path = Some (oenv, f) -> left_by_executor sample_digest connect f c.
Proof.
  unfold journals. destruct (path =s "exec.journal"); [|done]. intros [= _ <-].
  exists (mkOuter live_world false), (fresh live_cfg). split; [apply inv_fresh; [reflexivity|cbn; in64]|]. done.
Qed.
Lemma equal_eq a b : equal a b = true -> a = b.
Proof. apply bool_decide_eq_true. Qed.
Lemma goes_live : exists l su, runWithLive args = RunLive l /\ setup_of l = Ok su /\ su_finished su = false /\
  cl_mode (su_client su) = SendMode.
Proof. eexists _, _. split; [vm_compute; reflexivity|]. split; [vm_compute; reflexivity|]. split; reflexivity. Qed.
End Sample.

#[local] Existing Instance sample_live_world.
#[local] Existing Instance sample_live_feed.
#[local] Existing Instance sample_live_inputs.
#[local] Existing Instance live_stamps.
#[local] Existing Instance Sample.toml.
#[local] Existing Instance Sample.process.
#[local] Existing Instance Sample.net.
Lemma execmock_sends_settled_witness : exists l su s' r, runWithLive Sample.args = RunLive l /\
  runLive sample_digest sample_quote 5 su (su_live su) = Some (s', r) /\ inv sample_digest (lv_out s') (lv_exec s').
Proof.
  destruct Sample.goes_live as (l & su & Hl & Hs & _ & Hm).
  destruct (execmock_sends_settled sample_digest sample_quote Sample.decode Sample.equal (fun _ => true) Sample.journals None
    (@e1_env) tt Sample.connect Sample.equal_eq Sample.journals_left simple_faithful live_sane Sample.args l su 5 Hl Hs)
    as [[Hd _]|(_ & _ & _ & _ & _ & _ & _ & _ & _ & s' & r & Hr & Hi & _)]; [rewrite Hd in Hm; discriminate Hm|].
  exists l, su, s', r. exact (conj Hl (conj Hr Hi)).
Defined.

Definition dry_client : Client := mkClient DryRun MockAccount sample_buy e1_url DefaultTokenHeader "" None true.
Lemma dry_run_transparent_witness :
  (Prog.run (op := E1.op) (fun s R o => dry_env s o) (NewGateway sample_buy) (E1.Send e1_quote dry_client sample_submit)).2 =
    Some (Ok (mkOutcome (c_Key sample_submit) StatusAccepted "" ("fake-" +:+ c_Key sample_submit))).
Proof.
  pose proof (dry_run_transparent e1_quote dry_client sample_submit _ _ (NewGateway sample_buy) eq_refl eq_refl eq_refl eq_refl
    eq_refl eq_refl eq_refl eq_refl eq_refl) as Hx.
  destruct (Prog.run _ _ _) as [[g' tr] r]. destruct Hx as (_ & _ & ->). reflexivity.
Defined.
