(* ===== verification/DryRun.v ===== *)
(** The dry run of [execmock] over recorded evidence: [dryRunReplay] of
    [src/cmd/execmock/main.go], the simulator with the E1 client between the
    executor and the fake gateway. *)

From Stdlib Require Import Ascii QArith.
From S2P Require Import Prelude GoStr Wire KST Prog Tick Intent Machine Exposure Decide Journal Executor Frame Detect Recorder Replay E1 Sim SimSafety Config Flags Ingress Execmock.
Local Open Scope Z_scope.

(** ** The client as the gateway of the simulator *)

Section Wrapper.
Context `{E1Codec} (quote : string -> string) (c : Client).

(** A routine of the client, over the fake: the fake afterwards and the result. *)
Definition through_client {A} (p : prog E1.op (result A string)) (g : Gateway) : Gateway * result A string :=
  let '(g, _, r) := Prog.run (op := E1.op) (fun s R o => dry_env s o) g p in (g, default (Err "") r).
Definition dry_Send (w : SimWorld) (ch : Child) : SimWorld * result Outcome string :=
  let '(g, r) := through_client (E1.Send quote c ch) (sw_gateway w) in (mkSimWorld g (Sim.sw_handed w ++ [ch]) (sw_disk w), r).
Definition dry_Query (w : SimWorld) (id : string) : SimWorld * result View string :=
  let '(g, r) := through_client (E1.Query c id) (sw_gateway w) in (mkSimWorld g (Sim.sw_handed w) (sw_disk w), r).

Lemma dry_handed_Send w ch : Sim.sw_handed (fst (dry_Send w ch)) = Sim.sw_handed w ++ [ch].
Proof. unfold dry_Send. by destruct (through_client _ _). Qed.
Lemma dry_handed_Query w id : Sim.sw_handed (fst (dry_Query w id)) = Sim.sw_handed w.
Proof. unfold dry_Query. by destruct (through_client _ _). Qed.
Definition dry_world : World SimWorld := {|
  Executor.Send := dry_Send; Executor.Query := dry_Query; kill_switch := @kill_switch _ sim_world; disk := @disk _ sim_world; handed := Sim.sw_handed;
  handed_Send := dry_handed_Send; handed_Query := dry_handed_Query; handed_disk := @handed_disk _ sim_world
|}.
End Wrapper.

(** ** [dryRunReplay] *)

Inductive dry_error := DryIntentFile | DryIntent (e : parse_error) | DryEvidence | DryTempDir | DrySim (e : sim_error).

Section DryRun.
Context `{Process, NetURL, LineCodec, EvidenceCodec, E1Codec} (Digest : State -> string) (quote : string -> string).
Context (decode_intent : string -> option Intent).

(** [e1.New] as the wrapper calls it. *)
Definition wrapClient (cfg : E1Config) (i : Intent) : option Client :=
  match (Prog.run (op := E1.op) (fun s R o => dry_env s o) (NewGateway i) (E1.New quote cfg i (mkOptions false None true true))).2 with
  | Some (Ok c) => Some c
  | _ => None
  end.

(** [temp] says whether a directory for the journal could be made. *)
Definition dryRunReplay (cfg : E1Config) (ecfg : Config) (intentPath evidencePath rule : string) (temp : bool)
  (disk_faults : list disk_fault) : result SimResult dry_error :=
  match ReadFile intentPath with
  | None => Err DryIntentFile
  | Some data =>
      match ParseIntent decode_intent (TrimSpace data) with
      | (_, Some e) => Err (DryIntent e)
      | (intent, None) =>
          match ReadFile evidencePath with
          | None => Err DryEvidence
          | Some evidence =>
              if negb temp then Err DryTempDir
              else
                let ecfg := mkConfig (ExecutorSends cfg) (RequireLedgerComplete ecfg) (StepEvery ecfg) (StaleAfter ecfg) in
                let res := match wrapClient cfg intent with
                           | Some c => RunWrapped Digest quote (sender := dry_world quote c) intent ecfg rule true evidence "" disk_faults env_ok
                           | None => RunWrapped Digest quote intent ecfg rule false evidence "" disk_faults env_ok
                           end in
                match res with Ok r => Ok r | Err e => Err (DrySim e) end
          end
      end
  end.

(** The exit code of the command for a replay. *)
Definition exit_dryRun (r : result SimResult dry_error) : Z := match r with Ok _ => exitOK | Err _ => exitFailure end.
End DryRun.

(** ** A child's key is its own text *)

Lemma pretty_N_plain n : forall s, str_forall plain_byte s = true -> str_forall plain_byte (pretty_N_go n s) = true.
Proof.
  induction (N.lt_wf_0 n) as [n _ IH]. intros s Hs. destruct (decide (n = 0%N)) as [->|Hn]; [done|].
  rewrite pretty_N_go_step by lia. apply IH; [apply N.div_lt; lia|]. cbn [str_forall]. rewrite Hs, andb_true_r.
  pose proof (N.mod_lt n 10 ltac:(done)) as Hm. revert Hm. generalize (n mod 10)%N. intros d Hd.
  assert (Hc : d = 0%N \/ d = 1%N \/ d = 2%N \/ d = 3%N \/ d = 4%N \/ d = 5%N \/ d = 6%N \/ d = 7%N \/ d = 8%N \/ d = 9%N) by lia.
  by repeat destruct Hc as [->|Hc]; [..|subst d].
Qed.
Lemma pretty_nat_plain n : str_forall plain_byte (pretty (n : nat)) = true.
Proof. unfold pretty, pretty_nat, pretty, pretty_N. case_decide; [done|]. by apply pretty_N_plain. Qed.

Lemma match_classes_plain cs : forall s, Forall (fun f => forall c, f c = true -> plain_byte c = true) cs ->
  match_classes cs s = true -> str_forall plain_byte s = true.
Proof.
  induction cs as [|f cs IH]; intros [|c s] Hf; cbn [match_classes str_forall]; try done.
  apply Forall_cons in Hf as [Hf Hcs]. intros [Hc Hs]%andb_true_iff. by rewrite (Hf c Hc), (IH s Hcs Hs).
Qed.
Lemma uuid_plain s : uuidRe s = true -> str_forall plain_byte s = true.
Proof.
  apply match_classes_plain. 
  assert (Hh : forall c, is_hex c = true -> plain_byte c = true) by (intros c; by destruct c as [[] [] [] [] [] [] [] []]).
  assert (Hd : forall c, dash c = true -> plain_byte c = true) by (intros c; by destruct c as [[] [] [] [] [] [] [] []]).
  cbn [replicate app]. repeat (constructor; [done|]). constructor.
Qed.
Lemma key_trimmed i n : uuidRe (IntentID i) = true -> TrimSpace ("fake-" +:+ child_key (IntentID i) n) = "fake-" +:+ child_key (IntentID i) n.
Proof.
  intros Hu. apply TrimSpace_plain. unfold child_key. rewrite !str_forall_app, (uuid_plain _ Hu), pretty_nat_plain. reflexivity.
Qed.

(** ** Records and sends, once more *)

(** Nothing works once it is done; kept by every record but a reconcile. *)
Definition done_idle (s : State) : Prop := s_Done s <> "" -> s_Order s = None.
Lemma Apply_done_idle s r s' : wf s -> r_Kind r <> RecReconcile -> done_idle s -> Apply s r = Ok s' -> done_idle s'.
Proof.
  intros W Hk Hd Ha. unfold done_idle in *. destruct (Apply_cases s r s' Ha) as [_ Hx|_ _ Hx|_ _ Hx|Hr|_ _ Hx|_ _ Hx].
  - unfold apply_start in Hx. destruct (r_Intent r); [|done]. repeat (split_if in Hx; try done).
    destruct (Validate i); [done|]. by injection Hx as <-.
  - destruct (apply_send_inv s r s' W Hx) as (c & _ & _ & _ & Hn & _ & _ & _ & ->). destruct (is_send_action _); cbn; congruence.
  - unfold apply_outcome in Hx. destruct (r_Outcome r) as [o|]; [|done]. destruct (s_InFlight s) as [c|] eqn:Ef; [|done].
    assert (Hn : s_Done s = "").
    { destruct (decide (s_Done s = "")) as [|Hne]; [done|]. rewrite (wf_done s W Hne) in Ef. done. }
    destruct (_ <>s _); [done|]. repeat split_if in Hx; injection Hx as <-; cbn; try congruence.
    unfold resolveCancel. by destruct (r_DeferFinish r).
  - done.
  - unfold apply_fill in Hx. destruct (r_Fill r) as [f|]; [|done]. repeat (split_if in Hx; try done). injection Hx as <-. exact Hd.
  - unfold apply_finish in Hx. repeat (split_if in Hx; try done). injection Hx as <-. cbn. intros _. by apply is_some_false.
Qed.

(** A send moves no quantity at the fake. *)
Lemma GSend_filled ch g : g_filled (GSend ch g).1 = g_filled g /\ g_target (GSend ch g).1 = g_target g.
Proof.
  assert (Ha : forall g, g_filled (gapply ch g).1 = g_filled g /\ g_target (gapply ch g).1 = g_target g).
  { intros g0. unfold gapply. cbv zeta. destruct (_ =s ActSubmit); [by destruct (g_live g0)|]. destruct (_ || _); [|done].
    destruct (g_live g0) as [o|]; [|done]. destruct (_ <>s _); [done|]. by destruct (_ =s ActCancel). }
  unfold GSend. cbv zeta. destruct (Down _); [done|]. set (g1 := if g_unanswered _ then _ else _).
  assert (H1 : g_filled g1 = g_filled g /\ g_target g1 = g_target g) by (unfold g1; by destruct (g_unanswered _)). clearbody g1.
  destruct (g_answers g1 !! _); [done|]. set (g2 := if _ && gworse _ _ _ then _ else g1).
  assert (H2 : g_filled g2 = g_filled g /\ g_target g2 = g_target g) by (unfold g2; by destruct (_ && _)). clearbody g2.
  destruct (DropRequest _); [done|]. destruct (KillBefore _); [done|]. destruct (_ <>s ""); [done|].
  pose proof (Ha g2) as Hg. destruct (gapply ch g2) as [g3 out]. cbn [fst] in Hg. destruct Hg as [<- <-] in H2 |- *.
  repeat match goal with |- context [if ?b then _ else _] => destruct b end; done.
Qed.

(** ** The dry run lands where the fake lands *)

Section agreement.
Context `{LineCodec, EvidenceCodec, E1Codec} (Digest : State -> string) (quote : string -> string).
Variables (in_ : Intent) (rule : string) (c : Client).

(** The client of a dry run of this intent; [encoding/json] encodes a struct of
    texts and integers. *)
Record dry_client_of : Prop := {
  dc_mode : cl_mode c = DryRun;
  dc_answer : cl_answer c = true;
  dc_account : cl_account c = MockAccount /\ Account in_ = MockAccount;
  dc_intent : cl_intent c = in_;
  dc_id : uuidRe (IntentID in_) = true;
  dc_json : forall ch, exists data line, marshal_child ch = Ok data /\ encode_line (dryLine c ch data) = Ok line
}.
Hypothesis Hc : dry_client_of.
Notation dry := (dry_world quote c).

Lemma dry_Send_same w ch n : c_IntentID ch = IntentID in_ -> c_Key ch = child_key (IntentID in_) n ->
  g_answers (sw_gateway w) !! c_Key ch = None -> dry_Send quote c w ch = Executor.Send w ch.
Proof using Hc.
  intros Hi Hk Hn. destruct Hc as [Hm Ha [Hacc Hia] Hint Hid Hj]. destruct (Hj ch) as (data & line & Hd & Hl).
  pose proof (dry_run_transparent quote c ch data line (sw_gateway w) Hm Ha Hacc) as Ht. rewrite Hint in Ht.
  specialize (Ht Hia Hi Hd Hl). rewrite Hk in Ht at 1 2. specialize (Ht (key_trimmed in_ n Hid) Hn).
  unfold dry_Send, through_client. cbn [Executor.Send sim_world].
  destruct (Prog.run _ _ _) as [[g' tr] r]. destruct Ht as (_ & -> & ->). cbn [default]. by destruct (GSend ch (sw_gateway w)).
Qed.
Lemma dry_Query_fails w id : exists w' e, dry_Query c w id = (w', Err e).
Proof using Hc.
  unfold dry_Query, through_client, E1.Query. destruct (id <>s _); [by eexists _, _|]. unfold E1.read.
  rewrite (dc_mode Hc). cbn. by eexists _, _.
Qed.

(** The journal does not know what the executor sends through. *)
Lemma dry_commit w e r : commit (H0 := dry) Digest w e r = commit Digest w e r.
Proof using Type. done. Qed.

Lemma dry_send w e r ch w1 e1 t : engaged in_ w e -> in_int64 t -> sends r ch -> pre_ok (x_state e) r ->
  commit Digest w e r = (w1, e1, None) -> send (H0 := dry) Digest quote w1 e1 ch t = send Digest quote w1 e1 ch t.
Proof using Hc.
  intros HE Ht Hsend Hpre Hcom. destruct (commit_done _ _ _ _ _ _ Hcom) as (Hcaps & Ha & Eg & _).
  pose proof (coupled_send _ _ _ _ _ (en_coupled _ _ _ HE) Hsend Hpre Hcaps Ha) as HS. rewrite <- Eg in HS.
  destruct (se_fresh _ _ _ HS) as [Hfresh Hin]. pose proof (se_state _ _ _ HS) as Hok.
  assert (Hi : IntentID (s_Intent (x_state e1)) = IntentID in_).
  { destruct (se_intent _ _ _ HS) as (<- & _). by rewrite Eg, (en_intent _ _ _ HE). }
  apply list_elem_of_lookup in Hin as [n Hn]. pose proof (eo_keyed _ Hok n ch Hn) as Hkey. rewrite Hi in Hkey.
  pose proof (wf_sent _ (eo_wf _ Hok)) as Hsent. rewrite Forall_lookup in Hsent. destruct (Hsent n ch Hn) as (Hid & _). rewrite Hi in Hid.
  unfold send. cbn [Executor.Send dry_world]. by rewrite (dry_Send_same _ _ _ Hid Hkey Hfresh).
Qed.

(** A step of the tick that goes well through the client is the fake's own. *)
Lemma dry_tick_step w e t w' e' ctl : engaged in_ w e -> in_int64 t ->
  tick_step (H0 := dry) Digest quote w e t = Some (w', e', ctl) -> ctl = Continue \/ ctl = Return None ->
  tick_step Digest quote w e t = Some (w', e', ctl).
Proof using Hc.
  intros HE Ht Hs Hctl. unfold tick_step in *. rewrite (en_err _ _ _ HE) in *.
  change (kill_switch (World := dry) w) with (kill_switch (World := sim_world) w) in Hs.
  destruct (Decide_ok _ _ (cu_state _ _ (en_coupled _ _ _ HE)) (engaged_inputs in_ w e t HE Ht)) as (d & Ed & Hd).
  rewrite Ed in *. cbn [mbind option_bind] in *. destruct d as [| |r]; [done| |].
  - cbn [Executor.Query dry_world] in Hs. destruct (dry_Query_fails w (IntentID (s_Intent (x_state e)))) as (w1 & err & Eq).
    rewrite Eq in Hs. injection Hs as <- <- <-. by destruct Hctl.
  - destruct (_ && _ && _); [done|]. rewrite dry_commit in Hs.
    destruct (commit Digest w e r) as [[w1 e1] [err|]] eqn:Ec; [done|].
    assert (Hpre : pre_ok (x_state e) r)
      by (eapply decision_pre_ok; [apply (eo_wf _ (cu_state _ _ (en_coupled _ _ _ HE)))| |exact Hd]; exact Ht).
    destruct (decision_child _ _ _ Hd) as [[Hn _]|(ch & Hsend & _)]; [by rewrite Hn in *|].
    pose proof Hsend as [Hk Hch]. rewrite Hch, Hk, string_eqb_refl in *. by rewrite (dry_send w e r ch) in Hs.
Qed.
Lemma dry_tick_loop n : forall w e t w' e', engaged in_ w e -> in_int64 t ->
  tick_loop (H0 := dry) Digest quote n w e t = Some (w', e', None) -> tick_loop Digest quote n w e t = Some (w', e', None).
Proof using Hc.
  induction n as [|n IH]; intros w e t w' e' HE Ht Hl; cbn [tick_loop] in *; [done|].
  destruct (tick_step (H0 := dry) Digest quote w e t) as [[[w1 e1] ctl]|] eqn:Es; [|done]. cbn [mbind option_bind] in Hl.
  assert (Hctl : ctl = Continue \/ ctl = Return None) by (destruct ctl; [by left|right; by injection Hl as _ _ ->]).
  pose proof (dry_tick_step _ _ _ _ _ _ HE Ht Es Hctl) as Es'. rewrite Es'. cbn [mbind option_bind].
  destruct ctl as [|err]; [|exact Hl]. apply IH; [|done|exact Hl].
  destruct (tick_step_engaged Digest quote in_ w e t HE Ht) as (w2 & e2 & ctl & E2 & HE2). rewrite Es' in E2. injection E2 as <- <- <-.
  by apply HE2.
Qed.

Lemma dry_event st ev st' : waiting in_ st \/ running in_ st -> good_event ev ->
  sim_event Digest quote (sender := dry) in_ rule st ev = Ok st' -> sim_event Digest quote in_ rule st ev = Ok st'.
Proof using Hc.
  intros HS [Hi Hw] He. unfold sim_event in *.
  change (sim_start Digest (sender := dry) in_ st (ev_AtNS ev)) with (sim_start Digest in_ st (ev_AtNS ev)) in He.
  pose proof (start_running Digest in_ st (ev_AtNS ev) HS (proj1 Hi)) as Hst1. destruct (sim_start Digest in_ st _) as [st1|]; [|done].
  change (on_event Digest (sender := dry) in_ rule st1 ev) with (on_event Digest in_ rule st1 ev) in He.
  pose proof (event_running Digest in_ rule st1 ev Hst1 Hi Hw) as Hst2. destruct (on_event Digest in_ rule st1 ev) as [st2|]; [|done].
  destruct Hst2 as (_ & HE & _). unfold sim_tick, Executor.Tick in *.
  destruct (tick_loop (H0 := dry) Digest quote _ _ _ _) as [[[w e] [err|]]|] eqn:El; [done| |done].
  by rewrite (dry_tick_loop _ _ _ _ _ _ HE (proj1 Hi) El).
Qed.
Lemma dry_events evs : forall st st', waiting in_ st \/ running in_ st -> Forall good_event evs ->
  sim_events Digest quote (sender := dry) in_ rule st evs = Ok st' -> sim_events Digest quote in_ rule st evs = Ok st'.
Proof using Hc.
  induction evs as [|ev evs IH]; intros st st' HS Hg He; cbn [sim_events] in *; [done|]. apply Forall_cons in Hg as [Hg Hgs].
  destruct (sim_event _ _ _ _ st ev) as [st1|] eqn:E1 in He; [|done]. rewrite (dry_event _ _ _ HS Hg E1).
  apply IH; [|done|exact He]. right. pose proof (sim_event_running Digest quote in_ rule st ev HS (proj1 Hg) (proj2 Hg)) as Hr.
  by rewrite (dry_event _ _ _ HS Hg E1) in Hr.
Qed.

(** The quantity the fake has left, and the settings, through a dry tick. *)
Variable cfg : Config.
Record flowing (w : SimWorld) (e : Executor) : Prop := {
  fl_engaged : engaged in_ w e;
  fl_cfg : x_cfg e = cfg;
  fl_idle : done_idle (x_state e)
}.
Definition unfilled (w : SimWorld) : Prop := g_filled (sw_gateway w) < g_target (sw_gateway w).
Definition same_quantities (w w' : SimWorld) : Prop :=
  g_filled (sw_gateway w') = g_filled (sw_gateway w) /\ g_target (sw_gateway w') = g_target (sw_gateway w).

Lemma commit_flowing w e r w' e' : x_cfg e = cfg -> done_idle (x_state e) -> wf (x_state e) -> r_Kind r <> RecReconcile ->
  commit Digest w e r = (w', e', None) -> x_cfg e' = cfg /\ done_idle (x_state e') /\ same_quantities w w'.
Proof using Type.
  intros Hf Hd W Hk Hcom. destruct (commit_done _ _ _ _ _ _ Hcom) as (_ & Ha & Eg & E1 & _). rewrite E1. split; [done|].
  split; [by eapply Apply_done_idle|]. unfold same_quantities. by rewrite Eg.
Qed.

Lemma dry_step_flows w e t w' e' ctl : flowing w e -> in_int64 t ->
  tick_step (H0 := dry) Digest quote w e t = Some (w', e', ctl) -> ctl = Continue \/ ctl = Return None ->
  flowing w' e' /\ same_quantities w w'.
Proof using Hc.
  intros [HE Hcfg Hidle] Ht Hs Hctl. pose proof (dry_tick_step _ _ _ _ _ _ HE Ht Hs Hctl) as Hs'.
  assert (HE' : engaged in_ w' e').
  { destruct (tick_step_engaged Digest quote in_ w e t HE Ht) as (w2 & e2 & ctl2 & E2 & HE2). rewrite Hs' in E2. injection E2 as <- <- <-. by apply HE2. }
  cut (x_cfg e' = cfg /\ done_idle (x_state e') /\ same_quantities w w').
  { intros (? & ? & ?). split; [by split|done]. }
  unfold tick_step in Hs, Hs'. rewrite (en_err _ _ _ HE) in *.
  change (kill_switch (World := dry) w) with (kill_switch (World := sim_world) w) in Hs.
  destruct (Decide_ok _ _ (cu_state _ _ (en_coupled _ _ _ HE)) (engaged_inputs in_ w e t HE Ht)) as (d & Ed & Hd).
  pose proof (eo_wf _ (cu_state _ _ (en_coupled _ _ _ HE))) as W.
  rewrite Ed in *. cbn [mbind option_bind] in *. destruct d as [| |r].
  - injection Hs as <- <- <-. split; [done|]. split; [done|]. split; done.
  - cbn [Executor.Query dry_world] in Hs. destruct (dry_Query_fails w (IntentID (s_Intent (x_state e)))) as (w1 & err & Eq).
    rewrite Eq in Hs. injection Hs as <- <- <-. by destruct Hctl.
  - clear Hs. split_if in Hs'; [injection Hs' as <- <- <-; by destruct Hctl|].
    destruct (commit Digest w e r) as [[w1 e1] [err|]] eqn:Ec; [injection Hs' as <- <- <-; by destruct Hctl|].
    assert (Hpre : pre_ok (x_state e) r) by (eapply decision_pre_ok; [exact W| |exact Hd]; exact Ht).
    destruct (decision_child _ _ _ Hd) as [[Hn Hk]|(ch & Hsend & _)].
    + rewrite Hn in Hs'. injection Hs' as <- <- <-. apply (commit_flowing w e r w1 e1); try done. by rewrite Hk.
    + pose proof Hsend as [Hk Hch]. rewrite Hch, Hk, string_eqb_refl in Hs'.
      destruct (commit_flowing w e r w1 e1 Hcfg Hidle W) as (Hcfg1 & Hidle1 & [Q1 Q2]); [by rewrite Hk|done|].
      destruct (send Digest quote w1 e1 ch t) as [[w2 e2] [err|]] eqn:Es; [injection Hs' as <- <- <-; by destruct Hctl|].
      assert (Ewe : w' = w2 /\ x_cfg e' = x_cfg e2 /\ x_state e' = x_state e2).
      { destruct (RequireLedgerComplete (x_cfg e2)); by injection Hs' as <- <- _. }
      destruct Ewe as (-> & -> & ->). unfold send in Es. cbn [Executor.Send sim_world] in Es.
      destruct (GSend ch (sw_gateway w1)) as [g' res] eqn:Eg.
      pose proof (GSend_filled ch (sw_gateway w1)) as [F1 F2]. rewrite Eg in F1, F2. cbn [fst] in F1, F2.
      destruct (commit_done _ _ _ _ _ _ Ec) as (Hcaps & Ha & Eg1 & _).
      pose proof (coupled_send _ _ _ _ _ (en_coupled _ _ _ HE) Hsend Hpre Hcaps Ha) as HS.
      apply (commit_flowing _ _ _ _ _ Hcfg1 Hidle1 (eo_wf _ (se_state _ _ _ HS))) in Es as (? & ? & [R1 R2]); [|done].
      cbn [sw_gateway] in R1, R2. split; [done|]. split; [done|]. split; congruence.
Qed.

Hypothesis Hcfg : SendEnabled cfg = true /\ RequireLedgerComplete cfg = false.

(** An order the fake has filled is cancelled ... *)
Lemma decide_cancel s i o : Started s = true -> s_Done s = "" -> s_InFlight s = None -> s_Order s = Some o ->
  s_Target s <= s_Filled s -> SendEnabled (Decide.cfg i) = true ->
  Decide s i = Some (DRec (send_rec (now i) (next_child s ActCancel (o_Key o) 0 0) DoneFilled)).
Proof using Type.
  intros Hs Hd Hf Ho Hq He. unfold Decide, closing_reason. rewrite Hs, Hd, Hf, Ho, He, Z.geb_leb, (proj2 (Z.leb_le _ _) Hq).
  cbn [negb orb is_some is_none andb]. unfold send_decision. rewrite Ho. reflexivity.
Qed.
(** ... which the fake does not know ... *)
Lemma cancel_unknown g s ch : sending g s ch -> c_Action ch = ActCancel -> g_live g = None ->
  exists g', GSend ch g = (g', Sim.Sent (mkOutcome (c_Key ch) StatusUncertain "target not working" "")).
Proof using Type.
  intros HS Ha Hl. rewrite (GSend_plain _ _ _ HS). unfold gapply. rewrite Ha. change (ActCancel =s ActSubmit) with false.
  change (ActCancel =s ActAmend) with false. change (ActCancel =s ActCancel) with true. cbn [orb g_live push_send]. rewrite Hl. by eexists.
Qed.
(** ... so that the child stays unresolved ... *)
Lemma uncertain_stays s ch at_ reason defer s' : s_InFlight s = Some ch ->
  Apply s (outcome_rec at_ (mkOutcome (c_Key ch) StatusUncertain reason "") defer) = Ok s' ->
  s_InFlight s' = Some ch /\ s_Done s' = s_Done s.
Proof using Type.
  intros Hf Ha. destruct (Apply_cases _ _ _ Ha) as [Hk|Hk|_ _ Hx|Hk|Hk|Hk]; try discriminate Hk.
  unfold apply_outcome in Hx. rewrite Hf in Hx. cbn [r_Outcome outcome_rec oc_Key oc_Status] in Hx. rewrite string_eqb_refl in Hx.
  change (StatusUncertain =s StatusAccepted) with false in Hx. change (StatusUncertain =s StatusRefused) with false in Hx.
  cbn [negb andb] in Hx. injection Hx as <-. by rewrite <- Hf.
Qed.
(** ... and the tick that asks for it fails. *)
Lemma unresolved_tick_fails n w e t ch : wf (x_state e) -> s_InFlight (x_state e) = Some ch ->
  forall w' e', tick_loop (H0 := dry) Digest quote (S n) w e t <> Some (w', e', None).
Proof using Hc.
  intros W Hf w' e' Hl. cbn [tick_loop] in Hl. unfold tick_step in Hl. destruct (x_err e); [done|].
  assert (Hd : s_Done (x_state e) = "").
  { destruct (decide (s_Done (x_state e) = "")) as [|Hne]; [done|]. by rewrite (wf_done _ W Hne) in Hf. }
  unfold Decide in Hl. rewrite (Started_wf _ W), Hd, Hf in Hl. cbn [negb orb is_some mbind option_bind Executor.Query dry_world] in Hl.
  destruct (dry_Query_fails w (IntentID (s_Intent (x_state e)))) as (w1 & err & Eq). change ("" =s "") with true in Hl. cbn in Hl.
  by rewrite Eq in Hl.
Qed.

Lemma full_tick_fails w e t n w' e' o : flowing w e -> in_int64 t -> ~ unfilled w ->
  s_Done (x_state e) = "" -> s_InFlight (x_state e) = None -> s_Order (x_state e) = Some o ->
  tick_loop (H0 := dry) Digest quote (S (S n)) w e t <> Some (w', e', None).
Proof using Hc Hcfg.
  intros [HE Hx _] Ht Hfull Hdone Hfl Ho Hl. pose proof (en_coupled _ _ _ HE) as HC. unfold unfilled in Hfull.
  assert (Hq : s_Target (x_state e) <= s_Filled (x_state e)).
  { rewrite (cu_filled _ _ HC). destruct (cu_intent _ _ HC) as (_ & _ & <-). lia. }
  assert (Hlive : g_live (sw_gateway w) = None).
  { destruct (g_live (sw_gateway w)) as [b|] eqn:Eb; [|done]. destruct (gk_live _ (cu_gateway _ _ HC) b Eb) as (? & ? & _). lia. }
  set (i := mkInputs t (x_top e) (x_cfg e) (Engaged (kill_switch (World := dry) w))).
  assert (Hen : SendEnabled (Decide.cfg i) = true) by (cbn; by rewrite Hx, (proj1 Hcfg)).
  pose proof (decide_cancel (x_state e) i o (coupled_started _ _ HC) Hdone Hfl Ho Hq Hen) as Ed.
  set (ch := next_child _ _ _ _ _) in Ed. set (r := send_rec _ _ _) in Ed.
  assert (Hpre : pre_ok (x_state e) r) by (eapply (decision_pre_ok _ i); [apply (eo_wf _ (cu_state _ _ HC))|exact Ht|by apply ok_cancel]).
  change (tick_loop (H0 := dry) Digest quote (S (S n)) w e t) with
    ('(w, e, ctl) ← tick_step (H0 := dry) Digest quote w e t;
     match ctl with Return err => Some (w, e, err) | Continue => tick_loop (H0 := dry) Digest quote (S n) w e t end) in Hl.
  destruct (tick_step (H0 := dry) Digest quote w e t) as [[[w1 e1] ctl]|] eqn:Es; [|done]. cbn [mbind option_bind] in Hl.
  unfold tick_step in Es. rewrite (en_err _ _ _ HE) in Es. fold i in Es. rewrite Ed in Es. cbn [mbind option_bind r_Kind r_Child r send_rec] in Es.
  rewrite Hx, (proj2 Hcfg), andb_false_r in Es. cbn [andb] in Es. rewrite dry_commit in Es.
  destruct (commit Digest w e r) as [[w2 e2] [err|]] eqn:Ec; [by injection Es as <- <- <-|].
  change (RecSend =s RecSend) with true in Es. cbn iota in Es. rewrite (dry_send w e r ch w2 e2 t HE Ht (conj eq_refl eq_refl) Hpre Ec) in Es.
  destruct (send Digest quote w2 e2 ch t) as [[w3 e3] [err|]] eqn:Esend; [by injection Es as <- <- <-|].
  destruct (commit_done _ _ _ _ _ _ Ec) as (Hcaps & Ha & Eg & Ex & _).
  pose proof (coupled_send _ _ r ch _ HC (conj eq_refl eq_refl) Hpre Hcaps Ha) as HS.
  pose proof (send_engaged Digest quote in_ w e r ch w2 e2 t w3 e3 HE Ht (conj eq_refl eq_refl) Hpre Ec Esend) as HE3.
  destruct (cancel_unknown _ _ _ HS eq_refl Hlive) as [g' Hg]. unfold send in Esend. cbn [Executor.Send sim_world] in Esend.
  rewrite Eg, Hg in Esend. unfold answer in Esend. cbn [oc_Key] in Esend. rewrite string_eqb_refl in Esend. cbn [negb] in Esend.
  destruct (commit_done _ _ _ _ _ _ Esend) as (_ & Ha2 & _ & Ex2 & _).
  destruct (uncertain_stays _ ch _ _ _ _ (se_inflight _ _ _ HS) Ha2) as [Hf3 _].
  rewrite Ex2, Ex, Hx, (proj2 Hcfg) in Es. injection Es as <- <- <-.
  by apply (unresolved_tick_fails n w3 e3 t ch (eo_wf _ (cu_state _ _ (en_coupled _ _ _ HE3))) Hf3 w' e').
Qed.

Lemma dry_loop_flows n : forall w e t w' e', flowing w e -> in_int64 t ->
  tick_loop (H0 := dry) Digest quote n w e t = Some (w', e', None) -> flowing w' e' /\ same_quantities w w'.
Proof using Hc.
  induction n as [|n IH]; intros w e t w' e' HF Ht Hl; cbn [tick_loop] in Hl; [by injection Hl as <- <-|].
  destruct (tick_step (H0 := dry) Digest quote w e t) as [[[w1 e1] ctl]|] eqn:Es; [|done]. cbn [mbind option_bind] in Hl.
  assert (Hctl : ctl = Continue \/ ctl = Return None) by (destruct ctl; [by left|right; by injection Hl as _ _ ->]).
  destruct (dry_step_flows _ _ _ _ _ _ HF Ht Es Hctl) as [HF1 [Q1 Q2]].
  destruct ctl as [|err]; [|by injection Hl as <- <- _]. destruct (IH _ _ _ _ _ HF1 Ht Hl) as [HF2 [R1 R2]].
  split; [done|]. split; congruence.
Qed.

(** Before its tick, a full intent has just been filled through its order. *)
Definition just_filled (s : State) : Prop := s_Done s = "" /\ s_InFlight s = None /\ exists o, s_Order s = Some o.
Definition open_ended (st : sim_state) : Prop :=
  running in_ st /\ flowing (sm_world st) (sm_exec st) /\ (unfilled (sm_world st) \/ just_filled (x_state (sm_exec st))).

Lemma OnFill_keeps w e f w' e' : OnFill Digest w e f = (w', e', None) ->
  x_cfg e' = x_cfg e /\ (done_idle (x_state e) -> done_idle (x_state e')) /\ (just_filled (x_state e) -> just_filled (x_state e')).
Proof using Type.
  unfold OnFill. destruct (negb _); [by intros [= _ <-]|]. destruct (is_some _); [by intros [= _ <-]|].
  destruct (is_none _); [by intros [= _ <-]|]. destruct (commit Digest w e _) as [[w1 e1] [err|]] eqn:Ec; [done|].
  destruct (_ >? 0); [done|]. intros [= _ <-]. destruct (commit_done _ _ _ _ _ _ Ec) as (_ & Ha & _ & Ex & _). split; [done|].
  apply Apply_fill_inv in Ha; [|done]. unfold apply_fill in Ha. destruct (r_Fill _) as [f'|]; [|done].
  repeat (split_if in Ha; try done). by injection Ha as <-.
Qed.

Lemma fill_open_ended st qty t st' : open_ended st -> in_int64 t -> sim_fill Digest in_ st qty t = Ok st' -> open_ended st'.
Proof using Hc.
  intros (HR & HF & HP) Ht Hf. pose proof (fill_running Digest in_ st qty t HR Ht) as HR'. rewrite Hf in HR'. split; [done|].
  pose proof HR' as (_ & HE' & _). unfold sim_fill in Hf. destruct (t >=? _); [by injection Hf as <-|].
  destruct (g_live (sw_gateway (sm_world st))) as [b|] eqn:Eb.
  2: { unfold GFill in Hf. rewrite Eb in Hf. injection Hf as <-. split; [|exact HP]. by destruct HF. }
  destruct HF as [HE Hx Hidle]. destruct (cu_live _ _ (en_coupled _ _ _ HE) _ Eb) as (Hfl & (o & Ho & _) & _).
  assert (Hj : just_filled (x_state (sm_exec st))).
  { split; [|split; [done|by exists o]]. destruct (decide (s_Done (x_state (sm_exec st)) = "")) as [|Hne]; [done|]. by rewrite (Hidle Hne) in Ho. }
  destruct (GFill qty t _) as [g [f|]]; [|injection Hf as <-; split; [by split|by right]].
  destruct (OnFill Digest _ _ f) as [[w e] [err|]] eqn:Eo; [done|]. injection Hf as <-.
  destruct (OnFill_keeps _ _ _ _ _ Eo) as (Ex & Hi & Hj'). cbn [sm_world sm_exec] in *. split; [split; [done|congruence|by apply Hi]|].
  right. by apply Hj'.
Qed.

Lemma set_top_open_ended t st : int64_top t -> open_ended st -> open_ended (set_top t st).
Proof using Type.
  intros Ht (HR & [HE Hx Hi] & HP). pose proof (set_top_running in_ t st Ht HR) as HR'. split; [done|]. split; [|exact HP].
  pose proof HR' as (_ & HE' & _). by split.
Qed.
Lemma set_mid_open_ended st : open_ended st -> open_ended (set_mid st).
Proof using Type.
  intros (HR & [HE Hx Hi] & HP). pose proof (set_mid_running in_ st HR) as HR'. split; [done|].
  unfold set_mid in *. by destruct (_ && _ && _ && _).
Qed.
Lemma event_open_ended st ev st' : open_ended st -> good_event ev -> on_event Digest in_ rule st ev = Ok st' -> open_ended st'.
Proof using Hc.
  intros HO [[Ht Hl] _] He. unfold on_event in He. destruct (_ || _ || _).
  { injection He as <-. apply set_top_open_ended; [|done]. by destruct HO as ((_ & _ & (? & ? & ?)) & _). }
  destruct ((ev_Type ev =s EventBook) && _).
  { destruct (ev_Book ev) as [b|]; [|done]. unfold on_book in He. cbv zeta in He. destruct (proj1 (Forall_app _ _ _) (Hl b eq_refl)) as [Hb Ha].
    match type of He with context [set_mid (set_top ?t st)] => assert (Hset : open_ended (set_mid (set_top t st))) end.
    { apply set_mid_open_ended, set_top_open_ended; [|done]. split; [|split; [|done]]; cbn.
      - destruct (bs_Bids b) as [|l bs]; [in64|by apply Forall_cons in Hb as [? _]].
      - destruct (bs_Asks b) as [|l bs]; [in64|by apply Forall_cons in Ha as [? _]]. }
    revert He Hset. generalize (set_mid (set_top (mkTop
      match bs_Bids b with lv :: _ => lv_Price lv | [] => 0 end
      match bs_Asks b with lv :: _ => lv_Price lv | [] => 0 end (ev_AtNS ev) (bs_Synced b)) st)).
    intros st1 He Hset. destruct (GLive _) as [[k p]|]; [|by injection He as <-].
    destruct (_ && _ && _); [by eapply fill_open_ended|by injection He as <-]. }
  destruct ((ev_Type ev =s EventTrade) && _); [|by injection He as <-].
  destruct (ev_Trade ev) as [tr|]; [|by destruct (GLive _); [|injection He as <-]].
  unfold on_trade in He. destruct (GLive _) as [[k p]|]; [|by injection He as <-].
  destruct (if _ && _ then _ else _) as [st1|] eqn:E1; [|done].
  assert (Hst1 : open_ended st1) by (destruct (_ && _) in E1; [by eapply fill_open_ended|by injection E1 as <-]).
  destruct (_ && _) in He; [by eapply fill_open_ended|by injection He as <-].
Qed.

Lemma start_open_ended st t st1 : (waiting in_ st /\ x_cfg (sm_exec st) = cfg) \/ (open_ended st /\ unfilled (sm_world st)) ->
  in_int64 t -> sim_start Digest in_ st t = Ok st1 -> open_ended st1.
Proof using Type.
  intros HS Ht Es. assert (HWR : waiting in_ st \/ running in_ st) by (destruct HS as [[? _]|[[? _] _]]; auto).
  pose proof (start_running Digest in_ st t HWR Ht) as HR. rewrite Es in HR. destruct HS as [[HW Hx]|[HO _]].
  2: { unfold sim_start in Es. destruct HO as (HR0 & HO). pose proof HR0 as (Hst & _). rewrite Hst in Es. by injection Es as <-. }
  destruct HW as (Hs & Hgw & Hz & _). unfold sim_start in Es. rewrite Hs in Es.
  destruct (Start Digest (sm_world st) (sm_exec st) in_ t) as [[w e] [err|]] eqn:Est; [done|]. injection Es as <-.
  unfold Start in Est. destruct (commit_done _ _ _ _ _ _ Est) as (_ & Ha & Eg & Ex & _). pose proof HR as (_ & HE & _).
  cbn [sm_world sm_exec] in *. split; [done|]. cbn [sm_world sm_exec]. split; [split; [done|congruence|]|left].
  - destruct (Apply_cases _ _ _ Ha) as [_ Hk|Hk|Hk|Hk|Hk|Hk]; try discriminate Hk. unfold apply_start in Hk.
    cbn [r_Intent start_rec] in Hk. repeat (split_if in Hk; try done). destruct (Validate in_); [done|]. by injection Hk as <-.
  - unfold unfilled. rewrite Eg, Hgw. destruct (cu_intent _ _ (en_coupled _ _ _ HE)) as (_ & _ & Et). rewrite Eg, Hgw in Et. rewrite Et.
    pose proof (eo_wf _ (cu_state _ _ (en_coupled _ _ _ HE))) as W. rewrite (wf_target _ W).
    pose proof (valid_target _ (Validate_ok _ (wf_valid _ W))). cbn. lia.
Qed.

(** An event that goes well leaves the intent short of its target. *)
Lemma dry_event_unfilled st ev st' : (waiting in_ st /\ x_cfg (sm_exec st) = cfg) \/ (open_ended st /\ unfilled (sm_world st)) ->
  good_event ev -> sim_event Digest quote (sender := dry) in_ rule st ev = Ok st' -> open_ended st' /\ unfilled (sm_world st').
Proof using Hc Hcfg.
  intros HS Hg He. assert (HWR : waiting in_ st \/ running in_ st) by (destruct HS as [[? _]|[[? _] _]]; auto).
  pose proof (sim_event_running Digest quote in_ rule st ev HWR (proj1 Hg) (proj2 Hg)) as HR'.
  rewrite (dry_event _ _ _ HWR Hg He) in HR'. unfold sim_event in He.
  change (sim_start Digest (sender := dry) in_ st (ev_AtNS ev)) with (sim_start Digest in_ st (ev_AtNS ev)) in He.
  destruct (sim_start Digest in_ st _) as [st1|] eqn:Es; [|done].
  assert (Hst1 : open_ended st1) by (eapply start_open_ended; eassumption || apply Hg).
  change (on_event Digest (sender := dry) in_ rule st1 ev) with (on_event Digest in_ rule st1 ev) in He.
  destruct (on_event Digest in_ rule st1 ev) as [st2|] eqn:E2; [|done].
  destruct (event_open_ended _ _ _ Hst1 Hg E2) as (HR2 & HF2 & HP2). unfold sim_tick, Executor.Tick in He.
  destruct (tick_loop (H0 := dry) Digest quote _ _ _ _) as [[[w e] [err|]]|] eqn:El; [done| |done]. injection He as <-.
  destruct (dry_loop_flows _ _ _ _ _ _ HF2 (proj1 (proj1 Hg)) El) as [HF3 [Q1 Q2]]. cbn [sm_world sm_exec].
  assert (Hu : unfilled (sm_world st2)).
  { destruct HP2 as [Hu|(Hd & Hfl & o & Ho)]; [done|]. destruct (decide (unfilled (sm_world st2))) as [|Hn]; [done|].
    by destruct (full_tick_fails _ _ _ 6 w e o HF2 (proj1 (proj1 Hg)) Hn Hd Hfl Ho). }
  assert (Hu' : unfilled w) by (unfold unfilled in *; congruence). split; [split; [done|by split; [|left]]|done].
Qed.
Lemma dry_events_unfilled evs : forall st st',
  (waiting in_ st /\ x_cfg (sm_exec st) = cfg) \/ (open_ended st /\ unfilled (sm_world st)) -> Forall good_event evs ->
  sim_events Digest quote (sender := dry) in_ rule st evs = Ok st' -> (evs = [] /\ st' = st) \/ (open_ended st' /\ unfilled (sm_world st')).
Proof using Hc Hcfg.
  induction evs as [|ev evs IH]; intros st st' HS Hg He; cbn [sim_events] in He; [by injection He as <-; left|].
  apply Forall_cons in Hg as [Hg Hgs]. destruct (sim_event _ _ _ _ st ev) as [st1|] eqn:Ev in He; [|done].
  pose proof (dry_event_unfilled _ _ _ HS Hg Ev) as Hst1. destruct (IH st1 st' (or_intror Hst1) Hgs He) as [[_ ->]|?]; by right.
Qed.
End agreement.

(** ** [dryRunReplay] *)

(** What a replay is planned with: a dry run's configuration, and settings as
    [execsim] has them for the same flags. *)
Lemma runWithLive_replay `{StrictToml, Process} args cfg ecfg intentPath evidencePath rule :
  runWithLive args = RunReplay cfg ecfg intentPath evidencePath rule ->
  Config_Mode cfg = Ok DryRun /\ RequireLedgerComplete ecfg = false /\
  (in_int64 (StepEvery ecfg) /\ in_int64 (StaleAfter ecfg)) /\ 0 < StepEvery ecfg /\ 0 < StaleAfter ecfg /\ ValidRule rule = true.
Proof.
  unfold runWithLive. destruct (Parse execmock_flags args ∅) as [[m rest]|] eqn:Ep; [|done]. cbv zeta.
  destruct (_ || _) eqn:Eu; [done|]. bool_simpl. rename H3 into Hstep. destruct (negb (ValidRule _)) eqn:Er; [done|]. apply negb_false_iff in Er.
  destruct (loadConfig _ _) as [[fc cfg']|]; [|done]. destruct (Config_Mode cfg') as [mode|] eqn:Em; [|done].
  set (go := if bool_flag m "live-book" then _ else _).
  assert (Hgo : mode = DryRun -> go = RunReplay cfg ecfg intentPath evidencePath rule -> Config_Mode cfg = Ok DryRun /\
    RequireLedgerComplete ecfg = false /\ (in_int64 (StepEvery ecfg) /\ in_int64 (StaleAfter ecfg)) /\
    0 < StepEvery ecfg /\ 0 < StaleAfter ecfg /\ ValidRule rule = true).
  { unfold go. intros -> Hg. destruct (bool_flag m "live-book"); [by destruct (_ || _) in Hg|].
    destruct (_ =s "") in Hg; [done|]. injection Hg as <- <- <- <- <-. cbn [RequireLedgerComplete StepEvery StaleAfter].
    split; [done|]. split; [done|]. split; [split; apply duration_flag_int64; cbn; in64|]. split; [exact Hstep|]. by split. }
  destruct mode; [by destruct (bool_flag m "send")|by apply Hgo|].
  destruct (negb (bool_flag m "send") || negb (bool_flag m "live-book") || (string_flag m "in" "" <>s "")) eqn:Eg; [done|].
  bool_simpl. unfold go. intros Hg. destruct (bool_flag m "live-book"); [by destruct (_ || _) in Hg|done].
Qed.

Lemma valid_uuid i : Validate i = None -> uuidRe (IntentID i) = true.
Proof.
  unfold Validate. cbv zeta. destruct (negb (SchemaVersion i =? 1)); [done|]. destruct (negb (uuidRe (IntentID i))) eqn:E; [done|].
  intros _. by apply negb_false_iff.
Qed.

Section replayed.
Context `{Process, NetURL, LineCodec, EvidenceCodec, E1Codec} (Digest : State -> string) (quote : string -> string).
Context (decode_intent : string -> option Intent).
(** The clock of an evidence line is an [int64]; the flags' durations are; the
    configuration is a dry run's; [encoding/json] encodes texts and integers. *)
Hypothesis Hat : forall raw l, ev_unmarshal raw = Some l -> in_int64 (ln_AtNS l).
Hypothesis Hjson : forall c ch, exists data line, marshal_child ch = Ok data /\ encode_line (dryLine c ch data) = Ok line.
Variables (cfg : E1Config) (ecfg : Config).
Hypothesis Hint : in_int64 (StepEvery ecfg) /\ in_int64 (StaleAfter ecfg).
Hypothesis Hmode : Config_Mode cfg = Ok DryRun.

Notation used := (mkConfig true (RequireLedgerComplete ecfg) (StepEvery ecfg) (StaleAfter ecfg)).

Lemma wrapClient_dry i c : wrapClient quote cfg i = Some c -> dry_client_of i c.
Proof using Hjson Hmode.
  unfold wrapClient, New. rewrite Hmode. unfold Config_Mode in Hmode.
  destruct (cf_Account cfg <>s MockAccount) eqn:Ea; [done|]. bool_simpl.
  destruct (Account i <>s MockAccount) eqn:Ei; [done|]. bool_simpl. destruct (Validate i) eqn:Ev; [done|]. cbv zeta.
  destruct (negb (headerName _)); [done|]. destruct (existsb _ _); [done|]. destruct (checkURL _) as [url|]; [|done].
  cbn. intros [= <-]. split; try done. by apply valid_uuid.
Qed.

Lemma RunWrapped_events i c rule evidence faults :
  RunWrapped Digest quote (sender := dry_world quote c) i used rule true evidence "" faults env_ok =
  if negb (ValidRule rule) then Err (ErrUnknownRule rule)
  else match Replay (sim_accepts Digest quote (sender := dry_world quote c) i rule (sim_initial i used faults)) evidence with
       | Err (_, e) => Err (ErrReplay e)
       | Ok rp => match sim_events Digest quote (sender := dry_world quote c) i rule (sim_initial i used faults) (rp_events rp) with
                  | Ok st => Ok (sim_report i rule st) | Err e => Err e end
       end.
Proof using Type. done. Qed.

(** A prefix of a run is a run. *)
Lemma sim_events_app {sender : World SimWorld} i rule a b : forall st st',
  sim_events Digest quote (sender := sender) i rule st (a ++ b) = Ok st' ->
  exists st1, sim_events Digest quote (sender := sender) i rule st a = Ok st1.
Proof using Type.
  induction a as [|ev a IH]; intros st st' He; cbn [sim_events app] in *; [by eexists|].
  destruct (sim_event _ _ _ _ st ev) as [st1|]; [|done]. by eapply IH.
Qed.

(** A simulation through the client that ended is the fake's own, and short of
    its target. *)
Lemma RunWrapped_dry i c rule evidence faults r : dry_client_of i c ->
  RunWrapped Digest quote (sender := dry_world quote c) i used rule true evidence "" faults env_ok = Ok r ->
  RunOne Digest quote i used rule evidence "" faults env_ok = Ok r /\
  (RequireLedgerComplete ecfg = false -> rs_Target r = 0 \/ rs_Filled r < rs_Target r).
Proof using Hat Hint.
  intros Hc Hr. rewrite RunOne_events. rewrite RunWrapped_events in Hr. destruct (negb (ValidRule rule)); [done|].
  set (st := sim_initial i used faults) in *.
  assert (HW : waiting i st) by (by apply initial_waiting).
  pose proof (Replay_good (sim_accepts Digest quote (sender := dry_world quote c) i rule st) Hat evidence) as Hg.
  destruct (Replay (sim_accepts _ _ (sender := dry_world quote c) i rule st) evidence) as [rp|[rp e]] eqn:Er; [|done]. cbn in Hg.
  destruct (sim_events Digest quote (sender := dry_world quote c) i rule st (rp_events rp)) as [st'|] eqn:Es; [|done]. injection Hr as <-.
  pose proof (dry_events Digest quote i rule c Hc _ _ _ (or_introl HW) Hg Es) as Hs.
  assert (Hr : Replay (sim_accepts Digest quote i rule st) evidence = Ok rp).
  { apply (Replay_alike _ _ _ _ Er). intros past ev [rest Hp]. unfold sim_accepts. rewrite Hp in Hs.
    destruct (sim_events_app _ _ _ _ _ _ Hs) as [st1 ->]. done. }
  rewrite Hr, Hs. split; [done|]. intros Hled.
  destruct (dry_events_unfilled Digest quote i rule c Hc used (conj eq_refl Hled) _ _ _ (or_introl (conj HW eq_refl)) Hg Es)
    as [[_ ->]|[((_ & HE & _) & _) Hu]]; [by left|right].
  cbn [rs_Filled rs_Target sim_report]. pose proof (en_coupled _ _ _ HE) as HC. rewrite (cu_filled _ _ HC).
  destruct (cu_intent _ _ HC) as (_ & _ & <-). exact Hu.
Qed.

(** The intent and the evidence a dry run reads. *)
Definition dry_reads (intentPath evidencePath : string) (i : Intent) (evidence : string) : Prop :=
  exists data, ReadFile intentPath = Some data /\ ParseIntent decode_intent (TrimSpace data) = (i, None) /\
    ReadFile evidencePath = Some evidence.

Lemma dryRunReplay_run intentPath evidencePath rule temp faults r :
  dryRunReplay Digest quote decode_intent cfg ecfg intentPath evidencePath rule temp faults = Ok r ->
  exists i evidence c, dry_reads intentPath evidencePath i evidence /\ wrapClient quote cfg i = Some c /\
    RunWrapped Digest quote (sender := dry_world quote c) i used rule true evidence "" faults env_ok = Ok r.
Proof using Hmode.
  unfold dryRunReplay, ExecutorSends. rewrite Hmode. cbv zeta. destruct (ReadFile intentPath) as [data|] eqn:Ed; [|done].
  destruct (ParseIntent decode_intent (TrimSpace data)) as [i [e|]] eqn:Ep; [done|].
  destruct (ReadFile evidencePath) as [evidence|] eqn:Ee; [|done]. destruct (negb temp); [done|].
  destruct (wrapClient quote cfg i) as [c|] eqn:Ew.
  - destruct (RunWrapped _ _ _ _ _ _ _ _ _ _) as [r'|] eqn:Er; [|done]. intros [= <-]. exists i, evidence, c. split; [by exists data|]. done.
  - unfold RunWrapped. destruct (negb (ValidRule rule)); [done|]. destruct (openJournal _ _ _) as [f [[j s]|]]; done.
Qed.

End replayed.

Section command.
Context `{StrictToml, Process, NetURL, LineCodec, EvidenceCodec, E1Codec} (Digest : State -> string) (quote : string -> string).
Context (decode_intent : string -> option Intent).
Hypothesis Hat : forall raw l, ev_unmarshal raw = Some l -> in_int64 (ln_AtNS l).
Hypothesis Hjson : forall c ch, exists data line, marshal_child ch = Ok data /\ encode_line (dryLine c ch data) = Ok line.

(** C14: A dry run lands where the simulator lands: when [execmock] on these
    arguments prints a result for recorded evidence, it is the result the
    simulator computes for the same intent, rule, durations, evidence and disk
    with the fake gateway right behind the executor; the E1 client and its log
    in between change nothing. *)
Theorem dry_run_refines_execsim args cfg ecfg intentPath evidencePath rule temp faults r :
  runWithLive args = RunReplay cfg ecfg intentPath evidencePath rule ->
  dryRunReplay Digest quote decode_intent cfg ecfg intentPath evidencePath rule temp faults = Ok r ->
  exists i evidence, dry_reads decode_intent intentPath evidencePath i evidence /\
    RunOne Digest quote i (mkConfig true false (StepEvery ecfg) (StaleAfter ecfg)) rule evidence "" faults env_ok = Ok r.
Proof using Hat Hjson.
  intros (Hm & Hled & Hint & _)%runWithLive_replay (i & evidence & c & Hd & Hw & Hr)%(dryRunReplay_run _ _ _ _ _ Hm).
  exists i, evidence. split; [done|]. rewrite <- Hled.
  by destruct (RunWrapped_dry _ _ Hat _ Hint _ _ _ _ _ _ (wrapClient_dry _ Hjson _ Hm _ _ Hw) Hr).
Qed.

(** C38: A dry run cannot complete an intent: the executor cancels the order it
    has just filled, the fake does not know it any more, and the client of a
    dry run answers no query, so that whenever the simulator reports an intent
    filled to its target, [execmock -dry-run] fails on the same input. *)
Theorem full_fill_fails_dry_run args cfg ecfg intentPath evidencePath rule faults i evidence r :
  runWithLive args = RunReplay cfg ecfg intentPath evidencePath rule ->
  dry_reads decode_intent intentPath evidencePath i evidence ->
  RunOne Digest quote i (mkConfig true false (StepEvery ecfg) (StaleAfter ecfg)) rule evidence "" faults env_ok = Ok r ->
  0 < rs_Target r -> rs_Filled r = rs_Target r ->
  exists e, dryRunReplay Digest quote decode_intent cfg ecfg intentPath evidencePath rule true faults = Err e /\
    exit_dryRun (Err e) = exitFailure.
Proof using Hat Hjson.
  intros (Hm & Hled & Hint & _)%runWithLive_replay (data & Hd & Hp & He) Hr Ht Hf. rewrite <- Hled in Hr.
  destruct (dryRunReplay Digest quote decode_intent cfg ecfg intentPath evidencePath rule true faults) as [r'|e] eqn:E; [|by exists e].
  apply (dryRunReplay_run _ _ _ _ _ Hm) in E as (i' & evidence' & c & (data' & Hd' & Hp' & He') & Hw & Hr').
  assert (i' = i) as -> by congruence. assert (evidence' = evidence) as -> by congruence.
  destruct (RunWrapped_dry _ _ Hat _ Hint _ _ _ _ _ _ (wrapClient_dry _ Hjson _ Hm _ _ Hw) Hr') as [Hr2 Hs].
  rewrite Hr in Hr2. injection Hr2 as <-. destruct (Hs Hled); lia.
Qed.
End command.

(** ** One evidence file under both rules *)

Module Recorded.
#[local] Existing Instance int64_codec.
Definition file : fileConfig := mkFileConfig MockAccount "" false e1_url "" "" "" "" "" "" "" "".
#[local] Instance toml : StrictToml := {| toml_exec s := if s =s "toml" then Some file else None |}.
#[local] Instance process : Process := {|
  ReadFile p := if p =s "intent.json" then Some " intent" else if p =s "evidence" then Some sample_evidence
                else if p =s "c.toml" then Some "toml" else None;
  Stat _ := None;
  LookupEnv _ := None
|}.
Definition decode (s : string) : option Intent := if s =s "intent" then Some sample_buy else None.
Definition dry_cfg : E1Config := mkE1Config MockAccount false true e1_url "" 0.
Definition args (rule : string) : list string :=
  ["-config"; "c.toml"; "-intent"; "intent.json"; "-in"; "evidence"; "-dry-run"; "-rule"; rule].
Notation replayed rule := (dryRunReplay sample_digest sample_quote decode dry_cfg DefaultConfig "intent.json" "evidence" rule true []).
Notation simulated rule := (RunOne sample_digest sample_quote sample_buy (mkConfig true false (StepEvery DefaultConfig) (StaleAfter DefaultConfig))
  rule sample_evidence "" [] env_ok).

Lemma json c ch : exists data line, marshal_child ch = Ok data /\ encode_line (dryLine c ch data) = Ok line.
Proof. by eexists _, _. Qed.
Lemma plans : runWithLive (args Through) = RunReplay dry_cfg DefaultConfig "intent.json" "evidence" Through /\
  runWithLive (args Touch) = RunReplay dry_cfg DefaultConfig "intent.json" "evidence" Touch.
Proof. vm_compute. split; reflexivity. Qed.
Lemma reads : dry_reads decode "intent.json" "evidence" sample_buy sample_evidence.
Proof. exists " intent". split; [done|]. split; [vm_compute; reflexivity|done]. Qed.

(** Under [through] three of ten are filled; under [touch] all of them. *)
Lemma through_ends : match replayed Through with Ok r => (rs_Filled r, rs_Target r) | Err _ => (0, 0) end = (3, 10).
Proof. vm_compute. reflexivity. Qed.
Lemma touch_fails : match replayed Touch with Err (DrySim (ErrReplay EmitFailed)) => true | _ => false end = true.
Proof. vm_compute. reflexivity. Qed.
Lemma touch_fills : match simulated Touch with Ok r => (rs_Filled r, rs_Target r, rs_Violations r) | Err _ => (0, 0, 1%nat) end = (10, 10, 0%nat).
Proof. vm_compute. reflexivity. Qed.
End Recorded.

#[local] Existing Instance int64_codec.
#[local] Existing Instance Recorded.toml.
#[local] Existing Instance Recorded.process.
Lemma dry_run_refines_execsim_witness : exists r i evidence, Recorded.replayed Through = Ok r /\ rs_Filled r = 3 /\
  RunOne sample_digest sample_quote i (mkConfig true false (StepEvery DefaultConfig) (StaleAfter DefaultConfig)) Through evidence "" [] env_ok = Ok r.
Proof.
  pose proof (dry_run_refines_execsim sample_digest sample_quote Recorded.decode int64_codec_at Recorded.json (Recorded.args Through)
    Recorded.dry_cfg DefaultConfig "intent.json" "evidence" Through true []) as H.
  pose proof Recorded.through_ends as Hf. destruct (Recorded.replayed Through) as [r|e]; [|discriminate Hf].
  destruct (H r (proj1 Recorded.plans) eq_refl) as (i & evidence & _ & Hr). exists r, i, evidence.
  split; [reflexivity|]. split; [injection Hf as Hf _; exact Hf|exact Hr].
Defined.
Lemma full_fill_fails_dry_run_witness : exists e, Recorded.replayed Touch = Err e /\ exit_dryRun (Err e) = exitFailure.
Proof.
  pose proof Recorded.touch_fills as Hf.
  pose proof (full_fill_fails_dry_run sample_digest sample_quote Recorded.decode int64_codec_at Recorded.json (Recorded.args Touch)
    Recorded.dry_cfg DefaultConfig "intent.json" "evidence" Touch [] sample_buy sample_evidence) as H.
  destruct (RunOne _ _ sample_buy _ Touch sample_evidence _ _ _) as [r|]; [|discriminate Hf]. injection Hf as Hf Ht _.
  apply (H r (proj2 Recorded.plans) Recorded.reads eq_refl); [rewrite Ht; reflexivity|rewrite Hf, Ht; reflexivity].
Defined.
