(* ===== verification/Alert.v ===== *)
(** [src/internal/alert/alert.go], and the process of [src/cmd/fillwire/main.go]
    around [run]: its flags, its alerts and its exit code.

    [telegram_ok] decodes the answer's body and says whether it is a success.
    Contexts are left out: one that ends makes a request fail. *)

From Stdlib Require Import Ascii.
From S2P Require Import Prelude GoStr Wire UrlEnc Limits Approval E1 Config Startup Flags Ingress Prog.
Local Open Scope Z_scope.

Definition sendTimeout : Z := 3000000000.

(** [Telegram], of which the HTTP client and the logger are left out. *)
Record Telegram := mkTelegram {
  tg_token : string; tg_chat : string; tg_endpoint : string; tg_interval : Z; tg_last : gmap string Z
}.

(** Why [run] returned: it did not start, or it stopped; with its text and
    whether it is a canceled context. *)
Inductive main_error := MStart (e : start_error) | MStop (e : stop_error).
Record run_failure := mkRunFailure { rf_error : main_error; rf_text : string; rf_canceled : bool }.

(** The calls.  [RecvTransient] is the approval provider calling the hook it
    for, which is not part of the request. *)
Inductive alert_op : Set -> Type :=
| AlertNow : alert_op Z
| NewAlertRequest (url : string) : alert_op bool
| PostAlert (class : string) (rq : Request) (timeout : Z) : alert_op http_answer
| LogDisabled : alert_op unit
| LogFailed (class : string) : alert_op unit
| LogConfig : alert_op unit
| LogStopped (text : string) : alert_op unit
| RecvTransient : alert_op unit.
Notation program := (prog alert_op).

Section Telegram.
Context `{Process} (telegram_ok : body -> bool).

Definition FromEnv (interval : Z) : program Telegram :=
  let interval := if interval <=? 0 then DefaultRateLimit else interval in
  let token := Getenv "FILLWIRE_ALERT_TELEGRAM_BOT_TOKEN" in
  let chat := Getenv "FILLWIRE_ALERT_TELEGRAM_CHAT_ID" in
  if (token =s "") || (chat =s "")
  then call LogDisabled;; mret (mkTelegram token chat "" interval ∅)
  else mret (mkTelegram token chat ("https://api.telegram.org/bot" +:+ token +:+ "/sendMessage") interval ∅).

Definition SetRateLimit (interval : Z) (a : Telegram) : Telegram :=
  if interval <=? 0 then a else mkTelegram (tg_token a) (tg_chat a) (tg_endpoint a) interval (tg_last a).

Definition alertRequest (a : Telegram) (message : string) : Request :=
  mkRequest "POST" (tg_endpoint a) (set_header "Content-Type" "application/x-www-form-urlencoded" ∅)
    (Encode (<["text" := message]> {["chat_id" := tg_chat a]})).
Definition delivered (answer : http_answer) : bool :=
  match answer with
  | DoFailed _ _ => false
  | Response code b => negb ((code <? 200) || (code >=? 300)) && telegram_ok b
  end.

(** [Alert], from the unlock on. *)
Definition deliver (class message : string) (a : Telegram) : program unit :=
  made ← call (NewAlertRequest (tg_endpoint a));
  sent ← (if (made : bool) then answer ← call (PostAlert class (alertRequest a message) sendTimeout); mret (delivered answer)
          else mret false);
  if (sent : bool) then mret tt else call (LogFailed class).

(** [Alert]: the reading of the clock that is compared and the one that is
    kept are two.  The mutex is held between them. *)
Definition keep (class : string) (now : Z) (a : Telegram) : Telegram :=
  mkTelegram (tg_token a) (tg_chat a) (tg_endpoint a) (tg_interval a) (<[class := now]> (tg_last a)).
Definition Alert (class message : string) (a : Telegram) : program Telegram :=
  if tg_endpoint a =s "" then mret a
  else
    quiet ← match tg_last a !! class with
            | Some last => now ← call AlertNow; mret (time_sub now last <? tg_interval a)
            | None => mret false
            end;
    if (quiet : bool) then mret a
    else
      now ← call AlertNow;
      deliver class message (keep class now a);;
      mret (keep class now a).
End Telegram.

(** ** [main] *)

Fixpoint containsSensitiveURL (text : string) : bool :=
  match text with
  | "" => false
  | String _ rest => HasPrefix text "://" || containsSensitiveURL rest
  end.
Definition safeRuntimeError (text : string) : string :=
  if containsSensitiveURL text then "redacted startup or transport failure" else text.

(** [ProcessExitCode] for what [run] returns; [runWithDependencies] wraps
    [ErrApprovalConfig] around three of the refusals of its start. *)
Definition exitCode (e : main_error) : Z :=
  match e with
  | MStart (StartRedis | StartKIS | StartApproval _) => ExitCodeConfiguration
  | MStart _ => exitFailure
  | MStop e => ProcessExitCode e
  end.

Definition main_flags : flag_set := [("config", StringFlag)].
Definition configurationText : string := "fillwire configuration failure; operator action required".
Definition transientText : string := "fillwire transient failure; retry or restart required".
Definition refreshText : string := "fillwire approval refresh failed; retrying while cached key remains valid".

Section Main.
Context `{NetURL, Toml, Process} (telegram_ok : body -> bool).

Definition exitCodeWithAlert (code : Z) (a : Telegram) : program (Z * Telegram) :=
  a ← (if code =? ExitCodeConfiguration then Alert telegram_ok "configuration" configurationText a else mret a);
  a ← (if code =? 1 then Alert telegram_ok "transient" transientText a else mret a);
  mret (code, a).

(** [run], seen from its alerts: so many failed refreshes, then its end. *)
Fixpoint refreshAlerts (n : nat) (a : Telegram) : program Telegram :=
  match n with
  | O => mret a
  | S n => call RecvTransient;; a ← Alert telegram_ok "transient" refreshText a; refreshAlerts n a
  end.

(** [main], on its arguments, if [run] would end as [run_ends] says. *)
Definition main (args : list string) (run_ends : runtimeConfig -> nat * option run_failure) : program (Z * Telegram) :=
  match Parse main_flags args ∅ with
  | Err FlagHelp => mret (exitOK, mkTelegram "" "" "" DefaultRateLimit ∅)
  | Err _ => mret (exitUsage, mkTelegram "" "" "" DefaultRateLimit ∅)
  | Ok (m, _) =>
      a ← FromEnv DefaultRateLimit;
      match loadConfig (string_flag m "config" "fillwire.toml") with
      | Err _ => call LogConfig;; exitCodeWithAlert ExitCodeConfiguration a
      | Ok cfg =>
          a ← refreshAlerts (run_ends cfg).1 (SetRateLimit (rc_alertRateLimit cfg) a);
          match (run_ends cfg).2 with
          | Some e =>
              if rf_canceled e then mret (exitOK, a)
              else call (LogStopped (safeRuntimeError (rf_text e)));; exitCodeWithAlert (exitCode (rf_error e)) a
          | None => mret (exitOK, a)
          end
      end
  end.
End Main.

(** ** What the process tells, and how often *)

Lemma containsSensitiveURL_app x y : containsSensitiveURL (x +:+ "://" +:+ y) = true.
Proof. induction x as [|c x IH]; [done|].
  change (HasPrefix (String c (x +:+ "://" +:+ y)) "://" || containsSensitiveURL (x +:+ "://" +:+ y) = true). rewrite IH. apply orb_true_r.
Qed.
Lemma safeRuntimeError_safe text : containsSensitiveURL (safeRuntimeError text) = false.
Proof. unfold safeRuntimeError. by destruct (containsSensitiveURL text) eqn:E. Qed.

Record told := mkTold { td_now : Z; td_posts : list (string * Z) }.
Definition texts : list (string * string) :=
  [("configuration", configurationText); ("transient", transientText); ("transient", refreshText)].

Section Alerts.
Context `{NetURL, Toml, Process} (telegram_ok : body -> bool).

(** The posts the process may make, on the account of its environment. *)
Definition alert_post (class : string) (rq : Request) (timeout : Z) : Prop :=
  let token := Getenv "FILLWIRE_ALERT_TELEGRAM_BOT_TOKEN" in
  let chat := Getenv "FILLWIRE_ALERT_TELEGRAM_CHAT_ID" in
  token <> "" /\ chat <> "" /\ timeout = sendTimeout /\ rq_Method rq = "POST" /\
  rq_URL rq = "https://api.telegram.org/bot" +:+ token +:+ "/sendMessage" /\
  exists message, (class, message) ∈ texts /\ rq_Body rq = Encode (<["text" := message]> {["chat_id" := chat]}).
Definition told_allowed (R : Set) (o : alert_op R) : Prop :=
  match o with
  | PostAlert class rq timeout => alert_post class rq timeout
  | LogStopped text => containsSensitiveURL text = false
  | _ => True
  end.
Definition told_answers (g : told) (R : Set) (o : alert_op R) : R -> Prop :=
  match o in alert_op R return R -> Prop with AlertNow => fun now => td_now g <= now | _ => fun _ => True end.
Definition told_step (g : told) {R : Set} (o : alert_op R) : R -> told :=
  match o in alert_op R return R -> told with
  | AlertNow => fun now => mkTold now (td_posts g)
  | PostAlert class _ _ => fun _ => mkTold (td_now g) ((class, td_now g) :: td_posts g)
  | _ => fun _ => g
  end.
(** The clock does not go back. *)
Definition told_spec : spec alert_op told := {|
  allowed _ R o := told_allowed R o;
  answers := told_answers;
  update g e := let 'Event o r := e in told_step g o r;
  may_run_out := False
|}.

(** Of two posts of a class, the later one comes this much later. *)
Definition apart (limit : Z) (posts : list (string * Z)) : Prop :=
  forall l1 class u l2 t l3, posts = l1 ++ (class, u) :: l2 ++ (class, t) :: l3 -> t + limit <= u.

(** The alerter's account is the environment's, and it knows its posts. *)
Record alerting (limit : Z) (a : Telegram) (g : told) : Prop := {
  al_account : tg_endpoint a = "" \/
    Getenv "FILLWIRE_ALERT_TELEGRAM_BOT_TOKEN" <> "" /\ tg_chat a <> "" /\ tg_chat a = Getenv "FILLWIRE_ALERT_TELEGRAM_CHAT_ID" /\
    tg_endpoint a = "https://api.telegram.org/bot" +:+ Getenv "FILLWIRE_ALERT_TELEGRAM_BOT_TOKEN" +:+ "/sendMessage";
  al_limit : 0 < limit <= tg_interval a;
  al_posts : forall class t, (class, t) ∈ td_posts g -> exists u, tg_last a !! class = Some u /\ t <= u;
  al_last : forall class u, tg_last a !! class = Some u -> u <= td_now g;
  al_apart : apart limit (td_posts g)
}.

Lemma apart_cons limit class now posts : apart limit posts -> (forall t, (class, t) ∈ posts -> t + limit <= now) ->
  apart limit ((class, now) :: posts).
Proof.
  intros Ha Hn [|x l1] c u l2 t l3 E; cbn in E.
  - injection E as -> -> ->. apply Hn. apply elem_of_app. right. left.
  - injection E as _ ->. by eapply (Ha l1).
Qed.

(** After an alert, its class is known and its account as before. *)
Record alerted (limit : Z) (class : string) (a a' : Telegram) (g : told) : Prop := {
  ad_ok : alerting limit a' g;
  ad_endpoint : tg_endpoint a' = tg_endpoint a;
  ad_known : tg_endpoint a <> "" -> is_Some (tg_last a' !! class);
  ad_keeps : forall c, is_Some (tg_last a !! c) -> is_Some (tg_last a' !! c)
}.

Lemma alerting_later limit a g now : alerting limit a g -> td_now g <= now -> alerting limit a (mkTold now (td_posts g)).
Proof.
  intros [Hac Hl Hp Hla Hap] Hn. split; [done..| |done]. intros c u Hu. specialize (Hla _ _ Hu). cbn [td_now]. lia.
Qed.

(** The class is kept with a reading that is late enough, and posted or not. *)
Lemma alerted_keep limit class a now posts old : alerting limit a (mkTold now old) ->
  (forall u, tg_last a !! class = Some u -> u + limit <= now) -> posts = old \/ posts = (class, now) :: old ->
  alerted limit class a (keep class now a) (mkTold now posts).
Proof.
  intros [Hac Hl Hp Hla Hap] Hold Hposts. cbn [td_now td_posts] in *.
  assert (Hnow : forall t, (class, t) ∈ old -> t + limit <= now).
  { intros t (u & Hu & Ht)%Hp. specialize (Hold _ Hu). lia. }
  assert (Hin : forall c t, (c, t) ∈ posts -> (c, t) = (class, now) \/ (c, t) ∈ old).
  { intros c t Hc. destruct Hposts as [->| ->]; [by right|]. by apply elem_of_cons in Hc. }
  split; [split|done|intros _; cbn [keep tg_last]; by rewrite lookup_insert_eq|]; cbn [keep tg_last td_now td_posts]; try done.
  - intros c t [[= -> ->]|Hc]%Hin; [exists now; by rewrite lookup_insert_eq|]. destruct (decide (c = class)) as [->|Hne].
    + rewrite lookup_insert_eq. exists now. split; [done|]. specialize (Hnow _ Hc). lia.
    + rewrite lookup_insert_ne by done. by apply Hp.
  - intros c u [[_ <-]|[_ Hu]]%lookup_insert_Some; [lia|by eapply Hla].
  - destruct Hposts as [->| ->]; [done|]. by apply apart_cons.
  - intros c Hc. destruct (decide (c = class)) as [->|]; [by rewrite lookup_insert_eq|by rewrite lookup_insert_ne].
Qed.

Lemma deliver_told class message a now old (Q : told -> unit -> Prop) :
  (tg_endpoint a <> "" -> forall t, alert_post class (alertRequest a message) sendTimeout -> Q (mkTold now ((class, now) :: old)) t) ->
  Q (mkTold now old) tt -> alert_post class (alertRequest a message) sendTimeout -> tg_endpoint a <> "" ->
  wp told_spec (mkTold now old) (deliver telegram_ok class message a) Q.
Proof.
  intros Hpost Hno Hok He. unfold deliver. wp_step; [done|]. apply wp_bind. destruct r.
  - wp_step; [exact Hok|]. wp_step. destruct (delivered _ _); [by apply Hpost|]. wp_step; [done|]. by apply Hpost.
  - wp_step. cbv iota. wp_step; [done|]. by destruct r.
Qed.

Lemma Alert_told limit class message a g : (class, message) ∈ texts -> alerting limit a g ->
  wp told_spec g (Alert telegram_ok class message a) (fun g' a' => alerted limit class a a' g').
Proof.
  intros Htext Ha. unfold Alert. destruct (tg_endpoint a =s "") eqn:Ee; [bool_simpl; by split|]. bool_simpl.
  destruct (al_account _ _ _ Ha) as [|(Htok & Hchat & Ec & Eu)]; [done|]. pose proof (al_limit _ _ _ Ha) as Hl.
  eapply (wp_use _ _ _ (fun g' quiet => alerting limit a g' /\
    (quiet = false -> forall u, tg_last a !! class = Some u -> u + limit <= td_now g') /\
    (quiet = true -> is_Some (tg_last a !! class)))).
  - destruct (tg_last a !! class) as [last|] eqn:El.
    + wp_step; [done|]. rename r into now. wp_step. split; [by apply alerting_later|]. split; [|by eexists].
      intros Hq u [= <-]. bool_simpl. cbn [td_now update told_spec told_step]. unfold time_sub in Hq.
      assert (min_int64 = -9223372036854775808) by done. lia.
    + wp_step. done.
  - cbv beta. intros g' [] (Ha' & Hlate & Hknown); [by split; auto|].
    wp_step; [done|]. rename r into now. apply wp_bind. cbn [update told_spec told_step].
    assert (Hk : forall posts, posts = td_posts g' \/ posts = (class, now) :: td_posts g' ->
      alerted limit class a (keep class now a) (mkTold now posts)).
    { intros posts. apply alerted_keep; [by apply alerting_later|]. intros u Hu. specialize (Hlate eq_refl u Hu).
      match goal with H : answers _ _ _ _ |- _ => cbn in H end. lia. }
    apply deliver_told; [|wp_step; apply Hk; by left| |done].
    + intros _ t _. wp_step. apply Hk. by right.
    + unfold alert_post. cbn [keep alertRequest rq_Method rq_URL rq_Body tg_endpoint tg_chat]. rewrite <- Ec.
      split_and!; try done. by exists message.
Qed.

(** ** The process *)

Definition limit_in_force (args : list string) : Z :=
  match Parse main_flags args ∅ with
  | Ok (m, _) =>
      match loadConfig (string_flag m "config" "fillwire.toml") with
      | Ok cfg => rc_alertRateLimit cfg
      | Err _ => DefaultRateLimit
      end
  | Err _ => DefaultRateLimit
  end.
(** The posts of a trace, each with the reading of the clock it follows. *)
Definition posts_of (now : Z) (tr : list (event alert_op)) : list (string * Z) :=
  rev (td_posts (fold_left (update told_spec) tr (mkTold now []))).

(** What the process leaves behind when it exits. *)
Record exited (limit : Z) (res : Z * Telegram) (g : told) : Prop := {
  ex_code : res.1 ∈ [exitOK; exitFailure; exitUsage; exitSessionOccupied; exitConfig];
  ex_apart : apart limit (td_posts g);
  ex_config : res.1 = exitConfig -> tg_endpoint res.2 <> "" -> is_Some (tg_last res.2 !! "configuration");
  ex_failure : res.1 = exitFailure -> tg_endpoint res.2 <> "" -> is_Some (tg_last res.2 !! "transient")
}.

Lemma exitCode_known e : exitCode e ∈ [exitFailure; exitSessionOccupied; exitConfig].
Proof.
  assert (Hs : exitFailure ∈ [exitFailure; exitSessionOccupied; exitConfig]) by left.
  destruct e as [[]|e]; cbn [exitCode]; try done; unfold ExitCodeConfiguration; try (by right; right; left).
  unfold ProcessExitCode, ExitCodeCacheOnlyApprovalUnavailable, ExitCodeSessionOccupied, ExitCodeConfiguration.
  destruct (is_cache_only e); [by right; right; left|]. destruct (is_approval_config e); [by right; right; left|].
  destruct (is_session_occupied e); [by right; left|done].
Qed.

Lemma exitCodeWithAlert_told limit code a g : code ∈ [exitFailure; exitSessionOccupied; exitConfig] -> alerting limit a g ->
  wp told_spec g (exitCodeWithAlert telegram_ok code a) (fun g' res => exited limit res g').
Proof.
  intros Hcode Ha. unfold exitCodeWithAlert, ExitCodeConfiguration.
  repeat (apply elem_of_cons in Hcode as [->|Hcode]); [..|by apply elem_of_nil in Hcode]; cbn [Z.eqb Pos.eqb exitFailure exitSessionOccupied exitConfig].
  - wp_step. cbv iota. eapply wp_use; [apply Alert_told; [right; left|exact Ha]|]. intros g' a' [Hok He Hk _]. wp_step.
    split; [by right; left|apply Hok|done|]. intros _ Hne. apply Hk. by rewrite <- He.
  - wp_step. cbv iota. wp_step. split; [by do 3 right; left|apply Ha|done|done].
  - eapply wp_use; [apply Alert_told; [left|exact Ha]|]. intros g' a' [Hok He Hk _]. cbv beta iota. wp_step. wp_step.
    split; [by do 4 right; left|apply Hok| |done]. intros _ Hne. apply Hk. by rewrite <- He.
Qed.

Lemma refreshAlerts_told limit n : forall a g, alerting limit a g ->
  wp told_spec g (refreshAlerts telegram_ok n a) (fun g' a' => alerting limit a' g').
Proof.
  induction n as [|n IH]; intros a g Ha; cbn [refreshAlerts]; [exact Ha|]. wp_step; [done|]. cbn [update told_spec told_step].
  eapply wp_use; [apply Alert_told; [right; right; left|exact Ha]|]. intros g' a' Ha'. apply IH, Ha'.
Qed.

Lemma FromEnv_told now limit : 0 < limit <= DefaultRateLimit ->
  wp told_spec (mkTold now []) (FromEnv DefaultRateLimit) (fun g a => g = mkTold now [] /\ alerting limit a g /\ tg_last a = ∅).
Proof.
  intros Hl. unfold FromEnv. cbv zeta. cbn [Z.leb Z.compare DefaultRateLimit]. destruct (_ || _) eqn:Ee.
  - wp_step; [done|]. wp_step. split; [done|]. split; [|done]. split; [by left|done|by intros c t ?%elem_of_nil|done|].
    intros [] c u l2 t l3; done.
  - bool_simpl. wp_step. split; [done|]. split; [|done]. split; [right; done|done|by intros c t ?%elem_of_nil|done|].
    intros [] c u l2 t l3; done.
Qed.

(** A new limit, while nothing is posted. *)
Lemma SetRateLimit_told limit limit' now a : 0 < limit' -> alerting limit a (mkTold now []) -> alerting limit' (SetRateLimit limit' a) (mkTold now []).
Proof.
  intros Hl [Hac _ Hp Hla _]. unfold SetRateLimit. destruct (limit' <=? 0) eqn:E; bool_simpl; [lia|].
  split; [done|split; [done|apply Z.le_refl]|done|done|]. intros [] c u l2 t l3; done.
Qed.

Lemma main_told args run_ends now :
  wp told_spec (mkTold now []) (main telegram_ok args run_ends) (fun g res => exited (limit_in_force args) res g).
Proof.
  assert (Hnone : forall limit : Z, apart limit []) by (intros limit [] c u l2 t l3; done).
  unfold main, limit_in_force. destruct (Parse main_flags args ∅) as [[m rest]|e].
  2: { destruct e; (split; [vm_compute; repeat first [left | right]|apply Hnone|done|done]). }
  eapply wp_use; [apply (FromEnv_told now DefaultRateLimit); done|]. cbv beta. intros g a (-> & Ha & _).
  destruct (loadConfig _) as [cfg|e] eqn:El.
  2: { wp_step; [done|]. apply exitCodeWithAlert_told; [by right; right; left|exact Ha]. }
  apply (SetRateLimit_told _ (rc_alertRateLimit cfg)) in Ha; [|by apply loadConfig_ok in El as []].
  eapply wp_use; [apply refreshAlerts_told, Ha|]. cbv beta. clear a Ha. intros g a Ha.
  assert (Hok : exited (rc_alertRateLimit cfg) (exitOK, a) g) by (split; [left|apply Ha|done|done]).
  destruct (run_ends cfg).2 as [e|]; [|exact Hok]. destruct (rf_canceled e); [exact Hok|].
  wp_step; [apply safeRuntimeError_safe|]. apply exitCodeWithAlert_told; [apply exitCode_known|exact Ha].
Qed.

End Alerts.

(** ** A process that fails twice to refresh, and stops *)

Module Alarm.
#[local] Existing Instance Startup.Sample.net.
#[local] Existing Instance Startup.Sample.toml.
#[local] Existing Instance Startup.Sample.process.
Definition minute : Z := 60000000000.
(** A minute passes between two readings; Telegram answers with a failure. *)
Definition world (now : Z) (R : Set) (o : alert_op R) : Z * R :=
  match o in alert_op R return Z * R with
  | AlertNow => (now + minute, now + minute)
  | NewAlertRequest _ => (now, true)
  | PostAlert _ _ _ => (now, Response 500 (mkBody "" None))
  | LogDisabled | LogFailed _ | LogConfig | LogStopped _ | RecvTransient => (now, tt)
  end.
Definition ends (cfg : runtimeConfig) : nat * option run_failure :=
  (12%nat, Some (mkRunFailure (MStop SEventsClosed) "dial wss://host: refused" false)).
Notation process_run := (Prog.run world 0 (main (fun _ => true) ["-config"; "fillwire.toml"] ends)).

Lemma posts : posts_of 0 (process_run).1.2 = [("transient", minute); ("transient", 12 * minute)].
Proof. vm_compute. reflexivity. Qed.
Lemma code : (fst <$> (process_run).2) = Some exitFailure.
Proof. vm_compute. reflexivity. Qed.
Lemma limit : limit_in_force ["-config"; "fillwire.toml"] = 10 * minute.
Proof. vm_compute. reflexivity. Qed.
Lemma alarm_lawful {A} (p : program A) : forall now g, td_now g <= now -> expected told_spec g (Prog.run world now p).1.2.
Proof.
  induction p as [a|R o k IH|]; intros now g Hg; cbn [Prog.run]; [done| |done].
  destruct (world now R o) as [now' r] eqn:Ew. specialize (IH r now').
  destruct (Prog.run world now' (k r)) as [[s tr] x]. cbn [fst snd expected] in *.
  assert (Ha : answers told_spec g o r /\ td_now (update told_spec g (Event o r)) <= now').
  { destruct o; cbn in Ew; injection Ew as <- <-; cbn; unfold minute; split; done || lia. }
  split; [apply Ha|]. by apply IH, Ha.
Qed.
End Alarm.

